(* ===== verification/_CoqProject ===== *)
-Q . S2P
Prelude.v
GoStrings.v
GoErrors.v
Regex.v
Backoff.v
Logger.v
Sentry.v
Tracing.v
AmqpRetry.v
AmqpConsumer.v
ConsumerShutdown.v
AmqpBroker.v
MemoryBroker.v
AmqpPublisher.v
Errors.v
GrpcServer.v
MetricsRegistry.v
Database.v
Jwt.v
Keygen.v
Cache.v
Tx.v
OutboxStore.v
OutboxWorker.v
OutboxSystem.v
OutboxRounds.v
OutboxServices.v
Repository.v
OutboxAmqp.v
Pipeline.v
Health.v
HttpServer.v
Config.v
Bootstrap.v
Identity.v
RestGateway.v
Mains.v
MainsProofs.v
CommitCheck.v
ApiCheck.v
TestContainers.v
