(* ===== verification/Prelude.v ===== *)
(** * Verification of the Dizen backend

    The backend is five Go services (identity, tours, booking, admin,
    mail-dispatcher) over a shared set of packages under src/pkg.  A request
    enters through pkg/grpcserver, whose interceptors recover panics, log, count,
    check the client's version, authenticate, validate and translate errors; a
    service changes its tables in a transaction (pkg/database) and records what
    happened in the outbox table of the same database; a worker (pkg/outbox) reads
    the table and publishes each event to RabbitMQ (pkg/amqp); consumers on the
    other side retry and dead-letter; tokens are issued and verified by pkg/jwt,
    read models are cached by pkg/cache, errors are reported through
    pkg/observability/sentry, pkg/httpserver serves the probes and the REST gateway,
    and the main of each service reads its configuration (pkg/config), opens what it
    needs and lets pkg/bootstrap start and stop it all while pkg/health reports on it.

    ** How the code is modelled

    Every definition follows one function or type of the source and keeps its
    name where it can; a qualified name such as [Consumer_Close] or
    [OutboxStore_Insert] is the method of that type.  Durations and times are
    [Z] counts of nanoseconds, [int32] and [int64] arithmetic wraps explicitly,
    strings are strings of bytes.  A [(value, error)] result is [res], an error
    result is [option goerror], and [goerror] (GoErrors) has the error values the
    code builds with the chain that [errors.Is] and [errors.As] walk.  A call that
    may panic has an [outcome].  Libraries outside src are parameters, as type
    classes with their documented behaviour as laws (the AMQP channel and broker, Docker, PostgreSQL's
    value conversions, gRPC statuses, protovalidate, zerolog's field rendering,
    golang-jwt, the X.509 and PEM parsers, the Redis client, OpenTelemetry, the
    gateway); each class with laws has a concrete instance, used by the witnesses.
    What a process meets outside, as a whole, is the class [Host] of Mains.

    ** The files

    - Prelude: automation, machine integers, lemmas on lists, sums over finite maps.
    - GoStrings, GoErrors: the parts of strings, strconv, time, errors and fmt the
      code uses; error values; gRPC status codes.  The error values include
      the type of pkg/errors/errors.go, because its [Is] method takes part in
      every comparison.
    - Regex: regular expressions as Go's regexp reads them, leftmost first:
      [MatchString] and [ReplaceAllString] are executable, and are related to the
      language of an expression ([lang], [occurs]); so is [FindStringSubmatch] for
      expressions with groups.
    - Backoff: the capped doubling of pkg/amqp, pkg/outbox and pkg/database.
    - Logger: pkg/logger; a log line is an entry of a list.
    - Sentry: pkg/observability/sentry: setting up, and the scrubbing of events.
    - Tracing: pkg/observability/tracing and pkg/version.
    - AmqpRetry: config.go, retry.go, outcome.go of pkg/amqp, and the names of its
      queues: the attempt counter, the backoff, the headers, [decide].
    - AmqpConsumer: topology.go and consumer.go.  A channel operation is recorded in
      a trace ([chst]) and answered by the parameter [Channel] as any function of
      the trace; [handle] is the whole treatment of a delivery, [consume_loop] the
      loop of [Consume], [lifecycle] the journey of one message through the queue,
      the retry queue and back.
    - ConsumerShutdown: the goroutines of consumer.go that take part in a shutdown
      ([Consume] with [stop] and [cancel], the drain, [Close], [keepDrained]) with the
      mutex, the library that hands frames over in order and the broker, as a labelled
      transition system: a run is any schedule.  The three precautions of the code are
      parameters ([variant]), so that the code without one can be run too.
    - AmqpBroker: the consumers of a queue together with the broker: deliveries, the
      frames [handle] leaves on the wire, channels lost at any frame, redelivery,
      expiry.  RabbitMQ is the class [Broker] with its documented behaviour as
      [BrokerSpec]; MemoryBroker is an executable broker that keeps it.
    - AmqpPublisher: connection.go and publisher.go; [step] is the transition of the
      publisher on a call, a confirmation, a deadline or the loss of the
      connection, and a run is any list of events.
    - Errors: pkg/errors: domain errors, [ToStatus], [ReasonOf].
    - GrpcServer: pkg/grpcserver with its interceptors, and
      pkg/observability/metrics: each interceptor is a function of the rest of the
      chain, [buildUnaryChain] is chain.go, and the server's life cycle is there.
    - MetricsRegistry: the registry of pkg/observability/metrics: its collectors and
      their registration, over the documented rules of the Prometheus client.
    - Database, Tx: pkg/database: the connection loop, the statistics of the pool, the
      migrations, [WithTx].
    - Jwt: pkg/jwt: the key set, loading it, [Issue], [Verify].
    - Keygen: generating, encoding and serving keys in pkg/jwt, and the command that
      prints a pair (pkg/jwt/cmd/keygen).
    - Cache: pkg/cache: keys and the Redis cache.
    - OutboxStore: the outbox table, the six statements of outbox.sql with their
      sqlc wrappers, the repository and the adapter of services/identity (the other
      services have the same files).  Any statement may fail before or after it
      took effect.
    - OutboxWorker: pkg/outbox: the contracts as the classes [Store], [Inserter] and
      [Publisher], recording, and the worker as a program [prog] over its calls.
    - OutboxSystem: any number of workers, recording transactions, prunings, crashes
      and faults, interleaved call by call, as a step relation, proved against the
      promises [StoreSpec] and [PublisherSpec]; OutboxStore discharges the first.
    - OutboxRounds: the worker run alone on the table.
    - OutboxServices: the queries, the repository and the adapter of each of the five
      services, as records of operations that keep [StoreSpec].
    - OutboxAmqp: the state machine of AmqpPublisher behind the contract [Publisher]:
      one call with what happens before and during it.  It keeps [PublisherSpec] twice:
      whatever happens, with "taken" meaning acknowledged or reported published after an
      earlier call on the same publisher gave up; and, where no call gives up, with
      "taken" meaning acknowledged.
    - Repository: repository.go and the sqlc handles of the five services: the handle a
      statement is issued through is explicit, and the private copy of Tx is proved to be
      what a caller sees that keeps to the handle it was given.
    - Pipeline: the outbox, the publishers, the broker and the consumers as one system,
      joined by what RabbitMQ promises of publisher confirms.
    - Health: pkg/health and the self probe of pkg/bootstrap.
    - HttpServer: pkg/httpserver: the routes, the life cycle, the gateway's headers.
    - Config: pkg/config: the sources, the errors and the shared part.
    - Bootstrap: [Runner] of pkg/bootstrap, over the interleaving of signals and
      returns, and the components of the identity service.
    - Identity: [Repository.WithTx], the event recorder and the reference RPC.
    - RestGateway: the code generated for the reference RPC (genproto, health.pb.gw.go and
      health_grpc.pb.go), joined with the routes and headers of HttpServer, the chain of
      GrpcServer and the service of Identity: the way of a REST request.
    - Mains: main, run, serve and the builders of the five services' main.go, in a
      small monad over the operations done, with every component above called as the
      code calls it.  The functions the five files share are written once; the
      services' own are [identity_serve], [tours_serve] and so on.
    - MainsProofs: a small logic of what such code adds to the trace ([grows]), and
      the theorems on the life of a service.
    - CommitCheck, ApiCheck: tools/commitcheck and tools/apicheck.
    - TestContainers: pkg/testutils: the containers of the integration tests, with the end
      of a test ([t.Fatalf], [t.Skipf], a panic) and its cleanups.

    ** What the theorems show

    - End to end: an event stored in the outbox is, in every reachable state of database,
      workers, publishers, broker and consumers, pending in the table, at the broker (in
      the queue, its retry or dead-letter queue, or delivered and not settled), handled
      with a nil result, or reported published by a publisher on which an earlier
      publication had given up at its deadline; no message is lost between the broker and the consumers, equal
      messages counted apart (Pipeline, AmqpBroker).
    - Shutdown of a consumer: every schedule ends within a bound and leaves [Close] and
      [Consume] returned, unless the timer of the drain fired and left a delivery nobody
      reads in front of the broker's reply; [Close] does not wait for a handler; the
      deadlocks of the code without one of its precautions are run as examples
      (ConsumerShutdown).
    - Delivery of events: in every reachable state of the workers over the AMQP
      publisher, a row marked published was acknowledged by the broker itself, or
      reported published after an earlier publication on that publisher had given up
      (the second never where no publication does), and a recorded event is pending or
      so taken; the worker drains the backlog in order, exactly once when
      nothing fails, reschedules what fails, and returns when canceled; a claim
      returns the oldest due rows; a change and its event land together (OutboxSystem, OutboxRounds, OutboxStore, OutboxAmqp,
      Identity, Repository, Tx).
    - Consumption: each delivery is settled exactly once, a transient failure is
      retried until it succeeds, a permanent one is dead-lettered after exactly the
      configured attempts, to queues that were declared; a confirmed publication is
      one the broker acknowledged (AmqpRetry, AmqpConsumer, AmqpPublisher).
    - What a client learns: unexpected errors and the causes of declared ones never
      reach it, reasons survive the translation, no panic escapes the chain, and
      obsolete or unauthenticated callers are turned away first, over REST as over gRPC
      (Errors, GrpcServer, RestGateway).
    - Tokens, cache, life cycle: accepted tokens are trustworthy, issued ones are
      accepted, rotation signs nobody out; invalidation removes exactly an entity's
      versions; a service drains completely, connects with backoff, migrates safely
      and reports readiness from its critical dependencies; a printed key pair loads
      in either form (Jwt, Keygen, Cache, Bootstrap, Database, Health).
    - A service as a whole: it fails while opening or is assembled with its probes
      served, and told to stop it closes everything in reverse order; migrations
      precede any pool; it panics only for a name that is not UTF-8; the error a service
      stops with is reported where its log level admits errors, and what is reported is
      free of secrets; a configuration that breaks rules is refused with the names of
      the environment variables, one that does not parse with the parser's text (Mains,
      MainsProofs, HttpServer, Config, Sentry, Tracing).
    - The tests clean up: however a test ends, the termination of what its helpers started
      is asked for, in the reverse order and under a live context (TestContainers).
    - The checks of the repository: the commit check exits with 0 exactly when every
      message it reads follows the convention, and a collection that passes holds no
      credential (CommitCheck, ApiCheck, Regex).
    - Defects: the theorems named [attempt_counter_wraps],
      [late_confirm_taken_by_next_publish], [retry_forgets_routing_key],
      [two_workers_publish_twice], [panic_leaks_in_flight],
      [wrapped_status_text_reaches_client], [prefix_is_a_pattern],
      [late_error_unreported], [dependencies_close_under_worker],
      [LoadKeySet_ignores_unreadable_public_keys], [nonascii_subject_refused],
      [leading_blank_line_misjudged], [deadline_marks_unacked_row],
      [migration_failure_unreported], [cold_cache_stops_startup],
      [healthcheck_needs_configuration], [password_without_user_reported],
      [token_not_recognised], [unroutable_publication_succeeds],
      [unlisted_header_forwarded], [drain_timeout_does_not_bound],
      [nested_transaction_outlives_outer] and [failed_start_leaves_container] state behaviour that contradicts a comment or
      the intent of the code.

    ** Fuel and bounds

    Loops without a structural measure take fuel, and [None] means that it ran
    out.  [addPublicKeys] uses one more than the length of the data, since every
    PEM block shortens it, and [LoadKeySet_usable] proves that it is enough;
    [DeleteByPrefix] takes fuel as an argument, and [invalidate_entity] proves that from
    some number of rounds on, which depends on the data, the result is the same: Redis
    guarantees that an iteration ends while the number of keys stays bounded; the loop of the worker's [Run] is
    infinite by design, so its theorems say how many rounds do the work or return;
    [lifecycle] is given one round per attempt, and its theorems reach the end of
    the journey within the attempts.  A run of ConsumerShutdown is a list of labels of any
    length, and [shutdown_completes] bounds it by [3 n + 25] for [n] deliveries.
    Waiting for events ([Run] of Bootstrap) consumes a list of events, and its theorem
    says which lists suffice.  A match of a regular expression bounds the rounds of a star by the length of the rest of the
    text, each round that does not stop consuming a byte; that this finds every match
    is [ends_spec].

    ** What is not modelled

    Goroutine scheduling below the granularity of calls, memory, and the network
    except through the answers of the libraries; the text libraries render for
    their own errors; generated messages (the pb.go files of genproto) and mocks.  A call on the outside answers or fails in the models; that it may hang
    is modelled where the code bounds it with a deadline, and in ConsumerShutdown.  What the components do while
    a service runs is in their own files: Mains sees the order in which they return.
    Parsing variables into a struct and checking its tags, YAML, JSON of other values
    than strings and marshalling are the libraries'.  Other writers of the cache during
    an invalidation are not modelled.  A message in AmqpBroker is known
    by its body, which is what the consumer keeps when it republishes (the theorem counts
    how often a body is there); the restart of the
    broker itself, with what it had not written to disk, and the limits of queues are not
    modelled, nor are queues that are deleted, nor readers of the retry and dead-letter
    queues other than the broker.  The consumers' publications to the retry
    and dead-letter queues wait for no confirmation in the code, so the theorems take a
    frame the broker has read as carried out. *)

From stdpp Require Import base list gmap strings sorting numbers.
From Stdlib Require Import ZArith Lia.

(** ** Automation *)

Create HintDb go discriminated.
#[export] Hint Constants Opaque : go.
Create Rewrite HintDb gorw.

(** Turn the boolean comparisons that a Go condition becomes into the
    propositions [lia] works with. *)
Ltac zbool :=
  repeat match goal with
  | H : (_ <=? _)%Z = true |- _ => apply Z.leb_le in H
  | H : (_ <=? _)%Z = false |- _ => apply Z.leb_gt in H
  | H : (_ <? _)%Z = true |- _ => apply Z.ltb_lt in H
  | H : (_ <? _)%Z = false |- _ => apply Z.ltb_ge in H
  | H : (_ =? _)%Z = true |- _ => apply Z.eqb_eq in H
  | H : (_ =? _)%Z = false |- _ => apply Z.eqb_neq in H
  | H : (_ <=? _)%nat = true |- _ => apply Nat.leb_le in H
  | H : (_ <=? _)%nat = false |- _ => apply Nat.leb_gt in H
  | H : (_ =? _)%nat = true |- _ => apply Nat.eqb_eq in H
  | H : (_ =? _)%nat = false |- _ => apply Nat.eqb_neq in H
  | H : (_ =? _)%string = true |- _ => apply String.eqb_eq in H
  | H : (_ =? _)%string = false |- _ => apply String.eqb_neq in H
  | H : (_ && _)%bool = true |- _ => apply andb_true_iff in H as [? ?]
  | H : (_ || _)%bool = false |- _ => apply orb_false_iff in H as [? ?]
  | H : negb _ = true |- _ => apply negb_true_iff in H
  | H : negb _ = false |- _ => apply negb_false_iff in H
  end.

(** Split on every match of the goal and close what is arithmetic or
    contradictory: the shape of most per-branch specifications. *)
Ltac branches :=
  repeat case_match; simplify_eq/=; zbool; try done; try lia.

(** ** Machine integers

    A w-bit two's complement integer is kept as the [Z] it denotes; every
    operation that can overflow goes through [wrap]. *)

Section Integers.
Local Open Scope Z_scope.

(** [wrap h z]: [z] reduced to the signed range [-h .. h-1]; [h] is 2^31 or 2^63. *)
Definition wrap (h z : Z) : Z := (z + h) mod (2 * h) - h.

Definition int32 (z : Z) : Z := wrap 2147483648 z.
Definition int64 (z : Z) : Z := wrap 9223372036854775808 z.

Definition MaxInt32 : Z := 2147483647.
Definition MinInt32 : Z := -2147483648.
Definition MaxInt64 : Z := 9223372036854775807.
Definition MinInt64 : Z := -9223372036854775808.

Definition in_int32 (z : Z) : Prop := MinInt32 <= z <= MaxInt32.
Definition in_int64 (z : Z) : Prop := MinInt64 <= z <= MaxInt64.

Lemma wrap_id h z : -h <= z < h -> wrap h z = z.
Proof. intros ?. unfold wrap. rewrite Z.mod_small; lia. Qed.

Lemma wrap_range h z : 0 < h -> -h <= wrap h z < h.
Proof.
  intros ?. unfold wrap. pose proof (Z.mod_pos_bound (z + h) (2 * h) ltac:(lia)). lia.
Qed.

Lemma int32_id z : in_int32 z -> int32 z = z.
Proof. unfold in_int32, MinInt32, MaxInt32. intros ?. apply wrap_id. lia. Qed.

Lemma int64_id z : in_int64 z -> int64 z = z.
Proof. unfold in_int64, MinInt64, MaxInt64. intros ?. apply wrap_id. lia. Qed.

Lemma int32_range z : in_int32 (int32 z).
Proof.
  unfold in_int32, MinInt32, MaxInt32, int32.
  pose proof (wrap_range 2147483648 z ltac:(lia)). lia.
Qed.

Lemma int64_range z : in_int64 (int64 z).
Proof.
  unfold in_int64, MinInt64, MaxInt64, int64.
  pose proof (wrap_range 9223372036854775808 z ltac:(lia)). lia.
Qed.

Lemma int32_idemp z : int32 (int32 z) = int32 z.
Proof. apply int32_id, int32_range. Qed.
End Integers.

#[export] Hint Resolve int32_range int64_range : go.

(** Durations are [int64] counts of nanoseconds, as [time.Duration] is. *)
Definition Nanosecond : Z := 1.
Definition Microsecond : Z := 1000.
Definition Millisecond : Z := 1000000.
Definition Second : Z := 1000000000.
Definition Minute : Z := 60000000000.

(** ** Lists *)

Section Lists.
Context {A B : Type}.

(** A [for range] loop that threads a state and may leave early. *)
Fixpoint fold_until {S} (f : S -> A -> S + B) (s : S) (l : list A) : S + B :=
  match l with
  | [] => inl s
  | x :: l' => match f s x with
               | inl s' => fold_until f s' l'
               | inr b => inr b
               end
  end.

Lemma Forall_existsb_false (f : A -> bool) l :
  existsb f l = false <-> Forall (fun x => f x = false) l.
Proof.
  induction l as [|x l IH]; simpl; [done|].
  rewrite orb_false_iff, Forall_cons_iff, IH. done.
Qed.

Lemma existsb_Exists (f : A -> bool) l :
  existsb f l = true <-> Exists (fun x => f x = true) l.
Proof.
  induction l as [|x l IH]; simpl; [by rewrite Exists_nil|].
  by rewrite orb_true_iff, Exists_cons, IH.
Qed.

Lemma list_filter_all (P : A -> Prop) `{forall x, Decision (P x)} (l : list A) :
  (forall x, x ∈ l -> P x) -> filter P l = l.
Proof.
  induction l as [|x l IH]; intros HP; [done|].
  rewrite filter_cons_True by (apply HP; left). f_equal. apply IH. intros. apply HP. by right.
Qed.

Lemma list_filter_none (P : A -> Prop) `{forall x, Decision (P x)} (l : list A) :
  (forall x, x ∈ l -> ~ P x) -> filter P l = [].
Proof.
  induction l as [|x l IH]; intros HP; [done|].
  rewrite filter_cons_False by (apply HP; left). apply IH. intros. apply HP. by right.
Qed.

Lemma list_filter_iff_in (P Q : A -> Prop) `{forall x, Decision (P x), forall x, Decision (Q x)}
    (l : list A) :
  (forall x, x ∈ l -> P x <-> Q x) -> filter P l = filter Q l.
Proof.
  induction l as [|x l IH]; intros HPQ; [done|]. rewrite !filter_cons.
  rewrite IH by (intros y Hy; apply HPQ; by right).
  specialize (HPQ x ltac:(left)). by destruct (decide (P x)), (decide (Q x)); try tauto.
Qed.
End Lists.

(** ** Counting

    Sums over a finite map, and the number of elements of a list with a property. *)

Section Counting.
Context `{Countable K} {V : Type}.
Implicit Types (f g : K * V -> nat) (u : gmap K V).

Definition msum f u : nat := sum_list_with f (map_to_list u).

Lemma sum_list_with_perm f l l' : l ≡ₚ l' -> sum_list_with f l = sum_list_with f l'.
Proof. induction 1; cbn; lia. Qed.

Lemma msum_insert f u k x : u !! k = None -> msum f (<[k := x]> u) = f (k, x) + msum f u.
Proof.
  intros Hk. unfold msum. by rewrite (sum_list_with_perm _ _ _ (map_to_list_insert u k x Hk)).
Qed.

Lemma msum_delete f u k x : u !! k = Some x -> msum f u = f (k, x) + msum f (delete k u).
Proof.
  intros Hk. rewrite <- (insert_id u k x Hk) at 1. rewrite <- insert_delete_eq.
  apply msum_insert, lookup_delete_eq.
Qed.

Lemma msum_mono f g u : (forall k x, u !! k = Some x -> f (k, x) <= g (k, x)) -> msum f u <= msum g u.
Proof.
  intros Hfg. unfold msum.
  assert (Hl : forall y, y ∈ map_to_list u -> f y <= g y).
  { intros [k x] Hin%elem_of_map_to_list. auto. }
  induction (map_to_list u) as [|y l IH]; cbn; [lia|].
  pose proof (Hl y ltac:(left)). specialize (IH ltac:(intros; apply Hl; by right)). lia.
Qed.

Lemma msum_filter f u (P : K * V -> Prop) `{!forall x, Decision (P x)} :
  msum f (filter P u) = msum (fun x => if decide (P x) then f x else 0) u.
Proof.
  induction u as [|k x u Hk IH] using map_ind; [done|].
  rewrite (msum_insert _ _ _ _ Hk), map_filter_insert. case_decide.
  - rewrite <- IH. apply msum_insert. by apply map_lookup_filter_None_2; left.
  - by rewrite delete_id, IH by done.
Qed.

Lemma msum_plus f g u : msum (fun x => f x + g x) u = msum f u + msum g u.
Proof.
  unfold msum. induction (map_to_list u) as [|x l IH]; [done|]. cbn. lia.
Qed.

(** Monotone but for one key, which may lose one. *)
Lemma msum_mono_but f g u k0 :
  (forall k x, u !! k = Some x -> k <> k0 -> f (k, x) <= g (k, x)) ->
  (forall x, u !! k0 = Some x -> f (k0, x) <= S (g (k0, x))) -> msum f u <= S (msum g u).
Proof.
  intros Hfg H0. destruct (u !! k0) as [x0|] eqn:E.
  - rewrite !(msum_delete _ _ _ _ E). specialize (H0 x0 eq_refl).
    enough (msum f (delete k0 u) <= msum g (delete k0 u)) by lia.
    apply msum_mono. intros k x [? ?]%lookup_delete_Some. auto.
  - enough (msum f u <= msum g u) by lia. apply msum_mono. intros k x Hk. apply Hfg; [done|].
    congruence.
Qed.

Lemma msum_pos f u : 1 <= msum f u -> exists k x, u !! k = Some x /\ 1 <= f (k, x).
Proof.
  induction u as [|k x u Hk IH] using map_ind;
    [unfold msum; rewrite map_to_list_empty; cbn; lia|]. rewrite (msum_insert _ _ _ _ Hk).
  destruct (f (k, x)) as [|n] eqn:E; intros Hp.
  - destruct (IH Hp) as (k' & x' & Hk' & ?). exists k', x'. split; [|done].
    rewrite lookup_insert_ne; [done|congruence].
  - exists k, x. rewrite lookup_insert_eq. split; [done|lia].
Qed.
End Counting.

Section Copies.
Context {A : Type} (P : A -> Prop) `{!forall x, Decision (P x)}.

Definition copies (l : list A) : nat := length (filter P l).

Lemma copies_nil : copies [] = 0.
Proof. done. Qed.

Lemma copies_cons x l : copies (x :: l) = (if decide (P x) then 1 else 0) + copies l.
Proof. unfold copies. rewrite filter_cons. by case_decide. Qed.

Lemma copies_app l1 l2 : copies (l1 ++ l2) = copies l1 + copies l2.
Proof. unfold copies. by rewrite list.filter_app, length_app. Qed.

Lemma copies_submseteq l1 l2 : l1 ⊆+ l2 -> copies l1 <= copies l2.
Proof. induction 1; rewrite ?copies_cons; try case_decide; try case_decide; lia. Qed.

Lemma copies_elem x l : x ∈ l -> P x -> 1 <= copies l.
Proof.
  intros Hx HP. assert (Hf : x ∈ filter P l) by (by apply list_elem_of_filter).
  unfold copies. destruct (filter P l); [by apply not_elem_of_nil in Hf|]. cbn. lia.
Qed.

Lemma copies_pos l : 1 <= copies l -> exists x, x ∈ l /\ P x.
Proof.
  unfold copies. destruct (filter P l) as [|x l'] eqn:E; cbn; [lia|]. intros _. exists x.
  assert (Hx : x ∈ filter P l) by (rewrite E; left). by apply list_elem_of_filter in Hx as [? ?].
Qed.
End Copies.

Lemma copies_fmap_filter {A B} (P : B -> Prop) (Q : A -> Prop) (g : A -> B)
    `{!forall x, Decision (P x), !forall x, Decision (Q x)} (l : list A) :
  copies P (g <$> filter Q l)
  = sum_list_with (fun x => if decide (Q x) then if decide (P (g x)) then 1 else 0 else 0) l.
Proof.
  induction l as [|x l IH]; [done|]. rewrite filter_cons. cbn. case_decide; [|done].
  rewrite fmap_cons, copies_cons, IH. done.
Qed.
