(* ===== verification/GoStrings.v ===== *)
(** * Go strings

    A Go [string] or [[]byte] is a sequence of bytes: Stdlib's [string], whose
    characters are bytes.  This file models the part of packages [strings],
    [bytes] and [strconv] the backend calls, byte for byte. *)

From stdpp Require Import base list strings pretty numbers.
From Stdlib Require Import ZArith Lia Ascii String.
From S2P Require Import Prelude.

Local Open Scope string_scope.

#[global] Arguments String.append : simpl nomatch.

(** ** Package strings *)

(** [strings.HasPrefix], [strings.HasSuffix] and [strings.CutPrefix]. *)
Fixpoint CutPrefix (s p : string) {struct p} : option string :=
  match p, s with
  | "", _ => Some s
  | String a p', String b s' => if Ascii.eqb a b then CutPrefix s' p' else None
  | String _ _, "" => None
  end.

Definition HasPrefix (s p : string) : bool :=
  match CutPrefix s p with Some _ => true | None => false end.

Fixpoint HasSuffix (s p : string) : bool :=
  String.eqb s p || match s with "" => false | String _ s' => HasSuffix s' p end.

(** [strings.Join(parts, sep)]. *)
Definition Join (parts : list string) (sep : string) : string := String.concat sep parts.

(** [strings.ReplaceAll(s, old, new)] for a non-empty [old]: scan from the
    left, never rescanning what was replaced. *)
Fixpoint replace_go (old new s : string) (skip : nat) : string :=
  match s with
  | "" => ""
  | String c s' =>
      match skip with
      | S k => replace_go old new s' k
      | O => if HasPrefix s old
             then new ++ replace_go old new s' (String.length old - 1)
             else String c (replace_go old new s' 0)
      end
  end.
Definition ReplaceAll (s old new : string) : string := replace_go old new s 0.

(** [strings.Split(s, sep)] and [strings.Cut(s, sep)] for a one-byte [sep]. *)
Fixpoint Split1 (s : string) (sep : ascii) : list string :=
  match s with
  | "" => [""]
  | String c s' =>
      let rest := Split1 s' sep in
      if Ascii.eqb c sep then "" :: rest
      else match rest with
           | [] => [String c ""]
           | r :: rs => String c r :: rs
           end
  end.

Fixpoint Cut1 (s : string) (sep : ascii) : string * string * bool :=
  match s with
  | "" => ("", "", false)
  | String c s' =>
      if Ascii.eqb c sep then ("", s', true)
      else let '(b, a, found) := Cut1 s' sep in (String c b, a, found)
  end.

(** The bytes of a string. *)
Definition byte (n : N) : ascii := ascii_of_N n.
Definition bytes (l : list N) : string := fold_right (fun n s => String (byte n) s) "" l.
Definition newline : string := bytes [10%N].
Definition backslash_n : string := bytes [92%N; 110%N].

(** The UTF-8 encodings of the code points [unicode.IsSpace] accepts. *)
Definition spaces : list string :=
  (bytes <$> [[9]; [10]; [11]; [12]; [13]; [32]; [194; 133]; [194; 160];
             [225; 154; 128];
             [226; 128; 128]; [226; 128; 129]; [226; 128; 130]; [226; 128; 131];
             [226; 128; 132]; [226; 128; 133]; [226; 128; 134]; [226; 128; 135];
             [226; 128; 136]; [226; 128; 137]; [226; 128; 138];
             [226; 128; 168]; [226; 128; 169]; [226; 128; 175];
             [226; 129; 159]; [227; 128; 128]])%N.

Fixpoint first_cut (ps : list string) (s : string) : option string :=
  match ps with
  | [] => None
  | p :: ps' => match CutPrefix s p with Some r => Some r | None => first_cut ps' s end
  end.

(** Left trimming; [n] bounds the number of spaces dropped. *)
Fixpoint trim_left_fuel (ps : list string) (n : nat) (s : string) : string :=
  match n with
  | O => s
  | S n' => match first_cut ps s with
            | Some r => trim_left_fuel ps n' r
            | None => s
            end
  end.

Fixpoint rev_string (s : string) : string :=
  match s with "" => "" | String c s' => rev_string s' ++ String c "" end.

(** [strings.TrimSpace] (and [bytes.TrimSpace]): every encoding of a space is
    dropped at the left, then at the right. *)
Definition TrimLeft (s : string) : string := trim_left_fuel spaces (String.length s) s.
Definition TrimRight (s : string) : string :=
  rev_string (trim_left_fuel (rev_string <$> spaces) (String.length s) (rev_string s)).
Definition TrimSpace (s : string) : string := TrimRight (TrimLeft s).

(** [strings.ToLower] on a byte below 128. *)
Definition lower_ascii (c : ascii) : ascii :=
  let n := N_of_ascii c in
  if ((65 <=? n) && (n <=? 90))%N then ascii_of_N (n + 32) else c.

(** [strings.ToLower]: bytewise on an ASCII string; the mapping of other
    letters is the Unicode table of the standard library, a parameter. *)
Class Unicode := { lower_nonascii : string -> string }.

Fixpoint is_ascii (s : string) : bool :=
  match s with "" => true | String c s' => (N_of_ascii c <? 128)%N && is_ascii s' end.

Fixpoint map_string (f : ascii -> ascii) (s : string) : string :=
  match s with "" => "" | String c s' => String (f c) (map_string f s') end.

Definition ToLower `{Unicode} (s : string) : string :=
  if is_ascii s then map_string lower_ascii s else lower_nonascii s.

(** ** Package strconv *)

(** The rendering of [%q] ([strconv.Quote]) of one byte.  Bytes above 127 are
    copied, as they are when they belong to a printable rune. *)
Definition hexdigit (n : N) : ascii := byte (if (n <? 10)%N then 48 + n else 87 + n)%N.
Definition quote_byte (c : ascii) : string :=
  let n := N_of_ascii c in
  let esc b := bytes [92%N; b] in
  if (n =? 34)%N then esc 34%N else if (n =? 92)%N then esc 92%N
  else if (n =? 7)%N then esc 97%N else if (n =? 8)%N then esc 98%N
  else if (n =? 12)%N then esc 102%N else if (n =? 10)%N then esc 110%N
  else if (n =? 13)%N then esc 114%N else if (n =? 9)%N then esc 116%N
  else if (n =? 11)%N then esc 118%N
  else if ((n <? 32) || (n =? 127))%N
       then bytes [92%N; 120%N] ++ String (hexdigit (n / 16)) (String (hexdigit (n mod 16)) "")
  else String c "".
Fixpoint quote_bytes (s : string) : string :=
  match s with "" => "" | String c s' => quote_byte c ++ quote_bytes s' end.
Definition quote_mark : string := bytes [34%N].
Definition Quote (s : string) : string := quote_mark ++ quote_bytes s ++ quote_mark.

Definition Itoa (z : Z) : string := pretty z.

(** [time.Duration.String]. *)

(** The [n] lowest decimal digits of [v], without trailing zeros. *)
Fixpoint frac_digits (n : nat) (v : Z) (acc : string) : string :=
  match n with
  | O => acc
  | S n' => let digit := (v mod 10)%Z in
            frac_digits n' (v / 10)%Z
              (if (digit =? 0)%Z && String.eqb acc "" then "" else Itoa digit ++ acc)
  end.

Definition fmtFrac (n : nat) (v : Z) : string :=
  let digits := frac_digits n v "" in
  Itoa (v / 10 ^ Z.of_nat n)%Z ++ (if String.eqb digits "" then "" else "." ++ digits).

Definition Duration_String (d : Z) : string :=
  let u := Z.abs d in
  let sign := if (d <? 0)%Z then "-" else "" in
  if (u =? 0)%Z then "0s"
  else if (u <? 1000)%Z then sign ++ Itoa u ++ "ns"
  else if (u <? 1000000)%Z then sign ++ fmtFrac 3 u ++ bytes [194; 181]%N ++ "s"
  else if (u <? 1000000000)%Z then sign ++ fmtFrac 6 u ++ "ms"
  else
    let secs := fmtFrac 9 (u mod 60000000000)%Z ++ "s" in
    let mins := (u / 60000000000)%Z in
    sign ++ (if (mins =? 0)%Z then secs
             else (if (mins / 60 =? 0)%Z then "" else Itoa (mins / 60)%Z ++ "h")
                  ++ Itoa (mins mod 60)%Z ++ "m" ++ secs).

Example Duration_String_samples :
  map Duration_String [0; 1500; 1500000; 15000000000; 90500000000; 3600000000000; -1]%Z
  = ["0s"; "1.5" ++ bytes [194; 181]%N ++ "s"; "1.5ms"; "15s"; "1m30.5s"; "1h0m0s"; "-1ns"].
Proof. vm_compute. reflexivity. Qed.


Definition digit (c : ascii) : option Z :=
  let n := Z.of_N (N_of_ascii c) in
  if ((48 <=? n) && (n <=? 57))%Z then Some (n - 48)%Z else None.

Fixpoint digits (acc : Z) (s : string) : option Z :=
  match s with
  | "" => Some acc
  | String c s' => match digit c with
                   | Some d => digits (acc * 10 + d)%Z s'
                   | None => None
                   end
  end.

Definition unsigned_of (s : string) : option Z :=
  match s with "" => None | _ => digits 0 s end.

(** [strconv.ParseInt(s, 10, 32)]: an optional sign, at least one digit, no
    other byte, and a value that fits. *)
Definition ParseInt32 (s : string) : option Z :=
  let v := match s with
           | String c s' =>
               if Ascii.eqb c "+" then unsigned_of s'
               else if Ascii.eqb c "-" then Z.opp <$> unsigned_of s'
               else unsigned_of s
           | "" => None
           end in
  match v with
  | Some z => if ((MinInt32 <=? z) && (z <=? MaxInt32))%Z then Some z else None
  | None => None
  end.

(** ** Lemmas *)

Lemma append_nil_r s : s ++ "" = s.
Proof. induction s as [|c s IH]; simpl; [done|]. by rewrite IH. Qed.

Lemma append_assoc s t u : (s ++ t) ++ u = s ++ (t ++ u).
Proof. induction s as [|c s IH]; simpl; [done|]. by rewrite IH. Qed.

Lemma append_length s t : String.length (s ++ t) = (String.length s + String.length t)%nat.
Proof. induction s as [|c s IH]; simpl; [done|]. by rewrite IH. Qed.

Lemma append_inj_l s t u : s ++ t = s ++ u -> t = u.
Proof. induction s as [|c s IH]; simpl; [done|]. intros [=]. auto. Qed.

Lemma CutPrefix_Some s p r : CutPrefix s p = Some r <-> s = p ++ r.
Proof.
  revert s; induction p as [|a p IH]; intros s; simpl.
  - split; congruence.
  - destruct s as [|b s]; [split; discriminate|].
    destruct (Ascii.eqb_spec a b) as [->|Hne].
    + rewrite IH. split; [by intros ->|by intros [=]].
    + split; [done|]. by intros [=].
Qed.

Lemma CutPrefix_append p r : CutPrefix (p ++ r) p = Some r.
Proof. by apply CutPrefix_Some. Qed.

Lemma HasPrefix_spec s p : HasPrefix s p = true <-> exists r, s = p ++ r.
Proof.
  unfold HasPrefix. destruct (CutPrefix s p) as [r|] eqn:H.
  - apply CutPrefix_Some in H. naive_solver.
  - split; [done|]. intros [r Hr]. apply CutPrefix_Some in Hr. congruence.
Qed.

Lemma HasPrefix_append p r : HasPrefix (p ++ r) p = true.
Proof. apply HasPrefix_spec. eauto. Qed.

Lemma rev_string_app s t : rev_string (s ++ t) = rev_string t ++ rev_string s.
Proof.
  induction s as [|c s IH]; simpl; [by rewrite append_nil_r|].
  by rewrite IH, append_assoc.
Qed.

Lemma rev_string_involutive s : rev_string (rev_string s) = s.
Proof. induction s as [|c s IH]; simpl; [done|]. by rewrite rev_string_app, IH. Qed.

#[export] Hint Resolve HasPrefix_append CutPrefix_append : go.

(** Trimming never lengthens. *)
Lemma rev_string_length s : String.length (rev_string s) = String.length s.
Proof. induction s as [|c s IH]; simpl; [done|]. rewrite append_length, IH. simpl. lia. Qed.

Lemma first_cut_length ps s r : first_cut ps s = Some r -> (String.length r <= String.length s)%nat.
Proof.
  induction ps as [|p ps IH]; simpl; [done|].
  destruct (CutPrefix s p) as [r'|] eqn:Hc; [|auto]. intros [= <-].
  apply CutPrefix_Some in Hc as ->. rewrite append_length. lia.
Qed.

Lemma trim_left_fuel_length ps n : forall s,
  (String.length (trim_left_fuel ps n s) <= String.length s)%nat.
Proof.
  induction n as [|n IH]; intros s; simpl; [done|].
  destruct (first_cut ps s) as [r|] eqn:Hc; [|done].
  apply first_cut_length in Hc. specialize (IH r). lia.
Qed.

Lemma TrimSpace_length s : (String.length (TrimSpace s) <= String.length s)%nat.
Proof.
  unfold TrimSpace, TrimRight, TrimLeft. rewrite rev_string_length.
  etrans; [apply trim_left_fuel_length|]. rewrite rev_string_length. apply trim_left_fuel_length.
Qed.

(** Trimming drops a prefix and then a suffix, and leaves no space at either end. *)
Lemma first_cut_None ps s : first_cut ps s = None <-> Forall (fun p => CutPrefix s p = None) ps.
Proof.
  induction ps as [|p ps IH]; cbn [first_cut]; [by split|]. rewrite Forall_cons_iff.
  destruct (CutPrefix s p); [naive_solver|]. by rewrite IH; naive_solver.
Qed.

Lemma first_cut_Some ps s r :
  first_cut ps s = Some r -> exists p, p ∈ ps /\ s = p ++ r.
Proof.
  induction ps as [|p ps IH]; cbn [first_cut]; [done|].
  destruct (CutPrefix s p) as [r'|] eqn:Hc.
  - intros [= <-]. exists p. split; [left|]. by apply CutPrefix_Some.
  - intros (q & ? & ?)%IH. exists q. split; [by right|done].
Qed.

Lemma trim_left_fuel_suffix ps n : forall s, exists t, s = t ++ trim_left_fuel ps n s.
Proof.
  induction n as [|n IH]; intros s; cbn [trim_left_fuel]; [by exists ""|].
  destruct (first_cut ps s) as [r|] eqn:Hc; [|by exists ""].
  apply first_cut_Some in Hc as (p & _ & ->). destruct (IH r) as [t Ht].
  exists (p ++ t). by rewrite append_assoc, <- Ht.
Qed.

Lemma trim_left_fuel_done ps n : forall s,
  Forall (fun p => p <> "") ps -> (String.length s <= n)%nat ->
  first_cut ps (trim_left_fuel ps n s) = None.
Proof.
  induction n as [|n IH]; intros s Hps Hn; cbn [trim_left_fuel].
  - apply first_cut_None. eapply List.Forall_impl; [|exact Hps]. intros p Hp.
    destruct s; [|cbn in Hn; lia]. by destruct p.
  - destruct (first_cut ps s) as [r|] eqn:Hc; [|done]. apply IH; [done|].
    apply first_cut_Some in Hc as (p & Hp & ->). rewrite append_length in Hn.
    eapply list.Forall_forall in Hp; [|exact Hps]. destruct p; [done|]. cbn in Hn. lia.
Qed.

Lemma trim_left_fuel_fix ps n s : first_cut ps s = None -> trim_left_fuel ps n s = s.
Proof. intros Hc. destruct n; cbn [trim_left_fuel]; [done|]. by rewrite Hc. Qed.

Lemma spaces_nonempty : Forall (fun p => p <> "") spaces.
Proof. apply (bool_decide_unpack _). vm_compute. exact I. Qed.

Lemma rev_spaces_nonempty : Forall (fun p => p <> "") (rev_string <$> spaces).
Proof. apply (bool_decide_unpack _). vm_compute. exact I. Qed.

Lemma TrimRight_prefix s : exists t, s = TrimRight s ++ t.
Proof.
  unfold TrimRight.
  destruct (trim_left_fuel_suffix (rev_string <$> spaces) (String.length s) (rev_string s)) as [t Ht].
  exists (rev_string t). by rewrite <- rev_string_app, <- Ht, rev_string_involutive.
Qed.

Lemma TrimSpace_idemp s : TrimSpace (TrimSpace s) = TrimSpace s.
Proof.
  unfold TrimSpace. set (x := TrimLeft s).
  assert (Hx : first_cut spaces x = None) by (apply trim_left_fuel_done; [apply spaces_nonempty|lia]).
  assert (HL : TrimLeft (TrimRight x) = TrimRight x).
  { apply trim_left_fuel_fix, first_cut_None. apply first_cut_None in Hx.
    eapply List.Forall_impl; [|exact Hx]. intros p Hp. destruct (TrimRight_prefix x) as [t Ht].
    destruct (CutPrefix (TrimRight x) p) as [r|] eqn:Hc; [|done]. apply CutPrefix_Some in Hc.
    rewrite Ht, Hc, append_assoc, CutPrefix_append in Hp. done. }
  rewrite HL. unfold TrimRight at 1. rewrite trim_left_fuel_fix; [by rewrite rev_string_involutive|].
  unfold TrimRight. rewrite rev_string_involutive.
  apply trim_left_fuel_done; [apply rev_spaces_nonempty|]. by rewrite rev_string_length.
Qed.

(** A text that neither starts nor ends with a byte of a space stays as it is. *)
Definition heads_avoid (ps : list string) (c : ascii) : bool :=
  forallb (fun p => match p with String d _ => negb (Ascii.eqb d c) | "" => false end) ps.

Lemma first_cut_head ps c x : heads_avoid ps c = true -> first_cut ps (String c x) = None.
Proof.
  unfold heads_avoid. induction ps as [|p ps IH]; cbn [forallb first_cut]; [done|].
  intros [Hp Hps]%andb_prop. destruct p as [|d p]; [done|]. cbn [CutPrefix].
  destruct (Ascii.eqb d c); [done|]. by apply IH.
Qed.

Lemma TrimSpace_fix a x b y : rev_string (String a x) = String b y ->
  heads_avoid spaces a = true -> heads_avoid (rev_string <$> spaces) b = true ->
  TrimSpace (String a x) = String a x.
Proof.
  intros Hr Ha Hb. unfold TrimSpace, TrimRight, TrimLeft.
  rewrite (trim_left_fuel_fix spaces) by (by apply first_cut_head).
  rewrite Hr, trim_left_fuel_fix by (by apply first_cut_head). by rewrite <- Hr, rev_string_involutive.
Qed.

(** Replacing a text that does not occur changes nothing. *)
Fixpoint contains_byte (c : ascii) (s : string) : bool :=
  match s with "" => false | String d s' => Ascii.eqb c d || contains_byte c s' end.

Lemma contains_byte_app c s t : contains_byte c (s ++ t) = contains_byte c s || contains_byte c t.
Proof. induction s as [|d s IH]; cbn; [done|]. by rewrite IH, orb_assoc. Qed.

Lemma contains_byte_TrimSpace c s : contains_byte c s = false -> contains_byte c (TrimSpace s) = false.
Proof.
  intros Hs. unfold TrimSpace. destruct (trim_left_fuel_suffix spaces (String.length s) s) as [t Ht].
  fold (TrimLeft s) in Ht. rewrite Ht, contains_byte_app in Hs. apply orb_false_iff in Hs as [_ Hs].
  destruct (TrimRight_prefix (TrimLeft s)) as [t' Ht']. rewrite Ht', contains_byte_app in Hs.
  by apply orb_false_iff in Hs as [Hs _].
Qed.

Lemma ReplaceAll_absent c old new s :
  contains_byte c s = false -> ReplaceAll s (String c old) new = s.
Proof.
  unfold ReplaceAll. induction s as [|d s IH]; [done|]. cbn [contains_byte replace_go].
  intros [Hcd Hs]%orb_false_iff. unfold HasPrefix. cbn [CutPrefix]. rewrite Hcd.
  by rewrite IH.
Qed.

(** Escaping newlines and expanding the escapes gives the text back. *)
Lemma escape_step d s :
  ReplaceAll (String d s) newline backslash_n
  = if Ascii.eqb (byte 10) d
    then String (byte 92) (String (byte 110) (ReplaceAll s newline backslash_n))
    else String d (ReplaceAll s newline backslash_n).
Proof.
  unfold ReplaceAll, newline at 1. cbn [replace_go]. unfold HasPrefix. cbn [bytes fold_right CutPrefix].
  by destruct (Ascii.eqb (byte 10) d).
Qed.

Lemma unescape_step d s :
  Ascii.eqb (byte 92) d = false ->
  ReplaceAll (String d s) backslash_n newline = String d (ReplaceAll s backslash_n newline).
Proof.
  intros Hd. unfold ReplaceAll, backslash_n at 1. cbn [replace_go]. unfold HasPrefix.
  cbn [bytes fold_right CutPrefix]. by rewrite Hd.
Qed.

Lemma newline_escape_roundtrip s :
  contains_byte (byte 92) s = false ->
  ReplaceAll (ReplaceAll s newline backslash_n) backslash_n newline = s.
Proof.
  induction s as [|d s IH]; [done|]. cbn [contains_byte]. intros [Hd Hs]%orb_false_iff.
  rewrite escape_step. destruct (Ascii.eqb (byte 10) d) eqn:E.
  - apply Ascii.eqb_eq in E as <-.
    change (newline ++ ReplaceAll (ReplaceAll s newline backslash_n) backslash_n newline
            = String (byte 10) s). by rewrite IH.
  - by rewrite unescape_step, IH.
Qed.

(** ** Strings by their bytes *)

Fixpoint all_chars (f : ascii -> bool) (s : string) : bool :=
  match s with "" => true | String c s' => f c && all_chars f s' end.

Lemma all_chars_app f a b : all_chars f (a ++ b) = all_chars f a && all_chars f b.
Proof. induction a as [|c a IH]; simpl; [done|]. by rewrite IH, andb_assoc. Qed.

Lemma all_chars_impl (f g : ascii -> bool) s :
  (forall c, f c = true -> g c = true) -> all_chars f s = true -> all_chars g s = true.
Proof.
  intros Hfg. induction s as [|c s IH]; simpl; [done|]. intros Hs. zbool. by rewrite Hfg, IH.
Qed.

(** Two ways to cut a string: one cut comes first. *)
Lemma append_split a b c d : a ++ b = c ++ d ->
  (exists e, c = a ++ e /\ b = e ++ d) \/ (exists e, a = c ++ e /\ d = e ++ b).
Proof.
  revert c. induction a as [|x a IH]; intros [|y c] Heq; simpl in *.
  - left. by exists "".
  - left. by exists (String y c).
  - right. by exists (String x a).
  - injection Heq as -> Heq. destruct (IH c Heq) as [(e & -> & ->)|(e & -> & ->)]; [left|right]; by exists e.
Qed.
