(* ===== verification/GoErrors.v ===== *)
(** * Go errors

    The [error] values the backend builds, with the chain [errors.Is] and
    [errors.As] walk, the [(value, error)] pairs functions return, and panics. *)

From stdpp Require Import base list gmap strings numbers.
From Stdlib Require Import ZArith Lia String.
From S2P Require Import Prelude GoStrings.

Local Open Scope string_scope.

(** gRPC status codes are [uint32] numbers fixed by the protocol. *)
Module codes.
Definition OK : Z := 0.
Definition Canceled : Z := 1.
Definition Unknown : Z := 2.
Definition InvalidArgument : Z := 3.
Definition DeadlineExceeded : Z := 4.
Definition NotFound : Z := 5.
Definition AlreadyExists : Z := 6.
Definition PermissionDenied : Z := 7.
Definition ResourceExhausted : Z := 8.
Definition FailedPrecondition : Z := 9.
Definition Internal : Z := 13.
Definition Unavailable : Z := 14.
Definition DataLoss : Z := 15.
Definition Unauthenticated : Z := 16.
End codes.

(** [errdetails.ErrorInfo] and the gRPC status that carries it. *)
Record ErrorInfo := {
  ei_reason : string;
  ei_domain : string;
  ei_metadata : gmap string string
}.

(** A detail of a status: an [ErrorInfo], or a message of another type. *)
Inductive detail :=
| InfoDetail (info : ErrorInfo)
| OtherDetail (type_url value : string).

Record Status := {
  st_code : Z;
  st_message : string;
  st_details : list detail
}.

#[export] Instance ErrorInfo_eq_dec : EqDecision ErrorInfo.
Proof. solve_decision. Defined.
#[export] Instance detail_eq_dec : EqDecision detail.
Proof. solve_decision. Defined.
#[export] Instance Status_eq_dec : EqDecision Status.
Proof. solve_decision. Defined.

(** An error value.
    - [Sentinel name text]: a package variable built by [errors.New]; two
      sentinels are the same error when they are the same variable;
    - [Errorf pre ws]: [fmt.Errorf]: literal text, then each [%w] operand
      followed by literal text;
    - [JoinErr es]: [errors.Join] of non-nil errors;
    - [Domain ...]: [*Error] of pkg/errors;
    - [StatusErr st text]: an error gRPC builds from a status, with the text the
      library renders for it. *)
#[local] Unset Elimination Schemes.
Inductive goerror : Type :=
| Sentinel (name text : string)
| Errorf (pre : string) (ws : list (goerror * string))
| JoinErr (es : list goerror)
| Domain (code : Z) (reason message : string) (metadata : gmap string string)
    (cause : option goerror)
| StatusErr (st : Status) (text : string).
#[local] Set Elimination Schemes.

(** [fmt.Errorf("text%w", err)], the one-operand form used everywhere. *)
Definition Wrap (text : string) (e : goerror) : goerror := Errorf text [(e, "")].

(** The [Error()] text. *)
Fixpoint Error (e : goerror) : string :=
  match e with
  | Sentinel _ text => text
  | Errorf pre ws =>
      pre ++ (fix go l := match l with
                          | [] => ""
                          | (w, t) :: l' => Error w ++ t ++ go l'
                          end) ws
  | JoinErr es =>
      (fix go l := match l with
                   | [] => ""
                   | [x] => Error x
                   | x :: l' => Error x ++ newline ++ go l'
                   end) es
  | Domain _ reason message _ cause =>
      match cause with
      | Some c => reason ++ ": " ++ message ++ ": " ++ Error c
      | None => reason ++ ": " ++ message
      end
  | StatusErr _ text => text
  end.

(** The tree of an error in the order [errors.Is] and [errors.As] examine it:
    the error, then what it unwraps to, depth first. *)
Fixpoint chain (e : goerror) : list goerror :=
  e :: match e with
       | Errorf _ ws =>
           (fix go l := match l with [] => [] | (w, _) :: l' => (chain w ++ go l')%list end) ws
       | JoinErr es =>
           (fix go l := match l with [] => [] | x :: l' => (chain x ++ go l')%list end) es
       | Domain _ _ _ _ (Some c) => chain c
       | _ => []
       end.

Definition is_domain (e : goerror) : bool :=
  match e with Domain _ _ _ _ _ => true | _ => false end.

(** The errors of the chain with a [GRPCStatus] method. *)
Definition has_status (e : goerror) : bool :=
  match e with Domain _ _ _ _ _ | StatusErr _ _ => true | _ => false end.

(** [errors.As(err, &x)] for a type recognised by [f]. *)
Definition As (f : goerror -> bool) (e : goerror) : option goerror :=
  List.find f (chain e).

(** One node of the chain against a target: identity for a sentinel, the [Is]
    method of a domain error (same reason) otherwise. *)
Definition is_match (target x : goerror) : bool :=
  match x, target with
  | Sentinel n _, Sentinel m _ => String.eqb n m
  | Domain _ r _ _ _, _ =>
      match As is_domain target with
      | Some (Domain _ r' _ _ _) => String.eqb r r'
      | _ => false
      end
  | _, _ => false
  end.

(** [errors.Is(err, target)]. *)
Definition Is (e target : goerror) : bool := existsb (is_match target) (chain e).

Definition context_Canceled : goerror := Sentinel "context.Canceled" "context canceled".
Definition context_DeadlineExceeded : goerror :=
  Sentinel "context.DeadlineExceeded" "context deadline exceeded".

(** [(value, error)] results, where the value is only read when the error is
    nil, and the outcome of a call that may panic. *)
Inductive res (A : Type) :=
| Ok (a : A)
| Err (e : goerror).
Arguments Ok {A} _.
Arguments Err {A} _.

Inductive outcome (A : Type) :=
| Returns (a : A)
| Panics (v : string).
Arguments Returns {A} _.
Arguments Panics {A} _.

(** ** Lemmas *)

Lemma chain_head e : exists l, chain e = e :: l.
Proof. destruct e; simpl; eauto. Qed.

Lemma chain_Wrap t e : chain (Wrap t e) = Wrap t e :: chain e.
Proof. simpl. by rewrite app_nil_r. Qed.

Lemma chain_Domain c r m md e :
  chain (Domain c r m md (Some e)) = Domain c r m md (Some e) :: chain e.
Proof. done. Qed.

Lemma Error_Wrap t e : Error (Wrap t e) = t ++ Error e.
Proof. simpl. by rewrite append_nil_r. Qed.

(** Wrapping preserves what [errors.Is] finds, for a sentinel target. *)
Lemma Is_Wrap t e n tx : Is (Wrap t e) (Sentinel n tx) = Is e (Sentinel n tx).
Proof. unfold Is. by rewrite chain_Wrap. Qed.

Lemma Is_sentinel_refl n t : Is (Sentinel n t) (Sentinel n t) = true.
Proof. unfold Is. simpl. by rewrite String.eqb_refl. Qed.

Lemma As_Wrap f t e : f (Wrap t e) = false -> As f (Wrap t e) = As f e.
Proof. unfold As. rewrite chain_Wrap. simpl. by intros ->. Qed.

Lemma As_None f e : As f e = None <-> Forall (fun x => f x = false) (chain e).
Proof.
  unfold As. induction (chain e) as [|x l IH]; simpl; [done|].
  rewrite Forall_cons_iff. destruct (f x) eqn:Hf; [|rewrite IH; tauto].
  split; [done|]. intros [? _]. congruence.
Qed.

Lemma As_self f e : f e = true -> As f e = Some e.
Proof. unfold As. destruct (chain_head e) as [l ->]. simpl. by intros ->. Qed.

Lemma As_matches f e x : As f e = Some x -> f x = true.
Proof. intros H. by apply find_some in H as []. Qed.

#[export] Hint Resolve Is_sentinel_refl As_self : go.
#[export] Hint Rewrite Is_Wrap : gorw.
