(* ===== verification/Regex.v ===== *)
(** * Package regexp

    The part of Go's regular expressions the repository uses: classes,
    sequences, alternatives, greedy repetition, the anchors of the text and the
    word boundary.  A match is looked for as Go does, leftmost first and
    preferring the earlier alternative and the longer repetition; the list [ends]
    has every way to match at a position in that order.

    [matches] and [lang] are the reference: what an expression matches, without
    an order.  The two are proved to agree, and [ReplaceAllString] is proved to
    leave no match behind under conditions that are checked by evaluation.

    Expressions work on bytes.  A class that holds characters outside ASCII holds
    all their bytes, and a letter that folds to a character outside ASCII is an
    alternative, so that the matches are those of the expression on characters. *)

From stdpp Require Import base list sets strings numbers.
From Stdlib Require Import ZArith Lia Ascii String.
From S2P Require Import Prelude GoStrings.

Local Open Scope string_scope.

Inductive re :=
| Eps
| Cls (f : ascii -> bool)
| Cat (r s : re)
| Alt (r s : re)
| Star (r : re)
| BegText
| EndText
| WordB.

(** ** Matching *)

(** A position: the byte before it, and the text from it on. *)
Definition pos : Type := option ascii * string.

Definition rest_len (p : pos) : nat := String.length p.2.

Definition in_range (lo hi : N) (c : ascii) : bool := ((lo <=? N_of_ascii c) && (N_of_ascii c <=? hi))%N.

Definition word_char (c : ascii) : bool :=
  in_range 48 57 c || in_range 65 90 c || in_range 97 122 c || Ascii.eqb c "_"%char.

Definition at_boundary (p : pos) : bool :=
  xorb (match p.1 with Some c => word_char c | None => false end)
       (match p.2 with String c _ => word_char c | "" => false end).

(** Greedy iteration: another round first, then stopping.  A round that consumes
    nothing is not repeated, so that [fuel] rounds are enough for that many bytes. *)
Fixpoint star_ends (once : pos -> list pos) (fuel : nat) (p : pos) : list pos :=
  match fuel with
  | O => [p]
  | S k => (List.flat_map (star_ends once k)
              (List.filter (fun q => (rest_len q <? rest_len p)%nat) (once p)) ++ [p])%list
  end.

Fixpoint ends (r : re) (p : pos) : list pos :=
  match r with
  | Eps => [p]
  | Cls f => match p.2 with String c s => if f c then [(Some c, s)] else [] | "" => [] end
  | Cat a b => List.flat_map (ends b) (ends a p)
  | Alt a b => (ends a p ++ ends b p)%list
  | Star a => star_ends (ends a) (rest_len p) p
  | BegText => match p.1 with None => [p] | Some _ => [] end
  | EndText => match p.2 with "" => [p] | String _ _ => [] end
  | WordB => if at_boundary p then [p] else []
  end.

(** [regexp.MatchString]: some position has a match. *)
Fixpoint match_from (r : re) (prev : option ascii) (s : string) : bool :=
  match ends r (prev, s) with
  | _ :: _ => true
  | [] => match s with "" => false | String c s' => match_from r (Some c) s' end
  end.
Definition MatchString (r : re) (s : string) : bool := match_from r None s.

(** [regexp.ReplaceAllString], for an expression that does not match the empty
    text and a replacement without a dollar sign.  [skip]: bytes of the match that
    was just replaced. *)
Fixpoint replace_from (r : re) (repl : string) (skip : nat) (prev : option ascii) (s : string) : string :=
  match s with
  | "" => ""
  | String c s' =>
      match skip with
      | S k => replace_from r repl k (Some c) s'
      | O => match ends r (prev, s) with
             | q :: _ => repl ++ replace_from r repl (String.length s - rest_len q - 1) (Some c) s'
             | [] => String c (replace_from r repl 0 (Some c) s')
             end
      end
  end.
Definition ReplaceAllString (r : re) (s repl : string) : string := replace_from r repl 0 None s.

(** ** Writing expressions *)

Definition chr (c : ascii) : re := Cls (Ascii.eqb c).
Definition opt (r : re) : re := Alt r Eps.
Definition plus (r : re) : re := Cat r (Star r).
Fixpoint at_least (n : nat) (r : re) : re :=
  match n with O => Star r | S k => Cat r (at_least k r) end.
Fixpoint lit (s : string) : re :=
  match s with "" => Eps | String c "" => chr c | String c s' => Cat (chr c) (lit s') end.
Fixpoint alts (l : list re) : re :=
  match l with [] => Cls (fun _ => false) | [r] => r | r :: l' => Alt r (alts l') end.
Fixpoint seqs (l : list re) : re :=
  match l with [] => Eps | [r] => r | r :: l' => Cat r (seqs l') end.

Definition digit_re : re := Cls (in_range 48 57).
Definition any_of (s : string) (c : ascii) : bool := contains_byte c s.
Definition alnum (c : ascii) : bool := in_range 48 57 c || in_range 65 90 c || in_range 97 122 c.
Definition letter (c : ascii) : bool := in_range 65 90 c || in_range 97 122 c.
(** The white space of the class backslash s. *)
Definition space (c : ascii) : bool :=
  existsb (N.eqb (N_of_ascii c)) [9; 10; 12; 13; 32]%N.

(** A letter under the flag i.  The letters k and s also fold to the Kelvin sign
    and the long s. *)
Definition fold_chr (c : ascii) : re :=
  let both := Cls (fun d => Ascii.eqb (lower_ascii c) (lower_ascii d)) in
  if Ascii.eqb (lower_ascii c) "k"%char then Alt both (lit (bytes [226; 132; 170]%N))
  else if Ascii.eqb (lower_ascii c) "s"%char then Alt both (lit (bytes [197; 191]%N))
  else both.
Fixpoint fold_lit (s : string) : re :=
  match s with "" => Eps | String c "" => fold_chr c | String c s' => Cat (fold_chr c) (fold_lit s') end.

(** ** What an expression matches *)

Inductive matches : re -> pos -> pos -> Prop :=
| M_Eps p : matches Eps p p
| M_Cls f prev c s : f c = true -> matches (Cls f) (prev, String c s) (Some c, s)
| M_Cat a b p q t : matches a p q -> matches b q t -> matches (Cat a b) p t
| M_AltL a b p q : matches a p q -> matches (Alt a b) p q
| M_AltR a b p q : matches b p q -> matches (Alt a b) p q
| M_StarStop a p : matches (Star a) p p
| M_StarMore a p q t :
    matches a p q -> (rest_len q < rest_len p)%nat -> matches (Star a) q t -> matches (Star a) p t
| M_Beg s : matches BegText (None, s) (None, s)
| M_End prev : matches EndText (prev, "") (prev, "")
| M_Word p : at_boundary p = true -> matches WordB p p.

Lemma star_ends_sound a once fuel : forall p t,
  (forall p q, q ∈ once p -> matches a p q) -> t ∈ star_ends once fuel p -> matches (Star a) p t.
Proof.
  induction fuel as [|k IH]; intros p t Honce Ht; cbn [star_ends] in Ht.
  - apply list_elem_of_singleton in Ht as ->. constructor.
  - apply elem_of_app in Ht as [Ht|Ht]; [|apply list_elem_of_singleton in Ht as ->; constructor].
    apply list_elem_of_In, in_flat_map in Ht as (q & Hq & Ht).
    apply filter_In in Hq as [Hq Hlt]. apply Nat.ltb_lt in Hlt.
    eapply M_StarMore; [apply Honce, list_elem_of_In, Hq|done|].
    apply IH; [done|]. by apply list_elem_of_In.
Qed.

Lemma ends_sound r : forall p q, q ∈ ends r p -> matches r p q.
Proof.
  induction r as [|f|a IHa b IHb|a IHa b IHb|a IHa| | |]; intros [prev s] q Hq;
    cbn [ends fst snd] in Hq.
  - apply list_elem_of_singleton in Hq as ->. constructor.
  - destruct s as [|c s]; [inversion Hq|]. destruct (f c) eqn:Hf; [|inversion Hq].
    apply list_elem_of_singleton in Hq as ->. by constructor.
  - apply list_elem_of_In, in_flat_map in Hq as (t & Ht & Hq).
    econstructor; [apply IHa, list_elem_of_In, Ht|apply IHb, list_elem_of_In, Hq].
  - apply elem_of_app in Hq as [Hq|Hq]; [apply M_AltL|apply M_AltR]; auto.
  - by eapply star_ends_sound.
  - destruct prev; [inversion Hq|]. apply list_elem_of_singleton in Hq as ->. constructor.
  - destruct s; [|inversion Hq]. apply list_elem_of_singleton in Hq as ->. constructor.
  - destruct (at_boundary _) eqn:Hb; [|inversion Hq].
    apply list_elem_of_singleton in Hq as ->. by constructor.
Qed.

Lemma matches_rest r p q : matches r p q -> (rest_len q <= rest_len p)%nat.
Proof. induction 1; unfold rest_len in *; simpl; lia. Qed.

Lemma star_ends_complete a once : forall fuel p t,
  (forall p q, matches a p q -> q ∈ once p) -> (rest_len p <= fuel)%nat ->
  matches (Star a) p t -> t ∈ star_ends once fuel p.
Proof.
  induction fuel as [|k IH]; intros p t Honce Hlen Ht; inversion Ht; subst; cbn [star_ends].
  - left.
  - lia.
  - apply elem_of_app. right. left.
  - apply elem_of_app. left. apply list_elem_of_In, in_flat_map. exists q. split.
    + apply filter_In. split; [apply list_elem_of_In; auto|]. by apply Nat.ltb_lt.
    + apply list_elem_of_In, IH; [done|lia|done].
Qed.

Lemma ends_complete r : forall p q, matches r p q -> q ∈ ends r p.
Proof.
  induction r as [|f|a IHa b IHb|a IHa b IHb|a IHa| | |]; intros p q Hm; inversion Hm; subst;
    cbn [ends fst snd].
  - left.
  - match goal with H : _ = true |- _ => rewrite H end. left.
  - apply list_elem_of_In, in_flat_map. eexists. split; apply list_elem_of_In; eauto.
  - apply elem_of_app. auto.
  - apply elem_of_app. auto.
  - eapply star_ends_complete; eauto.
  - eapply star_ends_complete; eauto.
  - left.
  - left.
  - match goal with H : _ = true |- _ => rewrite H end. left.
Qed.

(** The backtracking search finds exactly the matches. *)
Lemma ends_spec r p q : q ∈ ends r p <-> matches r p q.
Proof. split; [apply ends_sound|apply ends_complete]. Qed.

(** ** Expressions without assertions *)

Fixpoint pure (r : re) : bool :=
  match r with
  | Eps | Cls _ => true
  | Cat a b | Alt a b => pure a && pure b
  | Star a => pure a
  | BegText | EndText | WordB => false
  end.

(** The words of an expression. *)
Inductive lang : re -> string -> Prop :=
| L_Eps : lang Eps ""
| L_Cls f c : f c = true -> lang (Cls f) (String c "")
| L_Cat a b u v : lang a u -> lang b v -> lang (Cat a b) (u ++ v)
| L_AltL a b u : lang a u -> lang (Alt a b) u
| L_AltR a b u : lang b u -> lang (Alt a b) u
| L_StarStop a : lang (Star a) ""
| L_StarMore a u v : lang a u -> u <> "" -> lang (Star a) v -> lang (Star a) (u ++ v).

Lemma matches_lang r p q : matches r p q -> pure r = true ->
  exists w, p.2 = w ++ q.2 /\ lang r w.
Proof.
  induction 1 as [p|f prev c s Hf|a b p q t _ IHa _ IHb|a b p q _ IH|a b p q _ IH|a p
                 |a p q t _ IHa Hlt _ IHs|s|prev|p Hb]; cbn [pure]; intros Hp; try done; zbool.
  - exists "". by split; [|constructor].
  - exists (String c ""). by split; [|constructor].
  - destruct IHa as (u & Hu & ?), IHb as (v & Hv & ?); [done..|]. exists (u ++ v).
    split; [by rewrite append_assoc, <- Hv|by constructor].
  - destruct IH as (w & ? & ?); [done|]. exists w. by split; [|apply L_AltL].
  - destruct IH as (w & ? & ?); [done|]. exists w. by split; [|apply L_AltR].
  - exists "". by split; [|constructor].
  - destruct IHa as (u & Hu & ?), IHs as (v & Hv & ?); [done..|]. exists (u ++ v).
    split; [by rewrite append_assoc, <- Hv|]. apply L_StarMore; [done| |done].
    intros ->. unfold rest_len in Hlt. rewrite Hu in Hlt. simpl in Hlt. lia.
Qed.

Lemma lang_matches r w : lang r w -> forall prev s, exists prev', matches r (prev, w ++ s) (prev', s).
Proof.
  induction 1 as [|f c Hf|a b u v _ IHa _ IHb|a b u _ IH|a b u _ IH|a|a u v _ IHa Hne _ IHs];
    intros prev s.
  - eexists. constructor.
  - eexists. by constructor.
  - rewrite append_assoc. destruct (IHa prev (v ++ s)) as [p1 ?]. destruct (IHb p1 s) as [p2 ?].
    eexists. by econstructor.
  - destruct (IH prev s) as [p' ?]. exists p'. by apply M_AltL.
  - destruct (IH prev s) as [p' ?]. exists p'. by apply M_AltR.
  - eexists. constructor.
  - rewrite append_assoc. destruct (IHa prev (v ++ s)) as [p1 ?]. destruct (IHs p1 s) as [p2 ?].
    eexists. eapply M_StarMore; [done| |done]. unfold rest_len. simpl.
    rewrite !append_length. destruct u; [done|]. simpl. lia.
Qed.

(** A word of the expression somewhere in a text. *)
Definition occurs (r : re) (t : string) : Prop := exists a w b, t = a ++ w ++ b /\ lang r w.

Lemma ends_nil_no_word r prev s w b :
  pure r = true -> ends r (prev, s) = [] -> s = w ++ b -> ~ lang r w.
Proof.
  intros Hp He -> Hw. destruct (lang_matches r w Hw prev b) as [p' Hm%ends_complete].
  rewrite He in Hm. inversion Hm.
Qed.

Lemma match_from_occurs r : pure r = true -> forall s prev, match_from r prev s = true <-> occurs r s.
Proof.
  intros Hp. induction s as [|c s IH]; intros prev; cbn [match_from].
  - destruct (ends r (prev, "")) as [|q l] eqn:He.
    + split; [done|]. intros (a & w & b & Hab & Hw). destruct a; [|done].
      by destruct (ends_nil_no_word r prev "" w b Hp He Hab).
    + split; [intros _|done]. assert (q ∈ ends r (prev, "")) as Hq by (rewrite He; left).
      apply ends_sound in Hq. destruct (matches_lang _ _ _ Hq Hp) as (w & Hw & ?). by exists "", w, q.2.
  - destruct (ends r (prev, String c s)) as [|q l] eqn:He.
    + rewrite IH. split.
      * intros (a & w & b & -> & Hw). by exists (String c a), w, b.
      * intros (a & w & b & Hab & Hw). destruct a as [|d a].
        -- by destruct (ends_nil_no_word r prev _ w b Hp He Hab).
        -- injection Hab as -> ->. by exists a, w, b.
    + split; [intros _|done]. assert (q ∈ ends r (prev, String c s)) as Hq by (rewrite He; left).
      apply ends_sound in Hq. destruct (matches_lang _ _ _ Hq Hp) as (w & Hw & ?). by exists "", w, q.2.
Qed.

(** [MatchString] decides whether a word of the expression is in the text. *)
Lemma MatchString_occurs r s : pure r = true -> MatchString r s = true <-> occurs r s.
Proof. intros Hp. by apply match_from_occurs. Qed.

Lemma MatchString_not_occurs r s : pure r = true -> MatchString r s = false -> ~ occurs r s.
Proof. intros Hp Hm Ho. apply (MatchString_occurs r s Hp) in Ho. congruence. Qed.

(** ** Replacing *)

(** The text between the replaced matches. *)
Definition cons_head (c : ascii) (l : list string) : list string :=
  match l with [] => [String c ""] | h :: t => String c h :: t end.

Fixpoint pieces (r : re) (skip : nat) (prev : option ascii) (s : string) : list string :=
  match s with
  | "" => [""]
  | String c s' =>
      match skip with
      | S k => pieces r k (Some c) s'
      | O => match ends r (prev, s) with
             | q :: _ => "" :: pieces r (String.length s - rest_len q - 1) (Some c) s'
             | [] => cons_head c (pieces r 0 (Some c) s')
             end
      end
  end.

Lemma pieces_cons r s : forall skip prev, exists h l, pieces r skip prev s = h :: l.
Proof.
  induction s as [|c s IH]; intros skip prev; cbn [pieces]; [eauto|].
  destruct skip; [|apply IH]. destruct (ends r _); [|eauto].
  destruct (IH O (Some c)) as (h & l & ->). simpl. eauto.
Qed.

Lemma replace_pieces r repl s : forall skip prev,
  replace_from r repl skip prev s = Join (pieces r skip prev s) repl.
Proof.
  induction s as [|c s IH]; intros skip prev; cbn [replace_from pieces]; [done|].
  destruct skip as [|k]; [|apply IH]. destruct (ends r _) as [|q l].
  - rewrite IH. destruct (pieces_cons r s 0 (Some c)) as (h & l & ->). by destruct l.
  - rewrite IH. destruct (pieces_cons r s (String.length (String c s) - rest_len q - 1) (Some c))
      as (h & l' & ->). done.
Qed.

Lemma pieces_head_prefix r s : forall prev h l,
  pieces r 0 prev s = h :: l -> exists b, s = h ++ b.
Proof.
  induction s as [|c s IH]; intros prev h l; cbn [pieces]; [intros [= <- <-]; by exists ""|].
  destruct (ends r _) as [|q l'].
  - destruct (pieces r 0 (Some c) s) as [|h' t] eqn:Hp; [by destruct (pieces_cons r s 0 (Some c)) as (?&?&?); congruence|].
    intros [= <- <-]. destruct (IH _ _ _ Hp) as [b ->]. by exists b.
  - intros [= <- <-]. by eexists.
Qed.

(** Every piece is part of the text. *)
Lemma pieces_part r s : forall skip prev, Forall (fun x => exists a b, s = a ++ x ++ b) (pieces r skip prev s).
Proof.
  assert (Hup : forall c s l, Forall (fun x => exists a b, s = a ++ x ++ b) l ->
            Forall (fun x => exists a b, String c s = a ++ x ++ b) l).
  { intros c s' l. apply List.Forall_impl. intros x (a & b & ->). by exists (String c a), b. }
  induction s as [|c s IH]; intros skip prev; cbn [pieces].
  - constructor; [by exists "", ""|constructor].
  - destruct skip as [|k]; [|by apply Hup, IH]. destruct (ends r _) as [|q l].
    + destruct (pieces r 0 (Some c) s) as [|h t] eqn:Hp;
        [by destruct (pieces_cons r s 0 (Some c)) as (?&?&?); congruence|].
      destruct (pieces_head_prefix r s _ _ _ Hp) as [b Hb]. pose proof (IH 0%nat (Some c)) as Hall.
      rewrite Hp in Hall. apply Forall_cons_iff in Hall as [_ Hall]. constructor; [|by apply Hup].
      exists "", b. by rewrite Hb.
    + constructor; [by exists "", (String c s)|by apply Hup, IH].
Qed.

(** No piece holds a match of the expression that was replaced. *)
Lemma pieces_clean r s : pure r = true -> ~ lang r "" -> forall skip prev,
  Forall (fun x => ~ occurs r x) (pieces r skip prev s).
Proof.
  intros Hp Hne. assert (~ occurs r "") as He.
  { intros (a & w & b & Hab & Hw). by destruct a, w. }
  induction s as [|c s IH]; intros skip prev; cbn [pieces]; [by repeat constructor|].
  destruct skip as [|k]; [|apply IH]. destruct (ends r (prev, String c s)) as [|q l] eqn:Hends.
  - destruct (pieces r 0 (Some c) s) as [|h t] eqn:Hps;
      [by destruct (pieces_cons r s 0 (Some c)) as (?&?&?); congruence|].
    pose proof (IH 0%nat (Some c)) as Hall. rewrite Hps in Hall.
    apply Forall_cons_iff in Hall as [Hh Ht]. constructor; [|done].
    destruct (pieces_head_prefix r s _ _ _ Hps) as [b' ->].
    intros (a & w & b & Hab & Hw). destruct a as [|d a].
    + destruct (ends_nil_no_word r prev (String c (h ++ b')) w (b ++ b') Hp Hends); [|done].
      change (String c (h ++ b')) with (String c h ++ b'). rewrite Hab. simpl. by rewrite append_assoc.
    + injection Hab as -> ->. apply Hh. by exists a, w, b.
  - constructor; [done|apply IH].
Qed.

Lemma occurs_part r a x b : occurs r x -> occurs r (a ++ x ++ b).
Proof.
  intros (u & w & v & -> & Hw). exists (a ++ u), w, (v ++ b). by rewrite !append_assoc.
Qed.

(** A text without a match is left as it is. *)
Lemma replace_from_id r repl s : pure r = true -> forall prev,
  ~ occurs r s -> replace_from r repl 0 prev s = s.
Proof.
  intros Hp. induction s as [|c s IH]; intros prev Ho; cbn [replace_from]; [done|].
  destruct (ends r (prev, String c s)) as [|q l] eqn:He.
  - f_equal. apply IH. intros Hs. apply Ho. destruct Hs as (a & w & b & -> & ?).
    by exists (String c a), w, b.
  - exfalso. apply Ho. assert (q ∈ ends r (prev, String c s)) as Hq by (rewrite He; left).
    apply ends_sound in Hq. destruct (matches_lang _ _ _ Hq Hp) as (w & Hw & ?). by exists "", w, q.2.
Qed.

(** ** Expressions that avoid a byte *)

Fixpoint avoid (c : ascii) (r : re) : bool :=
  match r with
  | Cls f => negb (f c)
  | Cat a b | Alt a b => avoid c a && avoid c b
  | Star a => avoid c a
  | _ => true
  end.

Lemma lang_avoid c r w : lang r w -> avoid c r = true -> contains_byte c w = false.
Proof.
  induction 1 as [|f d Hf|a b u v _ IHa _ IHb|a b u _ IH|a b u _ IH|a|a u v _ IHa Hne _ IHs];
    cbn [avoid]; intros Hc; zbool; rewrite ?contains_byte_app; auto.
  - simpl. rewrite orb_false_r. destruct (Ascii.eqb_spec c d) as [->|]; [congruence|done].
  - by rewrite IHa, IHb.
  - by rewrite IHa, IHs.
Qed.

(** The bytes of the words of an expression. *)
Lemma lang_all_chars f r w :
  (forall c, f c = true \/ avoid c r = true) -> lang r w -> all_chars f w = true.
Proof.
  intros Hf. induction 1 as [|g d Hg|a b u v _ IHa _ IHb|a b u _ IH|a b u _ IH|a|a u v _ IHa Hne _ IHs];
    rewrite ?all_chars_app; try done; cbn [avoid] in Hf.
  - simpl. destruct (Hf d) as [->|Hn]; [done|]. by rewrite Hg in Hn.
  - rewrite IHa, IHb; [done|..]; intros c; destruct (Hf c); zbool; auto.
  - apply IH. intros c; destruct (Hf c); zbool; auto.
  - apply IH. intros c; destruct (Hf c); zbool; auto.
  - by rewrite IHa, IHs.
Qed.

Fixpoint nullable (r : re) : bool :=
  match r with
  | Cls _ => false
  | Cat a b => nullable a && nullable b
  | Alt a b => nullable a || nullable b
  | _ => true
  end.

Lemma lang_nullable r w : lang r w -> w = "" -> nullable r = true.
Proof.
  induction 1 as [|f d Hf|a b u v _ IHa _ IHb|a b u _ IH|a b u _ IH|a|a u v _ IHa Hne _ IHs];
    cbn [nullable]; intros Hw; try done.
  - destruct u; [|done]. simpl in Hw. by rewrite IHa, IHb.
  - by rewrite IH.
  - by rewrite IH, orb_true_r.
Qed.

Lemma not_nullable r : nullable r = false -> ~ lang r "".
Proof. intros Hn Hl. rewrite (lang_nullable r "" Hl eq_refl) in Hn. done. Qed.

Lemma word_before d w : contains_byte d w = false -> forall x y b,
  x ++ String d y = w ++ b -> exists v, x = w ++ v.
Proof.
  induction w as [|e w IH]; intros Hd x y b Heq; [by exists x|]. simpl in Hd.
  apply orb_false_iff in Hd as [He Hd]. destruct x as [|c x]; simpl in Heq; injection Heq as -> Heq.
  - by rewrite Ascii.eqb_refl in He.
  - destruct (IH Hd x y b Heq) as [v ->]. by exists v.
Qed.

(** Repeating a class. *)
Lemma lang_star_cls f w : lang (Star (Cls f)) w <-> all_chars f w = true.
Proof.
  split.
  - intros Hl. remember (Star (Cls f)) as r eqn:Hr. revert Hr.
    induction Hl as [| | | | | |a u v Ha _ Hne _ IH]; intros [= ->]; [done|].
    inversion Ha as [|f' c Hc| | | | |]; subst. simpl. by rewrite IH, Hc.
  - induction w as [|c w IH]; simpl; intros Hw; [constructor|]. zbool.
    apply (L_StarMore (Cls f) (String c "") w); [by constructor|done|auto].
Qed.

Lemma lang_plus_cls f w : lang (plus (Cls f)) w <-> w <> "" /\ all_chars f w = true.
Proof.
  split.
  - intros Hl. inversion Hl as [| |a b u v Ha Hb| | | |]; subst.
    inversion Ha as [|f' c Hc| | | | |]; subst.
    apply lang_star_cls in Hb. simpl. by rewrite Hc, Hb.
  - intros [Hne Hw]. destruct w as [|c w]; [done|]. simpl in Hw. zbool.
    apply (L_Cat (Cls f) _ (String c "") w); [by constructor|by apply lang_star_cls].
Qed.

Lemma lang_chr c w : lang (chr c) w <-> w = String c "".
Proof.
  split; [|intros ->; constructor; apply Ascii.eqb_refl].
  intros Hl. inversion Hl as [|f' d Hd| | | | |]; subst. by apply Ascii.eqb_eq in Hd as ->.
Qed.

Lemma lang_lit s w : lang (lit s) w <-> w = s.
Proof.
  revert w. induction s as [|c s IH]; intros w; cbn [lit].
  - split; [intros Hl; by inversion Hl|intros ->; constructor].
  - destruct s as [|d s]; [apply lang_chr|]. split.
    + intros Hl. inversion Hl as [| |a b u v Ha Hb| | | |]; subst.
      apply lang_chr in Ha as ->. apply IH in Hb as ->. done.
    + intros ->. apply (L_Cat _ _ (String c "") (String d s)); [by apply lang_chr|by apply IH].
Qed.

Lemma lang_Cat a b w : lang (Cat a b) w <-> exists u v, w = u ++ v /\ lang a u /\ lang b v.
Proof.
  split; [intros Hl; inversion Hl; subst; eauto|]. intros (u & v & -> & ? & ?). by constructor.
Qed.

Lemma lang_Alt a b w : lang (Alt a b) w <-> lang a w \/ lang b w.
Proof.
  split; [intros Hl; inversion Hl; subst; eauto|]. intros [?|?]; [by apply L_AltL|by apply L_AltR].
Qed.

(** A word without the byte [d] lies on one side of it. *)
Lemma word_beside d w : contains_byte d w = false -> w <> "" -> forall x y a b,
  x ++ String d y = a ++ w ++ b ->
  (exists u v, x = u ++ w ++ v) \/ (exists u v, y = u ++ w ++ v).
Proof.
  intros Hd Hne. induction x as [|c x IH]; intros y a b Heq.
  - destruct a as [|e a]; [|injection Heq as _ ->; right; by exists a, b].
    destruct (word_before d w Hd "" y b Heq) as [v Hv]. by destruct w.
  - destruct a as [|e a].
    + destruct (word_before d w Hd (String c x) y b Heq) as [v ->]. left. by exists "", v.
    + injection Heq as -> Heq. destruct (IH y a b Heq) as [(u & v & ->)|?]; [|by right].
      left. by exists (String e u), v.
Qed.

(** A mark put between pieces: an opening byte, a label and a closing byte. *)
Lemma word_in_join o label c w : w <> "" ->
  contains_byte o w = false -> contains_byte c w = false -> forall l a b,
  Join l (String o (label ++ String c "")) = a ++ w ++ b ->
  (exists x u v, x ∈ l /\ x = u ++ w ++ v) \/ (exists u v, label = u ++ w ++ v).
Proof.
  intros Hne Ho Hc. induction l as [|x l IH]; intros a b Heq.
  - by destruct a, w.
  - destruct l as [|y l]; [left; exists x, a, b; split; [left|done]|].
    unfold Join in Heq. cbn [String.concat] in Heq.
    change (x ++ String o ((label ++ String c "") ++ Join (y :: l) (String o (label ++ String c "")))
            = a ++ w ++ b) in Heq.
    destruct (word_beside o w Ho Hne _ _ _ _ Heq) as [(u & v & Hx)|(u & v & Hy)].
    { left. exists x, u, v. split; [left|done]. }
    rewrite append_assoc in Hy. cbn [String.append] in Hy.
    destruct (word_beside c w Hc Hne _ _ _ _ Hy) as [?|(u' & v' & Hr)]; [by right|].
    destruct (IH _ _ Hr) as [(x' & u2 & v2 & Hin & ?)|?]; [|by right].
    left. exists x', u2, v2. split; [by right|done].
Qed.

Section Redaction.
(** A replacement text in brackets, as in [[redacted]]. *)
Variables (o c : ascii) (label : string).
Abbreviation mark := (String o (label ++ String c "")).

(** An expression whose words cannot reach into the mark. *)
Definition apart (p : re) : bool :=
  pure p && negb (nullable p) && avoid o p && avoid c p && negb (MatchString p label).

Lemma apart_join p l : apart p = true -> Forall (fun x => ~ occurs p x) l -> ~ occurs p (Join l mark).
Proof.
  unfold apart. intros Ha Hall (a & w & b & Hab & Hw). zbool.
  assert (w <> "") as Hne by (intros ->; by apply (not_nullable p)).
  destruct (word_in_join o label c w Hne (lang_avoid o p w Hw ltac:(done))
              (lang_avoid c p w Hw ltac:(done)) l a b Hab)
    as [(x & u & v & Hin & ->)|(u & v & ->)].
  - rewrite list.Forall_forall in Hall. apply (Hall _ Hin). by exists u, w, v.
  - eapply MatchString_not_occurs; [done..|]. by exists u, w, v.
Qed.

(** Replacing its matches leaves none. *)
Lemma replace_removes p t : apart p = true -> ~ occurs p (ReplaceAllString p t mark).
Proof.
  intros Ha. unfold ReplaceAllString. rewrite replace_pieces. apply apart_join; [done|].
  unfold apart in Ha. zbool. apply pieces_clean; [done|]. by apply not_nullable.
Qed.

(** Replacing the matches of another expression makes no new ones. *)
Lemma replace_keeps_out p r t :
  apart p = true -> ~ occurs p t -> ~ occurs p (ReplaceAllString r t mark).
Proof.
  intros Ha Ho. unfold ReplaceAllString. rewrite replace_pieces. apply apart_join; [done|].
  eapply List.Forall_impl; [|apply pieces_part]. intros x (a & b & ->) Hx.
  by apply Ho, occurs_part.
Qed.
End Redaction.

(** ** Anchored expressions *)

Definition anchored (r : re) : re := Cat BegText (Cat r EndText).

Lemma match_from_anchored r c s : match_from (anchored r) (Some c) s = false.
Proof. revert c. induction s as [|d s IH]; intros c; [done|]. cbn [match_from]. apply IH. Qed.

Lemma matches_Cat a b p t : matches (Cat a b) p t <-> exists q, matches a p q /\ matches b q t.
Proof. split; [intros Hm; inversion Hm; eauto|]. intros (q & ? & ?). by econstructor. Qed.

(** Between the anchors of the text, the whole text has to be a word. *)
Lemma MatchString_anchored r s : pure r = true -> MatchString (anchored r) s = true <-> lang r s.
Proof.
  intros Hp. unfold MatchString.
  transitivity (exists q, matches (anchored r) (None, s) q).
  - split.
    + intros Hm. destruct (ends (anchored r) (None, s)) as [|q l] eqn:He.
      * destruct s as [|c s]; cbn [match_from] in Hm; rewrite He in Hm; [done|].
        by rewrite match_from_anchored in Hm.
      * exists q. apply ends_sound. rewrite He. left.
    + intros [q Hq%ends_complete].
      destruct s as [|c s]; cbn [match_from]; by destruct (ends (anchored r) _); [inversion Hq|].
  - split.
    + intros [q Hq]. apply matches_Cat in Hq as (q1 & Hb & Hq). inversion Hb; subst.
      apply matches_Cat in Hq as (q2 & Hr & He). inversion He; subst.
      destruct (matches_lang _ _ _ Hr Hp) as (w & Hw & Hl). simpl in Hw.
      rewrite append_nil_r in Hw. by subst.
    + intros Hl. destruct (lang_matches r s Hl None "") as [p' Hm]. rewrite append_nil_r in Hm.
      exists (p', ""). apply matches_Cat. eexists. split; [constructor|].
      apply matches_Cat. eexists. split; [done|constructor].
Qed.

(** ** Groups *)

(** Expressions with named groups around and between expressions without. *)
Inductive gre :=
| GRe (r : re)
| GCat (a b : gre)
| GAlt (a b : gre)
| GGroup (name : string) (a : gre).

Definition gopt (a : gre) : gre := GAlt a (GRe Eps).
Fixpoint gseqs (l : list gre) : gre :=
  match l with [] => GRe Eps | [g] => g | g :: l' => GCat g (gseqs l') end.
Definition ganchored (g : gre) : gre := GCat (GRe BegText) (GCat g (GRe EndText)).

(** The groups that took part in a match, with their texts. *)
Abbreviation captures := (list (string * string)).

(** The text between two positions. *)
Definition text_between (p q : pos) : string := String.substring 0 (rest_len p - rest_len q) p.2.

(** Every way to match at a position, in the order of preference. *)
Fixpoint gends (g : gre) (p : pos) : list (pos * captures) :=
  match g with
  | GRe r => map (fun q => (q, [])) (ends r p)
  | GCat a b => List.flat_map (fun '(q, c) => map (fun '(t, d) => (t, (c ++ d)%list)) (gends b q)) (gends a p)
  | GAlt a b => (gends a p ++ gends b p)%list
  | GGroup n a => map (fun '(q, c) => (q, (n, text_between p q) :: c)) (gends a p)
  end.

(** [regexp.FindStringSubmatch]: the groups of the preferred match at the first position
    that has one. *)
Fixpoint submatch_from (g : gre) (prev : option ascii) (s : string) : option captures :=
  match gends g (prev, s) with
  | (_, c) :: _ => Some c
  | [] => match s with "" => None | String ch s' => submatch_from g (Some ch) s' end
  end.
Definition FindStringSubmatch (g : gre) (s : string) : option captures := submatch_from g None s.

(** [match[re.SubexpIndex(name)]]: the empty string for a group that took no part. *)
Definition subexp (name : string) (c : captures) : string :=
  match List.find (fun x => String.eqb x.1 name) c with Some x => x.2 | None => "" end.

(** The words of an expression, with what their groups hold. *)
Inductive glang : gre -> string -> captures -> Prop :=
| GL_Re r w : lang r w -> glang (GRe r) w []
| GL_Cat a b u v c d : glang a u c -> glang b v d -> glang (GCat a b) (u ++ v) (c ++ d)
| GL_AltL a b w c : glang a w c -> glang (GAlt a b) w c
| GL_AltR a b w c : glang b w c -> glang (GAlt a b) w c
| GL_Group n a w c : glang a w c -> glang (GGroup n a) w ((n, w) :: c).

Fixpoint gpure (g : gre) : bool :=
  match g with
  | GRe r => pure r
  | GCat a b | GAlt a b => gpure a && gpure b
  | GGroup _ a => gpure a
  end.

Lemma substring_append u v : String.substring 0 (String.length u) (u ++ v) = u.
Proof. induction u as [|c u IH]; simpl; [by destruct v|]. by rewrite IH. Qed.

Lemma text_between_append w p q : p.2 = w ++ q.2 -> text_between p q = w.
Proof.
  intros Hp. unfold text_between, rest_len. rewrite Hp, append_length.
  replace (String.length w + String.length q.2 - String.length q.2)%nat with (String.length w) by lia.
  apply substring_append.
Qed.

Lemma gends_sound g : gpure g = true -> forall p q c, (q, c) ∈ gends g p ->
  exists w, p.2 = w ++ q.2 /\ glang g w c.
Proof.
  induction g as [r|a IHa b IHb|a IHa b IHb|n a IHa]; cbn [gpure gends]; intros Hp p q c Hin; zbool.
  - apply list_elem_of_fmap in Hin as (q' & [= <- ->] & Hq). apply ends_sound in Hq.
    destruct (matches_lang _ _ _ Hq Hp) as (w & ? & ?). exists w. by split; [|constructor].
  - apply list_elem_of_In, in_flat_map in Hin as ([q1 c1] & H1 & Hin).
    apply list_elem_of_In, list_elem_of_fmap in Hin as ([q2 c2] & [= <- ->] & H2).
    destruct (IHa ltac:(done) p q1 c1 (proj2 (list_elem_of_In _ _) H1)) as (u & Hu & ?).
    destruct (IHb ltac:(done) _ _ _ H2) as (v & Hv & ?). exists (u ++ v).
    split; [by rewrite append_assoc, <- Hv|by constructor].
  - apply elem_of_app in Hin as [Hin|Hin]; [destruct (IHa ltac:(done) _ _ _ Hin) as (w & ? & ?)
      |destruct (IHb ltac:(done) _ _ _ Hin) as (w & ? & ?)]; exists w; split; [done|by apply GL_AltL|done|by apply GL_AltR].
  - apply list_elem_of_fmap in Hin as ([q' c'] & [= <- ->] & Hin).
    destruct (IHa ltac:(done) _ _ _ Hin) as (w & Hw & ?). exists w. split; [done|].
    rewrite (text_between_append w) by done. by constructor.
Qed.

Lemma gends_complete g w c : glang g w c -> forall prev s,
  exists prev', ((prev', s), c) ∈ gends g (prev, w ++ s).
Proof.
  induction 1 as [r w Hw|a b u v c d _ IHa _ IHb|a b w c _ IH|a b w c _ IH|n a w c _ IH]; intros prev s;
    cbn [gends].
  - destruct (lang_matches r w Hw prev s) as [p' Hm%ends_complete]. exists p'.
    by apply (list_elem_of_fmap_2 (fun q => (q, []))).
  - rewrite append_assoc. destruct (IHa prev (v ++ s)) as [p1 H1]. destruct (IHb p1 s) as [p2 H2].
    exists p2. apply list_elem_of_In, in_flat_map. exists ((p1, v ++ s), c).
    split; [by apply list_elem_of_In|]. apply list_elem_of_In.
    by apply (list_elem_of_fmap_2 (fun '(t, d) => (t, (c ++ d)%list)) _ ((p2, s), d)).
  - destruct (IH prev s) as [p' ?]. exists p'. apply elem_of_app. by left.
  - destruct (IH prev s) as [p' ?]. exists p'. apply elem_of_app. by right.
  - destruct (IH prev s) as [p' Hin]. exists p'.
    apply (list_elem_of_fmap_2 (fun '(q, c) => (q, (n, text_between (prev, w ++ s) q) :: c))) in Hin.
    by rewrite (text_between_append w) in Hin.
Qed.

Lemma gends_anchored g prev s q c : (q, c) ∈ gends (ganchored g) (prev, s) ->
  prev = None /\ (q, c) ∈ gends g (None, s) /\ q.2 = "".
Proof.
  cbn [ganchored gends ends fst snd]. destruct prev as [x|]; cbn [map List.flat_map];
    [by intros ?%not_elem_of_nil|]. rewrite app_nil_r. intros Hin. split; [done|].
  apply list_elem_of_fmap in Hin as ([q0 c0] & [= <- ->] & Hin).
  apply list_elem_of_In, in_flat_map in Hin as ([[p' s'] c1] & H1 & Hin).
  destruct s' as [|ch s']; cbn in Hin; [|done]. destruct Hin as [[= <- <-]|[]].
  rewrite app_nil_r. split; [by apply list_elem_of_In|done].
Qed.

Lemma gends_anchored_in g s p' c :
  ((p', ""), c) ∈ gends g (None, s) -> ((p', ""), c) ∈ gends (ganchored g) (None, s).
Proof.
  intros Hin. cbn [ganchored gends ends fst snd map List.flat_map]. rewrite app_nil_r.
  apply (list_elem_of_fmap_2 (fun '(t, d) => (t, ([] ++ d)%list)) _ ((p', ""), c)).
  apply list_elem_of_In, in_flat_map. exists ((p', ""), c). split; [by apply list_elem_of_In|].
  cbn. rewrite app_nil_r. by left.
Qed.

Lemma submatch_from_anchored g ch s : submatch_from (ganchored g) (Some ch) s = None.
Proof. revert ch. induction s as [|d s IH]; intros ch; [done|]. cbn [submatch_from]. apply IH. Qed.

(** Between the anchors of the text, the groups are those of a reading of the whole text,
    and there is a match when there is a reading. *)
Lemma FindStringSubmatch_anchored g s : gpure g = true ->
  match FindStringSubmatch (ganchored g) s with
  | Some c => glang g s c
  | None => forall c, ~ glang g s c
  end.
Proof.
  intros Hp. unfold FindStringSubmatch. destruct (gends (ganchored g) (None, s)) as [|[q c] l] eqn:He.
  - assert (submatch_from (ganchored g) None s = None) as ->.
    { destruct s as [|d s]; cbn [submatch_from]; rewrite He; [done|apply submatch_from_anchored]. }
    intros c Hc. destruct (gends_complete g s c Hc None "") as [p' Hin]. rewrite append_nil_r in Hin.
    apply gends_anchored_in in Hin. rewrite He in Hin. by apply not_elem_of_nil in Hin.
  - assert (submatch_from (ganchored g) None s = Some c) as ->
      by (destruct s; cbn [submatch_from]; by rewrite He).
    assert (Hin : (q, c) ∈ gends (ganchored g) (None, s)) by (rewrite He; left).
    apply gends_anchored in Hin as (_ & Hin & Hq). destruct (gends_sound g Hp _ _ _ Hin) as (w & Hw & Hl).
    cbn in Hw. rewrite Hq, append_nil_r in Hw. by subst.
Qed.
