(* ===== verification/Backoff.v ===== *)
(** * Capped doubling

    Three packages wait with exponential backoff: pkg/amqp and pkg/outbox
    share the loop of [backoffFor], pkg/database steps with [nextBackoff].
    This file holds the loop both [backoffFor] run, the step of the third, the
    closed form they all compute, and its bounds on [int64] durations. *)

From stdpp Require Import base list numbers.
From Stdlib Require Import ZArith Lia.
From S2P Require Import Prelude.

Local Open Scope Z_scope.

(** The loop [for range attempt - 1 { backoff *= 2; if backoff >= maximum
    { return maximum } }; return backoff], [n] iterations from [backoff]. *)
Fixpoint double_capped (n : nat) (backoff maximum : Z) : Z :=
  match n with
  | O => backoff
  | S n' => let backoff' := int64 (backoff * 2) in
            if maximum <=? backoff' then maximum else double_capped n' backoff' maximum
  end.

(** Durations that doubling keeps inside [int64]: below 2^62 ns, 146 years. *)
Definition no_overflow (initial maximum : Z) : Prop :=
  0 < initial < 4611686018427387904 /\ 0 < maximum <= 4611686018427387904.

#[export] Instance no_overflow_dec initial maximum : Decision (no_overflow initial maximum).
Proof. unfold no_overflow. apply _. Defined.

Lemma int64_double b : 0 < b < 4611686018427387904 -> int64 (b * 2) = b * 2.
Proof. intros ?. apply int64_id. unfold in_int64, MinInt64, MaxInt64. lia. Qed.

(** At least one iteration computes the capped power of two. *)
Lemma double_capped_spec n b m :
  no_overflow b m -> double_capped (S n) b m = Z.min (b * 2 ^ Z.of_nat (S n)) m.
Proof.
  unfold no_overflow. revert b. induction n as [|n IH]; intros b [Hb Hm].
  - simpl. rewrite int64_double by lia. branches.
  - change (double_capped (S (S n)) b m)
      with (if m <=? int64 (b * 2) then m else double_capped (S n) (int64 (b * 2)) m).
    rewrite int64_double by lia.
    assert (b * 2 ^ Z.of_nat (S (S n)) = b * 2 * 2 ^ Z.of_nat (S n)) as ->.
    { rewrite (Nat2Z.inj_succ (S n)), Z.pow_succ_r by lia. lia. }
    assert (1 <= 2 ^ Z.of_nat (S n)) by (apply Z.pow_le_mono_r with (b := 0); lia).
    destruct (m <=? b * 2) eqn:?; zbool; [nia|]. apply IH. lia.
Qed.

(** The closed form of the three backoffs: the wait before attempt [attempt]. *)
Definition backoff_spec (attempt initial maximum : Z) : Z :=
  if attempt <=? 1 then initial else Z.min (initial * 2 ^ (attempt - 1)) maximum.

(** What both [backoffFor] compute. *)
Lemma doubling_loop_correct attempt initial maximum :
  no_overflow initial maximum -> in_int32 attempt ->
  (if attempt <=? 1 then initial
   else double_capped (Z.to_nat (int32 (attempt - 1))) initial maximum)
  = backoff_spec attempt initial maximum.
Proof.
  intros ? Hr. unfold backoff_spec. destruct (attempt <=? 1) eqn:?; zbool; [done|].
  unfold in_int32, MinInt32, MaxInt32 in Hr.
  rewrite int32_id by (unfold in_int32, MinInt32, MaxInt32; lia).
  destruct (Z.to_nat (attempt - 1)) as [|n] eqn:E; [lia|].
  rewrite double_capped_spec by done. do 3 f_equal. lia.
Qed.

Lemma backoff_spec_bounds attempt initial maximum :
  0 < initial -> 0 < maximum ->
  0 < backoff_spec attempt initial maximum <= Z.max initial maximum.
Proof.
  intros. unfold backoff_spec.
  branches.
Qed.

Lemma backoff_spec_floor attempt initial maximum :
  0 < initial -> Z.min initial maximum <= backoff_spec attempt initial maximum.
Proof.
  intros. unfold backoff_spec. branches.
  assert (1 <= 2 ^ (attempt - 1)) by (apply Z.pow_le_mono_r with (b := 0); lia). nia.
Qed.

Lemma backoff_spec_mono a a' initial maximum :
  0 < initial <= maximum -> a <= a' ->
  backoff_spec a initial maximum <= backoff_spec a' initial maximum.
Proof.
  intros. unfold backoff_spec. branches.
  - assert (1 <= 2 ^ (a' - 1)) by (apply Z.pow_le_mono_r with (b := 0); lia). nia.
  - assert (2 ^ (a - 1) <= 2 ^ (a' - 1)) by (apply Z.pow_le_mono_r; lia). nia.
Qed.

#[export] Hint Resolve backoff_spec_bounds backoff_spec_mono : go.
