(* ===== verification/Logger.v ===== *)
(** * pkg/logger

    The structured logger: its construction (logger.go), how it travels in a
    context and is enriched with the active span (context.go).  zerolog is a
    library: a logger is the data the code configures it with, and writing a
    line appends it to the list of emitted entries when zerolog's documented
    level rule lets it through. *)

From stdpp Require Import base list strings numbers.
From Stdlib Require Import ZArith Lia String.
From S2P Require Import Prelude GoStrings GoErrors.

Local Open Scope string_scope.

(** zerolog's levels and their numeric order. *)
Inductive Level :=
| TraceLevel | DebugLevel | InfoLevel | WarnLevel | ErrorLevel | FatalLevel
| PanicLevel | NoLevel | Disabled.

#[export] Instance Level_eq_dec : EqDecision Level.
Proof. solve_decision. Defined.

Definition level_num (l : Level) : Z :=
  match l with
  | TraceLevel => -1 | DebugLevel => 0 | InfoLevel => 1 | WarnLevel => 2 | ErrorLevel => 3
  | FatalLevel => 4 | PanicLevel => 5 | NoLevel => 6 | Disabled => 7
  end.

(** An [io.Writer]: a nil interface is [None] where one may be nil. *)
#[local] Unset Elimination Schemes.
Inductive Writer :=
| Stdout
| Discard
| Custom (id : nat)
| ConsoleWriter (out : Writer)
| MultiLevelWriter (ws : list Writer).
#[local] Set Elimination Schemes.

Record Logger := mkLogger {
  lg_out : Writer;
  lg_level : Level;
  lg_fields : list (string * string)
}.

Record LogEntry := mkEntry {
  le_level : Level;
  le_fields : list (string * string);
  le_msg : string
}.

(** [log.WithLevel(lvl)....Msg(msg)]: written when the level is enabled. *)
Definition emit (log : Logger) (lvl : Level) (fields : list (string * string)) (msg : string)
    : list LogEntry :=
  if (level_num (lg_level log) <=? level_num lvl)%Z && negb (bool_decide (lg_level log = Disabled))
  then [{| le_level := lvl; le_fields := (lg_fields log ++ fields)%list; le_msg := msg |}]
  else [].

(** [log.With().Str(k, v).Logger()]. *)
Definition With (log : Logger) (fields : list (string * string)) : Logger :=
  {| lg_out := lg_out log; lg_level := lg_level log; lg_fields := (lg_fields log ++ fields)%list |}.

(** zerolog's rendering of a duration field. *)
Class ZerologFields := Dur : Z -> string.

(** ** logger.go *)

Definition FieldService := "service".
Definition FieldVersion := "version".
Definition FieldTraceID := "trace_id".
Definition FieldSpanID := "span_id".
Definition FieldUserID := "user_id".
Definition FieldMethod := "method".

Record Options := mkOptions {
  ServiceName : string;
  LevelName : string;
  Pretty : bool;
  Output : option Writer;
  Extra : list (option Writer)
}.

(** [zerolog.ParseLevel] is the library's. *)
Class Zerolog := { zerolog_ParseLevel : string -> option Level }.

Definition nonNil (writers : list (option Writer)) : list Writer := omap id writers.

Definition ParseLevel `{Unicode, Zerolog} (name : string) : Level :=
  match zerolog_ParseLevel (ToLower (TrimSpace name)) with
  | Some level => if bool_decide (level = NoLevel) then InfoLevel else level
  | None => InfoLevel
  end.

(** [version] is the build version [version.Get().Version]. *)
Definition New `{Unicode, Zerolog} (version : string) (opts : Options) : Logger :=
  let out := default Stdout (Output opts) in
  let out := if Pretty opts then ConsoleWriter out else out in
  let writers := (out :: nonNil (Extra opts))%list in
  let out := if (1 <? List.length writers)%nat then MultiLevelWriter writers else out in
  {| lg_out := out;
     lg_level := ParseLevel (LevelName opts);
     lg_fields := ((FieldVersion, version) ::
                   (if String.eqb (ServiceName opts) "" then []
                    else [(FieldService, ServiceName opts)]))%list |}.

Definition Nop : Logger := {| lg_out := Discard; lg_level := Disabled; lg_fields := [] |}.

(** ** context.go *)

(** The part of a context the backend reads: the logger and the span context
    of the active trace, present when it is valid. *)
Record Context := mkContext {
  ctx_logger : option Logger;
  ctx_span : option (string * string)
}.

Definition WithContext (ctx : Context) (log : Logger) : Context :=
  {| ctx_logger := Some log; ctx_span := ctx_span ctx |}.

Definition FromContext (ctx : Context) : Logger := default Nop (ctx_logger ctx).

Definition Ctx (ctx : Context) : Logger :=
  let log := FromContext ctx in
  match ctx_span ctx with
  | None => log
  | Some (trace, span) => With log [(FieldTraceID, trace); (FieldSpanID, span)]
  end.

Definition TraceID (ctx : Context) : string :=
  match ctx_span ctx with None => "" | Some (trace, _) => trace end.

(** ** Lemmas *)

(** What a line written through the context logger holds, when the logger
    lets the level through. *)
Lemma emit_Ctx ctx log lvl fields msg :
  ctx_logger ctx = Some log -> lg_level log <> Disabled ->
  (level_num (lg_level log) <= level_num lvl)%Z ->
  emit (Ctx ctx) lvl fields msg =
    [{| le_level := lvl;
        le_fields := (lg_fields log
                      ++ match ctx_span ctx with
                         | Some (t, s) => [(FieldTraceID, t); (FieldSpanID, s)]
                         | None => []
                         end ++ fields)%list;
        le_msg := msg |}].
Proof.
  intros Hl Hd Hn. unfold emit, Ctx, FromContext. rewrite Hl. simpl.
  destruct (ctx_span ctx) as [[t s]|]; simpl.
  all: rewrite bool_decide_false by done; rewrite (proj2 (Z.leb_le _ _)) by done.
  - simpl. by rewrite <- app_assoc.
  - done.
Qed.

Lemma emit_With_level log fs lvl fields msg :
  Forall (fun e => le_level e = lvl) (emit (With log fs) lvl fields msg).
Proof. unfold emit. branches; repeat constructor. Qed.
