(* ===== verification/Sentry.v ===== *)
(** * pkg/observability/sentry

    The reporter of errors (sentry.go): setting it up, its life cycle, the release
    identifier, and the filter that every event passes before it leaves the
    process.  The expressions are those of the source, in the model of Regex.v. *)

From stdpp Require Import base list gmap sets strings numbers.
From Stdlib Require Import ZArith Lia Ascii String.
From S2P Require Import Prelude GoStrings GoErrors Regex Logger.

Local Open Scope string_scope.

Definition flushTimeout : Z := 3 * Second.

Record Options := mkOptions {
  DSN : string;
  Environment : string;
  ReleaseID : string;
  ServiceName : string
}.

(** ** Setting up *)

(** What the client is configured with. *)
Record ClientOptions := mkClientOptions {
  co_Dsn : string;
  co_Environment : string;
  co_Release : string;
  co_UserInfo : bool;
  co_HTTPBodies : list string;
  co_Levels : list Level;
  co_FlushTimeout : Z;
  co_WithBreadcrumbs : bool
}.

(** The sink: its writer, and the function that flushes it, when they are set. *)
Record Sink := mkSink { writer : option Writer; close : option (option goerror) }.

Definition client_options (opts : Options) : ClientOptions :=
  {| co_Dsn := DSN opts; co_Environment := Environment opts; co_Release := ReleaseID opts;
     co_UserInfo := false; co_HTTPBodies := []; co_Levels := [ErrorLevel; FatalLevel; PanicLevel];
     co_FlushTimeout := flushTimeout; co_WithBreadcrumbs := false |}.

(** [new] is the library's constructor: a writer and what closing it answers.
    The result also has the tags put on every event. *)
Definition Setup (new : ClientOptions -> res (Writer * option goerror)) (opts : Options)
    : res (Sink * list (string * string)) :=
  if String.eqb (DSN opts) "" then Ok ({| writer := None; close := None |}, [])
  else match new (client_options opts) with
       | Err err => Err (Wrap "initializing sentry: " err)
       | Ok (w, closed) =>
           Ok ({| writer := Some w; close := Some closed |},
               if String.eqb (ServiceName opts) "" then [] else [("service", ServiceName opts)])
       end.

(** The methods work on a nil sink. *)
Definition Sink_Writer (s : option Sink) : option Writer :=
  match s with None => None | Some s => writer s end.

Definition Sink_Close (s : option Sink) : option goerror :=
  match s with
  | None => None
  | Some s => match close s with None => None | Some answered => answered end
  end.

Definition Release (serviceName version commit : string) : string :=
  let parts := [serviceName; version] in
  let parts := if negb (String.eqb commit "") && negb (String.eqb commit "unknown")
               then (parts ++ [commit])%list else parts in
  Join parts "@".

(** ** Expressions *)

Definition sensitiveKey : re :=
  alts [fold_lit "token"; fold_lit "password"; fold_lit "passwd"; fold_lit "secret";
        fold_lit "authorization"; seqs [fold_lit "api"; opt (Cls (any_of "_-")); fold_lit "key"];
        fold_lit "credential"; fold_lit "dsn"; fold_lit "cookie"; fold_lit "session";
        fold_lit "email"; fold_lit "latitude"; fold_lit "longitude";
        seqs [WordB; fold_lit "lat"; WordB]; seqs [WordB; fold_lit "lng"; WordB]].

Definition token_char : re := Cls (fun c => alnum c || any_of "_-" c).

Definition jwt_re : re :=
  seqs [lit "eyJ"; at_least 4 token_char; chr "."; at_least 4 token_char; chr ".";
        at_least 4 token_char].

(** Under the flag i the class also has the two characters outside ASCII that
    fold to its letters. *)
Definition bearer_char : re :=
  alts [Cls (fun c => alnum c || any_of "._-" c); lit (bytes [226; 132; 170]%N);
        lit (bytes [197; 191]%N)].

Definition bearer_re : re := seqs [fold_lit "bearer"; plus (Cls space); at_least 8 bearer_char].

Definition email_re : re :=
  seqs [plus (Cls (fun c => alnum c || any_of "._%+-" c)); chr "@";
        plus (Cls (fun c => alnum c || any_of ".-" c)); chr "."; at_least 2 (Cls letter)].

Definition schemes : re :=
  alts [fold_lit "postgres"; fold_lit "postgresql"; fold_lit "redis"; fold_lit "amqp"].
Definition user_char (c : ascii) : bool := negb (Ascii.eqb c ":"%char) && negb (space c).
Definition pass_char (c : ascii) : bool := negb (Ascii.eqb c "@"%char) && negb (space c).

Definition url_re : re :=
  seqs [schemes; lit "://"; plus (Cls user_char); chr ":"; plus (Cls pass_char); chr "@"].

Definition sensitiveValue : list re := [jwt_re; bearer_re; email_re; url_re].

Definition redacted := "[redacted]".

(** ** The filter *)

Definition scrub (text : string) : string :=
  if String.eqb text "" then text
  else fold_left (fun text pattern => ReplaceAllString pattern text redacted) sensitiveValue text.

Record Exception := mkException { ex_Type : string; ex_Value : string }.

Record User := mkUser {
  u_ID : string;
  u_Email : string;
  u_IPAddress : string;
  u_Username : string;
  u_Name : string;
  u_Data : gmap string string
}.

(** An event: the fields the filter looks at. *)
Record Event := mkEvent {
  Message : string;
  Tags : gmap string string;
  Exceptions : list Exception;
  EvUser : User
}.

(** The loop over the tags visits each key once, in any order. *)
Definition scrub_tag (key value : string) : string :=
  if MatchString sensitiveKey key then redacted else scrub value.

Definition scrubEvent (event : option Event) : option Event :=
  match event with
  | None => None
  | Some event =>
      Some {| Message := scrub (Message event);
              Tags := map_imap (fun key value => Some (scrub_tag key value)) (Tags event);
              Exceptions := map (fun e => {| ex_Type := ex_Type e; ex_Value := scrub (ex_Value e) |})
                              (Exceptions event);
              EvUser := {| u_ID := u_ID (EvUser event); u_Email := ""; u_IPAddress := "";
                           u_Username := ""; u_Name := ""; u_Data := ∅ |} |}
  end.

(** ** Nothing sensitive is left *)

Abbreviation apart_redacted := (apart "["%char "]"%char "redacted").

Lemma token_patterns_apart : Forall (fun p => apart_redacted p = true) [jwt_re; bearer_re; email_re].
Proof. repeat constructor. Qed.

(** A connection string: its scheme, user and password. *)
Lemma url_word w : lang url_re w <->
  exists h u p, w = h ++ "://" ++ u ++ ":" ++ p ++ "@" /\ lang schemes h
    /\ (u <> "" /\ all_chars user_char u = true) /\ (p <> "" /\ all_chars pass_char p = true).
Proof.
  unfold url_re. cbn [seqs]. setoid_rewrite lang_Cat. split.
  - intros (h & v1 & -> & Hh & Hv1).
    apply lang_Cat in Hv1 as (x & v2 & -> & ->%lang_lit & Hv2).
    apply lang_Cat in Hv2 as (u & v3 & -> & Hu%lang_plus_cls & Hv3).
    apply lang_Cat in Hv3 as (y & v4 & -> & ->%lang_chr & Hv4).
    apply lang_Cat in Hv4 as (p & z & -> & Hp%lang_plus_cls & ->%lang_chr). by exists h, u, p.
  - intros (h & u & p & -> & Hh & Hu & Hp). exists h, ("://" ++ u ++ ":" ++ p ++ "@").
    split; [done|]. split; [done|]. apply L_Cat; [by apply lang_lit|].
    apply L_Cat; [by apply lang_plus_cls|]. apply L_Cat; [by apply lang_chr|].
    apply L_Cat; [by apply lang_plus_cls|by apply lang_chr].
Qed.

(** A scheme has no byte that ends a user or a password. *)
Definition scheme_char (c : ascii) : bool :=
  user_char c && pass_char c && negb (Ascii.eqb c "["%char) && negb (Ascii.eqb c "]"%char).

Lemma scheme_chars h : lang schemes h -> all_chars scheme_char h = true.
Proof.
  apply lang_all_chars. intros [[] [] [] [] [] [] [] []]; vm_compute; auto.
Qed.

Lemma scheme_nonempty h : lang schemes h -> h <> "".
Proof. intros Hh ->. by apply (not_nullable schemes). Qed.

Lemma no_space_first_at x : all_chars (fun c => negb (space c)) x = true ->
  exists p y, x ++ "@" = p ++ "@" ++ y /\ all_chars pass_char p = true.
Proof.
  induction x as [|c x IH]; simpl; intros Hx; [by exists "", ""|]. zbool.
  destruct (Ascii.eqb_spec c "@"%char) as [->|Hc]; [by exists "", (x ++ "@")|].
  destruct (IH ltac:(done)) as (p & y & Hp & Hall). exists (String c p), y. simpl.
  split; [by f_equal|]. unfold pass_char at 1. rewrite (proj2 (Ascii.eqb_neq _ _) Hc), H. done.
Qed.

Lemma user_no_space u : all_chars user_char u = true -> all_chars (fun c => negb (space c)) u = true.
Proof. apply all_chars_impl. unfold user_char. intros c ?. by zbool; apply negb_true_iff. Qed.

Lemma pass_no_space u : all_chars pass_char u = true -> all_chars (fun c => negb (space c)) u = true.
Proof. apply all_chars_impl. unfold pass_char. intros c ?. by zbool; apply negb_true_iff. Qed.

Lemma scheme_user h : lang schemes h -> all_chars user_char h = true.
Proof.
  intros Hh%scheme_chars. eapply all_chars_impl; [|exact Hh]. unfold scheme_char. intros c ?. by zbool.
Qed.

(** The part of a connection string from its user on. *)
Definition tail_ok (t : string) : Prop :=
  exists u p b, t = u ++ ":" ++ p ++ "@" ++ b
    /\ (u <> "" /\ all_chars user_char u = true) /\ (p <> "" /\ all_chars pass_char p = true).

(** After [z], the beginning of such a part, a whole connection string completes
    it: its own colon and its own at sign do. *)
Lemma user_completed z m : all_chars user_char z = true -> lang url_re m -> tail_ok (z ++ m).
Proof.
  intros Hz (h & u & p & -> & Hh & [_ Hu] & [_ Hp])%url_word.
  destruct (no_space_first_at (String "/" ("/" ++ u ++ ":" ++ p))) as (q & y & Hq & Hqall).
  { simpl. rewrite all_chars_app. simpl. by rewrite (user_no_space u), (pass_no_space p). }
  exists (z ++ h), q, y. split; [|split; split].
  - rewrite !append_assoc. do 2 f_equal. simpl in *. f_equal. rewrite <- Hq.
    do 2 f_equal. by rewrite append_assoc.
  - destruct z; [|done]. by apply scheme_nonempty.
  - by rewrite all_chars_app, Hz, scheme_user.
  - by destruct q.
  - done.
Qed.

Lemma pass_completed u z m :
  u <> "" -> all_chars user_char u = true -> all_chars pass_char z = true -> lang url_re m ->
  tail_ok (u ++ ":" ++ z ++ m).
Proof.
  intros Hne Hu Hz (h & u' & p & -> & Hh & [_ Hu'] & [_ Hp])%url_word.
  assert (Hsp : all_chars (fun c => negb (space c)) (z ++ h ++ "://" ++ u' ++ ":" ++ p) = true).
  { rewrite !all_chars_app, (pass_no_space z), (user_no_space h), (user_no_space u'),
      (pass_no_space p) by auto using scheme_user. done. }
  destruct (no_space_first_at _ Hsp) as (q & y & Hq & Hqall).
  exists u, q, y. split; [|split; split]; try done.
  - do 2 f_equal. change (z ++ (h ++ "://" ++ u' ++ ":" ++ p ++ "@") = q ++ "@" ++ y).
    rewrite <- Hq, !append_assoc. done.
  - intros ->. pose proof (scheme_nonempty h Hh) as Hhne. apply scheme_chars in Hh.
    destruct z as [|c z]; simpl in Hq.
    + destruct h as [|c h]; [done|]. simpl in Hq, Hh. injection Hq as -> _. done.
    + simpl in Hz. injection Hq as -> _. done.
Qed.

(** Reading the output of a replacement: the bytes of the text, up to a mark
    that stands for a match. *)
Lemma replace_walk r x : pure r = true -> forall s prev y,
  replace_from r redacted 0 prev s = x ++ y ->
  (exists s', s = x ++ s')
  \/ exists x0 x2 m s3, x = x0 ++ String "[" x2 /\ s = x0 ++ m ++ s3 /\ lang r m.
Proof.
  intros Hp. induction x as [|d x IH]; intros s prev y Heq; [left; by exists s|].
  destruct s as [|c s]; [done|]. cbn [replace_from] in Heq.
  destruct (ends r (prev, String c s)) as [|q l] eqn:He.
  - injection Heq as <- Heq. destruct (IH s _ y Heq) as [[s' ->]|(x0 & x2 & m & s3 & -> & -> & Hm)].
    + left. by exists s'.
    + right. by exists (String c x0), x2, m, s3.
  - simpl in Heq. injection Heq as <- _. right.
    assert (q ∈ ends r (prev, String c s)) as Hq by (rewrite He; left). apply ends_sound in Hq.
    destruct (matches_lang _ _ _ Hq Hp) as (m & Hs & Hm). by exists "", x, m, q.2.
Qed.

Lemma tail_url h t : lang schemes h -> tail_ok t -> exists w b, h ++ "://" ++ t = w ++ b /\ lang url_re w.
Proof.
  intros Hh (u & p & b & -> & Hu & Hp). exists (h ++ "://" ++ u ++ ":" ++ p ++ "@"), b. split.
  - by rewrite !append_assoc.
  - apply url_word. eauto 10.
Qed.

Lemma scheme_prefix_no d h : lang schemes h -> scheme_char d = false -> d <> ":"%char -> d <> "/"%char ->
  contains_byte d (h ++ "://") = false.
Proof.
  intros Hh%scheme_chars Hd H1 H2. rewrite contains_byte_app. simpl.
  rewrite (proj2 (Ascii.eqb_neq _ _) H1), (proj2 (Ascii.eqb_neq _ _) H2). rewrite orb_false_r.
  induction h as [|c h IH]; simpl in *; [done|]. zbool. rewrite IH by done.
  destruct (Ascii.eqb_spec d c) as [->|]; [congruence|done].
Qed.

(** A connection string that runs into a mark was one in the text already. *)
Lemma url_before_mark x0 x2 m :
  lang url_re (x0 ++ String "[" x2) -> lang url_re m ->
  exists w b, x0 ++ m = w ++ b /\ lang url_re w.
Proof.
  intros (h & u & p & Hw & Hh & [Hune Hu] & [Hpne Hp])%url_word Hm.
  destruct (word_before "[" (h ++ "://") (scheme_prefix_no "[" h Hh eq_refl ltac:(done) ltac:(done))
              x0 x2 (u ++ ":" ++ p ++ "@")) as [z ->]; [by rewrite Hw, append_assoc|].
  rewrite !append_assoc in Hw. apply append_inj_l in Hw. apply (append_inj_l "://") in Hw.
  rewrite !append_assoc. apply tail_url; [done|].
  destruct (append_split _ _ _ _ Hw) as [(e & Hu' & _)|(e & -> & Ht)]; symmetry in Hw.
  - apply user_completed; [|done]. subst u. rewrite all_chars_app in Hu. by zbool.
  - destruct e as [|c e]; [done|]. simpl in Ht. injection Ht as <- Ht.
    rewrite append_assoc. apply pass_completed; try done.
    destruct (append_split _ _ _ _ Ht) as [(f & -> & Hf)|(f & -> & _)].
    + destruct f as [|g f]; [discriminate|]. by destruct f.
    + rewrite all_chars_app in Hp. by zbool.
Qed.

Lemma after_mark h t a y :
  lang schemes h -> redacted ++ y = a ++ (h ++ "://") ++ t -> exists a', a = redacted ++ a'.
Proof.
  intros Hh Heq. destruct (append_split _ _ _ _ Heq) as [(e & -> & _)|(e & Ha & Ht)]; [by exists e|].
  destruct e as [|c e]; [rewrite append_nil_r in Ha; subst a; by exists ""|]. exfalso.
  assert (exists e0, String c e = e0 ++ "]") as [e0 He].
  { change redacted with ("[redacted" ++ "]") in Ha.
    destruct (append_split _ _ _ _ Ha) as [(f & _ & Hf)|(f & _ & ->)]; [|by exists f].
    destruct f as [|g f]; [by exists ""|]. by destruct f. }
  rewrite He in Ht. symmetry in Ht. rewrite (append_assoc e0) in Ht.
  destruct (word_before "]" (h ++ "://") (scheme_prefix_no "]" h Hh eq_refl ltac:(done) ltac:(done))
              e0 y t Ht) as [v ->].
  apply (MatchString_not_occurs (Cat schemes (lit "://")) redacted eq_refl eq_refl).
  exists a, (h ++ "://"), (v ++ "]"). split; [by rewrite Ha, He, append_assoc|].
  apply L_Cat; [done|by apply lang_lit].
Qed.

Lemma url_replaced s : forall skip prev, ~ occurs url_re (replace_from url_re redacted skip prev s).
Proof.
  assert (Hcut : forall w, lang url_re w -> exists h t, lang schemes h /\ w = (h ++ "://") ++ t).
  { intros w (h & u & p & -> & Hh & _)%url_word. exists h, (u ++ ":" ++ p ++ "@").
    by rewrite append_assoc. }
  induction s as [|c s IH]; intros skip prev; cbn [replace_from].
  - intros (a & w & b & Hab & Hw). destruct a; [|done]. destruct w; [|done].
    by apply (not_nullable url_re).
  - destruct skip as [|k]; [|apply IH]. destruct (ends url_re (prev, String c s)) as [|q l] eqn:He.
    + intros (a & w & b & Hab & Hw). destruct a as [|d a].
      * assert (replace_from url_re redacted 0 prev (String c s) = w ++ b) as Hr
          by (cbn [replace_from]; by rewrite He).
        destruct (replace_walk url_re w eq_refl _ _ _ Hr) as [[s' Hs]|(x0 & x2 & m & s3 & -> & Hs & Hm)].
        -- by destruct (ends_nil_no_word url_re prev _ w s' eq_refl He Hs).
        -- destruct (url_before_mark _ _ _ Hw Hm) as (w' & b' & Hw' & Hl).
           destruct (ends_nil_no_word url_re prev (String c s) w' (b' ++ s3) eq_refl He); [|done].
           by rewrite Hs, <- append_assoc, Hw', append_assoc.
      * injection Hab as -> Hab. apply (IH O (Some d)). by exists a, w, b.
    + intros (a & w & b & Hab & Hw). destruct (Hcut w Hw) as (h & t & Hh & ->).
      rewrite append_assoc in Hab. destruct (after_mark h (t ++ b) a _ Hh Hab) as [a' ->].
      rewrite append_assoc in Hab. apply append_inj_l in Hab. eapply (IH _ (Some c)).
      exists a', ((h ++ "://") ++ t), b. split; [by rewrite Hab, !append_assoc|done].
Qed.

(** Whatever the text, what [scrub] makes of it holds no token, no bearer header,
    no e-mail address and no connection string with a user and a password, also
    where a redaction put two pieces of the text together. *)
Lemma scrub_clean text : Forall (fun pattern => ~ occurs pattern (scrub text)) sensitiveValue.
Proof.
  unfold scrub. destruct (String.eqb_spec text "") as [->|_].
  { repeat constructor; by apply MatchString_not_occurs. }
  pose proof token_patterns_apart as Hap. rewrite !Forall_cons_iff in Hap.
  destruct Hap as (Hj & Hb & He & _). cbn [sensitiveValue fold_left].
  repeat apply Forall_cons_2; [..|apply Forall_nil_2].
  - do 3 apply (replace_keeps_out _ _ _ _ _ _ Hj). by apply (replace_removes _ _ _ _ _ Hj).
  - do 2 apply (replace_keeps_out _ _ _ _ _ _ Hb). by apply (replace_removes _ _ _ _ _ Hb).
  - apply (replace_keeps_out _ _ _ _ _ _ He). by apply (replace_removes _ _ _ _ _ He).
  - apply url_replaced.
Qed.

Lemma sensitiveValue_pure : Forall (fun p => pure p = true) sensitiveValue.
Proof. repeat constructor. Qed.

(** A clean text is reported as it is. *)
Lemma scrub_id text : Forall (fun pattern => ~ occurs pattern text) sensitiveValue -> scrub text = text.
Proof.
  intros Hc. unfold scrub. destruct (String.eqb text ""); [done|].
  pose proof sensitiveValue_pure as Hp. revert Hc Hp.
  induction sensitiveValue as [|p l IH]; intros Hc Hp; [done|].
  apply Forall_cons_iff in Hc as [Hc Hcl], Hp as [Hp Hpl]. cbn [fold_left].
  unfold ReplaceAllString at 2. rewrite replace_from_id by done. by apply IH.
Qed.

(** ** Properties *)

Definition clean (text : string) : Prop := Forall (fun pattern => ~ occurs pattern text) sensitiveValue.

(** C19: nothing the filter knows leaves the process.  In every event that is sent,
    the message, every tag and the text of every exception are free of tokens,
    bearer headers, e-mail addresses and connection strings with credentials, in
    the sense of the patterns; a tag with a sensitive name holds only the mark; of
    the user only the identifier is left; and the event is never dropped. *)
Theorem reported_event_clean event :
  exists event', scrubEvent (Some event) = Some event'
    /\ clean (Message event')
    /\ Forall (fun e => clean (ex_Value e)) (Exceptions event')
    /\ map_Forall (fun key value => clean value
                      /\ (MatchString sensitiveKey key = true -> value = redacted)) (Tags event')
    /\ dom (Tags event') = dom (Tags event)
    /\ EvUser event' = {| u_ID := u_ID (EvUser event); u_Email := ""; u_IPAddress := "";
                          u_Username := ""; u_Name := ""; u_Data := ∅ |}.
Proof.
  eexists. split; [done|]. cbn [Message Tags Exceptions EvUser].
  split; [apply scrub_clean|]. split; [|split; [|split; [|done]]].
  - apply Forall_map, Forall_forall. intros e _. apply scrub_clean.
  - intros key value Hv. rewrite map_lookup_imap in Hv.
    destruct (Tags event !! key) as [v|]; [|done]. injection Hv as <-. unfold scrub_tag. split.
    + destruct (MatchString sensitiveKey key); [|apply scrub_clean].
      repeat constructor; by apply MatchString_not_occurs.
    + by intros ->.
  - apply dom_imap_L. intros key. rewrite elem_of_dom. split; [intros [v Hv]; eauto|naive_solver].
Qed.

(** scrubbing is stable and touches nothing else: a text free of the
    patterns is reported as it is, so that scrubbing twice is scrubbing once. *)
Theorem scrub_stable text : (clean text -> scrub text = text) /\ scrub (scrub text) = scrub text.
Proof. split; [apply scrub_id|]. apply scrub_id, scrub_clean. Qed.

(** a connection string with a password and no user is reported as it is, and
    so is a coordinate whose name has it as one word of several. *)
Theorem password_without_user_reported :
  scrub "dial redis://:hunter2@cache:6379: refused" = "dial redis://:hunter2@cache:6379: refused"
  /\ scrub_tag "pickup_lat" "40.4168" = "40.4168".
Proof. split; vm_compute; reflexivity. Qed.
