(* ===== verification/Tracing.v ===== *)
(** * pkg/observability/tracing and pkg/version

    Installing the tracer provider and the propagator (tracing.go) and the identity
    of the running build (version.go).  OpenTelemetry's exporter, resource and
    provider are parameters; the two globals it keeps are the state. *)

From stdpp Require Import base list sets strings numbers.
From Stdlib Require Import ZArith Lia String.
From S2P Require Import Prelude GoStrings GoErrors.

Local Open Scope string_scope.

(** ** tracing.go *)

(** [SampleRatio] is a float, kept as the text it is configured with. *)
Record Options := mkOptions {
  ServiceName : string;
  ServiceVersion : string;
  Environment : string;
  Endpoint : string;
  SampleRatio : string;
  Insecure : bool
}.

(** An option of the exporter. *)
Inductive exporter_option :=
| WithEndpoint (endpoint : string)
| WithInsecure.

Definition ErrSchemaURLConflict : goerror :=
  Sentinel "resource.ErrSchemaURLConflict" "conflicting Schema URL".

(** The library: building an exporter and a resource from its attributes, each with
    what it answers, and what shutting a provider down answers under a deadline.  A
    resource comes with an error when its detectors disagree. *)
Class Otel := {
  otlptracegrpc_New : list exporter_option -> option goerror;
  resource_New : list (string * string) -> option goerror;
  provider_Shutdown : Z -> option goerror
}.

(** [Shutdown]: of a no-op provider, or of a real one. *)
Inductive Shutdown := NoopShutdown | ProviderShutdown.

(** The provider installed globally: none, the no-op one, or one that exports to an
    endpoint, with the attributes of its resource and its sampling. *)
Inductive provider :=
| NoProvider
| NoopProvider
| SdkProvider (exporter : list exporter_option) (attributes : list (string * string))
    (batchTimeout : Z) (parentBasedRatio : string).

Record globals := mkGlobals { g_propagators : list string; g_provider : provider }.

Section Setup.
Context `{Otel}.

Definition exporter_options (opts : Options) : list exporter_option :=
  (WithEndpoint (Endpoint opts) :: if Insecure opts then [WithInsecure] else [])%list.

Definition newExporter (opts : Options) : res (list exporter_option) :=
  let exporterOpts := exporter_options opts in
  match otlptracegrpc_New exporterOpts with
  | Some err => Err (Wrap ("building the OTLP exporter for " ++ Quote (Endpoint opts) ++ ": ") err)
  | None => Ok exporterOpts
  end.

(** The attributes the code sets; those of the environment and of the process are
    the library's. *)
Definition resource_attributes (opts : Options) : list (string * string) :=
  [("service.name", ServiceName opts); ("service.version", ServiceVersion opts);
   ("deployment.environment", Environment opts)].

Definition newResource (opts : Options) : res (list (string * string)) :=
  match resource_New (resource_attributes opts) with
  | Some err =>
      if negb (Is err ErrSchemaURLConflict) then Err (Wrap "building the trace resource: " err)
      else Ok (resource_attributes opts)
  | None => Ok (resource_attributes opts)
  end.

Definition Setup (opts : Options) (g : globals) : res Shutdown * globals :=
  let g := {| g_propagators := ["tracecontext"; "baggage"]; g_provider := g_provider g |} in
  let install p := {| g_propagators := g_propagators g; g_provider := p |} in
  if String.eqb (Endpoint opts) "" then (Ok NoopShutdown, install NoopProvider)
  else match newExporter opts with
       | Err err => (Err err, g)
       | Ok exporter =>
           match newResource opts with
           | Err err => (Err err, g)
           | Ok attributes =>
               (Ok ProviderShutdown,
                install (SdkProvider exporter attributes (5 * Second) (SampleRatio opts)))
           end
       end.

(** Calling the function [Setup] returned. *)
Definition run_shutdown (s : Shutdown) (deadline : Z) : option goerror :=
  match s with NoopShutdown => None | ProviderShutdown => provider_Shutdown deadline end.
(** [Tracer]: a tracer of the provider installed globally. *)
Definition Tracer (name : string) (g : globals) : provider * string := (g_provider g, name).
End Setup.

(** ** version.go *)

(** The values injected when the binary is linked. *)
Record ldflags := mkLdflags { Version : string; Commit : string; BuildDate : string }.

Definition dev_build : ldflags := {| Version := "dev"; Commit := "unknown"; BuildDate := "unknown" |}.

Record Info := mkInfo {
  i_Version : string;
  i_Commit : string;
  i_BuildDate : string;
  i_GoVersion : string
}.

(** [bi] is what [debug.ReadBuildInfo] answers. *)
Definition Get (vars : ldflags) (bi : option string) : Info := {|
  i_Version := Version vars; i_Commit := Commit vars; i_BuildDate := BuildDate vars;
  i_GoVersion := default "unknown" bi |}.

(** ** Properties *)

(** A trace keeps travelling whatever the configuration.  The W3C propagators are
    installed on every path, an error included; without an endpoint nothing is
    exported and setting up cannot fail; with one, a failure is that of the exporter
    or of the resource and leaves the provider as it was, and a disagreement between
    the detectors of the resource is not one. *)
Theorem Setup_propagates `{Otel} opts g :
  g_propagators (Setup opts g).2 = ["tracecontext"; "baggage"]
  /\ (Endpoint opts = "" -> Setup opts g =
        (Ok NoopShutdown, {| g_propagators := ["tracecontext"; "baggage"]; g_provider := NoopProvider |}))
  /\ (Endpoint opts <> "" ->
        match otlptracegrpc_New (exporter_options opts), resource_New (resource_attributes opts) with
        | None, None => (Setup opts g).1 = Ok ProviderShutdown
        | None, Some err => (exists e, (Setup opts g).1 = Err e) <-> Is err ErrSchemaURLConflict = false
        | Some err, _ => exists text, (Setup opts g).1 = Err (Wrap text err)
        end)
  /\ ((exists e, (Setup opts g).1 = Err e) -> g_provider (Setup opts g).2 = g_provider g).
Proof.
  unfold Setup, newExporter, newResource. destruct (String.eqb_spec (Endpoint opts) "") as [He|He].
  - cbn. split_and!; [done|done|done|]. by intros [e ?].
  - destruct (otlptracegrpc_New (exporter_options opts)) as [err|]; cbn.
    + split_and!; [done|done|by eexists|done].
    + destruct (resource_New (resource_attributes opts)) as [err|]; cbn.
      * destruct (Is err ErrSchemaURLConflict); cbn; split_and!; try done.
        -- intros _. split; [by intros [e ?]|done].
        -- by intros [e ?].
        -- intros _. split; eauto.
      * split_and!; try done. by intros [e ?].
Qed.
