(* ===== verification/AmqpRetry.v ===== *)
(** * pkg/amqp: the retry policy

    The pure half of the RabbitMQ consumer: the configuration defaults
    (config.go), the attempt counter carried in the headers and the headers of
    a redelivery (retry.go), the queue names (topology.go, consumer.go), and
    the decision taken for a delivery (outcome.go). *)

From stdpp Require Import base list gmap strings numbers.
From Stdlib Require Import ZArith Lia String SpecFloat.
From S2P Require Import Prelude GoStrings GoErrors Backoff.

Local Open Scope string_scope.

(** ** config.go *)

Definition DefaultExchange := "dizen.events".
Definition DefaultExchangeKind := "topic".
Definition DLQSuffix := ".dlq".
Definition DefaultMaxAttempts : Z := 5.
Definition DefaultPrefetch : Z := 10.

Record Config := mkConfig {
  URL : string;
  Exchange : string;
  Prefetch : Z;
  MaxAttempts : Z;
  InitialBackoff : Z;
  MaxBackoff : Z;
  PublishTimeout : Z;
  ReconnectDelay : Z
}.

(** One [if c.F <= 0 { c.F = default }]. *)
Definition positive_or (v default : Z) : Z := if (v <=? 0)%Z then default else v.

Definition withDefaults (c : Config) : Config := {|
  URL := URL c;
  Exchange := if String.eqb (Exchange c) "" then DefaultExchange else Exchange c;
  Prefetch := positive_or (Prefetch c) DefaultPrefetch;
  MaxAttempts := positive_or (MaxAttempts c) DefaultMaxAttempts;
  InitialBackoff := positive_or (InitialBackoff c) Second;
  MaxBackoff := positive_or (MaxBackoff c) Minute;
  PublishTimeout := positive_or (PublishTimeout c) (5 * Second);
  ReconnectDelay := positive_or (ReconnectDelay c) (5 * Second)
|}.

(** ** topology.go and consumer.go: names *)

Definition HeaderAttempts := "x-dizen-attempts".
Definition HeaderFirstFailure := "x-dizen-first-failure".
Definition HeaderLastError := "x-dizen-last-error".
Definition HeaderTraceID := "x-dizen-trace-id".

Definition DLQName (queue : string) : string := queue ++ DLQSuffix.
Definition RetrySuffix := ".retry".
Definition RetryQueueName (queue : string) : string := queue ++ RetrySuffix.

(** ** Messages *)

(** A value of an [amqp.Table], by the dynamic type [attemptsOf] switches on. *)
Inductive hval :=
| VInt32 (z : Z)
| VInt64 (z : Z)
| VInt (z : Z)
| VFloat64 (f : spec_float)
| VString (s : string)
| VOther.

Abbreviation Table := (gmap string hval).

Record Delivery := mkDelivery {
  d_headers : Table;
  d_routing_key : string;
  d_body : string;
  d_tag : Z
}.

(** The Go specification leaves [int32(f)] implementation-defined when the
    truncated value does not fit: the platform chooses. *)
Class GoPlatform := { float_to_int32_oob : spec_float -> Z }.

Definition trunc_float (f : spec_float) : option Z :=
  match f with
  | S754_zero _ => Some 0%Z
  | S754_finite s m e =>
      let a := if (0 <=? e)%Z then (Zpos m * 2 ^ e)%Z else (Zpos m / 2 ^ (- e))%Z in
      Some (if s then - a else a)%Z
  | S754_infinity _ | S754_nan => None
  end.

Definition float_to_int32 `{GoPlatform} (f : spec_float) : Z :=
  match trunc_float f with
  | Some z => if ((MinInt32 <=? z) && (z <=? MaxInt32))%Z then z
              else int32 (float_to_int32_oob f)
  | None => int32 (float_to_int32_oob f)
  end.

(** ** retry.go *)

Definition attemptsOf `{GoPlatform} (delivery : Delivery) : Z :=
  match d_headers delivery !! HeaderAttempts with
  | None => 0
  | Some raw =>
      match raw with
      | VInt32 value => value
      | VInt64 value => int32 value
      | VInt value => int32 value
      | VFloat64 value => float_to_int32 value
      | VString value => match ParseInt32 value with Some parsed => parsed | None => 0 end
      | VOther => 0
      end
  end.

Definition backoffFor (attempt initial maximum : Z) : Z :=
  if (attempt <=? 1)%Z then initial
  else double_capped (Z.to_nat (int32 (attempt - 1))) initial maximum.

Definition maxErrorLength : nat := 512.

Definition truncate (s : string) (n : nat) : string :=
  if (String.length s <=? n)%nat then s else String.substring 0 n s ++ "...".

(** [now] is the RFC 3339 rendering of the current time. *)
Definition retryHeaders (delivery : Delivery) (attempts : Z) (reason now : string) : Table :=
  let headers : Table := d_headers delivery in
  let headers := <[HeaderAttempts := VInt32 attempts]> headers in
  let headers := <[HeaderLastError := VString (truncate reason maxErrorLength)]> headers in
  match headers !! HeaderFirstFailure with
  | Some _ => headers
  | None => <[HeaderFirstFailure := VString now]> headers
  end.

(** ** outcome.go *)

(** [type Action int] with its three constants. *)
Definition ActionAck : Z := 0.
Definition ActionRetry : Z := 1.
Definition ActionDeadLetter : Z := 2.

Definition Action_String (a : Z) : string :=
  if (a =? ActionAck)%Z then "ack"
  else if (a =? ActionRetry)%Z then "retry"
  else if (a =? ActionDeadLetter)%Z then "dead-letter"
  else "unknown".

Record Outcome := mkOutcome { Action : Z; Attempt : Z; Delay : Z }.

Definition decide (handlerErr : option goerror) (priorAttempts maxAttempts initial maximum : Z)
    : Outcome :=
  let attempt := int32 (priorAttempts + 1) in
  match handlerErr with
  | None => {| Action := ActionAck; Attempt := attempt; Delay := 0 |}
  | Some _ =>
      if (maxAttempts <=? attempt)%Z
      then {| Action := ActionDeadLetter; Attempt := attempt; Delay := 0 |}
      else {| Action := ActionRetry; Attempt := attempt;
              Delay := backoffFor attempt initial maximum |}
  end.

(** ** Well-formedness *)

(** Headers hold values of their Go type. *)
Definition hval_wf (v : hval) : Prop :=
  match v with VInt32 z => in_int32 z | VInt64 z | VInt z => in_int64 z | _ => True end.
Definition Table_wf (t : Table) : Prop := map_Forall (fun _ v => hval_wf v) t.

(** What [Connect] relies on after [withDefaults]. *)
Definition Config_wf (c : Config) : Prop :=
  Exchange c <> "" /\ (0 < Prefetch c)%Z /\ (0 < MaxAttempts c)%Z /\ (0 < InitialBackoff c)%Z
  /\ (0 < MaxBackoff c)%Z /\ (0 < PublishTimeout c)%Z /\ (0 < ReconnectDelay c)%Z.

(** ** Lemmas *)

Lemma positive_or_pos v d : (0 < d)%Z -> (0 < positive_or v d)%Z.
Proof. unfold positive_or. branches. Qed.

Lemma withDefaults_wf c : Config_wf (withDefaults c).
Proof.
  unfold Config_wf, withDefaults, DefaultMaxAttempts, DefaultPrefetch. simpl.
  repeat split; try (apply positive_or_pos; done). branches.
Qed.

Lemma withDefaults_id c : Config_wf c -> withDefaults c = c.
Proof.
  destruct c; unfold Config_wf, withDefaults, positive_or; simpl.
  intros (? & ? & ? & ? & ? & ? & ?). f_equal; branches.
Qed.

Lemma header_names_distinct :
  NoDup [HeaderAttempts; HeaderFirstFailure; HeaderLastError; HeaderTraceID].
Proof. by apply (bool_decide_unpack _). Qed.

Lemma float_to_int32_range `{GoPlatform} f : in_int32 (float_to_int32 f).
Proof.
  unfold float_to_int32. repeat case_match; zbool; auto using int32_range.
  unfold in_int32. lia.
Qed.

Lemma ParseInt32_range s z : ParseInt32 s = Some z -> in_int32 z.
Proof.
  unfold ParseInt32. intros ?. repeat case_match; simplify_eq; zbool; done.
Qed.

Lemma attemptsOf_range `{GoPlatform} d :
  Table_wf (d_headers d) -> in_int32 (attemptsOf d).
Proof.
  intros Hwf. unfold attemptsOf.
  assert (in_int32 0) by (unfold in_int32, MinInt32, MaxInt32; lia).
  destruct (d_headers d !! HeaderAttempts) as [raw|] eqn:E; [|done].
  specialize (Hwf _ _ E). destruct raw; simpl in *; auto using int32_range, float_to_int32_range.
  destruct (ParseInt32 s) eqn:?; eauto using ParseInt32_range.
Qed.

Lemma backoffFor_correct attempt initial maximum :
  no_overflow initial maximum -> in_int32 attempt ->
  backoffFor attempt initial maximum = backoff_spec attempt initial maximum.
Proof.
  apply doubling_loop_correct.
Qed.

Lemma retryHeaders_lookup d a r now k :
  retryHeaders d a r now !! k =
    if bool_decide (k = HeaderAttempts) then Some (VInt32 a)
    else if bool_decide (k = HeaderLastError) then Some (VString (truncate r maxErrorLength))
    else if bool_decide (k = HeaderFirstFailure)
         then Some (default (VString now) (d_headers d !! HeaderFirstFailure))
    else d_headers d !! k.
Proof.
  unfold retryHeaders. rewrite !lookup_insert_ne by done.
  repeat case_bool_decide; subst; destruct (d_headers d !! HeaderFirstFailure) as [v|] eqn:E;
    simplify_map_eq; try done.
  all: by rewrite ?lookup_insert_eq, ?lookup_insert_ne by done.
Qed.

Lemma attemptsOf_header `{GoPlatform} d a :
  d_headers d !! HeaderAttempts = Some (VInt32 a) -> attemptsOf d = a.
Proof. unfold attemptsOf. by intros ->. Qed.

#[export] Hint Resolve attemptsOf_range withDefaults_wf : go.

Lemma substring_0 n s :
  exists r, s = String.substring 0 n s ++ r
            /\ String.length (String.substring 0 n s) = Nat.min n (String.length s).
Proof.
  revert n; induction s as [|c s IH]; intros [|n]; simpl.
  - by exists "".
  - by exists "".
  - by exists (String c s).
  - destruct (IH n) as (r & Hr & Hl). exists r. simpl. rewrite <- Hr. by rewrite Hl.
Qed.

Lemma truncate_spec s n :
  ((String.length s <= n)%nat /\ truncate s n = s)
  \/ exists p r, s = p ++ r /\ String.length p = n /\ r <> "" /\ truncate s n = p ++ "...".
Proof.
  unfold truncate. destruct (String.length s <=? n)%nat eqn:E; zbool; [by left|right].
  destruct (substring_0 n s) as (r & Hr & Hl). exists (String.substring 0 n s), r.
  split; [done|]. split; [lia|]. split; [|done].
  intros ->. rewrite append_nil_r in Hr. rewrite <- Hr in Hl. lia.
Qed.

Lemma truncate_length s n : (String.length (truncate s n) <= n + 3)%nat.
Proof.
  destruct (truncate_spec s n) as [[? ->]|(p & r & -> & Hp & _ & ->)]; [lia|].
  rewrite append_length. simpl. lia.
Qed.

(** ** Properties *)

(** the headers of a redelivery carry the retry state forward: the attempt
    count reads back as the one written, the last error is recorded in at most
    515 bytes, the first failure time is set once and then kept, and every
    header of the producer (the trace id among them) is preserved. *)
Theorem retryHeaders_carry_forward `{GoPlatform} d attempts reason now key body tag :
  let headers := retryHeaders d attempts reason now in
  attemptsOf {| d_headers := headers; d_routing_key := key; d_body := body; d_tag := tag |}
    = attempts
  /\ (exists last, headers !! HeaderLastError = Some (VString last)
                   /\ (String.length last <= 515)%nat)
  /\ headers !! HeaderFirstFailure
       = Some (default (VString now) (d_headers d !! HeaderFirstFailure))
  /\ (forall k, k <> HeaderAttempts -> k <> HeaderLastError -> k <> HeaderFirstFailure ->
      headers !! k = d_headers d !! k).
Proof.
  intros headers. subst headers. split; [|split; [|split]].
  - apply attemptsOf_header. simpl. by rewrite retryHeaders_lookup.
  - exists (truncate reason maxErrorLength). rewrite retryHeaders_lookup. split; [done|].
    apply (truncate_length reason 512).
  - by rewrite retryHeaders_lookup.
  - intros k H1 H2 H3. rewrite retryHeaders_lookup. by rewrite !bool_decide_false.
Qed.

(** the decision for a delivery with [prior] attempts behind it: acknowledge
    exactly when the handler succeeded; otherwise retry exactly while the
    attempt just made is below [maxAttempts], after the capped doubling of the
    initial backoff (never zero, never above the cap), and dead-letter from
    then on. *)
Theorem decide_policy handlerErr prior maxAttempts initial maximum :
  no_overflow initial maximum -> (0 <= prior < MaxInt32)%Z -> (initial <= maximum)%Z ->
  let o := decide handlerErr prior maxAttempts initial maximum in
  Attempt o = (prior + 1)%Z
  /\ (Action o = ActionAck <-> handlerErr = None)
  /\ (Action o = ActionRetry <-> handlerErr <> None /\ (prior + 1 < maxAttempts)%Z)
  /\ (Action o = ActionDeadLetter <-> handlerErr <> None /\ (maxAttempts <= prior + 1)%Z)
  /\ (Action o = ActionRetry ->
      Delay o = backoff_spec (prior + 1) initial maximum /\ (0 < Delay o <= maximum)%Z).
Proof.
  intros Hno Hp Hle. unfold decide.
  assert (in_int32 (prior + 1)) by (unfold in_int32, MinInt32, MaxInt32 in *; lia).
  rewrite int32_id by done.
  unfold ActionAck, ActionRetry, ActionDeadLetter.
  destruct handlerErr as [e|]; [|simpl; repeat split; naive_solver].
  destruct (maxAttempts <=? prior + 1)%Z eqn:E; zbool; simpl.
  - repeat split; naive_solver lia.
  - rewrite backoffFor_correct by done.
    pose proof (backoff_spec_bounds (prior + 1) initial maximum).
    unfold no_overflow in Hno. repeat split; naive_solver lia.
Qed.

Lemma decide_policy_witness :
  decide (Some context_Canceled) 3 5 Second Minute
    = {| Action := ActionRetry; Attempt := 4; Delay := 8 * Second |}
  /\ (0 < 8 * Second <= Minute)%Z.
Proof.
  split; [reflexivity|].
  pose proof (decide_policy (Some context_Canceled) 3 5 Second Minute) as H.
  destruct H as (_ & _ & _ & _ & Hd).
  - split; split; reflexivity || discriminate.
  - split; [discriminate|reflexivity].
  - discriminate.
  - destruct (Hd eq_refl) as [_ Hb]. exact Hb.
Defined.

(** C37: the attempt counter is not protected against wrapping.  A count of
    2^31 in an [int64] header (or [int]) reads as -2^31, and a count of
    2^31-1 becomes -2^31 when the attempt just made is added, so the message is
    retried again instead of dead-lettered; the same count written as a string
    is rejected and reads as 0. *)
Theorem attempt_counter_wraps `{GoPlatform} d e maxAttempts initial maximum :
  (0 < maxAttempts)%Z ->
  let with_header v := {| d_headers := <[HeaderAttempts := v]> (d_headers d);
                          d_routing_key := d_routing_key d; d_body := d_body d; d_tag := d_tag d |} in
  attemptsOf (with_header (VInt64 2147483648)) = MinInt32
  /\ Action (decide (Some e) (attemptsOf (with_header (VInt64 2147483648)))
               maxAttempts initial maximum) = ActionRetry
  /\ Action (decide (Some e) (attemptsOf (with_header (VInt32 MaxInt32)))
               maxAttempts initial maximum) = ActionRetry
  /\ attemptsOf (with_header (VString "2147483648")) = 0%Z.
Proof.
  intros Hm with_header. unfold attemptsOf, with_header. simpl. rewrite !lookup_insert_eq.
  split; [reflexivity|]. split; [|split; [|reflexivity]].
  all: unfold decide; rewrite (proj2 (Z.leb_gt _ _)); [reflexivity|].
  all: match goal with |- (?x < _)%Z => let v := eval vm_compute in x in change x with v end; lia.
Qed.

Lemma attempt_counter_wraps_witness :
  let P : GoPlatform := {| float_to_int32_oob := fun _ => 0%Z |} in
  Action (decide (Some context_Canceled) MinInt32 5 Second Minute) = ActionRetry.
Proof.
  intros P.
  pose proof (@attempt_counter_wraps P {| d_headers := ∅; d_routing_key := ""; d_body := ""; d_tag := 1 |}
                context_Canceled 5 Second Minute) as H.
  destruct H as (Ha & Hr & _); [reflexivity|]. rewrite Ha in Hr. exact Hr.
Defined.
