(* ===== verification/AmqpConsumer.v ===== *)
(** * pkg/amqp: the consumer

    The topology declaration (topology.go) and the consumer (consumer.go):
    opening it, the loop over deliveries, what is done with each one, and
    shutting it down.  The AMQP library is a parameter: a channel operation is
    recorded in the trace, and the library answers it with an error or nil as
    any function of the trace so far. *)

From stdpp Require Import base list gmap strings numbers.
From Stdlib Require Import ZArith Lia String.
From S2P Require Import Prelude GoStrings GoErrors Backoff Logger AmqpRetry.

Local Open Scope string_scope.

(** ** The channel *)

Record Publishing := mkPublishing {
  p_content_type : string;
  p_persistent : bool;
  p_headers : Table;
  p_body : string;
  p_expiration : string
}.

(** The channel operations, in the order of their arguments; the flags the
    code always passes as false are left out. *)
Inductive call :=
| CDial (url : string)
| CConnClose
| CConfirm
| COpen
| CExchangeDeclare (name kind : string) (durable : bool)
| CQueueDeclare (name : string) (durable : bool) (args : Table)
| CQueueBind (queue key exchange : string)
| CQos (prefetch : Z)
| CConsume (queue tag : string)
| CCancel (tag : string)
| CPublish (exchange key : string) (mandatory : bool) (p : Publishing)
| CAck (tag : Z)
| CNack (tag : Z) (requeue : bool)
| CClose.

(** The libraries behind the package: the answer to an operation, whether the
    channel is closed, the current time as RFC 3339 text, and zerolog's rendering
    of a duration. *)
Class Channel := {
  answer : list call -> call -> option goerror;
  is_closed : list call -> bool;
  now_rfc3339 : list call -> string;
  duration_field : Z -> string
}.

Record chst := mkChst { calls : list call; logs : list LogEntry }.

Definition invoke `{Channel} (c : call) (s : chst) : option goerror * chst :=
  (answer (calls s) c, {| calls := (calls s ++ [c])%list; logs := logs s |}).

Definition logged (es : list LogEntry) (s : chst) : chst :=
  {| calls := calls s; logs := (logs s ++ es)%list |}.

(** The two errors of publisher.go. *)
Definition ErrNotConfirmed : goerror :=
  Sentinel "amqp.ErrNotConfirmed" "the broker did not confirm the publication".
Definition ErrConnectionClosed : goerror :=
  Sentinel "amqp.ErrConnectionClosed" "the AMQP connection is closed".

(** ** topology.go *)

Record QueueSpec := mkQueueSpec { Name : string; RoutingKeys : list string; Durable : bool }.

Definition dead_letter_to (queue : string) : Table :=
  <["x-dead-letter-routing-key" := VString queue]> {["x-dead-letter-exchange" := VString ""]}.

Fixpoint bindKeys `{Channel} (queue exchange : string) (keys : list string) (s : chst)
    : option goerror * chst :=
  match keys with
  | [] => (None, s)
  | key :: keys' =>
      match invoke (CQueueBind queue key exchange) s with
      | (Some err, s) =>
          (Some (Wrap ("binding " ++ Quote queue ++ " to " ++ Quote key ++ " on "
                       ++ Quote exchange ++ ": ") err), s)
      | (None, s) => bindKeys queue exchange keys' s
      end
  end.

Definition declareTopology `{Channel} (exchange : string) (spec : QueueSpec) (s : chst)
    : option goerror * chst :=
  match invoke (CExchangeDeclare exchange DefaultExchangeKind true) s with
  | (Some err, s) => (Some (Wrap ("declaring the exchange " ++ Quote exchange ++ ": ") err), s)
  | (None, s) =>
      if String.eqb (Name spec) "" then (None, s)
      else
        let dlq := DLQName (Name spec) in
        match invoke (CQueueDeclare dlq true ∅) s with
        | (Some err, s) =>
            (Some (Wrap ("declaring the dead-letter queue " ++ Quote dlq ++ ": ") err), s)
        | (None, s) =>
            match invoke (CQueueDeclare (Name spec) (Durable spec) (dead_letter_to dlq)) s with
            | (Some err, s) =>
                (Some (Wrap ("declaring the queue " ++ Quote (Name spec) ++ ": ") err), s)
            | (None, s) => bindKeys (Name spec) exchange (RoutingKeys spec) s
            end
        end
  end.

(** ** consumer.go *)

Record Consumer := mkConsumer {
  c_cfg : Config;
  c_spec : QueueSpec;
  c_log : Logger;
  c_tag : string
}.

Definition declareRetryQueue `{Channel} (queue : string) (s : chst) : option goerror * chst :=
  if String.eqb queue "" then (None, s)
  else match invoke (CQueueDeclare (RetryQueueName queue) true (dead_letter_to queue)) s with
       | (Some err, s) =>
           (Some (Wrap ("declaring the retry queue " ++ Quote (RetryQueueName queue) ++ ": ") err), s)
       | (None, s) => (None, s)
       end.

Definition consumerTag (uuid queue : string) : string := queue ++ "-" ++ uuid.

(** The channel is closed on every failure after it was opened. *)
Definition NewConsumer `{Channel} (cfg : Config) (spec : QueueSpec) (log : Logger) (uuid : string)
    (s : chst) : res Consumer * chst :=
  match invoke COpen s with
  | (Some err, s) => (Err (Wrap "opening the consumer channel: " err), s)
  | (None, s) =>
      match declareTopology (Exchange cfg) spec s with
      | (Some err, s) => (Err err, snd (invoke CClose s))
      | (None, s) =>
          match declareRetryQueue (Name spec) s with
          | (Some err, s) => (Err err, snd (invoke CClose s))
          | (None, s) =>
              match invoke (CQos (Prefetch cfg)) s with
              | (Some err, s) =>
                  (Err (Wrap ("setting the prefetch to " ++ Itoa (Prefetch cfg) ++ ": ") err),
                   snd (invoke CClose s))
              | (None, s) =>
                  (Ok {| c_cfg := cfg; c_spec := spec; c_log := log;
                         c_tag := consumerTag uuid (Name spec) |}, s)
              end
          end
      end
  end.

(** The logger the handler sees: queue, routing key, and the trace id of the
    message when it carries one. *)
Definition contextFor (c : Consumer) (ctx : Context) (d : Delivery) : Context :=
  let log := With (c_log c) [("queue", Name (c_spec c)); ("routing_key", d_routing_key d)] in
  let log := match d_headers d !! HeaderTraceID with
             | Some (VString traceID) =>
                 if String.eqb traceID "" then log else With log [(FieldTraceID, traceID)]
             | _ => log
             end in
  WithContext ctx log.

Definition ack `{Channel} (ctx : Context) (d : Delivery) (s : chst) : chst :=
  match invoke (CAck (d_tag d)) s with
  | (Some err, s) =>
      logged (emit (Ctx ctx) ErrorLevel [("error", Error err)] "acknowledging the message") s
  | (None, s) => s
  end.

Definition publishRaw `{Channel} (exchange routingKey body : string) (headers : Table)
    (expiration : string) (s : chst) : option goerror * chst :=
  match invoke (CPublish exchange routingKey false
                  {| p_content_type := "application/json"; p_persistent := true;
                     p_headers := headers; p_body := body; p_expiration := expiration |}) s with
  | (Some err, s) => (Some (Wrap ("publishing to " ++ Quote routingKey ++ ": ") err), s)
  | (None, s) => (None, s)
  end.

(** [delivery.Nack(false, false)] with its failure logged. *)
Definition nack `{Channel} (ctx : Context) (d : Delivery) (s : chst) : chst :=
  match invoke (CNack (d_tag d) false) s with
  | (Some err, s) =>
      logged (emit (Ctx ctx) ErrorLevel [("error", Error err)] "negatively acknowledging the message") s
  | (None, s) => s
  end.

Definition Milliseconds (d : Z) : Z := Z.quot d Millisecond.

Definition scheduleRetry `{Channel} (c : Consumer) (ctx : Context) (d : Delivery) (o : Outcome)
    (handlerErr : goerror) (s : chst) : chst :=
  let s := logged (emit (Ctx ctx) WarnLevel
             [("error", Error handlerErr); ("attempt", Itoa (Attempt o));
              ("max_attempts", Itoa (MaxAttempts (c_cfg c))); ("retry_in", duration_field (Delay o))]
             "the handler failed, scheduling a retry") s in
  let headers := retryHeaders d (Attempt o) (Error handlerErr) (now_rfc3339 (calls s)) in
  let expiration := Itoa (Milliseconds (Delay o)) in
  match publishRaw "" (RetryQueueName (Name (c_spec c))) (d_body d) headers expiration s with
  | (Some err, s) =>
      nack ctx d (logged (emit (Ctx ctx) ErrorLevel [("error", Error err)]
                            "could not schedule the retry, dead-lettering") s)
  | (None, s) => ack ctx d s
  end.

Definition deadLetter `{Channel} (c : Consumer) (ctx : Context) (d : Delivery) (o : Outcome)
    (handlerErr : goerror) (s : chst) : chst :=
  let s := logged (emit (Ctx ctx) ErrorLevel
             [("error", Error handlerErr); ("attempts", Itoa (Attempt o));
              ("queue", Name (c_spec c)); ("dlq", DLQName (Name (c_spec c)))]
             "attempts exhausted, the message goes to the dead-letter queue") s in
  let headers := retryHeaders d (Attempt o) (Error handlerErr) (now_rfc3339 (calls s)) in
  match publishRaw "" (DLQName (Name (c_spec c))) (d_body d) headers "" s with
  | (Some err, s) =>
      nack ctx d (logged (emit (Ctx ctx) ErrorLevel [("error", Error err)]
                            "could not publish to the DLQ, falling back to nack") s)
  | (None, s) => ack ctx d s
  end.

Abbreviation Handler := (Delivery -> option goerror).

(** The switch on the action; a failed action without an error cannot occur
    ([decide_action]). *)
Definition handle `{Channel, GoPlatform} (c : Consumer) (ctx : Context) (handler : Handler)
    (d : Delivery) (s : chst) : chst :=
  let cfg := c_cfg c in
  let ctx := contextFor c ctx d in
  let handlerErr := handler d in
  let o := AmqpRetry.decide handlerErr (attemptsOf d) (MaxAttempts cfg) (InitialBackoff cfg)
             (MaxBackoff cfg) in
  if (Action o =? ActionAck)%Z then ack ctx d s
  else match handlerErr with
       | None => s
       | Some e => if (Action o =? ActionRetry)%Z then scheduleRetry c ctx d o e s
                   else if (Action o =? ActionDeadLetter)%Z then deadLetter c ctx d o e s
                   else s
       end.

(** What the drain of the deliveries channel observes: a delivery, the library
    closing the channel, or the timer of [drainTimeout]. *)
Inductive drain_event := DDelivery | DClosed | DTimeout.

Definition drainTimeout : Z := 30 * Second.

(** [None]: the drain is still blocked on the channel. *)
Fixpoint drain `{Channel} (c : Consumer) (drained : Z) (evs : list drain_event) (s : chst) : option chst :=
  match evs with
  | [] => None
  | DDelivery :: evs' => drain c (drained + 1) evs' s
  | DClosed :: _ =>
      Some (logged (emit (c_log c) DebugLevel
              [("queue", Name (c_spec c)); ("redelivered", Itoa drained)]
              "the consumer was canceled and its deliveries drained") s)
  | DTimeout :: _ =>
      Some (logged (emit (c_log c) WarnLevel
              [("queue", Name (c_spec c)); ("after", duration_field drainTimeout);
               ("redelivered", Itoa drained)]
              "gave up draining the consumer; the broker did not confirm the cancellation") s)
  end.

Definition cancel `{Channel} (c : Consumer) (s : chst) : chst :=
  if is_closed (calls s) then s
  else match invoke (CCancel (c_tag c)) s with
       | (Some err, s) =>
           logged (emit (c_log c) WarnLevel [("error", Error err); ("queue", Name (c_spec c))]
                     "canceling the consumer") s
       | (None, s) => s
       end.

(** The drain runs while the cancel is in flight; they touch disjoint parts of
    the state, so one order of the two stands for all of them; that each lets the other
    go on is proved in ConsumerShutdown. *)
Definition stop `{Channel} (c : Consumer) (evs : list drain_event) (s : chst) : option chst :=
  drain c 0 evs (cancel c s).

(** The select of the loop: the context ends, a delivery arrives, or the
    deliveries channel is closed. *)
Inductive consume_event := EDone | EDelivery (d : Delivery) | EClosed.

(** [None]: the loop is still waiting.  The result is what [Consume] returns. *)
Fixpoint consume_loop `{Channel, GoPlatform} (c : Consumer) (ctx : Context) (handler : Handler)
    (evs : list consume_event) (draining : list drain_event) (s : chst)
    : option (option goerror * chst) :=
  match evs with
  | [] => None
  | EDone :: _ => match stop c draining s with
                  | Some s => Some (None, s)
                  | None => None
                  end
  | EClosed :: _ => Some (Some ErrConnectionClosed, s)
  | EDelivery d :: evs' => consume_loop c ctx handler evs' draining (handle c ctx handler d s)
  end.

Definition Consume `{Channel, GoPlatform} (c : Consumer) (ctx : Context) (handler : Handler)
    (evs : list consume_event) (draining : list drain_event) (s : chst)
    : option (option goerror * chst) :=
  match invoke (CConsume (Name (c_spec c)) (c_tag c)) s with
  | (Some err, s) =>
      Some (Some (Wrap ("consuming from " ++ Quote (Name (c_spec c)) ++ ": ") err), s)
  | (None, s) =>
      let s := logged (emit (c_log c) InfoLevel
                 [("queue", Name (c_spec c)); ("prefetch", Itoa (Prefetch (c_cfg c)));
                  ("max_attempts", Itoa (MaxAttempts (c_cfg c)))] "consuming") s in
      consume_loop c ctx handler evs draining s
  end.

Definition Consumer_Close `{Channel} (s : chst) : option goerror * chst :=
  match invoke CClose s with
  | (Some err, s) => (Some (Wrap "closing the consumer channel: " err), s)
  | (None, s) => (None, s)
  end.

(** ** What happens to a delivery *)

(** A message republished to the retry queue comes back on the main queue when
    its TTL expires, with its body and headers; the broker may add headers of
    its own ([extra]), assigns a fresh tag, and delivers it under the routing key
    the retry queue dead-letters with, the name of the main queue. *)
Definition redeliver (extra : Table) (queue : string) (tag : Z) (p : Publishing) : Delivery :=
  {| d_headers := p_headers p ∪ extra; d_routing_key := queue; d_body := p_body p; d_tag := tag |}.

Inductive fate :=
| Processed
| Retried (p : Publishing)
| DeadLettered (p : Publishing)
| Rejected.

(** Read off the channel operations of one [handle]. *)
Definition fate_of (c : Consumer) (ops : list call) : fate :=
  match ops with
  | [CAck _] => Processed
  | [CPublish _ key _ p; CAck _] =>
      if String.eqb key (RetryQueueName (Name (c_spec c))) then Retried p else DeadLettered p
  | _ => Rejected
  end.

Definition new_calls (s s' : chst) : list call := drop (List.length (calls s)) (calls s').

(** A message followed through its redeliveries: how many times the handler
    ran and where the message ended.  [None]: more redeliveries than [fuel]. *)
Fixpoint lifecycle `{Channel, GoPlatform} (fuel : nat) (c : Consumer) (ctx : Context)
    (handler : Handler) (extra : Table) (d : Delivery) (s : chst)
    : option (nat * fate * chst) :=
  match fuel with
  | O => None
  | S fuel' =>
      let s' := handle c ctx handler d s in
      match fate_of c (new_calls s s') with
      | Retried p =>
          match lifecycle fuel' c ctx handler extra
                  (redeliver extra (Name (c_spec c)) (d_tag d + 1) p) s' with
          | Some (n, f, s'') => Some (S n, f, s'')
          | None => None
          end
      | f => Some (1%nat, f, s')
      end
  end.

(** ** Lemmas *)

Lemma calls_logged es s : calls (logged es s) = calls s.
Proof. done. Qed.

Lemma new_calls_app s ops l :
  new_calls s {| calls := (calls s ++ ops)%list; logs := l |} = ops.
Proof. unfold new_calls. simpl. by rewrite drop_app_length. Qed.

Lemma names_distinct q : RetryQueueName q <> DLQName q.
Proof.
  unfold RetryQueueName, DLQName. intros H%append_inj_l. done.
Qed.

Lemma decide_action h p m i x :
  let o := AmqpRetry.decide h p m i x in
  Attempt o = int32 (p + 1) /\
  (h = None /\ Action o = ActionAck
   \/ (exists e, h = Some e) /\ (m <= int32 (p + 1))%Z /\ Action o = ActionDeadLetter
   \/ (exists e, h = Some e) /\ (int32 (p + 1) < m)%Z /\ Action o = ActionRetry
      /\ Delay o = backoffFor (int32 (p + 1)) i x).
Proof.
  unfold AmqpRetry.decide. destruct h as [e|]; simpl; [|by split; auto].
  destruct (m <=? int32 (p + 1))%Z eqn:?; zbool; simpl; split; auto.
  - right; left. eauto.
  - right; right. eauto.
Qed.

Lemma calls_ack `{Channel} ctx d s : calls (ack ctx d s) = (calls s ++ [CAck (d_tag d)])%list.
Proof. unfold ack, invoke. by destruct (answer _ _). Qed.

Lemma calls_nack `{Channel} ctx d s :
  calls (nack ctx d s) = (calls s ++ [CNack (d_tag d) false])%list.
Proof. unfold nack, invoke. by destruct (answer _ _). Qed.

Lemma logs_ack `{Channel} ctx d s en : en ∈ logs s -> en ∈ logs (ack ctx d s).
Proof. unfold ack, invoke. destruct (answer _ _); simpl; [|done]. rewrite elem_of_app. auto. Qed.

Lemma logs_nack `{Channel} ctx d s en : en ∈ logs s -> en ∈ logs (nack ctx d s).
Proof. unfold nack, invoke. destruct (answer _ _); simpl; [|done]. rewrite elem_of_app. auto. Qed.

#[local] Hint Resolve logs_ack logs_nack : go.

(** The message a failed delivery is republished as. *)
Definition republished `{Channel} (d : Delivery) (o : Outcome) (e : goerror) (exp : string)
    (s : chst) : Publishing :=
  {| p_content_type := "application/json"; p_persistent := true;
     p_headers := retryHeaders d (Attempt o) (Error e) (now_rfc3339 (calls s));
     p_body := d_body d; p_expiration := exp |}.

Lemma calls_scheduleRetry `{Channel} c ctx d o e s :
  let pub := CPublish "" (RetryQueueName (Name (c_spec c))) false
               (republished d o e (Itoa (Milliseconds (Delay o))) s) in
  calls (scheduleRetry c ctx d o e s) =
    (calls s ++ [pub; match answer (calls s) pub with
                      | None => CAck (d_tag d)
                      | Some _ => CNack (d_tag d) false
                      end])%list.
Proof.
  intros pub. unfold scheduleRetry, publishRaw, invoke. simpl. fold (republished d o e (Itoa (Milliseconds (Delay o))) s).
  fold pub. destruct (answer (calls s) pub); simpl.
  - rewrite calls_nack. simpl. by rewrite <- app_assoc.
  - rewrite calls_ack. simpl. by rewrite <- app_assoc.
Qed.

Lemma calls_deadLetter `{Channel} c ctx d o e s :
  let pub := CPublish "" (DLQName (Name (c_spec c))) false (republished d o e "" s) in
  calls (deadLetter c ctx d o e s) =
    (calls s ++ [pub; match answer (calls s) pub with
                      | None => CAck (d_tag d)
                      | Some _ => CNack (d_tag d) false
                      end])%list.
Proof.
  intros pub. unfold deadLetter, publishRaw, invoke. simpl. fold (republished d o e "" s).
  fold pub. destruct (answer (calls s) pub); simpl.
  - rewrite calls_nack. simpl. by rewrite <- app_assoc.
  - rewrite calls_ack. simpl. by rewrite <- app_assoc.
Qed.

Lemma bindKeys_calls `{Channel} queue exchange keys s r s' :
  bindKeys queue exchange keys s = (r, s') ->
  exists ks, keys = (ks ++ drop (List.length ks) keys)%list
    /\ calls s' = (calls s ++ ((fun k => CQueueBind queue k exchange) <$> ks))%list
    /\ (r = None -> ks = keys).
Proof.
  revert s. induction keys as [|k keys IH]; intros s; simpl.
  - intros [= <- <-]. exists []. simpl. repeat split. by rewrite app_nil_r.
  - destruct (answer (calls s) (CQueueBind queue k exchange)) as [err|] eqn:E; simpl.
    + intros [= <- <-]. exists [k]. simpl. rewrite drop_0. repeat split. done.
    + intros Hb. destruct (IH _ Hb) as (ks & H1 & H2 & H3). exists (k :: ks). simpl.
      split; [by rewrite <- H1|]. split; [rewrite H2; simpl; by rewrite <- app_assoc|].
      intros ->. by rewrite H3.
Qed.

Lemma not_closing (ops : list call) : Forall (fun x => x <> CClose) ops -> CClose ∉ ops.
Proof. induction 1; [apply not_elem_of_nil|]. rewrite elem_of_cons. intros [?|?]; congruence. Qed.

Lemma declareTopology_calls `{Channel} exchange spec s r s' :
  declareTopology exchange spec s = (r, s') ->
  exists ops, calls s' = (calls s ++ ops)%list /\ CClose ∉ ops.
Proof.
  unfold declareTopology, invoke. simpl. intros Hd.
  repeat case_match; simplify_eq/=; rewrite <- ?app_assoc; simpl;
    try (eexists; split; [reflexivity|]; apply not_closing; repeat constructor; done).
  destruct (bindKeys_calls _ _ _ _ _ _ Hd) as (ks & _ & Hk & _). simpl in Hk.
  rewrite <- !app_assoc in Hk. simpl in Hk. eexists. split; [exact Hk|]. apply not_closing.
  repeat (constructor; [done|]). apply Forall_fmap, Forall_true. done.
Qed.

Lemma declareRetryQueue_calls `{Channel} queue s :
  exists ops, calls (snd (declareRetryQueue queue s)) = (calls s ++ ops)%list /\ CClose ∉ ops.
Proof.
  unfold declareRetryQueue, invoke. simpl.
  repeat case_match; simplify_eq/=; [exists []; rewrite app_nil_r|eexists|eexists];
    (split; [reflexivity|]); apply not_closing; repeat constructor; done.
Qed.

(** The trace a successful [NewConsumer] leaves, on a named queue. *)
Lemma NewConsumer_calls `{Channel} cfg spec log uuid s c s' :
  Name spec <> "" -> NewConsumer cfg spec log uuid s = (Ok c, s') ->
  c_spec c = spec /\ c_cfg c = cfg
  /\ calls s' = (calls s ++ [COpen; CExchangeDeclare (Exchange cfg) DefaultExchangeKind true;
                   CQueueDeclare (DLQName (Name spec)) true ∅;
                   CQueueDeclare (Name spec) (Durable spec) (dead_letter_to (DLQName (Name spec)))]
                  ++ ((fun k => CQueueBind (Name spec) k (Exchange cfg)) <$> RoutingKeys spec)
                  ++ [CQueueDeclare (RetryQueueName (Name spec)) true (dead_letter_to (Name spec));
                      CQos (Prefetch cfg)])%list.
Proof.
  intros Hn. unfold NewConsumer, declareTopology, declareRetryQueue.
  rewrite (proj2 (String.eqb_neq _ _) Hn). unfold invoke. simpl.
  repeat case_match; simplify_eq/=; intros; simplify_eq/=.
  match goal with Hb : bindKeys _ _ _ _ = (None, _) |- _ =>
    destruct (bindKeys_calls _ _ _ _ _ _ Hb) as (ks & _ & Hk & Hks); specialize (Hks eq_refl)
  end.
  subst ks. simpl in Hk. repeat split. rewrite Hk. by rewrite <- !app_assoc.
Qed.

Lemma calls_handle_ok `{Channel, GoPlatform} c ctx handler d s :
  handler d = None -> calls (handle c ctx handler d s) = (calls s ++ [CAck (d_tag d)])%list.
Proof.
  intros E. unfold handle. rewrite E. simpl. apply calls_ack.
Qed.

(** The one publication of a failed delivery, by the number of the attempt. *)
Definition failure_publication `{Channel, GoPlatform} (c : Consumer) (d : Delivery) (e : goerror)
    (s : chst) : call :=
  let o := AmqpRetry.decide (Some e) (attemptsOf d) (MaxAttempts (c_cfg c))
             (InitialBackoff (c_cfg c)) (MaxBackoff (c_cfg c)) in
  if (MaxAttempts (c_cfg c) <=? int32 (attemptsOf d + 1))%Z
  then CPublish "" (DLQName (Name (c_spec c))) false (republished d o e "" s)
  else CPublish "" (RetryQueueName (Name (c_spec c))) false
         (republished d o e (Itoa (Milliseconds (Delay o))) s).

Lemma calls_handle_failed `{Channel, GoPlatform} c ctx handler d e s :
  handler d = Some e ->
  calls (handle c ctx handler d s) =
    (calls s ++ [failure_publication c d e s;
                 match answer (calls s) (failure_publication c d e s) with
                 | None => CAck (d_tag d)
                 | Some _ => CNack (d_tag d) false
                 end])%list.
Proof.
  intros E. unfold handle. rewrite E. unfold failure_publication, AmqpRetry.decide.
  destruct (MaxAttempts (c_cfg c) <=? int32 (attemptsOf d + 1))%Z; simpl.
  - apply calls_deadLetter.
  - apply calls_scheduleRetry.
Qed.

Lemma new_calls_handle `{Channel, GoPlatform} c ctx handler d s :
  exists ops, calls (handle c ctx handler d s) = (calls s ++ ops)%list
              /\ new_calls s (handle c ctx handler d s) = ops.
Proof.
  destruct (handler d) as [e|] eqn:E.
  - eexists. split; [by apply calls_handle_failed|].
    unfold new_calls. rewrite (calls_handle_failed _ _ _ _ e) by done. by rewrite drop_app_length.
  - eexists. split; [by apply calls_handle_ok|].
    unfold new_calls. rewrite calls_handle_ok by done. by rewrite drop_app_length.
Qed.

Lemma new_calls_handle_failed `{Channel, GoPlatform} c ctx handler d e s :
  handler d = Some e ->
  new_calls s (handle c ctx handler d s) =
    [failure_publication c d e s;
     match answer (calls s) (failure_publication c d e s) with
     | None => CAck (d_tag d)
     | Some _ => CNack (d_tag d) false
     end].
Proof.
  intros E. unfold new_calls. rewrite (calls_handle_failed _ _ _ _ e) by done.
  by rewrite drop_app_length.
Qed.

(** ** Properties *)

(** C8: every delivery handed to [handle] is settled exactly once, and last:
    with a single [Ack] when the handler succeeded; when it failed, after one
    publication of the same body to the retry or the dead-letter queue, with an
    [Ack] if the library accepted that publication and a [Nack] without requeue
    (the queue's own dead-letter policy) if it did not.  No path drops the
    message, and none acknowledges a failed one that was not republished. *)
Theorem handle_settles_once `{Channel, GoPlatform} c ctx handler d s :
  exists pubs settle,
    calls (handle c ctx handler d s) = (calls s ++ pubs ++ [settle])%list
    /\ match handler d with
       | None => pubs = [] /\ settle = CAck (d_tag d)
       | Some _ =>
           exists key p, pubs = [CPublish "" key false p]
             /\ (key = RetryQueueName (Name (c_spec c)) \/ key = DLQName (Name (c_spec c)))
             /\ p_body p = d_body d /\ p_persistent p = true
             /\ settle = match answer (calls s) (CPublish "" key false p) with
                         | None => CAck (d_tag d)
                         | Some _ => CNack (d_tag d) false
                         end
       end.
Proof.
  destruct (handler d) as [e|] eqn:E.
  - eexists [_], _. split; [by apply calls_handle_failed|].
    unfold failure_publication. case_match; eexists _, _; repeat split; eauto.
  - eexists [], _. split; [by apply calls_handle_ok|done].
Qed.

Section Lifecycle.
Context `{Channel, GoPlatform} (c : Consumer) (ctx : Context) (extra : Table).
Context (h : Z -> option goerror).
Context (publishes_succeed :
  forall tr ex key mandatory p, answer tr (CPublish ex key mandatory p) = None).

(** A handler whose result depends on how many attempts the message has behind it. *)
Let handler : Handler := fun d => h (attemptsOf d).

Lemma lifecycle_processed fuel d s :
  h (attemptsOf d) = None ->
  exists s', lifecycle (S fuel) c ctx handler extra d s = Some (1%nat, Processed, s').
Proof.
  intros Hok. simpl. exists (handle c ctx handler d s).
  unfold new_calls. rewrite calls_handle_ok by done. by rewrite drop_app_length.
Qed.

Lemma lifecycle_dead fuel d s e :
  h (attemptsOf d) = Some e ->
  (MaxAttempts (c_cfg c) <= int32 (attemptsOf d + 1))%Z ->
  exists p s', lifecycle (S fuel) c ctx handler extra d s = Some (1%nat, DeadLettered p, s')
    /\ p_headers p !! HeaderAttempts = Some (VInt32 (int32 (attemptsOf d + 1)))
    /\ p_body p = d_body d.
Proof using publishes_succeed.
  intros He Hm. simpl. rewrite (new_calls_handle_failed _ _ _ _ e) by done.
  unfold failure_publication. rewrite (proj2 (Z.leb_le _ _)) by done.
  rewrite publishes_succeed. simpl.
  rewrite (proj2 (String.eqb_neq _ _)) by (apply not_eq_sym, names_distinct).
  eexists _, _. split; [done|]. simpl. rewrite retryHeaders_lookup.
  unfold AmqpRetry.decide. by rewrite (proj2 (Z.leb_le _ _)).
Qed.

Lemma lifecycle_retry fuel d s e :
  h (attemptsOf d) = Some e -> (0 <= attemptsOf d)%Z ->
  (attemptsOf d + 1 < MaxAttempts (c_cfg c) <= MaxInt32)%Z ->
  exists d' s', attemptsOf d' = (attemptsOf d + 1)%Z /\ d_body d' = d_body d
    /\ lifecycle (S fuel) c ctx handler extra d s =
         match lifecycle fuel c ctx handler extra d' s' with
         | Some (n, f, s'') => Some (S n, f, s'')
         | None => None
         end.
Proof using publishes_succeed.
  intros He Hn Hm. simpl. rewrite (new_calls_handle_failed _ _ _ _ e) by done.
  assert (int32 (attemptsOf d + 1) = attemptsOf d + 1)%Z as Hi
    by (apply int32_id; unfold in_int32, MinInt32, MaxInt32 in *; lia).
  unfold failure_publication. rewrite (proj2 (Z.leb_gt _ _)) by lia.
  rewrite publishes_succeed. simpl. rewrite String.eqb_refl.
  eexists _, _. split; [|split; [|reflexivity]]; [|done].
  apply attemptsOf_header. simpl. apply lookup_union_Some_l.
  rewrite retryHeaders_lookup. simpl. unfold AmqpRetry.decide.
  rewrite (proj2 (Z.leb_gt _ _)) by lia. simpl. by rewrite Hi.
Qed.

Lemma lifecycle_until_dead k fuel d s :
  (0 <= attemptsOf d)%Z -> (attemptsOf d + 1 + Z.of_nat k = MaxAttempts (c_cfg c) /\ MaxAttempts (c_cfg c) <= MaxInt32)%Z ->
  (forall i, (attemptsOf d <= i < MaxAttempts (c_cfg c))%Z -> h i <> None) ->
  (S k <= fuel)%nat ->
  exists p s', lifecycle fuel c ctx handler extra d s = Some (S k, DeadLettered p, s')
    /\ p_headers p !! HeaderAttempts = Some (VInt32 (MaxAttempts (c_cfg c)))
    /\ p_body p = d_body d.
Proof using publishes_succeed.
  revert fuel d s. induction k as [|k IH]; intros fuel d s Hn Hm Hf Hfuel;
    destruct fuel as [|fuel]; try lia; destruct (h (attemptsOf d)) as [e|] eqn:He;
    try (exfalso; apply (Hf (attemptsOf d)); [lia|done]).
  - assert (int32 (attemptsOf d + 1) = MaxAttempts (c_cfg c)) as Hi.
    { rewrite int32_id; unfold in_int32, MinInt32, MaxInt32 in *; lia. }
    destruct (lifecycle_dead fuel d s e) as (p & s' & Hl & Hp & Hb); [done|lia|].
    rewrite Hi in Hp. eauto.
  - destruct (lifecycle_retry fuel d s e) as (d' & s' & Hd' & Hb & Hl); [done|lia|lia|].
    destruct (IH fuel d' s') as (p & s'' & Hl' & Hp & Hb').
    { lia. } { lia. } { intros i ?. apply Hf. lia. } { lia. }
    exists p, s''. rewrite Hl, Hl'. by rewrite Hb'.
Qed.

Lemma lifecycle_until_processed k fuel d s :
  (0 <= attemptsOf d)%Z -> (attemptsOf d + Z.of_nat k < MaxAttempts (c_cfg c) <= MaxInt32)%Z ->
  (forall i, (attemptsOf d <= i < attemptsOf d + Z.of_nat k)%Z -> h i <> None) ->
  h (attemptsOf d + Z.of_nat k)%Z = None ->
  (S k <= fuel)%nat ->
  exists s', lifecycle fuel c ctx handler extra d s = Some (S k, Processed, s').
Proof using publishes_succeed.
  revert fuel d s. induction k as [|k IH]; intros fuel d s Hn Hm Hf Hk Hfuel;
    destruct fuel as [|fuel]; try lia.
  - apply lifecycle_processed. by rewrite Z.add_0_r in Hk.
  - destruct (h (attemptsOf d)) as [e|] eqn:He; [|exfalso; apply (Hf (attemptsOf d)); [lia|done]].
    destruct (lifecycle_retry fuel d s e) as (d' & s' & Hd' & Hb & Hl); [done|lia|lia|].
    destruct (IH fuel d' s') as (s'' & Hl').
    { lia. } { lia. } { intros i ?. apply Hf. lia. }
    { rewrite Hd', <- Hk. f_equal. lia. } { lia. }
    exists s''. by rewrite Hl, Hl'.
Qed.
End Lifecycle.

(** A channel that accepts every operation, and a consumer on it. *)
Definition quiet_channel : Channel := {|
  answer := fun _ _ => None;
  is_closed := fun _ => false;
  now_rfc3339 := fun _ => "2026-01-01T00:00:00Z";
  duration_field := fun d => Itoa d
|}.
Definition amd64 : GoPlatform := {| float_to_int32_oob := fun _ => MinInt32 |}.
Definition sample_log : Logger := {| lg_out := Stdout; lg_level := InfoLevel; lg_fields := [] |}.
Definition sample_consumer : Consumer := {|
  c_cfg := withDefaults {| URL := "amqp://broker"; Exchange := ""; Prefetch := 0; MaxAttempts := 0;
                           InitialBackoff := 0; MaxBackoff := 0; PublishTimeout := 0;
                           ReconnectDelay := 0 |};
  c_spec := {| Name := "mail"; RoutingKeys := ["user.registered"]; Durable := true |};
  c_log := sample_log;
  c_tag := "mail-1"
|}.
Definition no_context : Context := {| ctx_logger := None; ctx_span := None |}.
Definition sample_delivery : Delivery := {|
  d_headers := {[HeaderTraceID := VString "t1"]}; d_routing_key := "user.registered";
  d_body := "{}"; d_tag := 1 |}.
Definition boom : goerror := Sentinel "boom" "boom".
Definition fresh : chst := {| calls := []; logs := [] |}.



(** a handler that fails [k] times and then succeeds, with [k] below
    [MaxAttempts], sees the message [k + 1] times; the message is then
    acknowledged and nothing reaches the dead-letter queue. *)
Theorem transient_failure_processed `{Channel, GoPlatform} c ctx extra h d s k fuel :
  (forall tr ex key mandatory p, answer tr (CPublish ex key mandatory p) = None) ->
  (Z.of_nat k < MaxAttempts (c_cfg c) <= MaxInt32)%Z ->
  d_headers d !! HeaderAttempts = None ->
  (forall i, (0 <= i < Z.of_nat k)%Z -> h i <> None) -> h (Z.of_nat k) = None ->
  (k < fuel)%nat ->
  exists s', lifecycle fuel c ctx (fun d => h (attemptsOf d)) extra d s = Some (S k, Processed, s').
Proof.
  intros Hpub Hm Hd Hf Hk Hfuel.
  assert (attemptsOf d = 0%Z) as Ha by (unfold attemptsOf; by rewrite Hd).
  apply lifecycle_until_processed; rewrite ?Ha; auto; lia.
Qed.

Lemma transient_failure_processed_witness :
  exists s',
    @lifecycle quiet_channel amd64 4 sample_consumer no_context
      (fun d => (fun i : Z => if (i <? 3)%Z then Some boom else None) (@attemptsOf amd64 d))
      ∅ sample_delivery fresh = Some (4%nat, Processed, s').
Proof.
  apply (@transient_failure_processed quiet_channel amd64 sample_consumer no_context ∅
           (fun i : Z => if (i <? 3)%Z then Some boom else None) sample_delivery fresh 3 4).
  - intros; reflexivity.
  - vm_compute. split; [reflexivity|discriminate].
  - reflexivity.
  - intros i Hi. destruct (Z.ltb_spec i 3); [discriminate|lia].
  - reflexivity.
  - lia.
Defined.

(** the queues a consumer publishes to exist.  When [NewConsumer] succeeds
    on a named queue, every publication [handle] ever makes goes through the
    default exchange to a queue that [NewConsumer] declared, the main queue
    dead-letters to the dead-letter queue, and the retry queue dead-letters
    back to the main one (what makes the TTL a backoff). *)
Theorem consumer_publishes_to_declared_queues `{Channel, GoPlatform} cfg spec log uuid s c s' :
  Name spec <> "" -> NewConsumer cfg spec log uuid s = (Ok c, s') ->
  (forall ctx handler d s1 ex key m p,
     CPublish ex key m p ∈ new_calls s1 (handle c ctx handler d s1) ->
     ex = "" /\ exists args, CQueueDeclare key true args ∈ calls s')
  /\ CQueueDeclare (Name spec) (Durable spec) (dead_letter_to (DLQName (Name spec))) ∈ calls s'
  /\ CQueueDeclare (RetryQueueName (Name spec)) true (dead_letter_to (Name spec)) ∈ calls s'.
Proof.
  intros Hn Hnew. destruct (NewConsumer_calls _ _ _ _ _ _ _ Hn Hnew) as (Hspec & _ & Hcalls).
  assert (CQueueDeclare (DLQName (Name spec)) true ∅ ∈ calls s') by (rewrite Hcalls; set_solver).
  assert (CQueueDeclare (RetryQueueName (Name spec)) true (dead_letter_to (Name spec)) ∈ calls s')
    by (rewrite Hcalls; set_solver).
  split; [|split; [rewrite Hcalls; set_solver|done]].
  intros ctx handler d s1 ex key m p Hin.
  destruct (handler d) as [e|] eqn:E.
  - rewrite (new_calls_handle_failed _ _ _ _ e) in Hin by done.
    unfold failure_publication in Hin. rewrite Hspec in Hin.
    apply elem_of_cons in Hin as [Hin|Hin];
      [|by destruct (answer _ _) in Hin; apply list_elem_of_singleton in Hin].
    case_match; simplify_eq; eauto.
  - unfold new_calls in Hin. rewrite calls_handle_ok, drop_app_length in Hin by done.
    by apply list_elem_of_singleton in Hin.
Qed.

Lemma consumer_publishes_to_declared_queues_witness :
  let spec := c_spec sample_consumer in
  exists c s',
    @NewConsumer quiet_channel (c_cfg sample_consumer) spec sample_log "u" fresh = (Ok c, s')
    /\ CQueueDeclare (RetryQueueName (Name spec)) true (dead_letter_to (Name spec)) ∈ calls s'.
Proof.
  eexists _, _. split; [reflexivity|].
  refine (proj2 (proj2 (@consumer_publishes_to_declared_queues quiet_channel amd64
            (c_cfg sample_consumer) (c_spec sample_consumer) sample_log "u" fresh _ _ _ eq_refl))).
  discriminate.
Defined.

(** [NewConsumer] leaks no channel: when it fails after the channel was
    opened, the last thing it does is close it; when it succeeds it has not
    closed it. *)
Theorem NewConsumer_closes_on_failure `{Channel} cfg spec log uuid s :
  match NewConsumer cfg spec log uuid s with
  | (Ok _, s') => exists ops, calls s' = (calls s ++ COpen :: ops)%list /\ CClose ∉ ops
  | (Err _, s') => calls s' = (calls s ++ [COpen])%list /\ answer (calls s) COpen <> None
                   \/ exists ops, calls s' = (calls s ++ COpen :: ops ++ [CClose])%list
  end.
Proof.
  unfold NewConsumer, invoke. simpl.
  destruct (answer (calls s) COpen) as [e|] eqn:Ho; [by left|].
  destruct (declareTopology (Exchange cfg) spec _) as [[e|] s1] eqn:Ht.
  - right. destruct (declareTopology_calls _ _ _ _ _ Ht) as (ops & Hops & _).
    exists ops. simpl in *. rewrite Hops, <- !app_assoc. done.
  - destruct (declareTopology_calls _ _ _ _ _ Ht) as (ops & Hops & Hc).
    destruct (declareRetryQueue_calls (Name spec) s1) as (ops' & Hops' & Hc').
    destruct (declareRetryQueue (Name spec) s1) as [[e|] s2] eqn:Hr; simpl in *.
    + right. exists (ops ++ ops')%list. rewrite Hops', Hops, <- !app_assoc. done.
    + destruct (answer (calls s2) (CQos (Prefetch cfg))) eqn:Hq; simpl.
      * right. exists (ops ++ ops' ++ [CQos (Prefetch cfg)])%list.
        rewrite Hops', Hops, <- !app_assoc. done.
      * exists (ops ++ ops' ++ [CQos (Prefetch cfg)])%list.
        rewrite Hops', Hops, <- !app_assoc. split; [done|].
        by rewrite !not_elem_of_app, list_elem_of_singleton.
Qed.

(** acceptance criterion 4: when the attempts of a message run out, an
    error-level line is logged with the trace id the message carries and the
    handler's error, whatever the channel answers (the logger being enabled at
    error level). *)
Theorem exhausted_message_logged `{Channel, GoPlatform} c ctx handler d s e t :
  handler d = Some e ->
  (MaxAttempts (c_cfg c) <= int32 (attemptsOf d + 1))%Z ->
  d_headers d !! HeaderTraceID = Some (VString t) -> t <> "" ->
  lg_level (c_log c) <> Disabled -> (level_num (lg_level (c_log c)) <= level_num ErrorLevel)%Z ->
  exists en, en ∈ logs (handle c ctx handler d s)
    /\ le_level en = ErrorLevel /\ (FieldTraceID, t) ∈ le_fields en
    /\ ("error", Error e) ∈ le_fields en.
Proof.
  intros He Hm Ht Hne Hd Hl.
  unfold handle. rewrite He. unfold AmqpRetry.decide. rewrite (proj2 (Z.leb_le _ _)) by done. simpl.
  unfold deadLetter, contextFor. rewrite Ht, (proj2 (String.eqb_neq _ _) Hne). cbv zeta.
  match goal with |- context [logged (emit (Ctx ?cx) ErrorLevel ?fs ?msg) s] =>
    rewrite (emit_Ctx cx _ ErrorLevel fs msg eq_refl) by done
  end.
  match goal with |- context [logged [?x] s] => exists x end.
  split; [|simpl; set_solver].
  unfold publishRaw, invoke. simpl. destruct (answer _ _).
  - apply logs_nack. simpl. set_solver.
  - apply logs_ack. simpl. set_solver.
Qed.

Lemma exhausted_message_logged_witness :
  let d := {| d_headers := <[HeaderAttempts := VInt32 4]> {[HeaderTraceID := VString "t1"]};
              d_routing_key := "k"; d_body := "{}"; d_tag := 1 |} in
  exists en, en ∈ logs (@handle quiet_channel amd64 sample_consumer no_context
                          (fun _ => Some boom) d fresh)
    /\ le_level en = ErrorLevel /\ (FieldTraceID, "t1") ∈ le_fields en
    /\ ("error", Error boom) ∈ le_fields en.
Proof.
  intros d.
  apply (@exhausted_message_logged quiet_channel amd64 sample_consumer no_context
           (fun _ => Some boom) d fresh boom "t1"); try discriminate; try reflexivity.
Defined.

(** The next delivery of a message whose handler failed and that is retried. *)
Definition next_delivery `{Channel, GoPlatform} (c : Consumer) (ctx : Context) (handler : Handler)
    (extra : Table) (d : Delivery) (s : chst) : option Delivery :=
  match fate_of c (new_calls s (handle c ctx handler d s)) with
  | Retried p => Some (redeliver extra (Name (c_spec c)) (d_tag d + 1) p)
  | _ => None
  end.

Definition with_key (key : string) (d : Delivery) : Delivery :=
  {| d_headers := d_headers d; d_routing_key := key; d_body := d_body d; d_tag := d_tag d |}.

(** a retry forgets which event it carries.  Two messages that differ only
    in their routing key are the same delivery after one retry: the key becomes
    the name of the queue and no header keeps the original, so a handler of a
    queue bound to several keys cannot tell them apart any more. *)
Theorem retry_forgets_routing_key `{Channel, GoPlatform} c ctx extra d s e k1 k2 :
  next_delivery c ctx (fun _ => Some e) extra (with_key k1 d) s
  = next_delivery c ctx (fun _ => Some e) extra (with_key k2 d) s
  /\ forall d', next_delivery c ctx (fun _ => Some e) extra (with_key k1 d) s = Some d' ->
       d_routing_key d' = Name (c_spec c).
Proof.
  unfold next_delivery. rewrite !(new_calls_handle_failed _ _ _ _ e) by done. split; [done|].
  intros d'. case_match; try done. by intros [= <-].
Qed.
