(* ===== verification/ConsumerShutdown.v ===== *)
(** * pkg/amqp: shutting a consumer down

    The goroutines of consumer.go that take part in a shutdown: the loop of [Consume]
    with [stop] and [cancel], the drain [stop] starts, [Close], and the reader
    [keepDrained] starts.  They meet at the deliveries channel, at the replies to the
    operations that wait for one, and at the mutex [rpc].

    The library and the broker are as consumer.go describes them: one goroutine of the
    library hands over the frames of the connection in order, and waits while nobody
    takes a delivery; a reply goes to whoever waits for one; the reply to a cancel closes
    the deliveries channel, the reply to a close and the loss of the connection close
    the AMQP channel and with it the deliveries channel.  A step is labelled ([ev]), and
    a run is any list of labels, so that every schedule is covered. *)

From stdpp Require Import base list numbers.
From Stdlib Require Import Lia List.
From S2P Require Import Prelude.

(** ** The state *)

Inductive frame := FDelivery | FCancelOk | FCloseOk.

(** The two callers of operations that wait for a reply. *)
Inductive who := ByConsume | ByClose.

#[export] Instance who_eq_dec : EqDecision who.
Proof. solve_decision. Defined.

(** Where [Consume] is: the library has registered the consumer; in the select of the
    loop; in the handler; in [cancel] before the mutex, holding it, waiting for the
    reply; back in [stop], waiting for the drain; returned. *)
Inductive consume_at :=
| CRegistered | CLoop | CHandling | CCancelLock | CCancelCheck | CCancelWait | CWaitDrained | CDone.

(** Where [Close] is: not called; in [keepDrained]; before the mutex, holding it,
    waiting for the reply; in the deferred release; returned. *)
Inductive close_at := KIdle | KStart | KLock | KSend | KWait | KRelease | KDone.

(** A goroutine that reads deliveries. *)
Inductive reader_at := RNone | RReading | RDone.

Record shut := mkShut {
  budget : nat;                (* the deliveries the broker still has for the consumer *)
  requests : list who;         (* written, not yet answered *)
  frames : list frame;         (* sent by the broker, not yet handed over *)
  deliveries_open : bool;
  channel_open : bool;
  lock : option who;           (* the mutex rpc *)
  canceled : bool;             (* the context of Consume *)
  stored : bool;               (* the field deliveries is set *)
  consume : consume_at;
  drainer : reader_at;
  closer : close_at;
  keeper : reader_at;
  halt : bool                  (* the channel halt of keepDrained is closed *)
}.

(** The three precautions of the code, so that the code without one can be run too. *)
Record variant := mkVariant { v_mutex : bool; v_drain_first : bool; v_keep : bool }.

Definition the_code : variant := {| v_mutex := true; v_drain_first := true; v_keep := true |}.

(** Setting a few fields at once. *)
Definition at_consume (c : consume_at) (s : shut) : shut :=
  {| budget := budget s; requests := requests s; frames := frames s;
     deliveries_open := deliveries_open s; channel_open := channel_open s; lock := lock s;
     canceled := canceled s; stored := stored s; consume := c; drainer := drainer s;
     closer := closer s; keeper := keeper s; halt := halt s |}.
Definition at_close (k : close_at) (s : shut) : shut :=
  {| budget := budget s; requests := requests s; frames := frames s;
     deliveries_open := deliveries_open s; channel_open := channel_open s; lock := lock s;
     canceled := canceled s; stored := stored s; consume := consume s; drainer := drainer s;
     closer := k; keeper := keeper s; halt := halt s |}.
Definition with_lock (l : option who) (s : shut) : shut :=
  {| budget := budget s; requests := requests s; frames := frames s;
     deliveries_open := deliveries_open s; channel_open := channel_open s; lock := l;
     canceled := canceled s; stored := stored s; consume := consume s; drainer := drainer s;
     closer := closer s; keeper := keeper s; halt := halt s |}.
Definition with_readers (d k : reader_at) (h : bool) (s : shut) : shut :=
  {| budget := budget s; requests := requests s; frames := frames s;
     deliveries_open := deliveries_open s; channel_open := channel_open s; lock := lock s;
     canceled := canceled s; stored := stored s; consume := consume s; drainer := d;
     closer := closer s; keeper := k; halt := h |}.
Definition with_wire (n : nat) (rs : list who) (fs : list frame) (s : shut) : shut :=
  {| budget := n; requests := rs; frames := fs;
     deliveries_open := deliveries_open s; channel_open := channel_open s; lock := lock s;
     canceled := canceled s; stored := stored s; consume := consume s; drainer := drainer s;
     closer := closer s; keeper := keeper s; halt := halt s |}.
Definition with_open (d c : bool) (s : shut) : shut :=
  {| budget := budget s; requests := requests s; frames := frames s;
     deliveries_open := d; channel_open := c; lock := lock s;
     canceled := canceled s; stored := stored s; consume := consume s; drainer := drainer s;
     closer := closer s; keeper := keeper s; halt := halt s |}.
Definition with_flags (ctx st : bool) (s : shut) : shut :=
  {| budget := budget s; requests := requests s; frames := frames s;
     deliveries_open := deliveries_open s; channel_open := channel_open s; lock := lock s;
     canceled := ctx; stored := st; consume := consume s; drainer := drainer s;
     closer := closer s; keeper := keeper s; halt := halt s |}.

Definition drain_start (s : shut) : shut := with_readers RReading (keeper s) (halt s) s.

(** ** The goroutines *)

(** [rpc.Lock]: [None] while somebody else holds it. *)
Definition acquire (v : variant) (w : who) (s : shut) : option shut :=
  if v_mutex v then match lock s with None => Some (with_lock (Some w) s) | Some _ => None end
  else Some s.

Definition release (v : variant) (s : shut) : shut := if v_mutex v then with_lock None s else s.

(** Writing a request whose reply is waited for. *)
Definition request (w : who) (s : shut) : shut :=
  with_wire (budget s) (requests s ++ [w]) (frames s) s.

(** The branch [<-ctx.Done()] of the loop: [stop] starts the drain and cancels. *)
Definition consume_stop (v : variant) (s : shut) : option shut :=
  match consume s, canceled s with
  | CLoop, true => Some (at_consume CCancelLock (if v_drain_first v then drain_start s else s))
  | _, _ => None
  end.

(** The branch of the loop in which the deliveries channel is closed. *)
Definition consume_closed (s : shut) : option shut :=
  match consume s, deliveries_open s with
  | CLoop, false => Some (at_consume CDone s)
  | _, _ => None
  end.

(** [stop] after [cancel] has returned. *)
Definition cancel_returned (v : variant) (s : shut) : shut :=
  at_consume CWaitDrained (release v (if v_drain_first v then s else drain_start s)).

(** The other steps of [Consume], [stop] and [cancel]. *)
Definition consume_step (v : variant) (s : shut) : option shut :=
  match consume s with
  | CRegistered => Some (at_consume CLoop (with_flags (canceled s) true s))
  | CCancelLock => match acquire v ByConsume s with
                   | Some s' => Some (at_consume CCancelCheck s')
                   | None => None
                   end
  | CCancelCheck => if channel_open s then Some (at_consume CCancelWait (request ByConsume s))
                    else Some (cancel_returned v s)
  | CCancelWait => if channel_open s then None else Some (cancel_returned v s)
  | CWaitDrained => match drainer s with RDone => Some (at_consume CDone s) | _ => None end
  | _ => None
  end.

(** [drain]: the deliveries channel was closed. *)
Definition drain_step (s : shut) : option shut :=
  match drainer s, deliveries_open s with
  | RReading, false => Some (with_readers RDone (keeper s) (halt s) s)
  | _, _ => None
  end.

(** [drain]: the timer of [drainTimeout]. *)
Definition drain_timeout (s : shut) : option shut :=
  match drainer s with
  | RReading => Some (with_readers RDone (keeper s) (halt s) s)
  | _ => None
  end.

(** The goroutine of [keepDrained]: the deliveries channel or [halt] was closed. *)
Definition keep_step (s : shut) : option shut :=
  match keeper s with
  | RReading => if halt s || negb (deliveries_open s)
                then Some (with_readers (drainer s) RDone (halt s) s) else None
  | _ => None
  end.

(** [keepDrained] starts its goroutine when deliveries are stored. *)
Definition keepDrained (v : variant) (s : shut) : shut :=
  if stored s && v_keep v then with_readers (drainer s) RReading (halt s) s else s.

(** [Close]: [keepDrained]; the mutex; the request; the reply or the loss of the channel; the two deferred calls. *)
Definition close_step (v : variant) (s : shut) : option shut :=
  match closer s with
  | KStart => Some (at_close KLock (keepDrained v s))
  | KLock => match acquire v ByClose s with
             | Some s' => Some (at_close KSend s')
             | None => None
             end
  | KSend => if channel_open s then Some (at_close KWait (request ByClose s))
             else Some (at_close KRelease (with_readers (drainer s) (keeper s) true (release v s)))
  | KWait => if channel_open s then None
             else Some (at_close KRelease (with_readers (drainer s) (keeper s) true (release v s)))
  | KRelease => match keeper s with RReading => None | _ => Some (at_close KDone s) end
  | _ => None
  end.

(** ** The library and the broker *)

Inductive reader := ToConsume | ToDrain | ToKeep.

#[export] Instance reader_eq_dec : EqDecision reader.
Proof. solve_decision. Defined.

(** A delivery is handed to a goroutine that reads the channel. *)
Definition hand_over (r : reader) (s : shut) : option shut :=
  match frames s, deliveries_open s with
  | FDelivery :: fs, true =>
      let s' := with_wire (budget s) (requests s) fs s in
      match r with
      | ToConsume => match consume s with CLoop => Some (at_consume CHandling s') | _ => None end
      | ToDrain => match drainer s with RReading => Some s' | _ => None end
      | ToKeep => match keeper s with RReading => Some s' | _ => None end
      end
  | _, _ => None
  end.

(** A delivery for a consumer that is gone is dropped by the library. *)
Definition discard (s : shut) : option shut :=
  match frames s, deliveries_open s with
  | FDelivery :: fs, false => Some (with_wire (budget s) (requests s) fs s)
  | _, _ => None
  end.

(** A reply is taken by one of those who wait: the one it is for goes on, another one
    throws it away and keeps waiting. *)
Definition reply (v : variant) (w : who) (s : shut) : option shut :=
  match frames s, w, consume s, closer s with
  | FCancelOk :: fs, ByConsume, CCancelWait, _ =>
      Some (cancel_returned v (with_open false (channel_open s) (with_wire (budget s) (requests s) fs s)))
  | FCloseOk :: fs, ByClose, _, KWait =>
      Some (at_close KRelease (with_readers (drainer s) (keeper s) true
              (release v (with_open false false (with_wire (budget s) (requests s) fs s)))))
  | FCloseOk :: fs, ByConsume, CCancelWait, _ => Some (with_wire (budget s) (requests s) fs s)
  | FCancelOk :: fs, ByClose, _, KWait => Some (with_wire (budget s) (requests s) fs s)
  | _, _, _, _ => None
  end.

Definition reply_to (w : who) : frame := match w with ByConsume => FCancelOk | ByClose => FCloseOk end.

(** The broker sends another delivery, and none after it has answered. *)
Definition broker_send (s : shut) : option shut :=
  match budget s, channel_open s with
  | S n, true => Some (with_wire n (requests s) (frames s ++ [FDelivery]) s)
  | _, _ => None
  end.

Definition broker_answer (s : shut) : option shut :=
  match requests s, channel_open s with
  | w :: ws, true => Some (with_wire 0 ws (frames s ++ [reply_to w]) s)
  | _, _ => None
  end.

Definition drop_connection (s : shut) : option shut :=
  if channel_open s then Some (with_open false false (with_wire 0 [] [] s)) else None.

(** What can happen.  The first group are circumstances: the context of [Consume] ends,
    [Close] is called, the timer of the drain fires, the connection is lost, the broker
    sends a delivery.  Then a handler returns; and what goroutines, library and broker
    do on their own. *)
Inductive ev :=
| Signal | CloseCalled | TimerFires | Drop | BSend
| HandlerReturns
| BAnswer | Hand (r : reader) | Discard | Reply (w : who)
| ConsumeStop | ConsumeClosed | ConsumeStep | DrainStep | KeepStep | CloseStep.

#[export] Instance ev_eq_dec : EqDecision ev.
Proof. solve_decision. Defined.

Definition step (v : variant) (e : ev) (s : shut) : option shut :=
  match e with
  | Signal => if canceled s then None else Some (with_flags true (stored s) s)
  | CloseCalled => match closer s with KIdle => Some (at_close KStart s) | _ => None end
  | TimerFires => drain_timeout s
  | Drop => drop_connection s
  | BSend => broker_send s
  | HandlerReturns => match consume s with CHandling => Some (at_consume CLoop s) | _ => None end
  | BAnswer => broker_answer s
  | Hand r => hand_over r s
  | Discard => discard s
  | Reply w => reply v w s
  | ConsumeStop => consume_stop v s
  | ConsumeClosed => consume_closed s
  | ConsumeStep => consume_step v s
  | DrainStep => drain_step s
  | KeepStep => keep_step s
  | CloseStep => close_step v s
  end.

Fixpoint run (v : variant) (es : list ev) (s : shut) : option shut :=
  match es with
  | [] => Some s
  | e :: es' => match step v e s with Some s' => run v es' s' | None => None end
  end.

(** [Consume] has registered a consumer for which the broker has [n] deliveries. *)
Definition start (n : nat) : shut :=
  {| budget := n; requests := []; frames := []; deliveries_open := true; channel_open := true;
     lock := None; canceled := false; stored := false; consume := CRegistered; drainer := RNone;
     closer := KIdle; keeper := RNone; halt := false |}.

(** What happens without anybody's doing. *)
Definition on_its_own (e : ev) : bool :=
  match e with Signal | CloseCalled | TimerFires | Drop | BSend => false | _ => true end.

Definition all_events : list ev :=
  [Signal; CloseCalled; TimerFires; Drop; BSend; HandlerReturns; BAnswer; Hand ToConsume; Hand ToDrain;
   Hand ToKeep; Discard; Reply ByConsume; Reply ByClose; ConsumeStop; ConsumeClosed; ConsumeStep;
   DrainStep; KeepStep; CloseStep].

(** Nothing moves on its own. *)
Definition at_rest (v : variant) (s : shut) : bool :=
  forallb (fun e => negb (on_its_own e) || match step v e s with None => true | Some _ => false end)
    all_events.

(** ** Every run ends *)

Definition consume_rank (c : consume_at) : nat :=
  match c with
  | CRegistered => 10 | CHandling => 10 | CLoop => 9 | CCancelLock => 7 | CCancelCheck => 6
  | CCancelWait => 3 | CWaitDrained => 1 | CDone => 0
  end.
Definition close_rank (k : close_at) : nat :=
  match k with
  | KIdle => 9 | KStart => 8 | KLock => 6 | KSend => 5 | KWait => 2 | KRelease => 1 | KDone => 0
  end.
Definition reader_rank (r : reader_at) : nat := match r with RNone => 2 | RReading => 1 | RDone => 0 end.
Definition frame_rank (f : frame) : nat := match f with FDelivery => 2 | _ => 1 end.
Definition frames_rank (fs : list frame) : nat := list_sum (map frame_rank fs).

#[global] Arguments frames_rank : simpl never.

(** How much can still happen. *)
Definition measure (s : shut) : nat :=
  3 * budget s + 2 * List.length (requests s) + frames_rank (frames s)
  + Nat.b2n (negb (canceled s)) + Nat.b2n (channel_open s)
  + consume_rank (consume s) + close_rank (closer s) + reader_rank (drainer s) + reader_rank (keeper s).

Lemma frames_rank_snoc fs f : frames_rank (fs ++ [f]) = frames_rank fs + frame_rank f.
Proof. unfold frames_rank. rewrite map_app, list_sum_app. simpl. lia. Qed.

Lemma frames_rank_cons f fs : frames_rank (f :: fs) = frame_rank f + frames_rank fs.
Proof. done. Qed.

(** Unfolds a step of the system into its cases. *)
Ltac steps :=
  unfold step, consume_stop, consume_closed, consume_step, drain_step, drain_timeout, keep_step, close_step, keepDrained,
    hand_over, discard, reply, broker_send, broker_answer, drop_connection, acquire, cancel_returned,
    release, request, drain_start;
  let Hs := fresh in
  intros Hs; simpl in Hs;
  repeat match type of Hs with
         | context [match ?x with _ => _ end] =>
             lazymatch x with
             | context [match _ with _ => _ end] => fail
             | _ => first [is_var x; destruct x | destruct x eqn:?]
             end
         end;
  simplify_eq/=.

Lemma step_decreases v e s s' : step v e s = Some s' -> measure s' < measure s.
Proof.
  destruct s as [bu rs fs dopen copen lk cn sto co dr cl ke ha]. destruct e; steps; unfold measure; simpl;
    rewrite ?frames_rank_snoc, ?frames_rank_cons, ?length_app; simpl; try lia;
    match goal with |- context [frame_rank (reply_to ?w)] => destruct w; simpl; lia end.
Qed.

Lemma run_bounded v es : forall s s', run v es s = Some s' -> List.length es + measure s' <= measure s.
Proof.
  induction es as [|e es IH]; intros s s'; cbn [run]; [intros [= <-]; simpl; lia|].
  destruct (step v e s) as [s1|] eqn:Hs; [|done]. intros Hr%IH. apply step_decreases in Hs. simpl. lia.
Qed.

(** ** No deadlock *)

Definition consume_holds (c : consume_at) : bool :=
  match c with CCancelCheck | CCancelWait => true | _ => false end.
Definition close_holds (k : close_at) : bool := match k with KSend | KWait => true | _ => false end.

(** The mutex is held by the one who is between taking and releasing it. *)
Definition lock_ok (s : shut) : Prop :=
  match consume_holds (consume s), close_holds (closer s) with
  | true, true => False
  | true, false => lock s = Some ByConsume
  | false, true => lock s = Some ByClose
  | false, false => lock s = None
  end.

Definition only_deliveries (fs : list frame) : Prop := Forall (fun f => f = FDelivery) fs.

(** Who waits for a reply. *)
Definition awaited (s : shut) : option who :=
  match consume s, closer s with
  | CCancelWait, _ => Some ByConsume
  | _, KWait => Some ByClose
  | _, _ => None
  end.

(** At most one request is under way: unanswered, or with its reply behind deliveries
    and nothing more to come. *)
Definition rpc_ok (w : option who) (n : nat) (rs : list who) (fs : list frame) : Prop :=
  match w with
  | None => rs = [] /\ only_deliveries fs
  | Some w => rs = [w] /\ only_deliveries fs
              \/ rs = [] /\ n = 0 /\ exists ds, fs = ds ++ [reply_to w] /\ only_deliveries ds
  end.

Definition wire_ok (s : shut) : Prop :=
  channel_open s = true -> rpc_ok (awaited s) (budget s) (requests s) (frames s).

(** The drain was started before [cancel], and when the other goroutines stop reading the
    channel is closed. *)
Definition readers_ok (s : shut) : Prop :=
  (channel_open s = false -> deliveries_open s = false)
  /\ match consume s with
     | CCancelLock | CCancelCheck | CCancelWait => drainer s <> RNone
     | CWaitDrained => drainer s <> RNone /\ deliveries_open s = false
     | CDone => deliveries_open s = false
     | _ => True
     end
  /\ (stored s = false -> consume s = CRegistered)
  /\ match closer s with
     | KIdle | KStart => halt s = false /\ keeper s = RNone
     | KLock | KSend | KWait => halt s = false /\ (keeper s = RDone -> deliveries_open s = false)
     | KRelease => halt s = true /\ channel_open s = false
     | KDone => channel_open s = false
     end.

Definition inv (s : shut) : Prop := lock_ok s /\ wire_ok s /\ readers_ok s.

(** Somebody reads the deliveries while [cancel] is under way: so it is until the timer of
    the drain fires. *)
Definition attended (s : shut) : Prop :=
  match consume s with
  | CCancelLock | CCancelCheck | CCancelWait => drainer s = RReading \/ deliveries_open s = false
  | _ => True
  end.

Definition no_timeout (e : ev) : bool := match e with TimerFires => false | _ => true end.

Lemma start_inv n : inv (start n).
Proof.
  split; [done|]. split; [intros _; split; [done|constructor]|]. by split_and!.
Qed.

Lemma step_lock e s s' : step the_code e s = Some s' -> lock_ok s -> lock_ok s'.
Proof.
  destruct s as [bu rs fs dopen copen lk cn sto co dr cl ke ha]. unfold lock_ok. simpl.
  destruct e; steps; try done; try (by destruct cl); try (by destruct co).
Qed.

Lemma step_readers e s s' : step the_code e s = Some s' -> readers_ok s -> readers_ok s'.
Proof.
  destruct s as [bu rs fs dopen copen lk cn sto co dr cl ke ha]. unfold readers_ok. simpl.
  destruct e; steps; intros (H1 & H2 & H3 & H4); split_and!; try done; try tauto;
    try (by destruct cl); try (by destruct co);
    first [intuition congruence | destruct co; intuition congruence | destruct cl; intuition congruence
      | destruct ha, dopen, cl; simpl in *; intuition congruence].
Qed.

Lemma step_attended e s s' : step the_code e s = Some s' -> no_timeout e = true -> attended s -> attended s'.
Proof.
  destruct s as [bu rs fs dopen copen lk cn sto co dr cl ke ha]. unfold attended. simpl.
  destruct e; steps; intros Hn Ha; try done; try (by destruct co); auto; destruct co; tauto.
Qed.

Lemma only_snoc fs : only_deliveries fs -> only_deliveries (fs ++ [FDelivery]).
Proof. intros. by apply Forall_app_2; [|repeat constructor]. Qed.

Lemma only_tail f fs : only_deliveries (f :: fs) -> f = FDelivery /\ only_deliveries fs.
Proof. by inversion 1. Qed.

Lemma rpc_send w n rs fs : rpc_ok w (S n) rs fs -> rpc_ok w n rs (fs ++ [FDelivery]).
Proof.
  destruct w; [intros [[-> ?]|(_ & [=] & _)]; left|intros [-> ?]]; split; auto using only_snoc.
Qed.

Lemma rpc_answer w n w' ws fs : rpc_ok w n (w' :: ws) fs -> rpc_ok w 0 ws (fs ++ [reply_to w']).
Proof. destruct w; [intros [[[= -> ->] ?]|([=] & _)]; right|by intros []]. split_and!; eauto. Qed.

Lemma rpc_request w n rs fs : rpc_ok None n rs fs -> rpc_ok (Some w) n (rs ++ [w]) fs.
Proof. intros [-> ?]. by left. Qed.

(** The first frame of a reply behind deliveries. *)
Lemma rpc_head w n rs f fs : rpc_ok w n rs (f :: fs) ->
  f = FDelivery /\ rpc_ok w n rs fs \/ (exists w', w = Some w' /\ f = reply_to w') /\ rpc_ok None n rs fs.
Proof.
  destruct w as [w|]; simpl; [|intros [-> [-> ?]%only_tail]; auto].
  intros [[-> [-> ?]%only_tail]|(-> & -> & [|d ds] & [= -> ->] & Hd)]; [by auto| |].
  - right. split; [by eauto|]. by split; [|constructor].
  - apply only_tail in Hd as [-> ?]. left. split; [done|]. right. split_and!; eauto.
Qed.

Lemma rpc_take w n rs fs : rpc_ok w n rs (FDelivery :: fs) -> rpc_ok w n rs fs.
Proof. intros [[_ ?]|[([] & _ & [=]) _]]%rpc_head; done. Qed.

Lemma rpc_reply w n rs f fs : rpc_ok w n rs (f :: fs) -> f <> FDelivery ->
  exists w', w = Some w' /\ f = reply_to w' /\ rpc_ok None n rs fs.
Proof. intros [[-> _]|[(w' & -> & ->) ?]]%rpc_head Hf; [done|eauto]. Qed.

#[global] Arguments rpc_ok : simpl never.

Lemma step_wire e s s' : step the_code e s = Some s' -> lock_ok s -> wire_ok s -> wire_ok s'.
Proof.
  destruct s as [bu rs fs dopen copen lk cn sto co dr cl ke ha]. unfold lock_ok, wire_ok, awaited. simpl.
  destruct e; steps; intros Hl Hw Ho; try done; try specialize (Hw Ho);
    eauto using rpc_send, rpc_answer, rpc_take; try (by destruct cl); try (by destruct co);
    try (apply rpc_reply in Hw as (w' & Ew & Ef & Hw); [|done]; destruct w'; try done);
    try destruct co; try destruct cl; try done; eauto using rpc_request.
Qed.

Lemma step_inv e s s' : step the_code e s = Some s' -> inv s -> inv s'.
Proof. intros Hs (? & ? & ?). split_and!; eauto using step_lock, step_wire, step_readers. Qed.

Lemma run_inv es : forall s s', run the_code es s = Some s' -> inv s -> inv s'.
Proof.
  induction es as [|e es IH]; intros s s'; cbn [run]; [by intros [= <-]|].
  destruct (step the_code e s) eqn:Hs; [|done]. eauto using step_inv.
Qed.

Lemma run_attended es : forall s s', (TimerFires ∉ es) -> run the_code es s = Some s' -> attended s -> attended s'.
Proof.
  induction es as [|e es IH]; intros s s' Hn; cbn [run]; [by intros [= <-]|].
  apply not_elem_of_cons in Hn as [He Hn]. destruct (step the_code e s) eqn:Hs; [|done].
  intros Hr Ha. eapply IH; [done..|]. eapply step_attended; [done| |done]. by destruct e.
Qed.

Lemma at_rest_spec v s e : at_rest v s = true -> on_its_own e = true -> step v e s = None.
Proof.
  unfold at_rest. rewrite forallb_forall. intros Hr He.
  assert (Hin : In e all_events) by (destruct e; repeat (destruct r || destruct w); simpl; tauto).
  specialize (Hr e Hin). rewrite He in Hr. by destruct (step v e s).
Qed.

(** A state in which nothing but a handler moves. *)
Definition quiet (s : shut) : Prop :=
  forall e, on_its_own e = true -> e <> HandlerReturns -> step the_code e s = None.

(** The one way a shutdown hangs: the drain of [Consume] has given up, [Close] does not
    read either, a delivery is next on the connection, and the reply behind it is waited
    for by [cancel], or by [Close] with [cancel] waiting for the mutex. *)
Definition stuck (s : shut) : Prop :=
  drainer s = RDone /\ keeper s = RNone /\ deliveries_open s = true
  /\ (consume s = CCancelWait \/ consume s = CCancelLock /\ closer s = KWait)
  /\ exists fs, frames s = FDelivery :: fs.

Section Quiet.
Context (s : shut) (Hinv : inv s) (Hquiet : quiet s).

(** A call still waits only behind a delivery nobody takes. *)
Lemma waiting_blocked w : awaited s = Some w -> channel_open s = true ->
  deliveries_open s = true /\ drainer s <> RReading /\ keeper s <> RReading /\ consume s <> CLoop
  /\ exists fs, frames s = FDelivery :: fs.
Proof using Hinv Hquiet.
  intros Hw Ho. destruct Hinv as (_ & Hwire & _). specialize (Hwire Ho). rewrite Hw in Hwire.
  pose proof (Hquiet BAnswer eq_refl ltac:(done)) as Hb. cbn in Hb. unfold broker_answer in Hb. rewrite Ho in Hb.
  destruct Hwire as [[Hr _]|(Hr & _ & ds & Hf & Hds)]; rewrite Hr in Hb; [done|].
  pose proof (Hquiet (Reply w) eq_refl ltac:(done)) as Hrep. cbn in Hrep. unfold reply in Hrep.
  pose proof (Hquiet Discard eq_refl ltac:(done)) as Hd. cbn in Hd. unfold discard in Hd.
  pose proof (fun r => Hquiet (Hand r) eq_refl ltac:(done)) as Hh. cbn in Hh. unfold hand_over in Hh.
  rewrite Hf in *. destruct ds as [|d ds].
  - exfalso. unfold awaited in Hw. destruct (consume s), (closer s), w; simplify_eq/=.
  - apply only_tail in Hds as [-> _]. simpl in Hd, Hh. destruct (deliveries_open s); [|done].
    split; [done|]. pose proof (Hh ToConsume). pose proof (Hh ToDrain). pose proof (Hh ToKeep). simpl in *.
    split_and!; [by repeat case_match..|eauto].
Qed.

Lemma waiting_stuck w : awaited s = Some w -> channel_open s = true -> drainer s <> RNone ->
  consume s = CCancelWait \/ consume s = CCancelLock /\ closer s = KWait -> stuck s.
Proof using Hinv Hquiet.
  intros Hw Ho Hdr Hc. destruct (waiting_blocked w Hw Ho) as (Hd & Hr & Hk & _ & Hfs).
  destruct Hinv as (_ & _ & (_ & _ & _ & Hcl)). split; [by destruct (drainer s)|].
  split; [|by split_and!]. destruct (keeper s) eqn:Ek; [done|done|]. exfalso.
  destruct (closer s); intuition congruence.
Qed.

(** [cancel] comes to its end, or hangs. *)
Lemma not_in_cancel : consume s <> CCancelCheck /\ (consume s = CCancelWait -> stuck s).
Proof using Hinv Hquiet.
  pose proof (Hquiet ConsumeStep eq_refl ltac:(done)) as Hc. cbn in Hc. unfold consume_step in Hc.
  split; intros E; rewrite E in Hc; destruct (channel_open s) eqn:Ho; try done.
  destruct Hinv as (_ & _ & (_ & Hr & _)). rewrite E in Hr.
  apply (waiting_stuck ByConsume); [unfold awaited; by rewrite E|done|done|by left].
Qed.

(** [Close] comes to its end, unless it waits for a handler with nobody else to read. *)
Lemma close_ends :
  closer s = KIdle \/ closer s = KDone \/ (consume s = CHandling /\ keeper s = RNone) \/ stuck s.
Proof using Hinv Hquiet.
  destruct not_in_cancel as [Hn1 Hn2]. destruct Hinv as (Hl & _ & (_ & Hc & Hst & Hk)). unfold lock_ok in Hl.
  pose proof (Hquiet CloseStep eq_refl ltac:(done)) as Hs. cbn in Hs. unfold close_step, acquire in Hs. cbn in Hs.
  pose proof (Hquiet KeepStep eq_refl ltac:(done)) as Hks. cbn in Hks. unfold keep_step in Hks.
  pose proof (Hquiet ConsumeStep eq_refl ltac:(done)) as Hcs. cbn in Hcs. unfold consume_step in Hcs.
  destruct (closer s) eqn:Ek; simpl in *; auto; try done.
  - destruct (consume s); simpl in *; try done; try (rewrite Hl in Hs; done). auto.
  - by destruct (channel_open s).
  - destruct (channel_open s) eqn:Ho; [|done]. right; right.
    destruct (waiting_blocked ByClose) as (Hd & Hdr & Hke & Hcl & _);
      [unfold awaited; rewrite Ek; by destruct (consume s)|done|].
    destruct (consume s) eqn:Ec; simpl in *; try congruence; try (intuition congruence).
    + left. split; [done|]. destruct (keeper s); try done. destruct Hk as [_ Hk]. by rewrite (Hk eq_refl) in Hd.
    + right. apply (waiting_stuck ByClose); [unfold awaited; by rewrite Ec, Ek|done|done|by right].
  - destruct (keeper s); try done. destruct Hk as [Hh _]. by rewrite Hh in Hks.
Qed.

(** And [Consume], once its context has ended or [Close] has returned. *)
Lemma consume_ends : canceled s = true \/ closer s = KDone -> consume s = CDone \/ consume s = CHandling
  \/ closer s = KSend \/ closer s = KWait \/ stuck s.
Proof using Hinv Hquiet.
  intros Hwhy. destruct not_in_cancel as [Hn1 Hn2]. destruct Hinv as (Hl & _ & (Hopen & Hc & _ & Hk)). unfold lock_ok in Hl.
  pose proof (Hquiet ConsumeStep eq_refl ltac:(done)) as Hs. cbn in Hs. unfold consume_step, acquire in Hs. cbn in Hs.
  pose proof (Hquiet ConsumeStop eq_refl ltac:(done)) as H1. cbn in H1. unfold consume_stop in H1.
  pose proof (Hquiet ConsumeClosed eq_refl ltac:(done)) as H2. cbn in H2. unfold consume_closed in H2.
  pose proof (Hquiet DrainStep eq_refl ltac:(done)) as H3. cbn in H3. unfold drain_step in H3.
  destruct (consume s) eqn:Ec; simpl in *; auto 6; try done.
  - destruct Hwhy as [E|E]; [by rewrite E in H1|]. rewrite E in Hk. rewrite (Hopen Hk) in H2. done.
  - destruct (closer s); simpl in *; auto; rewrite Hl in Hs; done.
  - destruct Hc as [Hdr Hd]. rewrite Hd in H3. by destruct (drainer s).
Qed.

(** At rest, with no handler running, a shutdown that was asked for is complete. *)
Lemma rest_completes : consume s <> CHandling ->
  (closer s <> KIdle -> closer s = KDone) /\ (canceled s = true \/ closer s <> KIdle -> consume s = CDone)
  \/ stuck s.
Proof using Hinv Hquiet.
  intros Hh. destruct close_ends as [E|[E|[[E _]|E]]]; [| |done|by right].
  - destruct (base.decide (canceled s = true)) as [Hc|Hc].
    + destruct (consume_ends (or_introl Hc)) as [?|[?|[?|[?|?]]]]; try congruence; [left; by split|by right].
    + left. split; [done|]. by intros [?|?].
  - destruct (consume_ends (or_intror E)) as [?|[?|[?|[?|?]]]]; try congruence; [left; by split|by right].
Qed.

(** With a reader during [cancel] it does not hang. *)
Lemma attended_not_stuck : attended s -> ~ stuck s.
Proof.
  unfold attended. intros Ha (Hd & _ & Ho & [E|[E _]] & _); rewrite E in Ha; destruct Ha; congruence.
Qed.
End Quiet.

Lemma at_rest_quiet s : at_rest the_code s = true -> quiet s /\ consume s <> CHandling.
Proof.
  intros Hr. split; [intros e He _; by eapply at_rest_spec|]. intros E.
  pose proof (at_rest_spec the_code s HandlerReturns Hr eq_refl) as Hh. cbn in Hh. by rewrite E in Hh.
Qed.

(** C9: shutting a consumer down completes, unless the drain gives up.  Whatever the
    schedule of the goroutines, of the library and of the broker, with deliveries under
    way, handlers running, the connection lost at any point, the timer of the drain firing
    at any point, and [Close] called before, while or after [Consume] stops: a run takes at
    most [3 n + 25] steps, where [n] is the number of deliveries the broker has; and when
    nothing moves any more, [Close] has returned if it was called, and [Consume] has
    returned if its context ended or [Close] was called; or else the timer of the drain
    had fired, and a delivery nobody reads any more is in front of the reply that [cancel]
    waits for, or that [Close] waits for while [cancel] waits for the mutex. *)
Theorem shutdown_completes n es s :
  run the_code es (start n) = Some s ->
  List.length es <= 3 * n + 25
  /\ (at_rest the_code s = true ->
      ((closer s <> KIdle -> closer s = KDone)
       /\ (canceled s = true \/ closer s <> KIdle -> consume s = CDone))
      \/ (TimerFires ∈ es /\ stuck s)).
Proof.
  intros Hr. split.
  { apply run_bounded in Hr. change (measure (start n)) with (3 * n + 2 * 0 + 0 + 1 + 1 + 10 + 9 + 2 + 2) in Hr. lia. }
  intros Hrest. destruct (at_rest_quiet s Hrest) as [Hq Hh].
  destruct (rest_completes s (run_inv es _ _ Hr (start_inv n)) Hq Hh) as [?|Hst]; [by left|right].
  split; [|done]. destruct (base.decide (TimerFires ∈ es)) as [?|Hn]; [done|].
  by apply (attended_not_stuck s) in Hst; [|apply (run_attended es _ _ Hn Hr)].
Qed.

(** Both are asked for while two deliveries are under way, [Close] first. *)
Definition busy_shutdown : list ev :=
  [ConsumeStep; BSend; BSend; CloseCalled; CloseStep; CloseStep; CloseStep; Signal; ConsumeStop; BAnswer;
   Hand ToKeep; Hand ToDrain; Reply ByClose; DrainStep; ConsumeStep; ConsumeStep; ConsumeStep;
   KeepStep; CloseStep].

Definition after (v : variant) (es : list ev) (n : nat) : shut := default (start n) (run v es (start n)).

Lemma shutdown_completes_witness :
  run the_code busy_shutdown (start 3) = Some (after the_code busy_shutdown 3)
  /\ at_rest the_code (after the_code busy_shutdown 3) = true
  /\ (closer (after the_code busy_shutdown 3) = KDone /\ consume (after the_code busy_shutdown 3) = CDone
      \/ (TimerFires ∈ busy_shutdown /\ stuck (after the_code busy_shutdown 3))).
Proof.
  assert (Hr : run the_code busy_shutdown (start 3) = Some (after the_code busy_shutdown 3))
    by (vm_compute; reflexivity).
  assert (Ha : at_rest the_code (after the_code busy_shutdown 3) = true) by (vm_compute; reflexivity).
  split; [exact Hr|]. split; [exact Ha|].
  destruct (shutdown_completes 3 busy_shutdown _ Hr) as [_ H].
  destruct (H Ha) as [[Hk Hc]|Hst]; [left|right; exact Hst].
  split; [apply Hk; vm_compute; discriminate|apply Hc; left; vm_compute; reflexivity].
Defined.

(** C10: [Close] does not wait for a handler: once it has found the deliveries of a
    running [Consume] and keeps them moving, it returns even if the handler never does. *)
Theorem close_ignores_handler n es s :
  run the_code es (start n) = Some s ->
  quiet s -> keeper s <> RNone -> closer s = KDone.
Proof.
  intros Hr Hq Hk. pose proof (run_inv es _ _ Hr (start_inv n)) as Hinv.
  destruct (close_ends s Hinv Hq) as [E|[E|[[_ E]|(_ & E & _)]]]; [|done|done|done].
  destruct Hinv as (_ & _ & (_ & _ & _ & Hc)). rewrite E in Hc. by destruct Hc.
Qed.

(** The handler has the first delivery and does not return; the second is on its way. *)
Definition stuck_handler : list ev :=
  [ConsumeStep; BSend; BSend; Hand ToConsume; CloseCalled; CloseStep; CloseStep; CloseStep; BAnswer;
   Hand ToKeep; Reply ByClose; KeepStep; CloseStep].

Lemma close_ignores_handler_witness :
  run the_code stuck_handler (start 2) = Some (after the_code stuck_handler 2)
  /\ consume (after the_code stuck_handler 2) = CHandling
  /\ closer (after the_code stuck_handler 2) = KDone.
Proof.
  assert (Hr : run the_code stuck_handler (start 2) = Some (after the_code stuck_handler 2))
    by (vm_compute; reflexivity).
  split; [exact Hr|]. split; [vm_compute; reflexivity|].
  apply (close_ignores_handler 2 stuck_handler _ Hr).
  - intros e He Hne. destruct e as [| | | | | | |[]| |[]| | | | | |];
      first [discriminate He | vm_compute; reflexivity | contradict Hne; reflexivity].
  - vm_compute. discriminate.
Defined.

(** Each of the three precautions of the code is needed.  Without the mutex, the
    cancel and the close take each other's reply and both wait forever; with the cancel
    before the drain, the reply to the cancel stays behind a delivery nobody reads;
    without [keepDrained], a [Close] that wins the mutex waits behind a delivery once the
    drain of [Consume] has given up.  In each run nothing moves any more, a shutdown was
    asked for, and it has not completed. *)
Theorem precautions_needed :
  let mutex := after {| v_mutex := false; v_drain_first := true; v_keep := true |}
    [ConsumeStep; Signal; ConsumeStop; CloseCalled; CloseStep; ConsumeStep; ConsumeStep; CloseStep; CloseStep;
     BAnswer; BAnswer; Reply ByClose; Reply ByConsume] 0 in
  let late := after {| v_mutex := true; v_drain_first := false; v_keep := true |}
    [ConsumeStep; BSend; Signal; ConsumeStop; ConsumeStep; ConsumeStep; BAnswer] 1 in
  let alone := after {| v_mutex := true; v_drain_first := true; v_keep := false |}
    [ConsumeStep; BSend; CloseCalled; CloseStep; CloseStep; CloseStep; Signal; ConsumeStop; TimerFires;
     BAnswer] 1 in
  (at_rest {| v_mutex := false; v_drain_first := true; v_keep := true |} mutex = true
   /\ consume mutex = CCancelWait /\ closer mutex = KWait)
  /\ (at_rest {| v_mutex := true; v_drain_first := false; v_keep := true |} late = true
      /\ consume late = CCancelWait /\ canceled late = true)
  /\ (at_rest {| v_mutex := true; v_drain_first := true; v_keep := false |} alone = true
      /\ closer alone = KWait /\ consume alone = CCancelLock).
Proof. split_and!; vm_compute; reflexivity. Qed.

(** The timeout of the drain does not bound the shutdown, which is what its comment
    says it is for.  When the broker does not confirm the cancellation, the drain gives
    up after [drainTimeout], but [cancel] itself waits for the reply: [Consume] does not
    return until the broker answers.  And when the answer comes late, behind one more
    delivery, nobody reads that delivery any more, and [Consume] never returns. *)
Theorem drain_timeout_does_not_bound :
  let asked := [ConsumeStep; Signal; ConsumeStop; ConsumeStep; ConsumeStep; TimerFires] in
  let silent := after the_code asked 1 in
  let slow := after the_code (asked ++ [BSend; BAnswer]) 1 in
  (drainer silent = RDone /\ consume silent = CCancelWait
   /\ forall e, on_its_own e = true -> e <> BAnswer -> step the_code e silent = None)
  /\ (consume slow = CCancelWait /\ at_rest the_code slow = true).
Proof.
  split_and!; try (vm_compute; reflexivity). intros e He Hne.
  destruct e as [| | | | | | |[]| |[]| | | | | |]; first [discriminate He | vm_compute; reflexivity | done].
Qed.
