(* ===== verification/AmqpBroker.v ===== *)
(** * The consumers and the broker

    What becomes of the messages of a queue, with the broker in the picture: any
    number of consumers on channels of their own treat deliveries with [handle]
    (AmqpConsumer), the operations that leaves on the wire reach the broker one by one
    or are lost with the channel, the broker redelivers what was not acknowledged, and
    the retry queue sends what expired back to the main one.

    RabbitMQ is a parameter: [Broker] is what can be observed of it and [BrokerSpec] its
    documented behaviour, as far as pkg/amqp relies on it.  [memory_broker] (MemoryBroker)
    keeps that promise. *)

From stdpp Require Import base list gmap sets strings numbers.
From Stdlib Require Import ZArith Lia String.
From S2P Require Import Prelude GoStrings GoErrors Backoff Logger AmqpRetry AmqpConsumer.

Local Open Scope string_scope.

(** ** What the consumer relies on *)

(** A message in a queue: the routing key it was published under, and what was
    published. *)
Record Message := mkMessage { m_key : string; m_pub : Publishing }.

Definition body_of (m : Message) : string := p_body (m_pub m).
Definition expiration_of (m : Message) : string := p_expiration (m_pub m).

(** What the broker does: it carries out an operation of channel [i], hands a ready
    message to the consumer of channel [i], lets a message expire, places a message
    somebody published in a queue, or finds channel [i] gone. *)
Inductive blabel :=
| BFrame (i : nat) (c : call)
| BDeliver (i : nat) (tag : Z) (queue : string) (m : Message)
| BExpire (queue : string) (m : Message)
| BRouted (queue : string) (m : Message)
| BLost (i : nat).

(** [bexec] is [None] for what the broker refuses or what cannot happen.  [bound]
    lists the exchange, the key and the queue of each binding. *)
Class Broker (B : Type) := {
  bexec : blabel -> B -> option B;
  ready : B -> string -> list Message;
  queue_args : B -> string -> option Table;
  bound : B -> list (string * string * string);
  unacked : B -> gmap (nat * Z) (string * Message)
}.

(** The ready messages a step takes away from a queue. *)
Definition taken (l : blabel) (queue : string) : list Message :=
  match l with
  | BDeliver _ _ q m | BExpire q m => if String.eqb q queue then [m] else []
  | _ => []
  end.

(** The deliveries that are not settled, by channel and tag, after a step. *)
Definition unacked_after (l : blabel) (u : gmap (nat * Z) (string * Message)) :
    gmap (nat * Z) (string * Message) :=
  match l with
  | BFrame i (CAck t) | BFrame i (CNack t _) => delete (i, t) u
  | BDeliver i t q m => <[(i, t) := (q, m)]> u
  | BLost i => filter (fun x => x.1.1 <> i) u
  | _ => u
  end.

(** The messages of a queue delivered on channel [i] and not settled. *)
Definition delivered_on (i : nat) (queue : string) (u : gmap (nat * Z) (string * Message)) :
    list Message :=
  (fun x => x.2.2) <$> filter (fun x => x.1.1 = i /\ x.2.1 = queue) (map_to_list u).

(** The queue passes what it rejects or lets expire to the queue [target], through
    the default exchange. *)
Definition dead_letters (args : option Table) (target : string) : Prop :=
  exists t, args = Some t /\ t !! "x-dead-letter-exchange" = Some (VString "")
            /\ t !! "x-dead-letter-routing-key" = Some (VString target).

(** A copy of the message that no longer expires: the broker removes the expiration
    of what it dead-letters. *)
Definition settled_copy (b : string) (m : Message) : Prop := body_of m = b /\ expiration_of m = "".

(** [arriving b l add]: what a step makes ready: [add] lists, for each queue, messages
    that were not there.  The default exchange routes to the queue the key names; a
    rejected or expired message goes where the queue's arguments say; what a lost channel
    had not settled is ready again. *)
Definition arriving `{Broker B} (b : B) (l : blabel) (add : string -> list Message) : Prop :=
  match l with
  | BFrame _ (CPublish "" key _ p) =>
      queue_args b key <> None -> exists m, m ∈ add key /\ m_pub m = p
  | BFrame i (CNack t false) =>
      forall q m target, unacked b !! (i, t) = Some (q, m) ->
      dead_letters (queue_args b q) target -> queue_args b target <> None ->
      exists m', m' ∈ add target /\ settled_copy (body_of m) m'
  | BExpire q m =>
      forall target, dead_letters (queue_args b q) target -> queue_args b target <> None ->
      exists m', m' ∈ add target /\ settled_copy (body_of m) m'
  | BRouted q m => m ∈ add q
  | BLost i => forall q, queue_args b q <> None -> delivered_on i q (unacked b) ⊆+ add q
  | _ => True
  end.

(** Queues are neither deleted nor changed once declared (they are declared neither
    exclusive nor auto-delete); a ready message stays, every copy of it, until it is
    delivered or expires; a delivered one stays until it is settled, and only a ready
    message is delivered, under a tag of its own. *)
Class BrokerSpec (B : Type) `{!Broker B} := {
  args_kept : forall l b b' q a, bexec l b = Some b' ->
    queue_args b q = Some a -> queue_args b' q = Some a;
  bound_kept : forall l b b' x, bexec l b = Some b' -> x ∈ bound b -> x ∈ bound b';
  declare_law : forall i q durable a b b', bexec (BFrame i (CQueueDeclare q durable a)) b = Some b' ->
    queue_args b' q = Some a;
  bind_law : forall i q k ex b b', bexec (BFrame i (CQueueBind q k ex)) b = Some b' ->
    (ex, k, q) ∈ bound b';
  ready_law : forall l b b', bexec l b = Some b' ->
    exists add, arriving b l add /\ forall q, (ready b q ++ add q)%list ⊆+ (ready b' q ++ taken l q)%list;
  unacked_law : forall l b b', bexec l b = Some b' -> unacked b' = unacked_after l (unacked b);
  deliver_law : forall i t q m b b', bexec (BDeliver i t q m) b = Some b' ->
    m ∈ ready b q /\ unacked b !! (i, t) = None
}.

(** ** The system *)

(** A channel: whether it still connects the two, the frames written and not yet
    read by the broker, the deliveries the client has not handled yet, and the state of
    the consumer. *)
Record link := mkLink {
  l_alive : bool;
  l_wire : list call;
  l_local : list Delivery;
  l_chst : chst
}.

Definition new_link : link :=
  {| l_alive := true; l_wire := []; l_local := []; l_chst := {| calls := []; logs := [] |} |}.

(** The frames a piece of code leaves on the wire: an operation that returned nil was
    written; one that failed was written or not ([reached]). *)
Fixpoint written `{Channel} (reached : call -> bool) (tr ops : list call) : list call :=
  match ops with
  | [] => []
  | c :: ops' =>
      let rest := written reached (tr ++ [c]) ops' in
      match answer tr c with
      | None => c :: rest
      | Some _ => if reached c then c :: rest else rest
      end
  end.

Section System.
Context `{Broker B, GoPlatform}.

(** [q_arrived] and [q_handled] record the bodies placed in the main queue and those
    whose handler returned nil. *)
Record qsys := mkQsys {
  q_broker : B;
  q_links : gmap nat link;
  q_arrived : list string;
  q_handled : list string
}.

Definition link_of (s : qsys) (i : nat) : link := default new_link (q_links s !! i).

(** What can happen: a message arrives in the queue; the broker delivers one on
    channel [i]; the consumer of channel [i] treats its next delivery, with the answers
    of a library of its own; the broker reads the next frame of channel [i]; the channel
    is lost, with the frames on it; a message with an expiration expires. *)
Inductive qlabel :=
| QArrive (m : Message)
| QDeliver (i : nat) (tag : Z) (m : Message)
| QHandle (i : nat) (ch : Channel) (c : Consumer) (ctx : Context) (handler : Handler)
    (reached : call -> bool)
| QFrame (i : nat)
| QLost (i : nat)
| QExpire (queue : string) (m : Message).

Context (queue : string).

Definition delivery_of (tag : Z) (m : Message) : Delivery :=
  {| d_headers := p_headers (m_pub m); d_routing_key := m_key m; d_body := body_of m; d_tag := tag |}.

Definition with_broker (b : B) (s : qsys) : qsys :=
  {| q_broker := b; q_links := q_links s; q_arrived := q_arrived s; q_handled := q_handled s |}.
Definition with_link (i : nat) (l : link) (s : qsys) : qsys :=
  {| q_broker := q_broker s; q_links := <[i := l]> (q_links s); q_arrived := q_arrived s;
     q_handled := q_handled s |}.

(** The consumer of the link treats the delivery. *)
Definition handled_link `{Channel} (c : Consumer) (ctx : Context) (handler : Handler)
    (reached : call -> bool) (d : Delivery) (rest : list Delivery) (l : link) : link :=
  let st := handle c ctx handler d (l_chst l) in
  {| l_alive := l_alive l;
     l_wire := if l_alive l
               then (l_wire l ++ written reached (calls (l_chst l)) (new_calls (l_chst l) st))%list
               else [];
     l_local := rest;
     l_chst := st |}.

Definition qexec (e : qlabel) (s : qsys) : option qsys :=
  match e with
  | QArrive m =>
      match bexec (BRouted queue m) (q_broker s) with
      | Some b => Some {| q_broker := b; q_links := q_links s;
                          q_arrived := body_of m :: q_arrived s; q_handled := q_handled s |}
      | None => None
      end
  | QDeliver i tag m =>
      let l := link_of s i in
      if l_alive l then
        match bexec (BDeliver i tag queue m) (q_broker s) with
        | Some b => Some (with_link i {| l_alive := true; l_wire := l_wire l;
                                         l_local := (l_local l ++ [delivery_of tag m])%list;
                                         l_chst := l_chst l |} (with_broker b s))
        | None => None
        end
      else None
  | QHandle i ch c ctx handler reached =>
      let l := link_of s i in
      match l_local l with
      | [] => None
      | d :: rest =>
          if String.eqb (Name (c_spec c)) queue then
            Some {| q_broker := q_broker s;
                    q_links := <[i := handled_link c ctx handler reached d rest l]> (q_links s);
                    q_arrived := q_arrived s;
                    q_handled := match handler d with
                                 | None => d_body d :: q_handled s
                                 | Some _ => q_handled s
                                 end |}
          else None
      end
  | QFrame i =>
      let l := link_of s i in
      match l_alive l, l_wire l with
      | true, c :: rest =>
          match bexec (BFrame i c) (q_broker s) with
          | Some b => Some (with_link i {| l_alive := true; l_wire := rest; l_local := l_local l;
                                           l_chst := l_chst l |} (with_broker b s))
          | None => None
          end
      | _, _ => None
      end
  | QLost i =>
      let l := link_of s i in
      match bexec (BLost i) (q_broker s) with
      | Some b => Some (with_link i {| l_alive := false; l_wire := []; l_local := l_local l;
                                       l_chst := l_chst l |} (with_broker b s))
      | None => None
      end
  | QExpire q m =>
      if String.eqb (expiration_of m) "" then None
      else match bexec (BExpire q m) (q_broker s) with
           | Some b => Some (with_broker b s)
           | None => None
           end
  end.

Fixpoint qrun (es : list qlabel) (s : qsys) : option qsys :=
  match es with
  | [] => Some s
  | e :: es' => match qexec e s with Some s' => qrun es' s' | None => None end
  end.

(** Nothing has arrived and no channel has been used. *)
Definition q_start (b : B) : qsys :=
  {| q_broker := b; q_links := ∅; q_arrived := []; q_handled := [] |}.

(** The operations of opening a consumer wait for their answer: when they return nil
    the broker carried them out, in order. *)
Fixpoint run_frames (i : nat) (ops : list call) (b : B) : option B :=
  match ops with
  | [] => Some b
  | c :: ops' => match bexec (BFrame i c) b with Some b' => run_frames i ops' b' | None => None end
  end.
End System.

Arguments qsys : clear implicits.

#[export] Instance spec_float_eq_dec : EqDecision SpecFloat.spec_float.
Proof. solve_decision. Defined.
#[export] Instance hval_eq_dec : EqDecision hval.
Proof. solve_decision. Defined.
#[export] Instance Publishing_eq_dec : EqDecision Publishing.
Proof. solve_decision. Defined.
#[export] Instance Message_eq_dec : EqDecision Message.
Proof. solve_decision. Defined.

(** ** Safety *)

Section Safety.
Context `{BS : BrokerSpec B, GoPlatform} (queue : string).

Definition topology (b : B) : Prop :=
  dead_letters (queue_args b queue) (DLQName queue)
  /\ queue_args b (DLQName queue) <> None
  /\ dead_letters (queue_args b (RetryQueueName queue)) queue.

(** The ready copies of a body; in the dead-letter queue those that do not expire. *)
Definition held_in (body : string) (r : string -> list Message) : nat :=
  copies (fun m => body_of m = body) (r queue)
  + copies (fun m => body_of m = body) (r (RetryQueueName queue))
  + copies (settled_copy body) (r (DLQName queue)).

(** A publication that keeps the body at the broker. *)
Definition keeps (body : string) (c : call) : bool :=
  match c with
  | CPublish ex key _ p =>
      String.eqb ex "" && String.eqb (p_body p) body
      && (String.eqb key (RetryQueueName queue)
          || String.eqb key (DLQName queue) && String.eqb (p_expiration p) "")
  | _ => false
  end.

(** What a delivery of the body under tag [t] counts with the frames [w] on the wire:
    nothing once they acknowledge it, unless the frame just before ([kept]) keeps the
    body. *)
Fixpoint weight (body : string) (t : Z) (kept : bool) (w : list call) : nat :=
  match w with
  | [] => 1
  | CAck t' :: w' => if Z.eqb t' t then (if kept then 1 else 0) else weight body t false w'
  | CNack t' requeue :: w' =>
      if Z.eqb t' t then (if requeue then 0 else 1) else weight body t false w'
  | c :: w' => weight body t (keeps body c) w'
  end.

Definition settled_tag (c : call) : list Z :=
  match c with CAck t => [t] | CNack t _ => [t] | _ => [] end.

Definition settled_tags (w : list call) : list Z := flat_map settled_tag w.

(** Every delivery the client has in hand or is settling is the broker's, once. *)
Definition link_ok (b : B) (i : nat) (l : link) : Prop :=
  l_alive l = true ->
  List.NoDup (map d_tag (l_local l) ++ settled_tags (l_wire l))
  /\ (forall d, d ∈ l_local l -> exists m, unacked b !! (i, d_tag d) = Some (queue, m) /\ body_of m = d_body d)
  /\ (forall t, t ∈ settled_tags (l_wire l) -> exists m, unacked b !! (i, t) = Some (queue, m)).

(** The deliveries of the body that the broker is not about to forget, and all that
    accounts for the body. *)
Definition delivery_weight (s : qsys B) (body : string) (x : nat * Z * (string * Message)) : nat :=
  let '((i, t), (q, m)) := x in
  if String.eqb q queue && String.eqb (body_of m) body && l_alive (link_of s i)
  then weight body t false (l_wire (link_of s i)) else 0.

Definition accounted (s : qsys B) (body : string) : nat :=
  copies (eq body) (q_handled s) + held_in body (ready (q_broker s))
  + msum (delivery_weight s body) (unacked (q_broker s)).

Definition qsys_ok (s : qsys B) : Prop :=
  topology (q_broker s)
  /\ (forall i, link_ok (q_broker s) i (link_of s i))
  /\ forall body, copies (eq body) (q_arrived s) <= accounted s body.

Lemma dead_letters_step l b b' q target :
  bexec l b = Some b' -> dead_letters (queue_args b q) target -> dead_letters (queue_args b' q) target.
Proof.
  intros He (t & Ht & H1 & H2). exists t. split; [|done]. by eapply args_kept.
Qed.

Lemma declared_step l b b' q : bexec l b = Some b' -> queue_args b q <> None -> queue_args b' q <> None.
Proof.
  intros He Hq. destruct (queue_args b q) as [a|] eqn:E; [|done]. by rewrite (args_kept _ _ _ _ _ He E).
Qed.

Lemma dead_letters_declared b q target : dead_letters (queue_args b q) target -> queue_args b q <> None.
Proof. by intros (t & -> & _). Qed.

#[local] Hint Resolve dead_letters_step declared_step dead_letters_declared : go.

Lemma topology_step l b b' : bexec l b = Some b' -> topology b -> topology b'.
Proof. intros He (? & ? & ?). split_and!; eauto with go. Qed.

Lemma names_apart q :
  RetryQueueName q <> q /\ DLQName q <> q /\ RetryQueueName q <> DLQName q.
Proof.
  split_and!; intros E%(f_equal String.length); unfold RetryQueueName, DLQName in E;
    rewrite ?append_length in E; simpl in E; lia.
Qed.

(** *** Ready messages *)

Lemma held_in_grows body r r' add tk :
  (forall q, (r q ++ add q)%list ⊆+ (r' q ++ tk q)%list) ->
  held_in body r + held_in body add <= held_in body r' + held_in body tk.
Proof.
  intros Hq. unfold held_in.
  pose proof (copies_submseteq (fun m => body_of m = body) _ _ (Hq queue)).
  pose proof (copies_submseteq (fun m => body_of m = body) _ _ (Hq (RetryQueueName queue))).
  pose proof (copies_submseteq (settled_copy body) _ _ (Hq (DLQName queue))).
  rewrite !copies_app in *. lia.
Qed.

Lemma held_in_elem body add q m :
  m ∈ add q -> body_of m = body ->
  q = queue \/ q = RetryQueueName queue \/ q = DLQName queue /\ expiration_of m = "" ->
  1 <= held_in body add.
Proof.
  intros Hm Hb Hq. unfold held_in. destruct Hq as [->|[->|[-> Hx]]].
  - pose proof (copies_elem (fun m => body_of m = body) _ _ Hm Hb). lia.
  - pose proof (copies_elem (fun m => body_of m = body) _ _ Hm Hb). lia.
  - pose proof (copies_elem (settled_copy body) _ _ Hm (conj Hb Hx)). lia.
Qed.

Lemma held_in_pos body r : 1 <= held_in body r ->
  exists q m, q ∈ [queue; RetryQueueName queue; DLQName queue] /\ m ∈ r q /\ body_of m = body.
Proof.
  unfold held_in. intros Hp.
  destruct (copies (fun m => body_of m = body) (r queue)) eqn:E1;
    [|destruct (copies_pos (fun m => body_of m = body) (r queue)) as (m & ? & ?); [lia|];
      exists queue, m; set_solver].
  destruct (copies (fun m => body_of m = body) (r (RetryQueueName queue))) eqn:E2;
    [|destruct (copies_pos (fun m => body_of m = body) (r (RetryQueueName queue))) as (m & ? & ?);
      [lia|]; exists (RetryQueueName queue), m; set_solver].
  destruct (copies_pos (settled_copy body) (r (DLQName queue))) as (m & ? & ? & ?); [lia|].
  exists (DLQName queue), m. set_solver.
Qed.

Lemma held_in_none body r : (forall q, r q = []) -> held_in body r = 0.
Proof. intros Hr. unfold held_in. by rewrite !Hr. Qed.

(** What a step takes: the message delivered from the queue; an expiring message, if it
    was in the queue or the retry queue. *)
Lemma held_in_deliver body i t m :
  held_in body (taken (BDeliver i t queue m)) = if base.decide (body_of m = body) then 1 else 0.
Proof.
  destruct (names_apart queue) as (H1 & H2 & _). unfold held_in. cbn [taken].
  rewrite String.eqb_refl, !(proj2 (String.eqb_neq _ _)) by auto.
  rewrite copies_cons, !copies_nil. case_decide; lia.
Qed.

Lemma held_in_expire body q m : expiration_of m <> "" ->
  held_in body (taken (BExpire q m)) = 0
  \/ held_in body (taken (BExpire q m)) = 1 /\ body_of m = body
     /\ (q = queue \/ q = RetryQueueName queue).
Proof.
  intros Hx. destruct (names_apart queue) as (H1 & H2 & H3). unfold held_in. cbn [taken].
  assert (Hd : copies (settled_copy body) [m] = 0).
  { rewrite copies_cons, decide_False; [done|]. by intros [_ ?]. }
  assert (Hm : copies (fun m => body_of m = body) [m] = 0
               \/ copies (fun m => body_of m = body) [m] = 1 /\ body_of m = body).
  { rewrite copies_cons, copies_nil. case_decide; auto. }
  destruct (String.eqb_spec q queue) as [->|]; [|destruct (String.eqb_spec q (RetryQueueName queue)) as [->|];
    [|destruct (String.eqb_spec q (DLQName queue)); rewrite ?Hd; by left]].
  - rewrite !(proj2 (String.eqb_neq _ _)) by auto. rewrite !copies_nil.
    destruct Hm as [->|[-> ?]]; auto 6.
  - rewrite !(proj2 (String.eqb_neq _ _)) by auto. rewrite !copies_nil.
    destruct Hm as [->|[-> ?]]; auto 6.
Qed.

(** *** The wire *)

Lemma weight_le body t k w : weight body t k w <= 1.
Proof.
  revert k. induction w as [|[] w IH]; intros k; cbn [weight]; auto; repeat case_match; auto; lia.
Qed.

Lemma weight_mono body t k w : weight body t false w <= weight body t k w.
Proof. destruct w as [|[] w]; cbn [weight]; auto. destruct (Z.eqb _ _), k; lia. Qed.

Lemma weight_app body t k w1 w2 :
  weight body t false w2 = 1 -> weight body t k w1 <= weight body t k (w1 ++ w2).
Proof.
  intros H2. revert k. induction w1 as [|c w1 IH]; intros k; cbn [app].
  - pose proof (weight_mono body t k w2). pose proof (weight_le body t k []). lia.
  - destruct c; cbn [weight]; auto; destruct (Z.eqb _ _); auto.
Qed.

Lemma weight_other body t k w : (t ∉ settled_tags w) -> weight body t k w = 1.
Proof.
  revert k. induction w as [|c w IH]; intros k; [done|]. intros Ht. unfold settled_tags in Ht.
  cbn [flat_map] in Ht. apply not_elem_of_app in Ht as [Hc Hw]. specialize (fun k => IH k Hw).
  destruct c; cbn [weight settled_tag] in *; auto;
    rewrite (proj2 (Z.eqb_neq _ _)) by set_solver; auto.
Qed.

Lemma settled_tags_app w1 w2 : settled_tags (w1 ++ w2) = (settled_tags w1 ++ settled_tags w2)%list.
Proof. apply flat_map_app. Qed.

Lemma settled_tags_cons c w : settled_tags (c :: w) = (settled_tag c ++ settled_tags w)%list.
Proof. done. Qed.

Lemma republish_frames `{CH : Channel} reached tr key mandatory p body t :
  p_body p = body -> key = RetryQueueName queue \/ key = DLQName queue /\ p_expiration p = "" ->
  let pub := CPublish "" key mandatory p in
  let w := written reached tr [pub; match answer tr pub with
                                    | None => CAck t
                                    | Some _ => CNack t false
                                    end] in
  (settled_tags w = [] \/ settled_tags w = [t]) /\ weight body t false w = 1.
Proof.
  intros Hb Hk pub w. subst w. cbn [written].
  assert (Hkeep : keeps body pub = true).
  { cbn. rewrite Hb, String.eqb_refl. destruct Hk as [->|[-> ->]]; rewrite !String.eqb_refl; [done|].
    by rewrite orb_true_r. }
  destruct (answer tr pub); [destruct (reached pub)|]; destruct (answer _ _);
    try destruct (reached _); cbn [weight settled_tags flat_map settled_tag app];
    rewrite ?Z.eqb_refl, ?Hkeep; auto.
Qed.

(** The frames one [handle] leaves: they settle the delivery at most once, and when
    the handler failed the acknowledgement comes right after a publication of the body. *)
Lemma handle_frames `{CH : Channel} c ctx handler reached d st w :
  Name (c_spec c) = queue ->
  w = written reached (calls st) (new_calls st (handle c ctx handler d st)) ->
  (settled_tags w = [] \/ settled_tags w = [d_tag d])
  /\ (handler d = None \/ weight (d_body d) (d_tag d) false w = 1).
Proof.
  intros Hn ->. destruct (handler d) as [e|] eqn:E.
  - rewrite (new_calls_handle_failed _ _ _ _ e) by done. unfold failure_publication. rewrite Hn.
    case_match; (edestruct republish_frames as [Ht Hg]; [| |split; [exact Ht|right; exact Hg]]);
      cbn; auto.
  - unfold new_calls. rewrite calls_handle_ok by done. rewrite drop_app_length. cbn [written].
    destruct (answer _ _); [destruct (reached _)|]; cbn; auto.
Qed.

(** *** The links *)

Lemma settled_tags_head t c w : settled_tag c = [t] -> t ∈ settled_tags (c :: w).
Proof. intros E. rewrite settled_tags_cons, E. left. Qed.

(** The deliveries of channel [i] that a step leaves alone. *)
Definition leaves_alone (l : blabel) (i : nat) (t : Z) : Prop :=
  match l with
  | BFrame j (CAck t') | BFrame j (CNack t' _) => j <> i \/ t' <> t
  | BLost j => j <> i
  | _ => True
  end.

Lemma unacked_kept l b b' i t x : bexec l b = Some b' ->
  unacked b !! (i, t) = Some x -> leaves_alone l i t -> unacked b' !! (i, t) = Some x.
Proof.
  intros He Hu Hl. rewrite (unacked_law _ _ _ He).
  destruct l as [j []|j t' q m|q m|q m|j]; cbn [unacked_after leaves_alone] in *; try done.
  - rewrite lookup_delete_ne; [done|]. intros [= -> ->]. tauto.
  - rewrite lookup_delete_ne; [done|]. intros [= -> ->]. tauto.
  - rewrite lookup_insert_ne; [done|]. intros [= -> ->]. destruct (deliver_law _ _ _ _ _ _ He). congruence.
  - apply map_lookup_filter_Some_2; [done|]. cbn. congruence.
Qed.

Lemma link_ok_kept l b b' i lk : bexec l b = Some b' -> link_ok b i lk ->
  (forall t, t ∈ (map d_tag (l_local lk) ++ settled_tags (l_wire lk))%list -> leaves_alone l i t) ->
  link_ok b' i lk.
Proof.
  intros He Hok Hs Ha. destruct (Hok Ha) as (Hnd & Hl & Hw). split; [done|]. split.
  - intros d Hd. destruct (Hl d Hd) as (m & Hm & ?). exists m. split; [|done].
    eapply unacked_kept; [done..|]. apply Hs, elem_of_app. left. by apply (list_elem_of_fmap_2 d_tag).
  - intros t Ht. destruct (Hw t Ht) as [m Hm]. exists m. eapply unacked_kept; [done..|].
    apply Hs, elem_of_app. by right.
Qed.

Lemma link_of_insert (s : qsys B) i j lk (b : B) ar h :
  link_of {| q_broker := b; q_links := <[i := lk]> (q_links s); q_arrived := ar; q_handled := h |} j
  = if base.decide (i = j) then lk else link_of s j.
Proof.
  unfold link_of. cbn [q_links]. case_decide; [subst; by rewrite lookup_insert_eq|by rewrite lookup_insert_ne].
Qed.

(** Two states count a delivery alike if its channel is as it was, and the second
    counts it at least as much if the frames on its channel do. *)
Lemma delivery_weight_mono (s s' : qsys B) body i t q m :
  (l_alive (link_of s i) = true -> q = queue -> body_of m = body ->
   l_alive (link_of s' i) = true
   /\ weight body t false (l_wire (link_of s i)) <= weight body t false (l_wire (link_of s' i))) ->
  delivery_weight s body ((i, t), (q, m)) <= delivery_weight s' body ((i, t), (q, m)).
Proof.
  intros Hw. unfold delivery_weight.
  destruct (String.eqb_spec q queue), (String.eqb_spec (body_of m) body), (l_alive (link_of s i));
    cbn [andb]; try lia. destruct Hw as [-> ?]; auto.
Qed.

Lemma delivery_weight_le (s : qsys B) body x : delivery_weight s body x <= 1.
Proof. destruct x as [[i t] [q m]]. cbn. case_match; [apply weight_le|lia]. Qed.

(** *** The steps *)

(** Names the state after the step in the goal. *)
Local Ltac name_state s' :=
  match goal with |- context [delivery_weight ?x _] => set (s' := x) end.

Lemma arrive_ok m (s s' : qsys B) : qexec queue (QArrive m) s = Some s' -> qsys_ok s -> qsys_ok s'.
Proof.
  cbn [qexec]. case_match eqn:He; intros [= <-] (Ht & Hlk & Hacc).
  split; [by eapply topology_step|]. split; [intros i; by eapply link_ok_kept|].
  intros body. specialize (Hacc body). unfold accounted in *. cbn [q_arrived q_handled q_broker].
  rewrite (unacked_law _ _ _ He). cbn [unacked_after].
  destruct (ready_law _ _ _ He) as (add & Hadd & Hr). apply (held_in_grows body) in Hr.
  rewrite (held_in_none body (taken _)) in Hr by done. rewrite copies_cons.
  assert (Hm : body = body_of m -> 1 <= held_in body add) by (intros ->; eapply held_in_elem; eauto).
  change (msum (delivery_weight _ body)) with (msum (delivery_weight s body)).
  case_decide as E; [specialize (Hm E)|]; lia.
Qed.

Lemma expired_held q m b add body :
  topology b -> arriving b (BExpire q m) add -> body_of m = body ->
  q = queue \/ q = RetryQueueName queue -> 1 <= held_in body add.
Proof.
  intros (Hm & Hd & Hr) Hadd Hb Hq. destruct Hq as [->| ->].
  - destruct (Hadd _ Hm Hd) as (m' & Hin & Hb' & Hx). eapply held_in_elem; [done|congruence|auto].
  - destruct (Hadd _ Hr) as (m' & Hin & Hb' & Hx); [eauto with go|].
    eapply held_in_elem; [done|congruence|auto].
Qed.

Lemma expire_ok q m (s s' : qsys B) : qexec queue (QExpire q m) s = Some s' -> qsys_ok s -> qsys_ok s'.
Proof.
  cbn [qexec]. destruct (String.eqb_spec (expiration_of m) "") as [|Hx]; [done|].
  case_match eqn:He; intros [= <-] (Ht & Hlk & Hacc).
  split; [by eapply topology_step|]. split; [intros i; by eapply link_ok_kept|].
  intros body. specialize (Hacc body). unfold accounted in *. cbn [q_arrived q_handled q_broker with_broker].
  rewrite (unacked_law _ _ _ He). cbn [unacked_after].
  destruct (ready_law _ _ _ He) as (add & Hadd & Hr). apply (held_in_grows body) in Hr.
  change (msum (delivery_weight _ body)) with (msum (delivery_weight s body)).
  destruct (held_in_expire body q m Hx) as [E|(E & Hb & Hq)]; rewrite E in Hr; [lia|].
  pose proof (expired_held _ _ _ _ _ Ht Hadd Hb Hq). lia.
Qed.
Lemma deliver_ok i tag m (s s' : qsys B) :
  qexec queue (QDeliver i tag m) s = Some s' -> qsys_ok s -> qsys_ok s'.
Proof.
  cbn [qexec]. destruct (l_alive (link_of s i)) eqn:Ha; [|done].
  case_match eqn:He; intros [= <-] (Ht & Hlk & Hacc).
  destruct (deliver_law _ _ _ _ _ _ He) as (_ & Hnone). pose proof (unacked_law _ _ _ He) as Hu'.
  cbn [unacked_after] in Hu'. destruct (Hlk i Ha) as (Hnd & Hloc & Hw).
  assert (Hfresh : (tag ∉ map d_tag (l_local (link_of s i)))
            /\ (tag ∉ settled_tags (l_wire (link_of s i)))).
  { split; [intros (d & -> & Hd)%list_elem_of_fmap_1|intros Hin].
    - destruct (Hloc d Hd) as (m' & Hm' & _). congruence.
    - destruct (Hw _ Hin) as (m' & Hm'). congruence. }
  assert (Hkeep : forall j, link_ok b j (link_of s j)) by (intros j; by eapply link_ok_kept).
  split; [by eapply topology_step|]. split.
  - intros j. unfold with_link. rewrite link_of_insert. case_decide as Hij; [subst j|apply Hkeep].
    intros _. destruct (Hkeep i Ha) as (_ & Hloc' & Hw'). cbn [l_local l_wire q_broker]. split; [|split; [|done]].
    + rewrite map_app, <- app_assoc. cbn [map app d_tag delivery_of].
      apply (proj2 (List.NoDup_Add (List.Add_app tag _ _))). split; [done|].
      rewrite in_app_iff, <- !list_elem_of_In. tauto.
    + intros d [Hd| ->%list_elem_of_singleton]%elem_of_app; [by apply Hloc'|]. exists m.
      cbn [q_broker with_broker d_tag delivery_of]. by rewrite Hu', lookup_insert_eq.
  - intros body. specialize (Hacc body). unfold accounted in *.
    cbn [q_arrived q_handled q_broker with_link with_broker].
    destruct (ready_law _ _ _ He) as (add & _ & Hr). apply (held_in_grows body) in Hr.
    rewrite held_in_deliver in Hr. rewrite Hu', msum_insert by done. name_state s'.
    assert (Hl : forall j, l_alive (link_of s' j) = l_alive (link_of s j)
                           /\ l_wire (link_of s' j) = l_wire (link_of s j)).
    { intros j. subst s'. unfold with_link. rewrite !link_of_insert. repeat case_decide; subst; rewrite ?Ha; done. }
    assert (Hmono : msum (delivery_weight s body) (unacked (q_broker s))
                    <= msum (delivery_weight s' body) (unacked (q_broker s))).
    { apply msum_mono. intros [j t] [q m'] _. apply delivery_weight_mono. intros.
      destruct (Hl j) as [-> ->]. auto. }
    assert (Hnew : body_of m = body -> delivery_weight s' body ((i, tag), (queue, m)) = 1).
    { intros E. unfold delivery_weight. destruct (Hl i) as [-> ->].
      rewrite String.eqb_refl, E, String.eqb_refl, Ha. apply weight_other, Hfresh. }
    case_decide as E; [specialize (Hnew E)|]; lia.
Qed.

(** What a lost channel had not settled: one ready copy for each delivery. *)
Lemma delivered_on_copies (body : string) (i : nat) (u : gmap (nat * Z) (string * Message)) :
  copies (fun m => body_of m = body) (delivered_on i queue u)
  = msum (fun x => if base.decide (x.1.1 = i /\ x.2.1 = queue)
                   then if base.decide (body_of x.2.2 = body) then 1 else 0 else 0) u.
Proof. unfold delivered_on. by rewrite copies_fmap_filter. Qed.

Lemma lost_ok i (s s' : qsys B) : qexec queue (QLost i) s = Some s' -> qsys_ok s -> qsys_ok s'.
Proof.
  cbn [qexec]. case_match eqn:He; intros [= <-] (Ht & Hlk & Hacc).
  split; [by eapply topology_step|]. split.
  - intros j. unfold with_link. rewrite link_of_insert. case_decide as Hij; [done|].
    by eapply link_ok_kept.
  - intros body. specialize (Hacc body). unfold accounted in *.
    cbn [q_arrived q_handled q_broker with_link with_broker].
    rewrite (unacked_law _ _ _ He). cbn [unacked_after]. rewrite msum_filter.
    destruct (ready_law _ _ _ He) as (add & Hadd & Hr). apply (held_in_grows body) in Hr.
    rewrite (held_in_none body (taken _)) in Hr by done.
    specialize (Hadd queue ltac:(destruct Ht; eauto with go)).
    apply (copies_submseteq (fun m => body_of m = body)) in Hadd. rewrite delivered_on_copies in Hadd.
    assert (copies (fun m => body_of m = body) (add queue) <= held_in body add) by (unfold held_in; lia).
    name_state s'.
    enough (msum (delivery_weight s body) (unacked (q_broker s))
      <= msum (fun x => if base.decide (x.1.1 = i /\ x.2.1 = queue)
                   then if base.decide (body_of x.2.2 = body) then 1 else 0 else 0) (unacked (q_broker s))
         + msum (fun x => if base.decide (x.1.1 <> i) then delivery_weight s' body x else 0)
             (unacked (q_broker s))) by lia.
    rewrite <- msum_plus. apply msum_mono. intros [j t] [q m] _. cbn [fst snd].
    destruct (base.decide (j = i)) as [->|Hne].
    + rewrite (decide_False (P := i <> i)) by auto. unfold delivery_weight.
      destruct (String.eqb_spec q queue) as [->|]; cbn [andb]; [|lia].
      destruct (String.eqb_spec (body_of m) body) as [E|]; cbn [andb]; [|lia].
      rewrite !decide_True by done. case_match; [|lia].
      pose proof (weight_le body t false (l_wire (link_of s i))). lia.
    + rewrite (decide_True (P := j <> i)) by done. etrans; [|apply Nat.le_add_l].
      apply delivery_weight_mono. intros. subst s'. unfold with_link. by rewrite link_of_insert, decide_False by done.
Qed.

(** The broker reads a frame.  A publication that keeps the body is ready in its queue, *)
Lemma frame_publish i c b b' body :
  bexec (BFrame i c) b = Some b' -> topology b ->
  held_in body (ready b) + (if keeps body c then 1 else 0) <= held_in body (ready b').
Proof.
  intros He (Hm & Hd & Hr). destruct (ready_law _ _ _ He) as (add & Hadd & Hg).
  apply (held_in_grows body) in Hg. rewrite (held_in_none body (taken _)) in Hg by done.
  destruct (keeps body c) eqn:K; [|lia]. destruct c; cbn [keeps] in K; try done.
  zbool. subst. enough (1 <= held_in (p_body p) add) by lia.
  apply orb_true_iff in H1. destruct (Hadd ltac:(destruct H1; zbool; subst; eauto with go)) as (m & Hin & <-).
  eapply held_in_elem; [done..|]. unfold expiration_of. destruct H1; zbool; auto.
Qed.

(** a rejected delivery in the dead-letter queue, *)
Lemma frame_reject i t b b' m :
  bexec (BFrame i (CNack t false)) b = Some b' -> topology b ->
  unacked b !! (i, t) = Some (queue, m) ->
  held_in (body_of m) (ready b) + 1 <= held_in (body_of m) (ready b').
Proof.
  intros He (Hm & Hd & Hr) Hu. destruct (ready_law _ _ _ He) as (add & Hadd & Hg).
  apply (held_in_grows (body_of m)) in Hg. rewrite (held_in_none _ (taken _)) in Hg by done.
  destruct (Hadd _ _ _ Hu Hm Hd) as (m' & Hin & Hb & Hx).
  pose proof (held_in_elem (body_of m) add _ _ Hin Hb ltac:(auto)). lia.
Qed.

Lemma settle_held i c t0 w b' (s : qsys B) body m :
  settled_tag c = [t0] -> bexec (BFrame i c) (q_broker s) = Some b' -> topology (q_broker s) ->
  l_wire (link_of s i) = c :: w -> unacked (q_broker s) !! (i, t0) = Some (queue, m) ->
  delivery_weight s body ((i, t0), (queue, m)) + held_in body (ready (q_broker s))
  <= held_in body (ready b').
Proof.
  intros Hc He Ht Hw Hu. pose proof (frame_publish _ _ _ _ body He Ht) as Hp.
  unfold delivery_weight. rewrite Hw. destruct (String.eqb_spec (body_of m) body) as [<-|].
  2: { rewrite andb_false_r. cbn [andb]. lia. }
  destruct c as [| | | | | | | | | | |t|t []|]; try done; injection Hc as ->;
    cbn [weight keeps] in *; rewrite Z.eqb_refl; try (case_match; lia).
  pose proof (frame_reject _ _ _ _ _ He Ht Hu). case_match; lia.
Qed.

(** and the deliveries count as before, but for the one the next frame acknowledges, *)
Lemma frame_weights (s s' : qsys B) i c w body u :
  settled_tag c = [] -> l_alive (link_of s i) = true -> l_wire (link_of s i) = c :: w ->
  l_alive (link_of s' i) = true -> l_wire (link_of s' i) = w ->
  (forall j, j <> i -> link_of s' j = link_of s j) ->
  msum (delivery_weight s body) u
  <= (if keeps body c then 1 else 0) + msum (delivery_weight s' body) u.
Proof.
  intros Hc Ha Hw Ha' Hw' Hj.
  assert (Hcw : forall t, weight body t false (c :: w) = weight body t (keeps body c) w)
    by (intros t; by destruct c).
  destruct (keeps body c).
  - apply (msum_mono_but _ _ _ (i, match w with CAck t0 :: _ => t0 | _ => 0%Z end)).
    + intros [j t] [q m] _ Hne. apply delivery_weight_mono. intros.
      destruct (base.decide (j = i)) as [->|]; [|by rewrite Hj].
      rewrite Ha', Hw, Hw', Hcw. split; [done|]. destruct w as [|[] w']; cbn [weight]; try lia.
      rewrite (proj2 (Z.eqb_neq _ _)); [done|congruence].
    + intros x _. pose proof (delivery_weight_le s body ((i, match w with CAck t0 :: _ => t0 | _ => 0%Z end), x)).
      lia.
  - apply msum_mono. intros [j t] [q m] _. apply delivery_weight_mono. intros.
    destruct (base.decide (j = i)) as [->|]; [|by rewrite Hj].
    by rewrite Ha', Hw, Hw', Hcw.
Qed.

(** or the one settled. *)
Lemma settle_weights (s s' : qsys B) i c t0 w body u x :
  settled_tag c = [t0] -> l_alive (link_of s i) = true -> l_wire (link_of s i) = c :: w ->
  l_alive (link_of s' i) = true -> l_wire (link_of s' i) = w ->
  (forall j, j <> i -> link_of s' j = link_of s j) -> u !! (i, t0) = Some x ->
  msum (delivery_weight s body) u
  <= delivery_weight s body ((i, t0), x) + msum (delivery_weight s' body) (delete (i, t0) u).
Proof.
  intros Hc Ha Hw Ha' Hw' Hj Hu. rewrite (msum_delete _ _ _ _ Hu).
  apply Nat.add_le_mono_l, msum_mono. intros [j t] [q m] [Hne _]%lookup_delete_Some.
  apply delivery_weight_mono. intros. destruct (base.decide (j = i)) as [->|]; [|by rewrite Hj].
  rewrite Ha', Hw, Hw'. split; [done|].
  destruct c; try done; injection Hc as ->; cbn [weight]; (rewrite (proj2 (Z.eqb_neq _ _)); [done|congruence]).
Qed.

Lemma frame_link_ok i c w b b' l :
  bexec (BFrame i c) b = Some b' -> l_wire l = c :: w -> l_alive l = true -> link_ok b i l ->
  link_ok b' i {| l_alive := true; l_wire := w; l_local := l_local l; l_chst := l_chst l |}.
Proof.
  intros He Hwire Ha Hok. destruct (Hok Ha) as (Hnd & Hloc & Hw).
  rewrite Hwire, settled_tags_cons in Hnd, Hw. eapply link_ok_kept; [done| |].
  - intros _. cbn [l_local l_wire]. split; [|split; [done|]].
    + destruct c; cbn [settled_tag app] in Hnd; eauto using List.NoDup_remove_1.
    + intros t Hin. apply Hw, elem_of_app. by right.
  - cbn [l_local l_wire]. intros t Hin.
    destruct c; cbn [leaves_alone settled_tag app] in *; try done; right; intros ->;
      apply List.NoDup_remove_2 in Hnd; by apply Hnd, list_elem_of_In.
Qed.

Lemma frame_ok i (s s' : qsys B) : qexec queue (QFrame i) s = Some s' -> qsys_ok s -> qsys_ok s'.
Proof.
  cbn [qexec]. destruct (l_alive (link_of s i)) eqn:Ha; [|done].
  destruct (l_wire (link_of s i)) as [|c w] eqn:Hwire; [done|].
  case_match eqn:He; intros [= <-] (Ht & Hlk & Hacc).
  split; [by eapply topology_step|]. split.
  { intros j. unfold with_link. rewrite link_of_insert. case_decide as Hij; [subst j; by eapply frame_link_ok|].
    eapply link_ok_kept; [done|apply Hlk|]. intros t _. destruct c; cbn [leaves_alone]; auto. }
  intros body. specialize (Hacc body). unfold accounted in *.
  cbn [q_arrived q_handled q_broker with_link with_broker]. rewrite (unacked_law _ _ _ He). name_state s'.
  assert (Hi : link_of s' i = {| l_alive := true; l_wire := w; l_local := l_local (link_of s i);
                                 l_chst := l_chst (link_of s i) |}).
  { subst s'. unfold with_link. by rewrite link_of_insert, decide_True by done. }
  assert (Hj : forall j, j <> i -> link_of s' j = link_of s j).
  { intros j Hne. subst s'. unfold with_link. by rewrite link_of_insert, decide_False by done. }
  pose proof (frame_publish _ _ _ _ body He Ht) as Hp.
  destruct (settled_tag c) as [|t0 [|]] eqn:Hc; [| |by destruct c].
  - pose proof (frame_weights s s' i c w body (unacked (q_broker s)) Hc Ha Hwire
                  ltac:(by rewrite Hi) ltac:(by rewrite Hi) Hj) as Hm.
    replace (unacked_after (BFrame i c) (unacked (q_broker s))) with (unacked (q_broker s))
      by (by destruct c). lia.
  - destruct (Hlk i Ha) as (_ & _ & Hw). rewrite Hwire in Hw.
    destruct (Hw t0 ltac:(by apply settled_tags_head)) as [m Hu].
    pose proof (settle_weights s s' i c t0 w body _ _ Hc Ha Hwire
                  ltac:(by rewrite Hi) ltac:(by rewrite Hi) Hj Hu) as Hm.
    replace (unacked_after (BFrame i c) (unacked (q_broker s)))
      with (delete (i, t0) (unacked (q_broker s))) by (destruct c; by simplify_eq/=).
    enough (delivery_weight s body ((i, t0), (queue, m)) + held_in body (ready (q_broker s))
            <= held_in body (ready b)) by lia.
    by eapply settle_held.
Qed.

(** The consumer treats a delivery: the link keeps its order, *)
Lemma handle_link_ok `{CH : Channel} b i c ctx handler reached d rest l :
  Name (c_spec c) = queue -> l_local l = d :: rest -> link_ok b i l ->
  link_ok b i (handled_link c ctx handler reached d rest l).
Proof.
  intros Hn Hl Hok Ha. cbn [l_alive handled_link] in Ha. destruct (Hok Ha) as (Hnd & Hloc & Hwr).
  edestruct (handle_frames c ctx handler reached d (l_chst l)) as [Htags _]; [done|reflexivity|].
  unfold handled_link. cbn [l_wire l_local]. rewrite Ha.
  set (w := written reached _ _) in *. rewrite Hl in Hnd, Hloc. rewrite settled_tags_app.
  cbn [map app] in Hnd. pose proof Hnd as [_ Hnd']%List.NoDup_cons_iff. split; [|split].
  - destruct Htags as [-> | ->]; rewrite ?app_nil_r; [done|]. rewrite app_assoc.
    eapply Permutation_NoDup; [apply Permutation_cons_append|done].
  - intros d' Hd'. apply Hloc. by right.
  - intros t [Hin|Hin]%elem_of_app; [by apply Hwr|].
    assert (t = d_tag d) as -> by (destruct Htags as [E|E]; rewrite E in Hin; set_solver).
    destruct (Hloc d) as (m & Hm & _); [by left|]. eauto.
Qed.

(** and each delivery counts as before, but for the one treated if its handler returned
    nil. *)
Lemma handle_weight `{CH : Channel} b i c ctx handler reached d rest l t m :
  Name (c_spec c) = queue -> l_local l = d :: rest -> link_ok b i l ->
  l_alive l = true -> unacked b !! (i, t) = Some (queue, m) ->
  t = d_tag d /\ handler d = None
  \/ weight (body_of m) t false (l_wire l)
     <= weight (body_of m) t false (l_wire (handled_link c ctx handler reached d rest l)).
Proof.
  intros Hn Hl Hok Ha Hu. destruct (Hok Ha) as (_ & Hloc & _).
  edestruct (handle_frames c ctx handler reached d (l_chst l)) as [Htags Hgu]; [done|reflexivity|].
  unfold handled_link. cbn [l_wire]. rewrite Ha. set (w := written reached _ _) in *.
  destruct (base.decide (t = d_tag d)) as [->|Hne].
  - destruct (Hloc d) as (m' & Hm' & Hb); [rewrite Hl; by left|].
    assert (m' = m) as -> by congruence. rewrite Hb in *.
    destruct Hgu as [?|Hgu]; [by left|]. right. by apply weight_app.
  - right. apply weight_app, weight_other. destruct Htags as [-> | ->]; set_solver.
Qed.

Lemma handle_ok i ch c ctx handler reached (s s' : qsys B) :
  qexec queue (QHandle i ch c ctx handler reached) s = Some s' -> qsys_ok s -> qsys_ok s'.
Proof.
  cbn [qexec]. destruct (l_local (link_of s i)) as [|d rest] eqn:Hl; [done|].
  destruct (String.eqb_spec (Name (c_spec c)) queue) as [Hn|]; [|done]. intros [= <-] (Ht & Hlk & Hacc).
  split; [done|]. split.
  { intros j. rewrite link_of_insert. case_decide as Hij; [subst j|apply Hlk]. by apply handle_link_ok. }
  intros body. specialize (Hacc body). unfold accounted in *. cbn [q_arrived q_handled q_broker].
  name_state s'.
  assert (Hother : forall k x, unacked (q_broker s) !! k = Some x ->
            k <> (i, d_tag d) \/ handler d <> None ->
            delivery_weight s body (k, x) <= delivery_weight s' body (k, x)).
  { intros [j t] [q m] Hu Hk. apply delivery_weight_mono. intros Ha -> <-. subst s'. unfold with_link. rewrite link_of_insert.
    case_decide as Hij; [subst j|done]. split; [done|].
    destruct (handle_weight (CH := ch) _ _ c ctx handler reached d rest _ _ _ Hn Hl (Hlk i) Ha Hu)
      as [[-> ?]|?]; [tauto|done]. }
  destruct (handler d) as [e|] eqn:Ehd.
  { enough (msum (delivery_weight s body) (unacked (q_broker s))
            <= msum (delivery_weight s' body) (unacked (q_broker s))) by lia.
    apply msum_mono. intros. apply Hother; [done|by right]. }
  rewrite copies_cons. case_decide as Eb.
  - enough (msum (delivery_weight s body) (unacked (q_broker s))
            <= S (msum (delivery_weight s' body) (unacked (q_broker s)))) by lia.
    apply (msum_mono_but _ _ _ (i, d_tag d)); [by auto|]. intros x _.
    pose proof (delivery_weight_le s body ((i, d_tag d), x)). lia.
  - enough (msum (delivery_weight s body) (unacked (q_broker s))
            <= msum (delivery_weight s' body) (unacked (q_broker s))) by lia.
    apply msum_mono. intros k [q m] Hk.
    destruct (base.decide (k = (i, d_tag d))) as [->|]; [|by apply Hother; [|left]].
    apply delivery_weight_mono. intros Ha -> Hbm. exfalso. destruct (Hlk i Ha) as (_ & Hloc & _).
    destruct (Hloc d) as (m' & Hm' & Hb); [rewrite Hl; by left|]. congruence.
Qed.

Lemma qexec_ok e (s s' : qsys B) : qexec queue e s = Some s' -> qsys_ok s -> qsys_ok s'.
Proof.
  destruct e; eauto using arrive_ok, deliver_ok, handle_ok, frame_ok, lost_ok, expire_ok.
Qed.

Lemma qrun_ok es : forall (s s' : qsys B), qrun queue es s = Some s' -> qsys_ok s -> qsys_ok s'.
Proof.
  induction es as [|e es IH]; intros s s'; cbn [qrun]; [by intros [= <-]|].
  destruct (qexec queue e s) eqn:He; [|done]. eauto using qexec_ok.
Qed.

Lemma q_start_ok (b : B) : topology b -> qsys_ok (q_start b).
Proof.
  intros Ht. split; [done|]. split; [|intros body; apply Nat.le_0_l]. intros i _. cbn. split; [constructor|].
  split; intros ? ?%not_elem_of_nil; done.
Qed.

(** What the invariant says of the broker alone. *)
Definition delivered_live (s : qsys B) (body : string) : nat :=
  copies (fun x => x.2.1 = queue /\ body_of x.2.2 = body /\ l_alive (link_of s x.1.1) = true)
    (map_to_list (unacked (q_broker s))).

Lemma accounted_visible (s : qsys B) body :
  accounted s body
  <= copies (eq body) (q_handled s)
     + copies (fun m => body_of m = body)
         (ready (q_broker s) queue ++ ready (q_broker s) (RetryQueueName queue)
          ++ ready (q_broker s) (DLQName queue))
     + delivered_live s body.
Proof.
  unfold accounted, held_in, delivered_live, msum. rewrite !copies_app.
  assert (copies (settled_copy body) (ready (q_broker s) (DLQName queue))
          <= copies (fun m => body_of m = body) (ready (q_broker s) (DLQName queue))).
  { induction (ready _ _) as [|m l IH]; [done|]. rewrite !copies_cons.
    repeat case_decide; unfold settled_copy in *; try lia. tauto. }
  enough (sum_list_with (delivery_weight s body) (map_to_list (unacked (q_broker s)))
          <= copies (fun x => x.2.1 = queue /\ body_of x.2.2 = body /\ l_alive (link_of s x.1.1) = true)
               (map_to_list (unacked (q_broker s)))) by lia.
  induction (map_to_list _) as [|[[i t] [q m]] l IH]; [done|]. rewrite copies_cons.
  cbn [sum_list_with fst snd]. case_decide as Hd.
  - pose proof (delivery_weight_le s body ((i, t), (q, m))). lia.
  - enough (delivery_weight s body ((i, t), (q, m)) = 0) by lia. unfold delivery_weight.
    destruct (String.eqb_spec q queue), (String.eqb_spec (body_of m) body), (l_alive (link_of s i));
      cbn [andb]; tauto.
Qed.

(** In particular each body that arrived is somewhere. *)
Lemma arrived_somewhere (s : qsys B) body : qsys_ok s -> body ∈ q_arrived s ->
  body ∈ q_handled s
  \/ (exists q m, q ∈ [queue; RetryQueueName queue; DLQName queue] /\ m ∈ ready (q_broker s) q
                  /\ body_of m = body)
  \/ exists i t m, l_alive (link_of s i) = true /\ unacked (q_broker s) !! (i, t) = Some (queue, m)
                   /\ body_of m = body.
Proof.
  intros (_ & _ & Hacc) Hin. specialize (Hacc body). unfold accounted in Hacc.
  pose proof (copies_elem (eq body) _ _ Hin eq_refl).
  destruct (copies (eq body) (q_handled s)) eqn:E1;
    [|destruct (copies_pos (eq body) (q_handled s)) as (x & ? & ->); [lia|by left]].
  right. destruct (held_in body (ready (q_broker s))) eqn:E2; [right|left; apply held_in_pos; lia].
  destruct (msum_pos (delivery_weight s body) (unacked (q_broker s))) as ([i t] & [q m] & Hu & Hw); [lia|].
  exists i, t, m. unfold delivery_weight in Hw.
  destruct (String.eqb_spec q queue), (String.eqb_spec (body_of m) body), (l_alive (link_of s i)) eqn:Ha;
    cbn [andb] in Hw; try lia. by subst.
Qed.
End Safety.

(** ** Opening a consumer *)

Section Opening.
Context `{BS : BrokerSpec B}.

Lemma run_frames_app i ops1 ops2 (b : B) :
  run_frames i (ops1 ++ ops2) b
  = match run_frames i ops1 b with Some b' => run_frames i ops2 b' | None => None end.
Proof.
  revert b. induction ops1 as [|c ops1 IH]; intros b; [done|]. cbn [app run_frames].
  by destruct (bexec _ _).
Qed.

Lemma run_frames_keep i ops : forall (b b' : B), run_frames i ops b = Some b' ->
  (forall q a, queue_args b q = Some a -> queue_args b' q = Some a) /\ (forall x, x ∈ bound b -> x ∈ bound b').
Proof.
  induction ops as [|c ops IH]; intros b b'; cbn [run_frames]; [intros [= <-]; auto|].
  destruct (bexec _ b) eqn:He; [|done]. intros [Ha Hb]%IH.
  split; eauto using args_kept, bound_kept.
Qed.

(** What was declared and bound along the way. *)
Lemma run_frames_declared i ops (b b' : B) q durable a :
  run_frames i ops b = Some b' -> CQueueDeclare q durable a ∈ ops -> queue_args b' q = Some a.
Proof.
  intros Hr (ops1 & ops2 & ->)%list_elem_of_split. rewrite run_frames_app in Hr.
  destruct (run_frames i ops1 b) as [b1|]; [|done]. cbn [run_frames] in Hr.
  destruct (bexec _ b1) as [b2|] eqn:He; [|done]. apply (run_frames_keep _ _ _ _ Hr).
  by eapply declare_law.
Qed.

Lemma run_frames_bound i ops (b b' : B) q k ex :
  run_frames i ops b = Some b' -> CQueueBind q k ex ∈ ops -> (ex, k, q) ∈ bound b'.
Proof.
  intros Hr (ops1 & ops2 & ->)%list_elem_of_split. rewrite run_frames_app in Hr.
  destruct (run_frames i ops1 b) as [b1|]; [|done]. cbn [run_frames] in Hr.
  destruct (bexec _ b1) as [b2|] eqn:He; [|done]. apply (run_frames_keep _ _ _ _ Hr).
  by eapply bind_law.
Qed.

Lemma dead_letter_to_ok q : dead_letters (Some (dead_letter_to q)) q.
Proof. exists (dead_letter_to q). split; [done|]. split; reflexivity. Qed.

(** A consumer that was opened has its queues, and its keys are bound. *)
Lemma NewConsumer_topology `{Channel} cfg spec log uuid s c s' i (b b' : B) :
  Name spec <> "" -> NewConsumer cfg spec log uuid s = (Ok c, s') ->
  run_frames i (new_calls s s') b = Some b' ->
  topology (Name spec) b' /\ forall k, k ∈ RoutingKeys spec -> (Exchange cfg, k, Name spec) ∈ bound b'.
Proof.
  intros Hn Hc Hr. destruct (NewConsumer_calls _ _ _ _ _ _ _ Hn Hc) as (_ & _ & Hcalls).
  unfold new_calls in Hr. rewrite Hcalls, drop_app_length in Hr.
  pose proof (fun q durable a => run_frames_declared _ _ _ _ q durable a Hr) as Hd.
  split; [split_and!|].
  - rewrite (Hd _ (Durable spec) (dead_letter_to (DLQName (Name spec)))); [apply dead_letter_to_ok|].
    rewrite !elem_of_app, !elem_of_cons. tauto.
  - rewrite (Hd _ true ∅); [done|]. rewrite !elem_of_app, !elem_of_cons. tauto.
  - rewrite (Hd _ true (dead_letter_to (Name spec))); [apply dead_letter_to_ok|].
    rewrite !elem_of_app, !elem_of_cons. tauto.
  - intros k Hk. eapply run_frames_bound; [exact Hr|]. rewrite !elem_of_app. right; left.
    by apply (list_elem_of_fmap_2 (fun k => CQueueBind (Name spec) k (Exchange cfg))).
Qed.
End Opening.
