(* ===== verification/MemoryBroker.v ===== *)
(** * A broker in memory

    An executable broker that keeps the promise [BrokerSpec] of AmqpBroker: queues with
    their arguments and ready messages, bindings, and the deliveries that were not
    settled. *)

From stdpp Require Import base list gmap sets strings numbers.
From Stdlib Require Import ZArith Lia String.
From S2P Require Import Prelude GoStrings GoErrors AmqpRetry AmqpConsumer AmqpBroker.

Local Open Scope string_scope.

Record mbroker := mkMBroker {
  mb_queues : gmap string (Table * list Message);
  mb_bound : list (string * string * string);
  mb_unacked : gmap (nat * Z) (string * Message)
}.

Definition mb_ready (b : mbroker) (q : string) : list Message :=
  match mb_queues b !! q with Some (_, l) => l | None => [] end.

Definition set_queues (qs : gmap string (Table * list Message)) (b : mbroker) : mbroker :=
  {| mb_queues := qs; mb_bound := mb_bound b; mb_unacked := mb_unacked b |}.
Definition set_unacked (u : gmap (nat * Z) (string * Message)) (b : mbroker) : mbroker :=
  {| mb_queues := mb_queues b; mb_bound := mb_bound b; mb_unacked := u |}.

(** To the end of the queue; a queue that does not exist drops the message. *)
Definition put (q : string) (m : Message) (b : mbroker) : mbroker :=
  match mb_queues b !! q with
  | Some (a, l) => set_queues (<[q := (a, (l ++ [m])%list)]> (mb_queues b)) b
  | None => b
  end.

Definition without_expiration (key : string) (m : Message) : Message :=
  {| m_key := key;
     m_pub := {| p_content_type := p_content_type (m_pub m); p_persistent := p_persistent (m_pub m);
                 p_headers := p_headers (m_pub m); p_body := p_body (m_pub m); p_expiration := "" |} |}.

Definition mb_dead_letter (q : string) (m : Message) (b : mbroker) : mbroker :=
  match mb_queues b !! q with
  | Some (a, _) =>
      match a !! "x-dead-letter-exchange", a !! "x-dead-letter-routing-key" with
      | Some (VString ""), Some (VString key) => put key (without_expiration key m) b
      | _, _ => b
      end
  | None => b
  end.

Fixpoint remove_one (m : Message) (l : list Message) : option (list Message) :=
  match l with
  | [] => None
  | x :: l' => if base.decide (x = m) then Some l'
               else match remove_one m l' with Some r => Some (x :: r) | None => None end
  end.

(** Takes one copy out of the queue. *)
Definition take (q : string) (m : Message) (b : mbroker) : option mbroker :=
  match mb_queues b !! q with
  | Some (a, l) => match remove_one m l with
                   | Some l' => Some (set_queues (<[q := (a, l')]> (mb_queues b)) b)
                   | None => None
                   end
  | None => None
  end.

Definition requeue_all (ms : list (string * Message)) (b : mbroker) : mbroker :=
  foldr (fun '(q, m) b => put q m b) b ms.

Definition mb_exec (l : blabel) (b : mbroker) : option mbroker :=
  match l with
  | BFrame i (CQueueDeclare q _ a) =>
      match mb_queues b !! q with
      | None => Some (set_queues (<[q := (a, [])]> (mb_queues b)) b)
      | Some (a', _) => if base.decide (a' = a) then Some b else None
      end
  | BFrame i (CQueueBind q k ex) =>
      Some {| mb_queues := mb_queues b; mb_bound := (ex, k, q) :: mb_bound b;
              mb_unacked := mb_unacked b |}
  | BFrame i (CPublish ex key _ p) =>
      if String.eqb ex "" then Some (put key {| m_key := key; m_pub := p |} b)
      else Some (requeue_all ((fun '(_, q) => (q, {| m_key := key; m_pub := p |}))
                                <$> filter (fun x => x.1 = (ex, key)) (mb_bound b)) b)
  | BFrame i (CAck t) =>
      match mb_unacked b !! (i, t) with
      | Some _ => Some (set_unacked (delete (i, t) (mb_unacked b)) b)
      | None => None
      end
  | BFrame i (CNack t requeue) =>
      match mb_unacked b !! (i, t) with
      | Some (q, m) => let b' := set_unacked (delete (i, t) (mb_unacked b)) b in
                       Some (if requeue then put q m b' else mb_dead_letter q m b')
      | None => None
      end
  | BFrame i _ => Some b
  | BDeliver i t q m =>
      match mb_unacked b !! (i, t), take q m b with
      | None, Some b' => Some (set_unacked (<[(i, t) := (q, m)]> (mb_unacked b')) b')
      | _, _ => None
      end
  | BExpire q m => match take q m b with Some b' => Some (mb_dead_letter q m b') | None => None end
  | BRouted q m => match mb_queues b !! q with Some _ => Some (put q m b) | None => None end
  | BLost i =>
      Some (requeue_all (snd <$> filter (fun x => x.1.1 = i) (map_to_list (mb_unacked b)))
              (set_unacked (filter (fun x => x.1.1 <> i) (mb_unacked b)) b))
  end.

#[export] Instance memory_broker : Broker mbroker := {|
  bexec := mb_exec;
  ready := mb_ready;
  queue_args := fun b q => fst <$> mb_queues b !! q;
  bound := mb_bound;
  unacked := mb_unacked
|}.

(** A step that adds the messages [add] to the queues, and nothing else. *)
Definition grows (b b' : mbroker) (add : string -> list Message) : Prop :=
  (forall q, fst <$> mb_queues b' !! q = fst <$> mb_queues b !! q)
  /\ (forall q, mb_ready b' q ≡ₚ (mb_ready b q ++ add q)%list)
  /\ mb_bound b' = mb_bound b /\ mb_unacked b' = mb_unacked b.

(** The messages among [ms] that go to [q], if it exists. *)
Definition for_queue (b : mbroker) (ms : list (string * Message)) (q : string) : list Message :=
  match mb_queues b !! q with
  | Some _ => snd <$> filter (fun x => x.1 = q) ms
  | None => []
  end.

Lemma for_queue_elem b ms q m : (q, m) ∈ ms -> fst <$> mb_queues b !! q <> None -> m ∈ for_queue b ms q.
Proof.
  intros Hin Hq. unfold for_queue. destruct (mb_queues b !! q); [|done].
  apply list_elem_of_fmap. exists (q, m). split; [done|]. by apply list_elem_of_filter.
Qed.

Lemma grows_none b : grows b b (fun _ => []).
Proof. split_and!; try done. intros q. by rewrite app_nil_r. Qed.

Lemma requeue_grows ms b : grows b (requeue_all ms b) (for_queue b ms).
Proof.
  induction ms as [|[q m] ms (Ha & Hr & Hb & Hu)].
  { split_and!; try done. intros q. unfold for_queue. cbn. case_match; by rewrite app_nil_r. }
  change (requeue_all ((q, m) :: ms) b) with (put q m (requeue_all ms b)).
  set (b1 := requeue_all ms b) in *. unfold put. pose proof (Ha q) as Haq.
  destruct (mb_queues b1 !! q) as [[a l]|] eqn:E.
  - assert (Hl : mb_ready b1 q = l) by (unfold mb_ready; by rewrite E).
    split_and!; try done; intros q'; cbn [mb_queues set_queues]; specialize (Ha q'); specialize (Hr q').
    + destruct (base.decide (q = q')) as [<-|]; [by rewrite lookup_insert_eq|by rewrite lookup_insert_ne].
    + unfold for_queue in *. rewrite filter_cons. cbn [fst].
      destruct (base.decide (q = q')) as [<-|Hne].
      * unfold mb_ready at 1. cbn [mb_queues set_queues]. rewrite lookup_insert_eq.
        destruct (mb_queues b !! q); [|done]. rewrite fmap_cons, <- Hl, Hr. cbn [snd].
        by rewrite <- (assoc_L app), <- Permutation_cons_append.
      * unfold mb_ready at 1. cbn [mb_queues set_queues]. rewrite lookup_insert_ne by done. exact Hr.
  - split_and!; try done. intros q'. rewrite Hr. unfold for_queue. rewrite filter_cons. cbn [fst].
    destruct (base.decide (q = q')) as [<-|]; [|done]. by destruct (mb_queues b !! q).
Qed.

Lemma put_grows q m b : grows b (put q m b) (for_queue b [(q, m)]).
Proof. apply (requeue_grows [(q, m)]). Qed.

(** Where the broker dead-letters a message of a queue to. *)
Lemma dead_letter_grows q m b : exists add, grows b (mb_dead_letter q m b) add
  /\ forall target, dead_letters (fst <$> mb_queues b !! q) target -> fst <$> mb_queues b !! target <> None ->
     exists m', m' ∈ add target /\ settled_copy (body_of m) m'.
Proof.
  assert (Hno : (forall target, ~ dead_letters (fst <$> mb_queues b !! q) target) ->
    exists add, grows b b add
      /\ forall target, dead_letters (fst <$> mb_queues b !! q) target ->
         fst <$> mb_queues b !! target <> None -> exists m', m' ∈ add target /\ settled_copy (body_of m) m').
  { intros Hn. eexists. split; [apply grows_none|]. by intros target ?%Hn. }
  unfold mb_dead_letter. destruct (mb_queues b !! q) as [[a l]|]; [|apply Hno; by intros ? (? & ? & _)].
  repeat case_match; try (apply Hno; intros target (t & [= <-] & Hx & Hk); cbn in *; congruence).
  eexists. split; [apply put_grows|]. intros target (t & [= <-] & Hx & Hk) Hd. cbn in *.
  simplify_eq. eexists. split; [apply for_queue_elem; [by left|done]|done].
Qed.

Lemma remove_one_perm m l : forall l', remove_one m l = Some l' -> l ≡ₚ m :: l'.
Proof.
  induction l as [|y l IH]; intros l'; cbn [remove_one]; [done|].
  case_decide as E; [subst; by intros [= <-]|].
  destruct (remove_one m l) as [r|]; [|done]. intros [= <-]. rewrite (IH r eq_refl). constructor.
Qed.

(** Taking a message out undoes adding it. *)
Lemma take_grows q m b b' : take q m b = Some b' -> grows b' b (fun q' => if String.eqb q q' then [m] else []).
Proof.
  unfold take. destruct (mb_queues b !! q) as [[a l]|] eqn:E; [|done].
  destruct (remove_one m l) as [l'|] eqn:R; [|done]. intros [= <-].
  apply remove_one_perm in R. split_and!; try done; intros q'; cbn [mb_queues set_queues].
  - destruct (base.decide (q = q')) as [<-|]; [by rewrite lookup_insert_eq, E|by rewrite lookup_insert_ne].
  - unfold mb_ready. cbn [mb_queues set_queues]. destruct (String.eqb_spec q q') as [<-|].
    + rewrite lookup_insert_eq, E, R. by rewrite <- Permutation_cons_append.
    + by rewrite lookup_insert_ne, app_nil_r by done.
Qed.

(** [mb_ready] depends on the queues only. *)
Lemma grows_ready b b' add l q : grows b b' add -> (forall q, taken l q = []) ->
  (mb_ready b q ++ add q)%list ⊆+ (mb_ready b' q ++ taken l q)%list.
Proof. intros (_ & Hr & _) Ht. rewrite Ht, app_nil_r. by rewrite (Hr q). Qed.

(** What a step does to the queues' arguments, the bindings, the deliveries and the
    ready messages. *)
Lemma mb_exec_static l b b' : mb_exec l b = Some b' ->
  (forall q a, fst <$> mb_queues b !! q = Some a -> fst <$> mb_queues b' !! q = Some a)
  /\ (forall x, x ∈ mb_bound b -> x ∈ mb_bound b')
  /\ mb_unacked b' = unacked_after l (mb_unacked b).
Proof.
  assert (Hg : forall u b b' add, grows (set_unacked u b) b' add ->
    (forall q a, fst <$> mb_queues b !! q = Some a -> fst <$> mb_queues b' !! q = Some a)
    /\ (forall x, x ∈ mb_bound b -> x ∈ mb_bound b') /\ mb_unacked b' = u).
  { intros u b0 b0' add (Ha & _ & Hb & Hu). cbn [mb_queues mb_bound mb_unacked set_unacked] in *.
    split_and!; [intros; by rewrite Ha|by rewrite Hb|done]. }
  assert (Hg' := fun b => Hg (mb_unacked b) b). destruct l as [i c|i t q m|q m|q m|i]; cbn [mb_exec].
  - destruct c; try (intros [= <-]; cbn [unacked_after]; by apply (Hg' b _ _ (grows_none b))).
    + destruct (mb_queues b !! name) as [[a l]|] eqn:E; [case_decide; [|done]; by intros [= <-]|].
      intros [= <-]. split_and!; try done. intros q a. cbn [mb_queues set_queues].
      destruct (base.decide (name = q)) as [<-|]; [by rewrite E|by rewrite lookup_insert_ne].
    + intros [= <-]. split_and!; try done. cbn. set_solver.
    + destruct (String.eqb exchange ""); intros [= <-]; cbn [unacked_after];
        [apply (Hg' b _ _ (put_grows _ _ b))|apply (Hg' b _ _ (requeue_grows _ b))].
    + case_match eqn:E; intros [= <-]. by apply (Hg _ b _ _ (grows_none _)).
    + destruct (mb_unacked b !! (i, tag)) as [[q m]|] eqn:E; intros [= <-]. cbn [unacked_after].
      destruct requeue; [apply (Hg _ b _ _ (put_grows _ _ _))|].
      destruct (dead_letter_grows q m (set_unacked (delete (i, tag) (mb_unacked b)) b)) as (add & Hd & _).
      by apply (Hg _ b _ _ Hd).
  - case_match eqn:E; [done|]. destruct (take q m b) as [b1|] eqn:Ht; intros [= <-].
    destruct (take_grows _ _ _ _ Ht) as (Ha & _ & Hb & Hu). cbn [mb_queues mb_bound mb_unacked set_unacked].
    split_and!; [intros; by rewrite <- Ha|by rewrite Hb|by rewrite Hu].
  - destruct (take q m b) as [b1|] eqn:Ht; intros [= <-]. cbn [unacked_after].
    destruct (take_grows _ _ _ _ Ht) as (Ha & _ & Hb & Hu).
    destruct (dead_letter_grows q m b1) as (add & (Ha' & _ & Hb' & Hu') & _).
    split_and!; [intros; by rewrite Ha', <- Ha|by rewrite Hb', <- Hb|by rewrite Hu', Hu].
  - case_match; intros [= <-]. apply (Hg' b _ _ (put_grows _ _ b)).
  - intros [= <-]. apply (Hg _ b _ _ (requeue_grows _ _)).
Qed.

Lemma mb_exec_frame_ready i c b b' : mb_exec (BFrame i c) b = Some b' ->
  exists add, arriving b (BFrame i c) add
    /\ forall q, (mb_ready b q ++ add q)%list ⊆+ (mb_ready b' q ++ taken (BFrame i c) q)%list.
Proof.
  assert (Hquiet : forall q, (mb_ready b q ++ [])%list ⊆+ (mb_ready b q ++ [])%list) by done.
  cbn [mb_exec]. destruct c; try (intros [= <-]; by exists (fun _ => [])).
  - destruct (mb_queues b !! name) as [[a l]|] eqn:E;
      [case_decide; [|done]; intros [= <-]; by exists (fun _ => [])|].
    intros [= <-]. exists (fun _ => []). split; [done|]. intros q. unfold mb_ready.
    cbn [mb_queues set_queues taken]. destruct (base.decide (name = q)) as [<-|];
      [by rewrite E, lookup_insert_eq|by rewrite lookup_insert_ne].
  - destruct (String.eqb_spec exchange "") as [->|Hne]; intros [= <-].
    + eexists. split; [|intros; by apply grows_ready; [apply put_grows|]].
      intros Hd. eexists. split; [apply for_queue_elem; [by left|exact Hd]|done].
    + eexists. split; [|intros; by apply grows_ready; [apply requeue_grows|]].
      cbn. by destruct exchange.
  - case_match; intros [= <-]. by exists (fun _ => []).
  - destruct (mb_unacked b !! (i, tag)) as [[q m]|] eqn:E; intros [= <-].
    set (b1 := set_unacked _ b). destruct requeue.
    + eexists. split; [done|]. intros q'. apply (grows_ready b1); [apply put_grows|done].
    + destruct (dead_letter_grows q m b1) as (add & Hg & Hd). exists add. split.
      * intros q' m' target Hu. cbn in Hu. assert (q' = q /\ m' = m) as [-> ->] by (split; congruence).
        exact (Hd target).
      * intros q'. by apply (grows_ready b1).
Qed.

Lemma mb_exec_ready l b b' : mb_exec l b = Some b' ->
  exists add, arriving b l add
    /\ forall q, (mb_ready b q ++ add q)%list ⊆+ (mb_ready b' q ++ taken l q)%list.
Proof.
  destruct l as [i c|i t q m|q m|q m|i]; [apply mb_exec_frame_ready|cbn [mb_exec]..].
  - case_match eqn:E; [done|]. destruct (take q m b) as [b1|] eqn:Ht; intros [= <-].
    destruct (take_grows _ _ _ _ Ht) as (_ & Hr & _). exists (fun _ => []). split; [done|].
    intros q'. rewrite app_nil_r. by rewrite (Hr q').
  - destruct (take q m b) as [b1|] eqn:Ht; intros [= <-].
    destruct (take_grows _ _ _ _ Ht) as (Ha & Hr & _).
    destruct (dead_letter_grows q m b1) as (add & (_ & Hr' & _) & Hd). exists add. split.
    + intros target Hdl Hdd. cbn in Hdl, Hdd. rewrite Ha in Hdl, Hdd. auto.
    + intros q'. rewrite (Hr q'), (Hr' q'). cbn [taken].
      rewrite <- !(assoc_L app). by rewrite (Permutation_app_comm (add q')).
  - case_match eqn:E; intros [= <-]. eexists. split; [|intros; by apply grows_ready; [apply put_grows|]].
    apply for_queue_elem; [by left|]. by rewrite E.
  - intros [= <-]. set (b1 := set_unacked _ b). eexists.
    split; [|intros; apply (grows_ready b1); [apply requeue_grows|done]].
    intros q Hq. unfold delivered_on, for_queue. cbn in Hq |- *. destruct (mb_queues b !! q); [|done].
    induction (map_to_list (mb_unacked b)) as [|[[j t] [q' m]] l IH]; [done|].
    rewrite !filter_cons. cbn [fst snd].
    destruct (base.decide (j = i)) as [->|]; [|rewrite decide_False by tauto; done].
    rewrite fmap_cons, filter_cons. cbn [fst snd]. destruct (base.decide (q' = q)) as [->|].
    + rewrite decide_True by done. rewrite !fmap_cons. by apply submseteq_skip.
    + rewrite decide_False by tauto. done.
Qed.

#[export] Instance memory_broker_spec : BrokerSpec mbroker.
Proof.
  split; cbn [bexec ready queue_args bound unacked memory_broker].
  - intros l b b' q a He. by apply (mb_exec_static l).
  - intros l b b' x He. by apply (mb_exec_static l).
  - intros i q durable a b b'. cbn [mb_exec]. destruct (mb_queues b !! q) as [[a' l]|] eqn:E.
    + case_decide; [subst|done]. intros [= <-]. by rewrite E.
    + intros [= <-]. cbn. by rewrite lookup_insert_eq.
  - intros i q k ex b b' [= <-]. cbn. set_solver.
  - apply mb_exec_ready.
  - intros l b b' He. by apply mb_exec_static.
  - intros i t q m b b'. cbn [mb_exec]. case_match eqn:E; [done|].
    destruct (take q m b) as [b1|] eqn:Ht; intros [= <-]. split; [|done].
    destruct (take_grows _ _ _ _ Ht) as (_ & Hr & _). specialize (Hr q). rewrite String.eqb_refl in Hr.
    rewrite Hr. apply elem_of_app. right. by left.
Qed.
