(* ===== verification/AmqpPublisher.v ===== *)
(** * pkg/amqp: the connection and the publisher

    Opening the connection (connection.go) and publishing with confirms
    (publisher.go).  A publication and the confirmation of the broker meet on a
    Go channel with room for one value, so the publisher is a state machine
    driven by its own calls, the broker, the deadline of a call and the
    connection: [step] is one transition, and a run is any list of events. *)

From stdpp Require Import base list gmap strings numbers.
From Stdlib Require Import ZArith Lia String.
From S2P Require Import Prelude GoStrings GoErrors Logger AmqpRetry AmqpConsumer.

Local Open Scope string_scope.

(** ** connection.go *)

Record Connection := mkConnection { conn_cfg : Config; conn_log : Logger }.

Definition Connect `{Channel} (cfg : Config) (log : Logger) (s : chst) : res Connection * chst :=
  let cfg := withDefaults cfg in
  match invoke (CDial (URL cfg)) s with
  | (Some err, s) => (Err (Wrap "connecting to RabbitMQ: " err), s)
  | (None, s) =>
      match invoke COpen s with
      | (Some err, s) =>
          (Err (Wrap "opening the AMQP channel: " err), snd (invoke CConnClose s))
      | (None, s) =>
          match declareTopology (Exchange cfg) {| Name := ""; RoutingKeys := []; Durable := false |} s with
          | (Some err, s) => (Err err, snd (invoke CConnClose (snd (invoke CClose s))))
          | (None, s) => (Ok {| conn_cfg := cfg; conn_log := log |}, s)
          end
      end
  end.

Definition Connection_Config (c : Connection) : Config := conn_cfg c.

(** [conn] is nil or reports whether it is closed. *)
Definition Connection_Ping (conn : option bool) : option goerror :=
  match conn with
  | None | Some true => Some ErrConnectionClosed
  | Some false => None
  end.

Definition Connection_Close `{Channel} (c : Connection) (channel_nil conn_nil : bool) (s : chst)
    : option goerror * chst :=
  let s := if channel_nil then s
           else match invoke CClose s with
                | (Some err, s) =>
                    logged (emit (conn_log c) WarnLevel [("error", Error err)]
                              "closing the AMQP channel") s
                | (None, s) => s
                end in
  if conn_nil || is_closed (calls s) then (None, s)
  else match invoke CConnClose s with
       | (Some err, s) => (Some (Wrap "closing the AMQP connection: " err), s)
       | (None, s) => (None, s)
       end.

(** ** publisher.go *)

Definition NewPublisher `{Channel} (conn : Connection) (s : chst) : res Connection * chst :=
  match invoke COpen s with
  | (Some err, s) => (Err (Wrap "opening the publisher channel: " err), s)
  | (None, s) =>
      match invoke CConfirm s with
      | (Some err, s) =>
          (Err (Wrap "enabling publisher confirms: " err), snd (invoke CClose s))
      | (None, s) => (Ok conn, s)
      end
  end.

Definition Publisher_Close `{Channel} (s : chst) : option goerror * chst :=
  match invoke CClose s with
  | (Some err, s) => (Some (Wrap "closing the publisher channel: " err), s)
  | (None, s) => (None, s)
  end.

(** The message [publishTo] sends. *)
Definition publishing (ctx : Context) (payload : string) (headers : option Table)
    (expiration : string) : Publishing :=
  let headers := default ∅ headers in
  let traceID := TraceID ctx in
  let headers := if String.eqb traceID "" then headers
                 else <[HeaderTraceID := VString traceID]> headers in
  {| p_content_type := "application/json"; p_persistent := true; p_headers := headers;
     p_body := payload; p_expiration := expiration |}.

(** The branches of the select in [waitForConfirm]: a confirmation received
    ([None]: the channel is closed), or the context done. *)
Definition on_confirmation (routingKey : string) (confirmation : option bool) : option goerror :=
  match confirmation with
  | None => Some ErrConnectionClosed
  | Some false => Some (Errorf "" [(ErrNotConfirmed, ": " ++ routingKey)])
  | Some true => None
  end.

Definition on_done (routingKey : string) (ctxErr : goerror) : option goerror :=
  Some (Errorf "" [(ErrNotConfirmed, ": " ++ routingKey ++ ": "); (ctxErr, "")]).

(** The publisher and its channel.  Publications are numbered by their
    delivery tag.  [p_unconfirmed]: sent, not yet confirmed by the broker, in
    order; [p_confirm]: the buffer of the Go channel; [p_waiting]: the
    publication whose caller is blocked in [waitForConfirm]; [p_results]: what
    [Publish] returned for each; [p_acked]: what the broker took charge of;
    [p_sent]: what was handed to the channel. *)
Record pstate := mkPState {
  p_next : nat;
  p_unconfirmed : list nat;
  p_confirm : list (nat * bool);
  p_waiting : option (nat * string);
  p_results : list (nat * option goerror);
  p_acked : list nat;
  p_sent : list call;
  p_closed : bool
}.

Definition p_init : pstate := {|
  p_next := 1; p_unconfirmed := []; p_confirm := []; p_waiting := None; p_results := [];
  p_acked := []; p_sent := []; p_closed := false |}.

Inductive pevent :=
| EvPublish (ctx : Context) (key payload : string) (headers : option Table)
| EvPublishFails (key : string) (err : goerror)
| EvConfirm (ack : bool)
| EvReceive
| EvTimeout (ctxErr : goerror)
| EvClose
| EvReturn (key : string).

(** One transition; [None] when the event cannot happen in the state.
    - [EvPublish]: [publishTo] hands the message to the channel and blocks;
    - [EvPublishFails]: [PublishWithContext] returns an error;
    - [EvConfirm]: the library puts the broker's confirmation of the oldest
      unconfirmed publication on the Go channel, which holds one value;
    - [EvReceive], [EvTimeout]: the two cases of the select;
    - [EvClose]: the connection drops and the library closes the channel;
    - [EvReturn]: the broker hands a mandatory message back that no queue is bound
      to; the library discards it, since nobody asked to be told ([NotifyReturn]). *)
Definition step (conn : Connection) (e : pevent) (s : pstate) : option pstate :=
  match e with
  | EvPublish ctx key payload headers =>
      match p_waiting s, p_closed s with
      | None, false =>
          Some {| p_next := S (p_next s); p_unconfirmed := (p_unconfirmed s ++ [p_next s])%list;
                  p_confirm := p_confirm s; p_waiting := Some (p_next s, key);
                  p_results := p_results s; p_acked := p_acked s;
                  p_sent := (p_sent s ++ [CPublish (Exchange (conn_cfg conn)) key true
                                            (publishing ctx payload headers "")])%list;
                  p_closed := false |}
      | _, _ => None
      end
  | EvPublishFails key err =>
      match p_waiting s with
      | None =>
          Some {| p_next := p_next s; p_unconfirmed := p_unconfirmed s;
                  p_confirm := p_confirm s; p_waiting := None;
                  p_results := (p_results s ++ [(p_next s,
                    Some (Wrap ("publishing " ++ Quote key ++ ": ") err))])%list;
                  p_acked := p_acked s; p_sent := p_sent s; p_closed := p_closed s |}
      | Some _ => None
      end
  | EvConfirm ack =>
      match p_unconfirmed s, p_confirm s, p_closed s with
      | t :: rest, [], false =>
          Some {| p_next := p_next s; p_unconfirmed := rest; p_confirm := [(t, ack)];
                  p_waiting := p_waiting s; p_results := p_results s;
                  p_acked := if ack then (p_acked s ++ [t])%list else p_acked s;
                  p_sent := p_sent s; p_closed := false |}
      | _, _, _ => None
      end
  | EvReceive =>
      match p_waiting s, p_confirm s with
      | Some (t, key), (_, ack) :: rest =>
          Some {| p_next := p_next s; p_unconfirmed := p_unconfirmed s; p_confirm := rest;
                  p_waiting := None;
                  p_results := (p_results s ++ [(t, on_confirmation key (Some ack))])%list;
                  p_acked := p_acked s; p_sent := p_sent s; p_closed := p_closed s |}
      | Some (t, key), [] =>
          if p_closed s
          then Some {| p_next := p_next s; p_unconfirmed := p_unconfirmed s; p_confirm := [];
                       p_waiting := None;
                       p_results := (p_results s ++ [(t, on_confirmation key None)])%list;
                       p_acked := p_acked s; p_sent := p_sent s; p_closed := true |}
          else None
      | None, _ => None
      end
  | EvTimeout ctxErr =>
      match p_waiting s with
      | Some (t, key) =>
          Some {| p_next := p_next s; p_unconfirmed := p_unconfirmed s; p_confirm := p_confirm s;
                  p_waiting := None;
                  p_results := (p_results s ++ [(t, on_done key ctxErr)])%list;
                  p_acked := p_acked s; p_sent := p_sent s; p_closed := p_closed s |}
      | None => None
      end
  | EvClose =>
      Some {| p_next := p_next s; p_unconfirmed := p_unconfirmed s; p_confirm := p_confirm s;
              p_waiting := p_waiting s; p_results := p_results s; p_acked := p_acked s; p_sent := p_sent s;
              p_closed := true |}
  | EvReturn _ => Some s
  end.

Fixpoint run (conn : Connection) (evs : list pevent) (s : pstate) : option pstate :=
  match evs with
  | [] => Some s
  | e :: evs' => match step conn e s with Some s' => run conn evs' s' | None => None end
  end.

Definition is_timeout (e : pevent) : bool := match e with EvTimeout _ => true | _ => false end.

(** ** Invariant *)

(** While no call has timed out: at most one publication is outstanding, it is
    the one being waited for, and the channel holds nothing else. *)
Definition in_step (s : pstate) : Prop :=
  match p_waiting s with
  | None => p_confirm s = [] /\ (p_closed s = true \/ p_unconfirmed s = [])
  | Some (t, _) =>
      (p_confirm s = [] /\ (p_closed s = true \/ p_unconfirmed s = [t]))
      \/ exists a, p_confirm s = [(t, a)] /\ (a = true -> t ∈ p_acked s)
                   /\ (p_closed s = true \/ p_unconfirmed s = [])
  end.

(** A call made before publication [t] gave up at its deadline, or was cancelled. *)
Definition gave_up (s : pstate) (t : nat) : Prop :=
  exists t' key err, (t' < t)%nat /\ (t', on_done key err) ∈ p_results s.

(** The publication a call is or would be about. *)
Definition current (s : pstate) : nat :=
  match p_waiting s with Some (t, _) => t | None => p_next s end.

(** What holds whatever happens: a nil result is an acknowledgement of that very
    publication, unless an earlier call gave up; and the machine is in step until one
    does. *)
Definition accountable (s : pstate) : Prop :=
  (forall t key, p_waiting s = Some (t, key) -> S t = p_next s)
  /\ (forall t, (t, None) ∈ p_results s -> t ∈ p_acked s \/ gave_up s t)
  /\ (in_step s \/ gave_up s (current s)).

Lemma gave_up_mono s s' t t' :
  p_results s ⊆ p_results s' -> (t <= t')%nat -> gave_up s t -> gave_up s' t'.
Proof. intros Hs Ht (t0 & key & err & ? & ?). exists t0, key, err. split; [lia|by apply Hs]. Qed.

Lemma step_grows conn e s s' : step conn e s = Some s' ->
  p_results s ⊆ p_results s' /\ p_acked s ⊆ p_acked s'
  /\ (e = EvReceive \/ is_timeout e = true \/ current s' = current s).
Proof.
  unfold current. destruct e; cbn [step]; repeat case_match; intros; simplify_eq/=;
    (split; [set_solver|]); (split; [set_solver|]); auto.
Qed.

(** The result an event adds, if any. *)
Lemma step_results conn e s s' t r : step conn e s = Some s' -> (t, r) ∈ p_results s' ->
  (t, r) ∈ p_results s
  \/ (t = current s /\ (r = None -> exists a l, p_confirm s = (a, true) :: l /\ p_waiting s <> None)).
Proof.
  unfold current.
  destruct e; cbn [step]; repeat case_match; intros; simplify_eq/=; auto;
    match goal with H : _ ∈ (_ ++ _)%list |- _ =>
      apply elem_of_app in H as [?|[= -> ->]%list_elem_of_singleton]; auto end;
    right; (split; [done|]); intros Hr; try discriminate Hr; eauto.
  match goal with |- context [(?n, ?b) :: ?l] => exists n, l; destruct b; by simplify_eq/= end.
Qed.

Lemma receive_in_step s a l : in_step s -> p_confirm s = (a, true) :: l -> p_waiting s <> None ->
  current s ∈ p_acked s.
Proof.
  unfold in_step, current. intros Hin Hc Hw. destruct (p_waiting s) as [[t key]|]; [|done].
  destruct Hin as [[Hn _]|(b & Hn & Ha & _)]; rewrite Hn in Hc; simplify_eq. by apply Ha.
Qed.

Lemma step_in_step conn e s s' :
  is_timeout e = false -> step conn e s = Some s' -> in_step s -> in_step s'.
Proof.
  intros He Hs Hin. unfold in_step in Hin.
  destruct e; simpl in *; try discriminate; repeat case_match; simplify_eq/=;
    unfold in_step; simpl.
  - left. destruct Hin as [-> [?| ->]]; [congruence|auto].
  - done.
  - destruct Hin as [(? & [?|?])|(a & ? & _)]; try congruence; simplify_eq.
    right. exists true. repeat split; [|auto]. intros _. set_solver.
  - destruct Hin as [(? & [?|?])|(a & ? & _)]; try congruence; simplify_eq.
    right. exists false. by repeat split; [|right].
  - destruct Hin as [_ [?|?]]; congruence.
  - destruct Hin as [_ [?|?]]; congruence.
  - destruct Hin as [(_ & _)|(a & ? & _)]; [auto|simplify_eq].
  - destruct Hin as [(? & _)|(a & ? & Ha & Hu)]; by simplify_eq.
  - destruct Hin as [(? & _)|(a & ? & Ha & Hu)]; by simplify_eq.
  - destruct Hin as [(? & _)|(a & ? & ? & _)]; eauto 10.
  - destruct Hin as [? _]. auto.
  - by destruct (p_waiting s') as [[]|]; simplify_eq.
  - by destruct (p_waiting s') as [[]|]; simplify_eq.
Qed.

Lemma step_waiting conn e s s' : step conn e s = Some s' ->
  (forall t key, p_waiting s = Some (t, key) -> S t = p_next s) ->
  forall t key, p_waiting s' = Some (t, key) -> S t = p_next s'.
Proof.
  intros Hs Hw t key. destruct e; simpl in Hs; repeat case_match; simplify_eq/=; eauto; intros; simplify_eq; eauto.
Qed.

Lemma step_accountable conn e s s' : step conn e s = Some s' -> accountable s -> accountable s'.
Proof.
  intros Hs (Hw & Hr & Hi). destruct (step_grows _ _ _ _ Hs) as (Hres & Hack & Hcur).
  split; [by eapply step_waiting|]. split.
  - intros t Ht. destruct (step_results _ _ _ _ _ _ Hs Ht) as [Ht'|[-> Hc]].
    + destruct (Hr t Ht') as [?|?]; [left; by apply Hack|right; by eapply gave_up_mono].
    + destruct (Hc eq_refl) as (a & l & Ha & Hw').
      destruct Hi as [Hi|Hi]; [left; apply Hack; by eapply receive_in_step|right; by eapply gave_up_mono].
  - destruct (is_timeout e) eqn:He.
    + right. destruct e; simpl in *; try discriminate. destruct (p_waiting s) as [[t key]|] eqn:Hwt; simplify_eq/=.
      exists t, key, ctxErr. unfold current. simpl. specialize (Hw _ _ eq_refl). split; [lia|]. set_solver.
    + destruct Hi as [Hi|Hi]; [left; by eapply step_in_step|]. right.
      eapply gave_up_mono; [done| |done]. destruct Hcur as [->|[?|Hc]]; [|congruence|by rewrite Hc].
      unfold current. simpl in Hs. repeat case_match; simplify_eq/=; specialize (Hw _ _ eq_refl); lia.
Qed.

Lemma run_accountable conn evs : forall s s', run conn evs s = Some s' -> accountable s -> accountable s'.
Proof.
  induction evs as [|e evs IH]; intros s s' Hr Hs; cbn [run] in Hr; [by simplify_eq|].
  destruct (step conn e s) as [s1|] eqn:Hst; [|done]. eauto using step_accountable.
Qed.

Lemma p_init_accountable : accountable p_init.
Proof.
  split; [done|]. split; [by intros ? ?%not_elem_of_nil|]. left. split; [done|by right].
Qed.

(** ** Theorems *)


(** As long as no call has run into its deadline, a nil result means just that. *)
Lemma step_no_deadline conn e s s' :
  is_timeout e = false -> step conn e s = Some s' ->
  (forall t key err, ~ (t, on_done key err) ∈ p_results s) ->
  forall t key err, ~ (t, on_done key err) ∈ p_results s'.
Proof.
  intros He Hs Hn t key err Ht.
  destruct e; simpl in *; try discriminate; repeat case_match; simplify_eq/=; try (by apply (Hn t key err));
    apply elem_of_app in Ht as [Ht|Ht%list_elem_of_singleton]; try (by apply (Hn t key err)).
  all: unfold on_done, on_confirmation, Wrap in Ht; repeat case_match; congruence.
Qed.

Lemma run_no_deadline conn evs : forall s s',
  Forall (fun e => is_timeout e = false) evs -> run conn evs s = Some s' ->
  (forall t key err, ~ (t, on_done key err) ∈ p_results s) ->
  forall t key err, ~ (t, on_done key err) ∈ p_results s'.
Proof.
  induction evs as [|e evs IH]; intros s s' Hall Hr Hs; cbn [run] in Hr; [by simplify_eq|].
  apply Forall_cons_iff in Hall as [He Hall].
  destruct (step conn e s) as [s1|] eqn:Hst; [|done]. eauto using step_no_deadline.
Qed.

Definition sample_connection : Connection :=
  {| conn_cfg := c_cfg sample_consumer; conn_log := sample_log |}.

Definition bare_publish (key : string) : pevent := EvPublish no_context key "{}" None.


(** a confirmation is not matched with the publication it is for.  When a
    call gives up at its deadline and the broker's confirmation of it arrives
    later, the next call receives that confirmation as its own: [Publish] of the
    second message returns nil although the broker has not acknowledged it, for
    every pair of keys. *)
Theorem late_confirm_taken_by_next_publish conn k1 k2 ctxErr :
  exists s, run conn [bare_publish k1; EvTimeout ctxErr; EvConfirm true; bare_publish k2; EvReceive]
              p_init = Some s
    /\ (2, None) ∈ p_results s /\ ~ 2 ∈ p_acked s /\ p_unconfirmed s = [2].
Proof.
  eexists. split; [reflexivity|]. simpl. split; [set_solver|]. split; [set_solver|done].
Qed.

(** A message nobody is bound to is published without an error: the broker hands it
    back and then acknowledges it, and the acknowledgement is all [Publish] looks at,
    for every key. *)
Theorem unroutable_publication_succeeds conn ctx key payload :
  exists s, run conn [EvPublish ctx key payload None; EvReturn key; EvConfirm true; EvReceive] p_init
              = Some s
    /\ p_results s = [(1, None)].
Proof. eexists. by split. Qed.
