(* ===== verification/Errors.v ===== *)
(** * pkg/errors: what a client is told

    The domain error (errors.go), its reasons (reasons.go), and the translation
    of any error into the gRPC status a client receives (grpc.go).  The status
    library is modelled by its documented behaviour: what it renders as text and
    what it can marshal are parameters. *)

From stdpp Require Import base list gmap strings numbers.
From Stdlib Require Import ZArith Lia String.
From S2P Require Import Prelude GoStrings GoErrors Logger.

Local Open Scope string_scope.

(** ** google.golang.org/grpc/status *)

(** [status_text]: the text of a status error; [marshals]: a detail that can be
    packed into a status; [code_String]: the name of a code. *)
Class GrpcStatus := {
  status_text : Status -> string;
  marshals : ErrorInfo -> bool;
  code_String : Z -> string
}.

Section Grpc.
Context `{GrpcStatus}.

Definition status_New (code : Z) (message : string) : Status :=
  {| st_code := code; st_message := message; st_details := [] |}.

(** [WithDetails] refuses a status with code OK and a detail it cannot pack. *)
Definition WithDetails (st : Status) (info : ErrorInfo) : option Status :=
  if (st_code st =? codes.OK)%Z || negb (marshals info) then None
  else Some {| st_code := st_code st; st_message := st_message st;
               st_details := (st_details st ++ [InfoDetail info])%list |}.

(** [Err]: nil when the code is OK. *)
Definition status_Err (st : Status) : option goerror :=
  if (st_code st =? codes.OK)%Z then None else Some (StatusErr st (status_text st)).

(** ** reasons.go *)

Definition DomainName := "dizen.io".

Definition ReasonInternal := "INTERNAL_ERROR".
Definition ReasonInvalidArgument := "INVALID_ARGUMENT".
Definition ReasonNotFound := "NOT_FOUND".
Definition ReasonAlreadyExists := "ALREADY_EXISTS".
Definition ReasonPermissionDenied := "PERMISSION_DENIED".
Definition ReasonUnauthenticated := "UNAUTHENTICATED".
Definition ReasonRateLimited := "RATE_LIMITED".
Definition ReasonUnavailable := "UNAVAILABLE".
Definition ReasonClientTooOld := "CLIENT_TOO_OLD".
Definition ReasonSessionRevoked := "SESSION_REVOKED".
Definition ReasonTokenExpired := "TOKEN_EXPIRED".
Definition ReasonUserBlocked := "USER_BLOCKED".
Definition ReasonMustChangePassword := "MUST_CHANGE_PASSWORD".
Definition ReasonTourNotEntitled := "TOUR_NOT_ENTITLED".
Definition ReasonSlotFull := "SLOT_FULL".

(** ** errors.go *)

Definition internalMessage := "internal error".

Definition New (code : Z) (reason message : string) : goerror := Domain code reason message ∅ None.

(** The methods of [*Error]; on any other error they are not defined and the
    argument comes back. *)
Definition Unwrap (e : goerror) : option goerror :=
  match e with Domain _ _ _ _ cause => cause | _ => None end.

Definition WithCause (e cause : goerror) : goerror :=
  match e with Domain c r m md _ => Domain c r m md (Some cause) | _ => e end.

Definition WithMetadata (e : goerror) (key value : string) : goerror :=
  match e with Domain c r m md cause => Domain c r m (<[key := value]> md) cause | _ => e end.

Definition WithMessage (e : goerror) (message : string) : goerror :=
  match e with Domain c r _ md cause => Domain c r message md cause | _ => e end.

(** [errors.As] for [*Error]: the first domain error of the chain. *)
Definition AsDomain (err : goerror) : option goerror := As is_domain err.

Definition NotFound := New codes.NotFound.
Definition InvalidArgument := New codes.InvalidArgument.
Definition AlreadyExists := New codes.AlreadyExists.
Definition PermissionDenied := New codes.PermissionDenied.
Definition Unauthenticated := New codes.Unauthenticated.
Definition FailedPrecondition := New codes.FailedPrecondition.
Definition ResourceExhausted := New codes.ResourceExhausted.
Definition Unavailable := New codes.Unavailable.
Definition Internal (cause : goerror) : goerror :=
  WithCause (New codes.Internal ReasonInternal internalMessage) cause.

(** ** grpc.go *)

(** The status of a domain error; the bare status when the detail cannot be
    attached. *)
Definition status (code : Z) (reason message : string) (metadata : gmap string string) : Status :=
  let st := status_New code message in
  default st (WithDetails st {| ei_reason := reason; ei_domain := DomainName;
                                ei_metadata := metadata |}).

(** [GRPCStatus] of the errors that have one. *)
Definition GRPCStatus (e : goerror) : option Status :=
  match e with
  | Domain c r m md _ => Some (status c r m md)
  | StatusErr st _ => Some st
  | _ => None
  end.

(** [status.FromError] on a non-nil error: the error's own status, or that of
    the first error of the chain that has one with the text of the whole error
    as message, or UNKNOWN and false. *)
Definition FromError (err : goerror) : Status * bool :=
  match GRPCStatus err with
  | Some st => (st, true)
  | None =>
      match As has_status err with
      | Some e =>
          match GRPCStatus e with
          | Some st => ({| st_code := st_code st; st_message := Error err;
                           st_details := st_details st |}, true)
          | None => (status_New codes.Unknown (Error err), false)
          end
      | None => (status_New codes.Unknown (Error err), false)
      end
  end.

Definition isStatusError (err : goerror) : bool :=
  match As has_status err with Some _ => true | None => false end.

Definition levelFor (code : Z) : Level :=
  if existsb (Z.eqb code) [codes.Internal; codes.Unknown; codes.DataLoss; codes.Unavailable]
  then ErrorLevel
  else if (code =? codes.ResourceExhausted)%Z then WarnLevel else DebugLevel.

Definition logDomainError (ctx : Context) (code : Z) (reason message : string)
    (cause : option goerror) : list LogEntry :=
  emit (Ctx ctx) (levelFor code)
    ([("reason", reason); ("code", code_String code)]
     ++ match cause with Some c => [("error", Error c)] | None => [] end)%list message.

Definition unexpected (ctx : Context) (err : goerror) : option goerror * list LogEntry :=
  let st := status_New codes.Internal internalMessage in
  (match WithDetails st {| ei_reason := ReasonInternal; ei_domain := DomainName;
                           ei_metadata := ∅ |} with
   | None => status_Err st
   | Some withDetails => status_Err withDetails
   end,
   emit (Ctx ctx) ErrorLevel [("error", Error err); ("reason", ReasonInternal)]
     "unexpected error in a handler").

Definition ToStatus (ctx : Context) (err : option goerror) : option goerror * list LogEntry :=
  match err with
  | None => (None, [])
  | Some err =>
      match AsDomain err with
      | Some (Domain c r m md cause) =>
          (status_Err (status c r m md), logDomainError ctx c r m cause)
      | _ =>
          if Is err context_Canceled
          then (status_Err (status_New codes.Canceled "the call was canceled"), [])
          else if Is err context_DeadlineExceeded
          then (status_Err (status_New codes.DeadlineExceeded "the call exceeded its deadline"), [])
          else if snd (FromError err) && isStatusError err then (Some err, [])
          else unexpected ctx err
      end
  end.

(** The loop of [ReasonOf] over the details. *)
Fixpoint first_reason (details : list detail) : string :=
  match details with
  | [] => ""
  | InfoDetail info :: _ => ei_reason info
  | OtherDetail _ _ :: details' => first_reason details'
  end.

Definition ReasonOf (err : option goerror) : string :=
  match err with
  | None => ""
  | Some err =>
      match AsDomain err with
      | Some (Domain _ r _ _ _) => r
      | _ =>
          let '(st, ok) := FromError err in
          if negb ok then ""
          else first_reason (st_details st)
      end
  end.
End Grpc.

(** ** Lemmas *)

Section Lemmas.
Context `{GrpcStatus}.

Lemma AsDomain_shape e x : AsDomain e = Some x -> exists c r m md cause, x = Domain c r m md cause.
Proof. intros Hx%As_matches. destruct x; try done. by repeat eexists. Qed.

Lemma ToStatus_domain ctx e c r m md cause :
  AsDomain e = Some (Domain c r m md cause) ->
  ToStatus ctx (Some e) = (status_Err (status c r m md), logDomainError ctx c r m cause).
Proof. intros Hd. simpl. by rewrite Hd. Qed.

(** A status error is returned as it is. *)
Lemma ToStatus_status ctx st t : ToStatus ctx (Some (StatusErr st t)) = (Some (StatusErr st t), []).
Proof. done. Qed.

Lemma status_Err_shape st e : status_Err st = Some e -> e = StatusErr st (status_text st).
Proof. unfold status_Err. destruct (_ =? _)%Z; [done|]. by intros [= <-]. Qed.

Lemma status_code c r m md : st_code (status c r m md) = c.
Proof. unfold status, WithDetails. by destruct (_ || _). Qed.

Lemma status_message c r m md : st_message (status c r m md) = m.
Proof. unfold status, WithDetails. by destruct (_ || _). Qed.

Lemma status_details c r m md info :
  info = {| ei_reason := r; ei_domain := DomainName; ei_metadata := md |} ->
  c <> codes.OK -> marshals info = true -> st_details (status c r m md) = [InfoDetail info].
Proof.
  intros -> Hc Hm. unfold status, WithDetails. simpl. rewrite Hm. simpl.
  destruct (c =? codes.OK)%Z eqn:?; zbool; done.
Qed.

(** Nothing the chain of an error without a status holds is a domain error. *)
Lemma no_status_no_domain e : As has_status e = None -> AsDomain e = None.
Proof.
  rewrite As_None. intros Hall. apply As_None. eapply Forall_impl; [|exact Hall].
  intros []; done.
Qed.

Lemma no_status_FromError e : As has_status e = None -> snd (FromError e) = false.
Proof.
  intros Hn. unfold FromError. rewrite Hn. destruct e; try done; simpl.
  all: by rewrite As_None in Hn; apply Forall_inv in Hn.
Qed.
End Lemmas.

(** ** Theorems *)

(** What a client is told about a failure nobody declared. *)
Definition internal_status `{GrpcStatus} : Status :=
  status codes.Internal ReasonInternal internalMessage ∅.

Lemma ToStatus_unexpected `{GrpcStatus} ctx e :
  As has_status e = None -> Is e context_Canceled = false -> Is e context_DeadlineExceeded = false ->
  ToStatus ctx (Some e)
  = (Some (StatusErr internal_status (status_text internal_status)),
     emit (Ctx ctx) ErrorLevel [("error", Error e); ("reason", ReasonInternal)]
       "unexpected error in a handler").
Proof.
  intros Hn Hc Hd. simpl. rewrite (no_status_no_domain e Hn), Hc, Hd, (no_status_FromError e Hn).
  simpl. unfold unexpected, internal_status, status, WithDetails, status_Err. by destruct (_ || _).
Qed.

(** C27: an unexpected error tells the client nothing and the log everything.
    For every error that carries no gRPC status and is not a cancellation or an
    expired deadline, the answer is one fixed INTERNAL status, the same whatever
    the error's text, type or causes; and one entry at error level is written
    with the whole text of the error and, when a trace is active, its trace_id. *)
Theorem unexpected_error_reveals_nothing `{GrpcStatus} ctx e log :
  As has_status e = None -> Is e context_Canceled = false -> Is e context_DeadlineExceeded = false ->
  ctx_logger ctx = Some log -> (level_num (lg_level log) <= level_num ErrorLevel)%Z ->
  let '(resp, logs) := ToStatus ctx (Some e) in
  resp = Some (StatusErr internal_status (status_text internal_status))
  /\ exists entry, logs = [entry] /\ le_level entry = ErrorLevel
     /\ ("error", Error e) ∈ le_fields entry
     /\ forall trace span, ctx_span ctx = Some (trace, span) ->
          (FieldTraceID, trace) ∈ le_fields entry.
Proof.
  intros Hn Hc Hd Hlog Hlv. rewrite (ToStatus_unexpected ctx e Hn Hc Hd). split; [done|].
  rewrite (emit_Ctx ctx log) by (done || (intros Heq; by rewrite Heq in Hlv)).
  eexists. split; [done|]. split; [done|]. simpl. split; [set_solver|].
  intros trace span ->. set_solver.
Qed.

Definition sample_grpc : GrpcStatus := {|
  status_text := fun st => "rpc error: desc = " ++ st_message st;
  marshals := fun _ => true;
  code_String := fun c => Itoa c
|}.

Definition logging_ctx : Context :=
  {| ctx_logger := Some {| lg_out := Stdout; lg_level := InfoLevel; lg_fields := [] |};
     ctx_span := Some ("t1", "s1") |}.

Definition sql_error : goerror :=
  Wrap "reading user: " (Sentinel "pg" "dial postgres://app:secret@db").

Lemma unexpected_error_reveals_nothing_witness :
  fst (@ToStatus sample_grpc logging_ctx (Some sql_error))
  = Some (StatusErr (@internal_status sample_grpc) "rpc error: desc = internal error").
Proof.
  pose proof (@unexpected_error_reveals_nothing sample_grpc logging_ctx sql_error
    {| lg_out := Stdout; lg_level := InfoLevel; lg_fields := [] |} eq_refl eq_refl eq_refl eq_refl
    ltac:(vm_compute; discriminate)) as Ht.
  destruct (@ToStatus sample_grpc logging_ctx (Some sql_error)) as [resp logs]. apply Ht.
Defined.



(** the reason survives the wire.  What a client reads back from the status
    of a declared error is the reason it was declared with, provided the detail
    can be attached at all. *)
Theorem ReasonOf_roundtrip `{GrpcStatus} ctx e c r m md cause :
  AsDomain e = Some (Domain c r m md cause) -> c <> codes.OK ->
  marshals {| ei_reason := r; ei_domain := DomainName; ei_metadata := md |} = true ->
  ReasonOf (fst (ToStatus ctx (Some e))) = r /\ ReasonOf (Some e) = r.
Proof.
  intros He Hc Hm. rewrite (ToStatus_domain ctx e _ _ _ _ _ He). simpl.
  unfold status_Err at 1. rewrite status_code. destruct (c =? codes.OK)%Z eqn:?; zbool; [done|].
  simpl. erewrite status_details by done. rewrite He. done.
Qed.

Lemma ReasonOf_roundtrip_witness :
  @ReasonOf sample_grpc (fst (@ToStatus sample_grpc logging_ctx
    (Some (Wrap "booking: " (FailedPrecondition ReasonSlotFull "the slot is full"))))) = "SLOT_FULL".
Proof.
  apply (@ReasonOf_roundtrip sample_grpc logging_ctx
           (Wrap "booking: " (FailedPrecondition ReasonSlotFull "the slot is full"))
           codes.FailedPrecondition ReasonSlotFull "the slot is full" ∅ None); done.
Defined.

(** translating twice changes nothing, and an error stays an error: the
    answer is nil only when nil was given or the first domain error of the chain
    was declared with code OK. *)
Theorem ToStatus_idempotent `{GrpcStatus} ctx ctx' err :
  fst (ToStatus ctx' (fst (ToStatus ctx err))) = fst (ToStatus ctx err)
  /\ (fst (ToStatus ctx err) = None <->
      err = None \/ exists e r m md cause, err = Some e
        /\ AsDomain e = Some (Domain codes.OK r m md cause)).
Proof.
  destruct err as [e|]; [|naive_solver].
  destruct (AsDomain e) as [x|] eqn:Hd.
  - destruct (AsDomain_shape e x Hd) as (c & r & m & md & cause & ->).
    rewrite (ToStatus_domain ctx e _ _ _ _ _ Hd). simpl. unfold status_Err. rewrite status_code.
    destruct (c =? codes.OK)%Z eqn:?; zbool; simpl; split; try done; [naive_solver|].
    split; [done|]. intros [?|(e0 & ? & ? & ? & ? & ? & ?)]; simplify_eq.
  - simpl. rewrite Hd.
    destruct (Is e context_Canceled) eqn:Hc; [split; [done|naive_solver]|].
    destruct (Is e context_DeadlineExceeded) eqn:Hde; [split; [done|naive_solver]|].
    destruct (snd (FromError e) && isStatusError e) eqn:Hs.
    + simpl. rewrite Hd, Hc, Hde, Hs. split; [done|naive_solver].
    + unfold unexpected, WithDetails. simpl. destruct (negb _); split; try done; naive_solver.
Qed.

(** an error that wraps a gRPC status is handed on as it is, so the text
    around the status reaches the client: the message the status library derives
    for the answer is the whole text of the error. *)
Theorem wrapped_status_text_reaches_client `{GrpcStatus} ctx text st t :
  fst (ToStatus ctx (Some (Wrap text (StatusErr st t)))) = Some (Wrap text (StatusErr st t))
  /\ st_message (fst (FromError (Wrap text (StatusErr st t)))) = text ++ t.
Proof. split; [done|]. simpl. by rewrite append_nil_r. Qed.
