(* ===== verification/GrpcServer.v ===== *)
(** * pkg/grpcserver and pkg/observability/metrics

    The interceptors a call passes (interceptor/*.go), the order they are
    assembled in (chain.go), the registry the metrics interceptor writes to
    (metrics.go), and the life cycle of the server (server.go, options.go).
    A handler is any function of the call that returns or panics; gRPC composes
    the interceptors, the first one outermost. *)

From stdpp Require Import base list gmap sets strings numbers.
From Stdlib Require Import ZArith Lia String.
From S2P Require Import Prelude GoStrings GoErrors Logger Errors.

Local Open Scope string_scope.

(** ** metrics.go *)

(** The three series of the registry, by their labels. *)
Record Registry := mkRegistry {
  grpcRequests : gmap (string * string) Z;
  grpcDuration : list (string * string * Z);
  grpcInFlight : gmap string Z
}.

Definition counter_add {K} `{Countable K} (k : K) (d : Z) (m : gmap K Z) : gmap K Z :=
  <[k := (default 0 (m !! k) + d)%Z]> m.

Section Metrics.
Context `{GrpcStatus}.

Definition codeLabel (code : Z) : string :=
  let name := code_String code in
  if (5 <? String.length name)%nat && String.eqb (String.substring 0 5 name) "Code("
  then Itoa code else name.

(** [RequestStarted] and the closure it returns; [elapsed] is the time since
    the start. *)
Definition RequestStarted (method : string) (r : Registry) : Registry :=
  {| grpcRequests := grpcRequests r; grpcDuration := grpcDuration r;
     grpcInFlight := counter_add method 1 (grpcInFlight r) |}.

Definition finish (method : string) (code elapsed : Z) (r : Registry) : Registry :=
  let label := codeLabel code in
  {| grpcInFlight := counter_add method (-1) (grpcInFlight r);
     grpcRequests := counter_add (method, label) 1 (grpcRequests r);
     grpcDuration := (grpcDuration r ++ [(method, label, elapsed)])%list |}.
End Metrics.

(** ** allowlist.go *)

(** A nil allowlist contains nothing. *)
Definition NewAllowlist (methods : list string) : option (gset string) :=
  Some (list_to_set methods).

Definition Contains (a : option (gset string)) (method : string) : bool :=
  match a with None => false | Some methods => bool_decide (method ∈ methods) end.

Definition Methods (a : option (gset string)) : list string :=
  match a with None => [] | Some methods => elements methods end.

Definition HealthMethods : list string :=
  ["/grpc.health.v1.Health/Check"; "/grpc.health.v1.Health/Watch"].

(** ** Calls, handlers and interceptors *)

(** The libraries the interceptors use: semantic versions, the validator of
    protobuf messages, the stack of a panic, and the clock. *)
Class GrpcLibs (Req : Type) := {
  Version : Type;
  NewVersion : string -> res Version;
  LessThan : Version -> Version -> bool;
  Version_String : Version -> string;
  is_proto : Req -> bool;
  protovalidate : Req -> option goerror;
  (** The violations of a [*protovalidate.ValidationError] in the chain: field
      path, rule id, message. *)
  as_validation : goerror -> option (list (string * string * string));
  new_validator : option goerror;
  debug_Stack : string;
  elapsed : nat -> Z
}.

Section Interceptors.
Context `{GrpcStatus, ZerologFields} {Req Resp : Type} `{GrpcLibs Req}.

Record call := mkCall {
  c_ctx : Context;
  c_md : option (gmap string (list string));
  c_peer : option string;
  c_req : Req
}.

(** What a call changes outside itself: the log and the metrics, and whatever
    the handler does, recorded in [g_effects]. *)
Record gworld := mkGWorld { g_logs : list LogEntry; g_metrics : Registry; g_effects : list string }.

Definition glog (es : list LogEntry) (w : gworld) : gworld :=
  {| g_logs := (g_logs w ++ es)%list; g_metrics := g_metrics w; g_effects := g_effects w |}.
Definition gmetrics (f : Registry -> Registry) (w : gworld) : gworld :=
  {| g_logs := g_logs w; g_metrics := f (g_metrics w); g_effects := g_effects w |}.

Definition answer : Type := option Resp * option goerror.
Definition handler : Type := call -> gworld -> outcome answer * gworld.
Definition interceptor : Type := string -> handler -> handler.

Definition with_ctx (ctx : Context) (c : call) : call :=
  {| c_ctx := ctx; c_md := c_md c; c_peer := c_peer c; c_req := c_req c |}.

(** [status.Code]. *)
Definition Code (err : option goerror) : Z :=
  match err with None => codes.OK | Some e => st_code (fst (FromError e)) end.

(** *** metadata.go *)

Definition MDAuthorization := "authorization".
Definition MDDeviceID := "x-device-id".
Definition MDAppVersion := "x-app-version".
Definition MDAPIVersion := "x-api-version".
Definition MDPlatform := "x-platform".
Definition MDAcceptLanguage := "accept-language".

(** Metadata keys are lower case, as gRPC delivers them. *)
Definition First (md : gmap string (list string)) (key : string) : string :=
  match md !! key with
  | Some (v :: _) => v
  | _ => ""
  end.

Definition MDFromContext (c : call) : gmap string (list string) := default ∅ (c_md c).

Definition PeerAddress (c : call) : string := default "" (c_peer c).

(** *** recovery.go *)

Definition panicMessage := "internal error".

Definition logPanic (c : call) (log : Logger) (method recovered : string) : list LogEntry :=
  emit log ErrorLevel
    ([(FieldMethod, method); ("panic", recovered); ("stack", debug_Stack)]
     ++ (if String.eqb (TraceID (c_ctx c)) "" then []
         else [(FieldTraceID, TraceID (c_ctx c))]))%list
    "recovered a panic in a gRPC handler".

Definition Recovery (log : Logger) : interceptor := fun method next c w =>
  match next c w with
  | (Panics r, w) =>
      (Returns (None, status_Err (status_New codes.Internal panicMessage)),
       glog (logPanic c log method r) w)
  | ok => ok
  end.

(** *** logging.go and codes.go *)

Definition access_level (err : option goerror) : Level :=
  match err with
  | None => InfoLevel
  | Some _ => if existsb (Z.eqb (Code err))
                   [codes.Internal; codes.Unknown; codes.DataLoss; codes.Unavailable]
              then ErrorLevel else WarnLevel
  end.

Definition writeAccessLog (c : call) (method : string) (latency : Z) (err : option goerror)
    : list LogEntry :=
  emit (Ctx (c_ctx c)) (access_level err)
    ([(FieldMethod, method); ("code", code_String (Code err)); ("latency", Dur latency)]
     ++ (if String.eqb (PeerAddress c) "" then [] else [("peer", PeerAddress c)])
     ++ match err with Some e => [("error", Error e)] | None => [] end)%list
    "gRPC call".

Definition Logging (log : Logger) : interceptor := fun method next c w =>
  let c := with_ctx (WithContext (c_ctx c) log) c in
  match next c w with
  | (Returns (resp, err), w') =>
      (Returns (resp, err),
       glog (writeAccessLog c method (elapsed (List.length (g_logs w'))) err) w')
  | panic => panic
  end.

(** *** interceptor/metrics.go *)

Definition Metrics : interceptor := fun method next c w =>
  let w := gmetrics (RequestStarted method) w in
  match next c w with
  | (Returns (resp, err), w') =>
      (Returns (resp, err),
       gmetrics (finish method (Code err) (elapsed (List.length (g_logs w')))) w')
  | panic => panic
  end.

(** *** apiversion.go *)

Definition clientTooOld (declared minimum : string) : goerror :=
  WithMetadata
    (WithMetadata
       (FailedPrecondition ReasonClientTooOld "the client API version is no longer supported")
       "client_version" declared)
    "minimum_version" minimum.

Definition passthrough : interceptor := fun method next c w => next c w.

Definition APIVersion (minVersion : string) : res interceptor :=
  if String.eqb minVersion "" then Ok passthrough
  else match NewVersion minVersion with
       | Err err => Err err
       | Ok minimum =>
           Ok (fun method next c w =>
             let declared := First (MDFromContext c) MDAPIVersion in
             if String.eqb declared "" then next c w
             else match NewVersion declared with
                  | Err _ => (Returns (None, Some (clientTooOld declared (Version_String minimum))), w)
                  | Ok clientVersion =>
                      if LessThan clientVersion minimum
                      then (Returns (None, Some (clientTooOld declared (Version_String minimum))), w)
                      else next c w
                  end)
       end.

(** *** validate.go *)

Definition field_text (v : string * string * string) : string :=
  let '(path, rule, message) := v in
  (if String.eqb path "" then rule else path) ++ ": " ++ message.

Definition invalidArgument (err : goerror) : option goerror :=
  match as_validation err with
  | None => status_Err (status_New codes.InvalidArgument "invalid request")
  | Some violations =>
      status_Err (status_New codes.InvalidArgument
                    ("invalid request: " ++ Join (map field_text violations) "; "))
  end.

(** [built] is what building the library's validator answered. *)
Definition NewValidator (built : option goerror) : option goerror :=
  match built with
  | Some err => Some (Wrap "building the protovalidate validator: " err)
  | None => None
  end.

Definition Validate : interceptor := fun method next c w =>
  if negb (is_proto (c_req c)) then next c w
  else match protovalidate (c_req c) with
       | Some err => (Returns (None, invalidArgument err), w)
       | None => next c w
       end.

(** *** interceptor/errors.go *)

Definition ErrorsInterceptor : interceptor := fun method next c w =>
  match next c w with
  | (Returns (resp, Some err), w) =>
      let '(mapped, logs) := ToStatus (c_ctx c) (Some err) in
      (Returns (None, mapped), glog logs w)
  | ok => ok
  end.

(** ** chain.go and options.go *)

Record Dependencies := mkDependencies {
  RateLimiter : option interceptor;
  Authenticator : option interceptor;
  Authorizer : option interceptor;
  Extra : list interceptor
}.

Definition DefaultShutdownTimeout : Z := 15 * Second.
Definition DefaultMaxRecvMsgSize : Z := 4 * 1024 * 1024.

Record Config := mkConfig {
  Address : string;
  IsProduction : bool;
  CfgLogger : Logger;
  HasMetrics : bool;
  MaxRecvMsgSize : Z;
  ShutdownTimeout : Z;
  MinClientAPIVersion : string;
  PublicMethods : option (gset string)
}.

Definition withDefaults (c : Config) : Config :=
  {| Address := Address c; IsProduction := IsProduction c; CfgLogger := CfgLogger c;
     HasMetrics := HasMetrics c;
     MaxRecvMsgSize := if (MaxRecvMsgSize c <=? 0)%Z then DefaultMaxRecvMsgSize
                       else MaxRecvMsgSize c;
     ShutdownTimeout := if (ShutdownTimeout c <=? 0)%Z then DefaultShutdownTimeout
                        else ShutdownTimeout c;
     MinClientAPIVersion := MinClientAPIVersion c; PublicMethods := PublicMethods c |}.

Definition opt_link (i : option interceptor) : list interceptor :=
  match i with Some i => [i] | None => [] end.

Definition buildUnaryChain (cfg : Config) (deps : Dependencies) : res (list interceptor) :=
  match APIVersion (MinClientAPIVersion cfg) with
  | Err err =>
      Err (Wrap ("MIN_CLIENT_API_VERSION " ++ Quote (MinClientAPIVersion cfg)
                 ++ " is not valid semver: ") err)
  | Ok apiVersion =>
      match new_validator with
      | Some err => Err (Wrap "building the protovalidate validator: " err)
      | None =>
          Ok ([Recovery (CfgLogger cfg); Logging (CfgLogger cfg)]
              ++ (if HasMetrics cfg then [Metrics] else [])
              ++ [apiVersion]
              ++ opt_link (RateLimiter deps) ++ opt_link (Authenticator deps)
              ++ opt_link (Authorizer deps)
              ++ [Validate; ErrorsInterceptor] ++ Extra deps)%list
      end
  end.

(** *** The streaming counterparts: a stream handler only returns an error. *)

Definition stream_handler : Type := call -> gworld -> outcome (option goerror) * gworld.
Definition stream_interceptor : Type := string -> stream_handler -> stream_handler.

Definition RecoveryStream (log : Logger) : stream_interceptor := fun method next c w =>
  match next c w with
  | (Panics r, w) =>
      (Returns (status_Err (status_New codes.Internal panicMessage)),
       glog (logPanic c log method r) w)
  | ok => ok
  end.

(** The stream handed on carries the context with the logger. *)
Definition LoggingStream (log : Logger) : stream_interceptor := fun method next c w =>
  let c := with_ctx (WithContext (c_ctx c) log) c in
  match next c w with
  | (Returns err, w') =>
      (Returns err, glog (writeAccessLog c method (elapsed (List.length (g_logs w'))) err) w')
  | panic => panic
  end.

Definition MetricsStream : stream_interceptor := fun method next c w =>
  let w := gmetrics (RequestStarted method) w in
  match next c w with
  | (Returns err, w') =>
      (Returns err, gmetrics (finish method (Code err) (elapsed (List.length (g_logs w')))) w')
  | panic => panic
  end.

Definition ErrorsStream : stream_interceptor := fun method next c w =>
  match next c w with
  | (Returns (Some err), w) =>
      let '(mapped, logs) := ToStatus (c_ctx c) (Some err) in (Returns mapped, glog logs w)
  | ok => ok
  end.

Definition buildStreamChain (cfg : Config) : list stream_interceptor :=
  ([RecoveryStream (CfgLogger cfg); LoggingStream (CfgLogger cfg)]
   ++ (if HasMetrics cfg then [MetricsStream] else []) ++ [ErrorsStream])%list.

Definition serve_stream (chain : list stream_interceptor) (method : string) (h : stream_handler)
    : stream_handler :=
  foldr (fun i next => i method next) h chain.

(** [grpc.ChainUnaryInterceptor]: the first interceptor is the outermost. *)
Definition serve (chain : list interceptor) (method : string) (h : handler) : handler :=
  foldr (fun i next => i method next) h chain.
End Interceptors.

(** ** server.go *)

(** What the server asks of gRPC and the network, in order. *)
Inductive sop :=
| OpNewServer (maxRecv : Z)
| OpRegisterHealth
| OpRegisterReflection
| OpListen (address : string)
| OpSetServing (serving : bool)
| OpServe
| OpGracefulStop
| OpStop.

Record Server := mkServer { s_cfg : Config; s_listener : option string }.

Definition ErrShutdownForced : goerror :=
  Sentinel "grpcserver.ErrShutdownForced" "graceful shutdown exceeded its timeout and was forced".
Definition ErrServerStopped : goerror :=
  Sentinel "grpc.ErrServerStopped" "grpc: the server has been stopped".

Section Server.
Context `{GrpcStatus, ZerologFields} {Req Resp : Type} `{GrpcLibs Req}.

Definition NewServer (cfg : Config) (deps : @Dependencies Req Resp)
    : res (Server * list (@interceptor Req Resp)) * list sop :=
  let cfg := withDefaults cfg in
  match buildUnaryChain cfg deps with
  | Err err => (Err err, [])
  | Ok unary =>
      (Ok ({| s_cfg := cfg; s_listener := None |}, unary),
       ([OpNewServer (MaxRecvMsgSize cfg); OpRegisterHealth]
        ++ (if IsProduction cfg then [] else [OpRegisterReflection]))%list)
  end.

Definition Server_Address (s : Server) : string := default (Address (s_cfg s)) (s_listener s).

(** [bound] is the address the kernel gave, or the error of the listener. *)
Definition Listen (bound : res string) (s : Server) : option goerror * Server * list sop :=
  match bound with
  | Err err => (Some (Wrap ("listening on " ++ Address (s_cfg s) ++ ": ") err), s,
                [OpListen (Address (s_cfg s))])
  | Ok addr => (None, {| s_cfg := s_cfg s; s_listener := Some addr |},
                [OpListen (Address (s_cfg s))])
  end.

(** [served] is what [grpc.Server.Serve] returned. *)
Definition Serve (bound : res string) (served : option goerror) (s : Server)
    : option goerror * Server * list sop :=
  let '(err, s, ops) :=
    match s_listener s with None => Listen bound s | Some _ => (None, s, []) end in
  match err with
  | Some e => (Some e, s, ops)
  | None =>
      (match served with
       | Some e => if Is e ErrServerStopped then None else Some (Wrap "serving gRPC: " e)
       | None => None
       end, s, (ops ++ [OpSetServing true; OpServe])%list)
  end.

(** The case of the select that was taken: the graceful stop finished, the
    timer fired, or the context was done. *)
Inductive drained := GracefullyStopped | TimedOut | ContextDone (e : goerror).

Definition Shutdown (d : drained) (s : Server) : option goerror * list sop :=
  match d with
  | GracefullyStopped => (None, [OpSetServing false; OpGracefulStop])
  | TimedOut =>
      (Some (Errorf "" [(ErrShutdownForced, " after " ++ Duration_String (ShutdownTimeout (s_cfg s)))]),
       [OpSetServing false; OpGracefulStop; OpStop])
  | ContextDone e => (Some e, [OpSetServing false; OpGracefulStop; OpStop])
  end.
End Server.

Arguments interceptor : clear implicits.
Arguments handler : clear implicits.
Arguments Dependencies : clear implicits.

(** ** Theorems *)

Section Chain.
Context `{GrpcStatus, ZerologFields} {Req Resp : Type} `{GrpcLibs Req}.
Implicit Types (h : handler Req Resp) (c : @call Req) (w : gworld).

Lemma serve_app (l1 l2 : list (interceptor Req Resp)) m h :
  serve (l1 ++ l2)%list m h = serve l1 m (serve l2 m h).
Proof. unfold serve. by rewrite foldr_app. Qed.

(** The chain that was built, split at the version check. *)
Lemma buildUnaryChain_inv cfg (deps : Dependencies Req Resp) chain :
  buildUnaryChain cfg deps = Ok chain ->
  exists apiVersion, APIVersion (MinClientAPIVersion cfg) = Ok apiVersion
    /\ chain = ([Recovery (CfgLogger cfg); Logging (CfgLogger cfg)]
        ++ (if HasMetrics cfg then [Metrics] else []) ++ [apiVersion]
        ++ opt_link (RateLimiter deps) ++ opt_link (Authenticator deps)
        ++ opt_link (Authorizer deps) ++ [Validate; ErrorsInterceptor] ++ Extra deps)%list.
Proof.
  unfold buildUnaryChain. destruct (APIVersion _) as [api|e]; [|done].
  destruct new_validator; [done|]. intros [= <-]. eauto.
Qed.

(** C29: no panic escapes.  Whatever the handler and the interceptors below do,
    a call on the assembled chain returns; when something below panics, the
    client gets INTERNAL with a fixed text that does not depend on the panic, and
    the panic value, the method and the stack are in the log. *)
Theorem chain_never_panics cfg (deps : Dependencies Req Resp) chain m h c w :
  buildUnaryChain cfg deps = Ok chain ->
  (level_num (lg_level (CfgLogger cfg)) <= level_num ErrorLevel)%Z ->
  (exists a w', serve chain m h c w = (Returns a, w'))
  /\ forall v w', serve (tail chain) m h c w = (Panics v, w') ->
       exists entry, serve chain m h c w
         = (Returns (None, status_Err (status_New codes.Internal "internal error")),
            glog [entry] w')
       /\ le_level entry = ErrorLevel /\ ("panic", v) ∈ le_fields entry
       /\ (FieldMethod, m) ∈ le_fields entry /\ ("stack", debug_Stack) ∈ le_fields entry.
Proof.
  intros (api & _ & ->)%buildUnaryChain_inv Hlv. cbn [app tail]. simpl. unfold Recovery. split.
  - destruct (Logging _ _ _ _ _) as [[a|v] w']; eauto.
  - intros v w' ->. unfold logPanic, emit. apply Z.leb_le in Hlv as Hlv'. rewrite Hlv'.
    rewrite bool_decide_false by (intros Heq; by rewrite Heq in Hlv). simpl.
    eexists. split; [done|]. simpl. set_solver.
Qed.

(** The interceptors above the version check pass a normal answer on. *)
Lemma head_returns cfg api (rest : list (interceptor Req Resp)) m h c w a w' :
  serve ([api] ++ rest)%list m h (with_ctx (WithContext (c_ctx c) (CfgLogger cfg)) c)
    (if HasMetrics cfg then gmetrics (RequestStarted m) w else w) = (Returns a, w') ->
  exists w'', serve ([Recovery (CfgLogger cfg); Logging (CfgLogger cfg)]
      ++ (if HasMetrics cfg then [Metrics] else []) ++ [api] ++ rest)%list m h c w = (Returns a, w'')
    /\ g_effects w'' = g_effects w'.
Proof.
  intros Hs. destruct a as [resp err]. rewrite serve_app. simpl. unfold Recovery, Logging.
  destruct (HasMetrics cfg); simpl in *.
  - unfold Metrics. rewrite Hs. by eexists.
  - rewrite Hs. by eexists.
Qed.

(** The version check looks at what comes after it only by calling it on the
    same call. *)
Lemma APIVersion_local minVersion (api : interceptor Req Resp) m :
  APIVersion minVersion = Ok api ->
  forall next next' c w, next c w = next' c w -> api m next c w = api m next' c w.
Proof.
  unfold APIVersion. intros Hapi next next' c w Heq.
  destruct (String.eqb minVersion ""); [by simplify_eq|].
  destruct (NewVersion minVersion); simplify_eq. by repeat case_match.
Qed.

(** The version check turns away what it has to. *)
Definition too_old (minVersion : string) (c : @call Req) : Prop :=
  exists minimum, NewVersion minVersion = Ok minimum
    /\ First (MDFromContext c) MDAPIVersion <> ""
    /\ (forall v, NewVersion (First (MDFromContext c) MDAPIVersion) = Ok v ->
          LessThan v minimum = true).

(** an obsolete client is turned away before anything is done for it.  When
    the declared version is below the minimum or cannot be parsed, the answer is
    FAILED_PRECONDITION with the reason CLIENT_TOO_OLD, and neither the rate
    limiter, the authenticator, the validator nor the handler has run, whatever
    they are. *)
Theorem obsolete_client_rejected cfg (deps : Dependencies Req Resp) chain m h c w :
  buildUnaryChain cfg deps = Ok chain -> MinClientAPIVersion cfg <> "" ->
  too_old (MinClientAPIVersion cfg) c ->
  exists err w', serve chain m h c w = (Returns (None, Some err), w')
    /\ Code (Some err) = codes.FailedPrecondition
    /\ ReasonOf (Some err) = ReasonClientTooOld
    /\ g_effects w' = g_effects w.
Proof.
  intros (api & Hapi & ->)%buildUnaryChain_inv Hmin (minimum & Hnew & Hdecl & Hold).
  unfold APIVersion in Hapi. apply String.eqb_neq in Hmin, Hdecl. rewrite Hmin, Hnew in Hapi.
  injection Hapi as <-.
  exists (clientTooOld (First (MDFromContext c) MDAPIVersion) (Version_String minimum)).
  edestruct head_returns as (w' & -> & Heff); [|eexists; split; [done|]].
  - simpl. unfold MDFromContext in *. simpl. rewrite Hdecl.
    destruct (NewVersion (First (default ∅ (c_md c)) MDAPIVersion)) as [v|e] eqn:Hv;
      [rewrite (Hold v eq_refl)|]; done.
  - split; [|split; [done|]]; [|rewrite Heff; by destruct (HasMetrics cfg)].
    simpl. apply status_code.
Qed.

(** a rejected caller learns nothing further down.  When the authenticator
    answers a call by itself, the outcome of the call is the same whatever
    authorizer, validator, request rules, extra interceptors and handler come
    after it: validation errors cannot be used to probe the shape of a request. *)
Theorem authenticator_precedes_validation cfg (deps : Dependencies Req Resp) chain m h h' c w auth :
  buildUnaryChain cfg deps = Ok chain -> RateLimiter deps = None -> Authenticator deps = Some auth ->
  (forall next next' w',
     auth m next (with_ctx (WithContext (c_ctx c) (CfgLogger cfg)) c) w'
     = auth m next' (with_ctx (WithContext (c_ctx c) (CfgLogger cfg)) c) w') ->
  exists api, APIVersion (MinClientAPIVersion cfg) = Ok api
    /\ serve chain m h c w
       = serve ([Recovery (CfgLogger cfg); Logging (CfgLogger cfg)]
                ++ (if HasMetrics cfg then [Metrics] else []) ++ [api; auth])%list m h' c w.
Proof.
  intros (api & Hapi & ->)%buildUnaryChain_inv Hrl Hauth Hreject. exists api. split; [done|].
  rewrite Hrl, Hauth. cbn [opt_link app]. set (c1 := with_ctx _ _) in *.
  assert (Hbelow : forall l w', serve (api :: auth :: l) m h c1 w' = serve [api; auth] m h' c1 w').
  { intros l w'. apply (APIVersion_local _ _ m Hapi). simpl. apply Hreject. }
  destruct (HasMetrics cfg); simpl in *; unfold Recovery, Logging, Metrics; fold c1;
    by rewrite Hbelow.
Qed.

(** The chain of a service that has no optional links yet, on a request that
    passes the version check and the validation. *)
Definition accepted (cfg : Config) (c : @call Req) : Prop :=
  (MinClientAPIVersion cfg = "" \/ First (MDFromContext c) MDAPIVersion = "")
  /\ (is_proto (c_req c) = false \/ protovalidate (c_req c) = None).

Definition bare_deps : Dependencies Req Resp :=
  {| RateLimiter := None; Authenticator := None; Authorizer := None; Extra := [] |}.

Lemma Validate_accepts m (next : handler Req Resp) c w :
  is_proto (c_req c) = false \/ protovalidate (c_req c) = None -> Validate m next c w = next c w.
Proof. unfold Validate. intros [-> | ->]; [done|]. by destruct (is_proto _). Qed.

Lemma APIVersion_accepts minVersion (api : interceptor Req Resp) m next c w :
  APIVersion minVersion = Ok api -> minVersion = "" \/ First (MDFromContext c) MDAPIVersion = "" ->
  api m next c w = next c w.
Proof.
  unfold APIVersion. intros Hapi [->|Hd]; [by simplify_eq/=|].
  destruct (String.eqb minVersion ""); [by simplify_eq|].
  destruct (NewVersion minVersion); simplify_eq. by rewrite Hd.
Qed.

(** Below the metrics an accepted call goes straight to the handler. *)
Lemma bare_below cfg api m h c w :
  APIVersion (MinClientAPIVersion cfg) = Ok api -> accepted cfg c ->
  serve (api :: [Validate; ErrorsInterceptor])%list m h c w = ErrorsInterceptor m h c w.
Proof.
  intros Hapi [Hv Hp]. simpl. rewrite (APIVersion_accepts _ _ _ _ _ _ Hapi Hv).
  by apply Validate_accepts.
Qed.

(** what a handler reports about its own failure stays inside.  A handler
    that fails with any plain error (no gRPC status in it, not a cancellation or
    a deadline) is answered with the one fixed INTERNAL status and no response,
    with or without metrics. *)
Theorem handler_error_hidden cfg chain m h c w resp e w1 :
  buildUnaryChain cfg bare_deps = Ok chain -> accepted cfg c ->
  As has_status e = None -> Is e context_Canceled = false -> Is e context_DeadlineExceeded = false ->
  h (with_ctx (WithContext (c_ctx c) (CfgLogger cfg)) c)
    (if HasMetrics cfg then gmetrics (RequestStarted m) w else w) = (Returns (resp, Some e), w1) ->
  exists w', serve chain m h c w
    = (Returns (None, Some (StatusErr internal_status (status_text internal_status))), w').
Proof.
  intros (api & Hapi & ->)%buildUnaryChain_inv Hacc Hn Hc Hd Hh.
  edestruct head_returns as (w' & -> & _); [|by eexists].
  cbn [bare_deps RateLimiter Authenticator Authorizer Extra opt_link app].
  rewrite (bare_below cfg api m h _ _ Hapi) by done. unfold ErrorsInterceptor. rewrite Hh.
  rewrite (ToStatus_unexpected _ e) by done. done.
Qed.

Definition in_flight (m : string) (w : gworld) : Z := default 0%Z (grpcInFlight (g_metrics w) !! m).

(** the gauge of calls in flight returns to where it was when a call
    returns, and the call is counted once under its method and final code; the
    handler and the links below only have to leave the metrics alone. *)
Theorem metrics_balanced m (next : handler Req Resp) c w a w1 :
  next c (gmetrics (RequestStarted m) w) = (Returns a, w1) ->
  g_metrics w1 = g_metrics (gmetrics (RequestStarted m) w) ->
  let label := codeLabel (Code (snd a)) in
  exists w', Metrics m next c w = (Returns a, w')
    /\ in_flight m w' = in_flight m w
    /\ grpcRequests (g_metrics w') = counter_add (m, label) 1 (grpcRequests (g_metrics w))
    /\ forall m', m' <> m -> in_flight m' w' = in_flight m' w.
Proof.
  intros Hn Hm label. unfold Metrics. rewrite Hn. destruct a as [resp err].
  eexists. split; [done|]. unfold in_flight, finish. simpl. rewrite Hm. simpl.
  unfold counter_add. split; [rewrite !lookup_insert_eq; simpl; lia|]. split; [done|].
  intros m' Hne. by rewrite !lookup_insert_ne by done.
Qed.

(** a panic leaks a call in flight.  The closure that closes a request out
    is called after the handler returns and is not deferred: when the handler
    panics, the call is answered but the gauge stays one too high for ever, and
    the request is neither counted nor written to the access log. *)
Theorem panic_leaks_in_flight cfg chain m h c w v :
  buildUnaryChain cfg bare_deps = Ok chain -> HasMetrics cfg = true -> accepted cfg c ->
  (forall c' w', h c' w' = (Panics v, w')) ->
  exists a w', serve chain m h c w = (Returns a, w')
    /\ in_flight m w' = (in_flight m w + 1)%Z
    /\ grpcRequests (g_metrics w') = grpcRequests (g_metrics w)
    /\ g_logs w' = (g_logs w ++ logPanic c (CfgLogger cfg) m v)%list.
Proof.
  intros (api & Hapi & ->)%buildUnaryChain_inv Hmet Hacc Hh. rewrite Hmet.
  cbn [bare_deps RateLimiter Authenticator Authorizer Extra opt_link app].
  set (c1 := with_ctx (WithContext (c_ctx c) (CfgLogger cfg)) c).
  assert (Hb : serve (api :: [Validate; ErrorsInterceptor])%list m h c1 (gmetrics (RequestStarted m) w)
               = (Panics v, gmetrics (RequestStarted m) w)).
  { rewrite (bare_below cfg api m h c1 _ Hapi) by done. unfold ErrorsInterceptor. by rewrite Hh. }
  simpl in *. unfold Recovery, Logging, Metrics. fold c1. rewrite Hb.
  do 2 eexists. split; [done|]. unfold in_flight. simpl. unfold counter_add.
  rewrite lookup_insert_eq. done.
Qed.
End Chain.

(** ** Witnesses *)

(** Versions written in unary, and requests that are valid when they are true. *)
Definition sample_libs : GrpcLibs bool := {|
  Version := nat;
  NewVersion := fun s => if String.eqb s "bad" then Err (Sentinel "semver" "invalid") else Ok (String.length s);
  LessThan := Nat.ltb;
  Version_String := fun n => Itoa (Z.of_nat n);
  is_proto := fun _ => true;
  protovalidate := fun r : bool => if r then None else Some (Sentinel "invalid" "invalid");
  as_validation := fun _ => None;
  new_validator := None;
  debug_Stack := "goroutine 1";
  elapsed := fun _ => 0%Z
|}.

Definition plain_fields : ZerologFields := fun z => Itoa z.

Definition sample_cfg (min : string) : Config :=
  {| Address := ":9090"; IsProduction := false; CfgLogger := {| lg_out := Stdout; lg_level := InfoLevel; lg_fields := [] |};
     HasMetrics := true; MaxRecvMsgSize := 0; ShutdownTimeout := 0; MinClientAPIVersion := min;
     PublicMethods := None |}.

Definition sample_call (version : list string) (valid : bool) : @call bool :=
  {| c_ctx := {| ctx_logger := None; ctx_span := None |};
     c_md := Some {[MDAPIVersion := version]}; c_peer := None; c_req := valid |}.

Definition zero_world : gworld :=
  {| g_logs := []; g_metrics := {| grpcRequests := ∅; grpcDuration := []; grpcInFlight := ∅ |};
     g_effects := [] |}.

(** A handler that panics, and one that fails with an error. *)
Definition panicking : handler bool nat := fun _ w => (Panics "nil map", w).
Definition failing : handler bool nat := fun _ w => (Returns (None, Some sql_error), w).

Abbreviation sample_chain min := (@buildUnaryChain sample_grpc plain_fields bool nat sample_libs
                                    (sample_cfg min) (@bare_deps bool nat)).

Lemma chain_never_panics_witness :
  exists chain, sample_chain "" = Ok chain
    /\ exists a w', @serve bool nat chain "/m" panicking (sample_call [] true) zero_world = (Returns a, w').
Proof.
  eexists. split; [reflexivity|].
  eapply (@chain_never_panics sample_grpc plain_fields bool nat sample_libs (sample_cfg "") bare_deps);
    [reflexivity|vm_compute; discriminate].
Defined.

Lemma obsolete_client_rejected_witness :
  exists chain err w', sample_chain "111" = Ok chain
    /\ @serve bool nat chain "/m" panicking (sample_call ["11"] true) zero_world
       = (Returns (None, Some err), w')
    /\ @ReasonOf sample_grpc (Some err) = "CLIENT_TOO_OLD".
Proof.
  destruct (@obsolete_client_rejected sample_grpc plain_fields bool nat sample_libs
    (sample_cfg "111") bare_deps _ "/m" panicking (sample_call ["11"] true) zero_world
    eq_refl ltac:(discriminate)) as (err & w' & Hs & _ & Hr & _).
  - exists 3. split; [reflexivity|]. split; [discriminate|]. intros v [= <-]. reflexivity.
  - eexists _, err, w'. split; [reflexivity|]. split; [exact Hs|exact Hr].
Defined.

(** An authenticator that refuses everybody. *)
Definition refuse_all : interceptor bool nat := fun _ _ _ w =>
  (Returns (None, Some (Unauthenticated ReasonUnauthenticated "no token")), w).

Lemma authenticator_precedes_validation_witness :
  let deps := {| RateLimiter := None; Authenticator := Some refuse_all; Authorizer := None; Extra := [] |} in
  exists chain api, @buildUnaryChain sample_grpc plain_fields bool nat sample_libs (sample_cfg "") deps = Ok chain
    /\ serve chain "/m" panicking (sample_call [] false) zero_world
       = serve [@Recovery sample_grpc bool nat sample_libs (CfgLogger (sample_cfg ""));
                @Logging sample_grpc plain_fields bool nat sample_libs (CfgLogger (sample_cfg ""));
                @Metrics sample_grpc bool nat sample_libs; api; refuse_all]
           "/m" failing (sample_call [] false) zero_world.
Proof.
  intros deps.
  destruct (@authenticator_precedes_validation sample_grpc plain_fields bool nat sample_libs
    (sample_cfg "") deps _ "/m" panicking failing (sample_call [] false) zero_world refuse_all
    eq_refl eq_refl eq_refl ltac:(reflexivity)) as (api & _ & Heq).
  eexists _, api. split; [reflexivity|]. exact Heq.
Defined.

Lemma handler_error_hidden_witness :
  exists chain w', sample_chain "" = Ok chain
    /\ @serve bool nat chain "/m" failing (sample_call [] true) zero_world
       = (Returns (None, Some (StatusErr (@internal_status sample_grpc)
                                 "rpc error: desc = internal error")), w').
Proof.
  destruct (@handler_error_hidden sample_grpc plain_fields bool nat sample_libs (sample_cfg "") _
    "/m" failing (sample_call [] true) zero_world None sql_error _ eq_refl
    ltac:(split; [by left|by right]) eq_refl eq_refl eq_refl eq_refl) as [w' Hs].
  eexists _, w'. split; [reflexivity|]. exact Hs.
Defined.

Lemma metrics_balanced_witness :
  exists w', @Metrics sample_grpc bool nat sample_libs "/m" failing (sample_call [] true) zero_world
    = (Returns (None, Some sql_error), w') /\ in_flight "/m" w' = 0%Z.
Proof.
  destruct (@metrics_balanced sample_grpc bool nat sample_libs "/m" failing (sample_call [] true)
    zero_world (None, Some sql_error) _ eq_refl eq_refl) as (w' & Hm & Hf & _).
  exists w'. split; [exact Hm|exact Hf].
Defined.

Lemma panic_leaks_in_flight_witness :
  exists chain a w', sample_chain "" = Ok chain
    /\ @serve bool nat chain "/m" panicking (sample_call [] true) zero_world = (Returns a, w')
    /\ in_flight "/m" w' = 1%Z.
Proof.
  destruct (@panic_leaks_in_flight sample_grpc plain_fields bool nat sample_libs (sample_cfg "") _
    "/m" panicking (sample_call [] true) zero_world "nil map" eq_refl eq_refl
    ltac:(split; [by left|by right]) ltac:(reflexivity)) as (a & w' & Hs & Hf & _).
  eexists _, a, w'. split; [reflexivity|]. split; [exact Hs|exact Hf].
Defined.
