(* ===== verification/MetricsRegistry.v ===== *)
(** * pkg/observability/metrics: the registry

    Building the registry of a service and adding to it (metrics.go): the three
    collectors of the gRPC instrumentation, their names and labels, and what
    registering does.  The Prometheus client is a parameter with its documented rules;
    what the collectors count is in GrpcServer. *)

From stdpp Require Import base list gmap sets strings numbers.
From Stdlib Require Import ZArith QArith Lia Ascii String.
From S2P Require Import Prelude GoStrings GoErrors GrpcServer.

Local Open Scope string_scope.

(** ** The client *)

(** A descriptor: what a collector is known by. *)
Record Desc := mkDesc {
  fqName : string;
  help : string;
  constLabels : list (string * string);
  variableLabels : list string
}.

(** [prometheus.BuildFQName]: the parts that are not empty, joined by underscores. *)
Definition BuildFQName (namespace subsystem name : string) : string :=
  if String.eqb name "" then ""
  else if negb (String.eqb namespace "") && negb (String.eqb subsystem "")
       then namespace ++ "_" ++ subsystem ++ "_" ++ name
  else if negb (String.eqb namespace "") then namespace ++ "_" ++ name
  else if negb (String.eqb subsystem "") then subsystem ++ "_" ++ name
  else name.

Definition name_start (c : ascii) : bool :=
  let n := N_of_ascii c in
  ((65 <=? n) && (n <=? 90) || (97 <=? n) && (n <=? 122) || (n =? 95) || (n =? 58))%N.
Definition name_char (c : ascii) : bool :=
  name_start c || let n := N_of_ascii c in ((48 <=? n) && (n <=? 57))%N.

(** The names the data model allows. *)
Definition valid_name (s : string) : bool :=
  match s with "" => false | String c s' => name_start c && all_chars name_char s' end.

(** The collectors of the runtime and of the process, by their descriptors, and
    registering a collector beside others.  A collector is refused when one of its
    descriptors is registered already, and accepted when its descriptors are well formed
    (names of the data model, label values in UTF-8) under names that are new and
    different from each other. *)
Class Prometheus := {
  go_descs : list Desc;
  process_descs : list Desc;
  ValidUTF8 : string -> bool;
  Register : list Desc -> list Desc -> option goerror;
  well_formed (d : Desc) : bool :=
    valid_name (fqName d) && forallb (fun '(_, v) => ValidUTF8 v) (constLabels d);
  runtime_descs_ok : forallb well_formed (go_descs ++ process_descs) = true;
  runtime_names : NoDup (map fqName (go_descs ++ process_descs))
    /\ Forall (fun d => HasPrefix (fqName d) "go_" = true \/ HasPrefix (fqName d) "process_" = true)
         (go_descs ++ process_descs);
  register_refused : forall old new d, d ∈ old -> d ∈ new -> Register old new <> None;
  register_accepted : forall old new, forallb well_formed new = true -> NoDup (map fqName new) ->
    (forall d, d ∈ new -> (fqName d ∉ map fqName old)) -> Register old new = None
}.

(** ** metrics.go *)

Definition Namespace := "dizen".
Definition subsystemGRPC := "grpc".
Definition labelMethod := "method".
Definition labelCode := "code".

Section Registry.
Context `{Prometheus}.

(** The collectors registered, and the series of the three of the registry. *)
Record Registry := mkRegistry { prom : list Desc; series : GrpcServer.Registry }.

Definition grpc_desc (serviceName name help : string) (labels : list string) : Desc :=
  {| fqName := BuildFQName Namespace subsystemGRPC name; help := help;
     constLabels := [("service", serviceName)]; variableLabels := labels |}.

Definition requests_desc (serviceName : string) : Desc :=
  grpc_desc serviceName "requests_total" "Total gRPC requests handled, by method and status code."
    [labelMethod; labelCode].
Definition duration_desc (serviceName : string) : Desc :=
  grpc_desc serviceName "request_duration_seconds" "gRPC request latency, by method and status code."
    [labelMethod; labelCode].
Definition in_flight_desc (serviceName : string) : Desc :=
  grpc_desc serviceName "requests_in_flight" "gRPC requests currently being handled, by method."
    [labelMethod].

(** The bounds of the histogram, in seconds. *)
Definition Buckets : list Q :=
  [5 # 1000; 1 # 100; 25 # 1000; 5 # 100; 1 # 10; 25 # 100; 5 # 10; 1 # 1; 25 # 10; 5 # 1; 10 # 1]%Q.

(** [MustRegister] of the client: one collector after the other; the first error is a
    panic. *)
Fixpoint must_register (cs : list (list Desc)) (old : list Desc) : outcome (list Desc) :=
  match cs with
  | [] => Returns old
  | new :: cs' => match Register old new with
                  | Some err => Panics (GoErrors.Error err)
                  | None => must_register cs' (old ++ new)%list
                  end
  end.

Definition NewRegistry (serviceName : string) : outcome Registry :=
  match must_register [go_descs; process_descs; [requests_desc serviceName]; [duration_desc serviceName];
                       [in_flight_desc serviceName]] [] with
  | Panics v => Panics v
  | Returns descs =>
      Returns {| prom := descs;
                 series := {| grpcRequests := ∅; grpcDuration := []; grpcInFlight := ∅ |} |}
  end.

Definition Prometheus_ (r : Registry) : list Desc := prom r.

(** [MustRegister] of the registry. *)
Definition MustRegister (cs : list (list Desc)) (r : Registry) : outcome Registry :=
  match must_register cs (prom r) with
  | Panics v => Panics v
  | Returns descs => Returns {| prom := descs; series := series r |}
  end.

(** ** Properties *)

(** Collectors under new names are all registered. *)
Lemma must_register_fresh cs : forall old,
  forallb well_formed (List.concat cs) = true -> NoDup (map fqName (old ++ List.concat cs)) ->
  must_register cs old = Returns (old ++ List.concat cs)%list.
Proof.
  induction cs as [|new cs IH]; intros old Hw Hn; cbn [List.concat must_register] in *.
  - by rewrite app_nil_r.
  - rewrite forallb_app in Hw. apply andb_prop in Hw as [Hw1 Hw2]. rewrite app_assoc in Hn |- *.
    rewrite register_accepted; [by apply IH|done| |].
    + rewrite map_app in Hn. apply list.NoDup_app in Hn as [Hn _]. rewrite map_app in Hn.
      by apply list.NoDup_app in Hn as (_ & _ & Hn).
    + intros d Hd Hold. rewrite map_app in Hn. apply list.NoDup_app in Hn as [Hn _].
      rewrite map_app in Hn. apply list.NoDup_app in Hn as (_ & Hdis & _).
      apply (Hdis _ Hold). by apply (list_elem_of_fmap_2 fqName).
Qed.

(** A collector that is there already is a panic. *)
Lemma must_register_again new cs old d : d ∈ old -> d ∈ new -> exists v, must_register (new :: cs) old = Panics v.
Proof.
  intros Ho Hn. cbn [must_register]. destruct (Register old new) eqn:E; [by eexists|].
  by destruct (register_refused old new d Ho Hn).
Qed.

Definition grpc_names : list string :=
  ["dizen_grpc_requests_total"; "dizen_grpc_request_duration_seconds"; "dizen_grpc_requests_in_flight"].

Lemma runtime_not_grpc name : name ∈ map fqName (go_descs ++ process_descs) -> (name ∉ grpc_names).
Proof.
  intros (d & -> & Hd)%list_elem_of_fmap_1. destruct runtime_names as [_ Hp].
  rewrite list.Forall_forall in Hp. intros Hin. specialize (Hp d Hd).
  repeat (apply elem_of_cons in Hin as [E|Hin]; [rewrite E in Hp; by destruct Hp|]).
  by apply not_elem_of_nil in Hin.
Qed.

Lemma registry_descs serviceName : ValidUTF8 serviceName = true ->
  NewRegistry serviceName = Returns {|
    prom := ((go_descs ++ process_descs) ++ [requests_desc serviceName; duration_desc serviceName;
                                             in_flight_desc serviceName])%list;
    series := {| grpcRequests := ∅; grpcDuration := []; grpcInFlight := ∅ |} |}.
Proof.
  intros Hu. unfold NewRegistry. rewrite must_register_fresh; cbn [List.concat app];
    rewrite ?app_nil_r, ?app_assoc; [done| |].
  - rewrite <- ?app_assoc. rewrite app_assoc, forallb_app, runtime_descs_ok. cbn [forallb andb].
    unfold well_formed. cbn. by rewrite Hu.
  - rewrite <- ?app_assoc. rewrite app_assoc, map_app. destruct runtime_names as [Hn _].
    apply list.NoDup_app. split_and!; [done|by intros name ?%runtime_not_grpc|].
    apply (bool_decide_unpack _). by vm_compute.
Qed.

(** building the registry never panics, whatever the name of the service as long as it
    is text, and exposes the three series of the gRPC instrumentation under the names the
    dashboards use, all empty; a service's own collectors under new names are added beside
    them; and adding one of the registry's own again is a panic. *)
Theorem registry_built serviceName :
  ValidUTF8 serviceName = true ->
  exists r, NewRegistry serviceName = Returns r
    /\ grpc_names ⊆ map fqName (Prometheus_ r)
    /\ grpcRequests (series r) = ∅ /\ grpcInFlight (series r) = ∅ /\ grpcDuration (series r) = []
    /\ (forall cs, forallb well_formed (List.concat cs) = true ->
          NoDup (map fqName (prom r ++ List.concat cs)) ->
          exists r', MustRegister cs r = Returns r' /\ prom r' = (prom r ++ List.concat cs)%list
                     /\ series r' = series r)
    /\ (forall d cs, d ∈ prom r -> exists v, MustRegister ([d] :: cs) r = Panics v).
Proof.
  intros Hu. rewrite registry_descs by done. eexists. split; [done|]. cbn [prom series Prometheus_].
  split; [rewrite map_app; cbn; set_solver|]. split_and!; [done..| |].
  - intros cs Hw Hn. unfold MustRegister. cbn [prom]. rewrite must_register_fresh by done. by eexists.
  - intros d cs Hd. unfold MustRegister. cbn [prom].
    destruct (must_register_again [d] cs _ d Hd) as [v ->]; [by left|by eexists].
Qed.

(** The bounds of the histogram increase, without which observing a latency panics. *)
Lemma buckets_increase : Sorted.StronglySorted Qlt Buckets.
Proof. repeat constructor; done. Qed.
End Registry.

(** ** A client *)

Definition runtime_desc (name : string) : Desc :=
  {| fqName := name; help := ""; constLabels := []; variableLabels := [] |}.

Definition already_registered : goerror :=
  Sentinel "prometheus.AlreadyRegisteredError" "duplicate metrics collector registration attempted".

Definition by_name (old new : list Desc) : option goerror :=
  if bool_decide (Exists (fun d => fqName d ∈ map fqName old) new) then Some already_registered else None.

Definition sample_prometheus : Prometheus.
Proof.
  refine {| go_descs := [runtime_desc "go_goroutines"];
            process_descs := [runtime_desc "process_open_fds"];
            ValidUTF8 := fun _ => true; Register := by_name |}.
  - vm_compute; reflexivity.
  - split; [apply (bool_decide_unpack _); vm_compute; exact I|].
    constructor; [by left|]. constructor; [by right|constructor].
  - intros old new d Ho Hn. unfold by_name. rewrite bool_decide_true; [done|].
    apply list.Exists_exists. exists d. split; [done|]. by apply (list_elem_of_fmap_2 fqName).
  - intros old new _ _ Hf. unfold by_name. rewrite bool_decide_false; [done|].
    intros (d & Hd & Hin)%list.Exists_exists. by destruct (Hf d Hd).
Defined.

Lemma registry_built_witness :
  exists r, @NewRegistry sample_prometheus "identity" = Returns r
    /\ grpc_names ⊆ map fqName (Prometheus_ r).
Proof.
  destruct (@registry_built sample_prometheus "identity" eq_refl) as (r & Hr & Hn & _).
  exists r. split; [exact Hr|exact Hn].
Defined.
