(* ===== verification/Database.v ===== *)
(** * pkg/database: connecting and migrating

    The configuration (config.go), opening the pool with retries and backoff
    (postgres.go), the migrations (migrate.go) and the readiness probe's ping.
    pgxpool and golang-migrate are parameters: their answers to each call. *)

From stdpp Require Import base list gmap sets strings numbers.
From Stdlib Require Import ZArith Lia String.
From S2P Require Import Prelude GoStrings GoErrors Backoff Logger.

Local Open Scope string_scope.

(** ** config.go *)

Definition DefaultMaxConns : Z := 10.
Definition DefaultMinConns : Z := 2.
Definition DefaultMaxConnLifetime : Z := 30 * Minute.
Definition DefaultMaxConnIdleTime : Z := 5 * Minute.
Definition DefaultHealthCheckPeriod : Z := 1 * Minute.
Definition DefaultConnectTimeout : Z := 5 * Second.
Definition DefaultMaxRetries : Z := 10.
Definition DefaultInitialBackoff : Z := 500 * Millisecond.
Definition DefaultMaxBackoff : Z := 30 * Second.

Record Config := mkConfig {
  URL : string;
  MaxConns : Z;
  MinConns : Z;
  MaxConnLifetime : Z;
  MaxConnIdleTime : Z;
  HealthCheckPeriod : Z;
  ConnectTimeout : Z;
  MaxRetries : Z;
  InitialBackoff : Z;
  MaxBackoff : Z;
  RunMigrations : bool
}.

Definition positive_or (v default : Z) : Z := if (v <=? 0)%Z then default else v.

Definition withDefaults (c : Config) : Config := {|
  URL := URL c;
  MaxConns := positive_or (MaxConns c) DefaultMaxConns;
  MinConns := if (MinConns c <? 0)%Z then DefaultMinConns else MinConns c;
  MaxConnLifetime := positive_or (MaxConnLifetime c) DefaultMaxConnLifetime;
  MaxConnIdleTime := positive_or (MaxConnIdleTime c) DefaultMaxConnIdleTime;
  HealthCheckPeriod := positive_or (HealthCheckPeriod c) DefaultHealthCheckPeriod;
  ConnectTimeout := positive_or (ConnectTimeout c) DefaultConnectTimeout;
  MaxRetries := positive_or (MaxRetries c) DefaultMaxRetries;
  InitialBackoff := positive_or (InitialBackoff c) DefaultInitialBackoff;
  MaxBackoff := positive_or (MaxBackoff c) DefaultMaxBackoff;
  RunMigrations := RunMigrations c
|}.

Definition ErrInvalidConfig : goerror :=
  Sentinel "database.ErrInvalidConfig" "invalid database configuration".
Definition ErrUnreachable : goerror :=
  Sentinel "database.ErrUnreachable" "the database did not answer".

Definition Validate (c : Config) : option goerror :=
  if String.eqb (URL c) "" then Some (Errorf "" [(ErrInvalidConfig, ": DATABASE_URL is empty")])
  else if (MaxConns c <? MinConns c)%Z
  then Some (Errorf "" [(ErrInvalidConfig, ": DATABASE_MIN_CONNS (" ++ Itoa (MinConns c)
                          ++ ") is above DATABASE_MAX_CONNS (" ++ Itoa (MaxConns c) ++ ")")])
  else None.

(** ** postgres.go *)

(** What is done to the outside world while connecting. *)
Inductive dbop :=
| PoolNew
| PoolPing
| PoolClose
| Sleep (d : Z)
| DLog (es : list LogEntry).

(** pgxpool's answers: to parsing the URL, and at attempt [n] to building the
    pool and to the ping; and the context's error when it is done before the
    wait after attempt [n] is over. *)
Class Pgx := {
  ParseConfig : string -> option goerror;
  NewWithConfig : Z -> option goerror;
  PingAnswer : Z -> option goerror;
  sleep_interrupted : Z -> option goerror
}.

(** [pgxpool.Config] after [poolConfig]: the fields the code sets. *)
Record PoolConfig := mkPoolConfig {
  pc_MaxConns : Z; pc_MinConns : Z; pc_MaxConnLifetime : Z; pc_MaxConnIdleTime : Z;
  pc_HealthCheckPeriod : Z; pc_ConnectTimeout : Z
}.

Record DB := mkDB { db_pool : PoolConfig; db_cfg : Config }.

Definition nextBackoff (current maximum : Z) : Z :=
  let next := int64 (current * 2) in
  if (maximum <? next)%Z then maximum else next.

Section Connect.
Context `{Pgx, ZerologFields}.

Definition poolConfig (cfg : Config) : res PoolConfig :=
  match ParseConfig (URL cfg) with
  | Some err =>
      Err (Errorf "" [(ErrInvalidConfig, ": DATABASE_URL could not be parsed: "); (err, "")])
  | None => Ok {| pc_MaxConns := MaxConns cfg; pc_MinConns := MinConns cfg;
                  pc_MaxConnLifetime := MaxConnLifetime cfg;
                  pc_MaxConnIdleTime := MaxConnIdleTime cfg;
                  pc_HealthCheckPeriod := HealthCheckPeriod cfg;
                  pc_ConnectTimeout := ConnectTimeout cfg |}
  end.

Definition tryConnect (attempt : Z) : option goerror * list dbop :=
  match NewWithConfig attempt with
  | Some err => (Some (Wrap "building the pool: " err), [PoolNew])
  | None =>
      match PingAnswer attempt with
      | Some err => (Some (Wrap "pinging the database: " err), [PoolNew; PoolPing; PoolClose])
      | None => (None, [PoolNew; PoolPing])
      end
  end.

(** The wait after [attempt]: the timer of [d], or the context, whichever is first. *)
Definition sleep (attempt d : Z) : option goerror * list dbop :=
  match sleep_interrupted attempt with
  | None => (None, [Sleep d])
  | Some err => (Some err, [Sleep d])
  end.

(** The error after the loop; a nil last error is rendered by the verb itself. *)
Definition unreachable (cfg : Config) (lastErr : option goerror) : goerror :=
  let text := " after " ++ Itoa (MaxRetries cfg) ++ " attempts: " in
  match lastErr with
  | Some e => Errorf "" [(ErrUnreachable, text); (e, "")]
  | None => Errorf "" [(ErrUnreachable, text ++ "%!w(<nil>)")]
  end.

(** The [for] loop from [attempt], with [remaining] attempts left, up to
    [MaxRetries]. *)
Fixpoint connect_loop (cfg : Config) (pool : PoolConfig) (log : Logger) (remaining : nat)
    (attempt backoff : Z) (lastErr : option goerror) : res DB * list dbop :=
  match remaining with
  | O => (Err (unreachable cfg lastErr), [])
  | S remaining' =>
      match tryConnect attempt with
      | (None, ops) =>
          (Ok {| db_pool := pool; db_cfg := cfg |},
           (ops ++ [DLog (emit log InfoLevel [("attempt", Itoa attempt);
                                               ("max_conns", Itoa (MaxConns cfg))]
                            "connected to PostgreSQL")])%list)
      | (Some err, ops) =>
          let ops := (ops ++ [DLog (emit log WarnLevel
                        [("error", Error err); ("attempt", Itoa attempt);
                         ("max_attempts", Itoa (MaxRetries cfg)); ("retry_in", Dur backoff)]
                        "PostgreSQL did not answer, retrying")])%list in
          if (attempt =? MaxRetries cfg)%Z
          then (Err (unreachable cfg (Some err)), ops)
          else match sleep attempt backoff with
               | (Some e, waited) => (Err e, (ops ++ waited)%list)
               | (None, waited) =>
                   let '(r, ops') := connect_loop cfg pool log remaining' (attempt + 1)
                                       (nextBackoff backoff (MaxBackoff cfg)) (Some err) in
                   (r, (ops ++ waited ++ ops')%list)
               end
      end
  end.

Definition Connect (cfg : Config) (log : Logger) : res DB * list dbop :=
  let cfg := withDefaults cfg in
  match Validate cfg with
  | Some err => (Err err, [])
  | None =>
      match poolConfig cfg with
      | Err err => (Err err, [])
      | Ok pool => connect_loop cfg pool log (Z.to_nat (MaxRetries cfg)) 1 (InitialBackoff cfg) None
      end
  end.

(** [answered] is the pool's answer. *)
Definition Ping (answered : option goerror) : option goerror :=
  match answered with Some err => Some (Wrap "pinging the database: " err) | None => None end.
End Connect.

Definition DB_Pool (d : DB) : PoolConfig := db_pool d.

(** [Close]: whether the pool is closed; a [DB] without one has nothing to release. *)
Definition DB_Close (pool : option PoolConfig) : list dbop :=
  match pool with Some _ => [PoolClose] | None => [] end.

(** What the pool counts. *)
Record PoolStat := mkPoolStat {
  AcquiredConns : Z; IdleConns : Z; TotalConns : Z; MaxConnections : Z;
  AcquireCount : Z; EmptyAcquireCount : Z; CanceledAcquireCount : Z
}.

Definition Stats (stats : PoolStat) : gmap string Z :=
  list_to_map [("acquired", AcquiredConns stats); ("idle", IdleConns stats);
               ("total", TotalConns stats); ("max", MaxConnections stats);
               ("acquire_count", AcquireCount stats); ("empty_acquires", EmptyAcquireCount stats);
               ("canceled_acquire", CanceledAcquireCount stats)].

(** The keys in the order zerolog writes the fields of a map: sorted. *)
Definition stat_keys : list string :=
  ["acquire_count"; "acquired"; "canceled_acquire"; "empty_acquires"; "idle"; "max"; "total"].

Definition LogStats (ctx : Context) (stats : PoolStat) : list LogEntry :=
  emit (Ctx ctx) DebugLevel
    (omap (fun k => match Stats stats !! k with Some v => Some (k, Itoa v) | None => None end) stat_keys)
    "PostgreSQL pool statistics".

(** ** migrate.go *)

Definition ErrMigration : goerror := Sentinel "database.ErrMigration" "migration failed".
Definition ErrNilVersion : goerror := Sentinel "migrate.ErrNilVersion" "no migration".
Definition ErrNoChange : goerror := Sentinel "migrate.ErrNoChange" "no change".

Definition migrateScheme := "pgx5".

Fixpoint rewrite_scheme (schemes : list string) (dsn : string) : string :=
  match schemes with
  | [] => dsn
  | scheme :: schemes' =>
      match CutPrefix dsn scheme with
      | Some after => migrateScheme ++ "://" ++ after
      | None => rewrite_scheme schemes' dsn
      end
  end.

Definition migrateDSN (dsn : string) : string :=
  rewrite_scheme ["postgres://"; "postgresql://"] dsn.

(** golang-migrate's answers, in the order the code asks. *)
Class Migrator := {
  iofs_New : string -> option goerror;
  NewWithSourceInstance : string -> option goerror;
  Version_before : res (Z * bool);
  nil_version : Z * bool;
  Up : option goerror;
  Version_after : res (Z * bool);
  Steps : Z -> option goerror;
  Close_answer : option goerror * option goerror
}.

Inductive migop :=
| MOpen (dsn : string) | MVersion | MUp | MSteps (n : Z) | MClose | MLog (es : list LogEntry).

Section Migrate.
Context `{Migrator}.

Definition newMigrator (dsn path : string) : option goerror * list migop :=
  match iofs_New path with
  | Some err =>
      (Some (Errorf "" [(ErrMigration, ": reading the embedded migrations at " ++ Quote path ++ ": ");
                        (err, "")]), [])
  | None =>
      match NewWithSourceInstance (migrateDSN dsn) with
      | Some err => (Some (Errorf "" [(ErrMigration, ": building the migrator: "); (err, "")]),
                     [MOpen (migrateDSN dsn)])
      | None => (None, [MOpen (migrateDSN dsn)])
      end
  end.

Definition closeMigrator (log : Logger) : list migop :=
  let '(sourceErr, dbErr) := Close_answer in
  (MClose
   :: match sourceErr with
      | Some e => [MLog (emit log WarnLevel [("error", Error e)] "closing the migration source")]
      | None => []
      end
   ++ match dbErr with
      | Some e => [MLog (emit log WarnLevel [("error", Error e)] "closing the migrator connection")]
      | None => []
      end)%list.

Definition Migrate (dsn path : string) (log : Logger) : option goerror * list migop :=
  match newMigrator dsn path with
  | (Some err, ops) => (Some err, ops)
  | (None, ops) =>
      let '(r, body) :=
        let version := match Version_before with
                       | Ok v => inl v
                       | Err e => if Is e ErrNilVersion then inl nil_version else inr e
                       end in
        match version with
        | inr e => (Some (Errorf "" [(ErrMigration, ": reading the current version: "); (e, "")]),
                    [MVersion])
        | inl (before, dirty) =>
            if dirty : bool
            then (Some (Errorf "" [(ErrMigration, ": the schema is marked dirty at version "
                                      ++ Itoa before ++ " and needs manual repair")]), [MVersion])
            else
              match Up with
              | Some e =>
                  if Is e ErrNoChange
                  then (None, [MVersion; MUp; MLog (emit log InfoLevel [("version", Itoa before)]
                                                     "the schema is already up to date")])
                  else (Some (Errorf "" [(ErrMigration, ": applying migrations: "); (e, "")]),
                        [MVersion; MUp])
              | None =>
                  match Version_after with
                  | Err e => (Some (Errorf "" [(ErrMigration, ": reading the resulting version: ");
                                               (e, "")]), [MVersion; MUp; MVersion])
                  | Ok (after, _) =>
                      (None, [MVersion; MUp; MVersion;
                              MLog (emit log InfoLevel [("from", Itoa before); ("to", Itoa after)]
                                      "migrations applied")])
                  end
              end
        end in
      (r, (ops ++ body ++ closeMigrator log)%list)
  end.

Definition MigrateDown (dsn path : string) (steps : Z) (log : Logger) : option goerror * list migop :=
  match newMigrator dsn path with
  | (Some err, ops) => (Some err, ops)
  | (None, ops) =>
      (match Steps (- steps) with
       | Some e => if Is e ErrNoChange then None
                   else Some (Errorf "" [(ErrMigration, ": rolling back " ++ Itoa steps ++ " steps: ");
                                         (e, "")])
       | None => None
       end, (ops ++ MSteps (- steps) :: closeMigrator log)%list)
  end.
End Migrate.

(** ** Theorems *)

(** What a run of [Connect] shows: the attempts made, the pings answered by a
    pool, the pools closed again and the waits. *)
Definition is_new (o : dbop) : bool := match o with PoolNew => true | _ => false end.
Definition is_ping (o : dbop) : bool := match o with PoolPing => true | _ => false end.
Definition is_close (o : dbop) : bool := match o with PoolClose => true | _ => false end.
Definition tally (f : dbop -> bool) (ops : list dbop) : nat := List.length (List.filter f ops).
Definition waits (ops : list dbop) : list Z :=
  flat_map (fun o => match o with Sleep d => [d] | _ => [] end) ops.

Lemma tally_app f a b : tally f (a ++ b)%list = (tally f a + tally f b)%nat.
Proof. unfold tally. by rewrite List.filter_app, length_app. Qed.

Lemma waits_app a b : waits (a ++ b)%list = (waits a ++ waits b)%list.
Proof. apply flat_map_app. Qed.

#[export] Hint Rewrite tally_app waits_app : gorw.

(** Durations [nextBackoff] can double: here the maximum is doubled as well. *)
Definition backoff_ok (initial maximum : Z) : Prop :=
  no_overflow initial maximum /\ (maximum < 4611686018427387904)%Z.

(** One step of the backoff is one attempt more in the closed form. *)
Lemma nextBackoff_spec a initial maximum :
  backoff_ok initial maximum -> (1 <= a)%Z ->
  nextBackoff (backoff_spec a initial maximum) maximum = backoff_spec (a + 1) initial maximum.
Proof.
  unfold backoff_ok, no_overflow, nextBackoff, backoff_spec. intros [[Hi Hm] Hmax] Ha.
  destruct (a + 1 <=? 1)%Z eqn:?; zbool; [lia|].
  replace (a + 1 - 1)%Z with (Z.succ (a - 1)) by lia. rewrite Z.pow_succ_r by lia.
  destruct (a <=? 1)%Z eqn:?; zbool.
  - assert (a = 1%Z) as -> by lia. rewrite int64_double by lia. change (2 ^ (1 - 1))%Z with 1%Z.
    destruct (maximum <? initial * 2)%Z eqn:?; zbool; lia.
  - assert (0 < 2 ^ (a - 1))%Z by (apply Z.pow_pos_nonneg; lia).
    destruct (decide (initial * 2 ^ (a - 1) < maximum)%Z) as [Hlt|Hge].
    + rewrite Z.min_l by lia. rewrite int64_double by nia.
      destruct (maximum <? initial * 2 ^ (a - 1) * 2)%Z eqn:?; zbool; nia.
    + rewrite Z.min_r by lia.
      assert (maximum <= initial * (2 * 2 ^ (a - 1)))%Z by nia. rewrite Z.min_r by lia.
      rewrite int64_double by lia. destruct (maximum <? maximum * 2)%Z eqn:?; zbool; lia.
Qed.

Section ConnectProofs.
Context `{Pgx, ZerologFields}.

Lemma tryConnect_ops a :
  tally is_new (snd (tryConnect a)) = 1%nat /\ waits (snd (tryConnect a)) = []
  /\ tally is_ping (snd (tryConnect a))
     = (tally is_close (snd (tryConnect a))
        + match fst (tryConnect a) with None => 1 | Some _ => 0 end)%nat.
Proof. unfold tryConnect. by repeat case_match. Qed.

(** Every pool that was built and answered the ping is returned or closed. *)
Lemma connect_loop_pools cfg pool log remaining : forall a b l,
  let '(r, ops) := connect_loop cfg pool log remaining a b l in
  (tally is_new ops <= remaining)%nat
  /\ tally is_ping ops = (tally is_close ops + match r with Ok _ => 1 | Err _ => 0 end)%nat.
Proof.
  induction remaining as [|rem IH]; intros a b l; simpl; [done|].
  destruct (tryConnect_ops a) as (Hn & _ & Hp). destruct (tryConnect a) as [[e|] ops]; simpl in *.
  2:{ rewrite !tally_app. unfold tally in *. simpl in *. lia. }
  destruct (a =? MaxRetries cfg)%Z; [|unfold sleep; destruct (sleep_interrupted a)].
  1,2: rewrite !tally_app; unfold tally in *; simpl in *; lia.
  specialize (IH (a + 1)%Z (nextBackoff b (MaxBackoff cfg)) (Some e)).
  destruct (connect_loop _ _ _ _ _ _ _) as [r ops']. destruct IH as [IH1 IH2].
  rewrite !tally_app. unfold tally in *. simpl in *. lia.
Qed.

(** Failed attempts from [a] on, each followed by its wait. *)
Lemma connect_loop_failures cfg pool log (n : nat) : forall rem a l,
  backoff_ok (InitialBackoff cfg) (MaxBackoff cfg) -> (1 <= a)%Z -> (n <= rem)%nat ->
  (a + Z.of_nat n <= MaxRetries cfg)%Z ->
  (forall i, (a <= i < a + Z.of_nat n)%Z ->
     fst (tryConnect i) <> None /\ sleep_interrupted i = None) ->
  exists ops l',
    (forall r ops', connect_loop cfg pool log (rem - n) (a + Z.of_nat n)
                 (backoff_spec (a + Z.of_nat n) (InitialBackoff cfg) (MaxBackoff cfg)) l' = (r, ops') ->
       connect_loop cfg pool log rem a (backoff_spec a (InitialBackoff cfg) (MaxBackoff cfg)) l
       = (r, (ops ++ ops')%list))
    /\ tally is_new ops = n
    /\ waits ops = map (fun k => backoff_spec (a + Z.of_nat k) (InitialBackoff cfg) (MaxBackoff cfg))
                     (seq 0 n).
Proof.
  induction n as [|n IH]; intros rem a l Hno Ha Hrem Hmax Hall.
  { exists [], l. split; [|done]. intros r ops'. by rewrite Nat.sub_0_r, Z.add_0_r. }
  destruct rem as [|rem]; [lia|]. destruct (Hall a ltac:(lia)) as [Hf Hs].
  destruct (tryConnect_ops a) as (Hn & Hw & _).
  destruct (tryConnect a) as [[e|] ops0] eqn:Ht; [|done]. simpl in Hn, Hw.
  destruct (IH rem (a + 1)%Z (Some e)) as (ops & l' & Hrun & Htal & Hwait);
    [done|lia|lia|lia|intros i Hi; apply Hall; lia|].
  assert (Heq : (a + 1 + Z.of_nat n = a + Z.of_nat (S n))%Z) by lia. rewrite Heq in Hrun.
  eexists (ops0 ++ [_] ++ Sleep _ :: ops)%list, l'. split; [|split].
  - intros r ops' Hr. simpl in Hr. cbn [connect_loop]. rewrite Ht.
    destruct (a =? MaxRetries cfg)%Z eqn:?; zbool; [lia|]. unfold sleep. rewrite Hs, nextBackoff_spec by done.
    rewrite (Hrun r ops' Hr). f_equal. rewrite <- !app_assoc. reflexivity.
  - rewrite !tally_app. unfold tally in *. simpl. lia.
  - rewrite !waits_app, Hw. simpl. rewrite Hwait, <- seq_shift, map_map. rewrite Z.add_0_r. f_equal.
    apply map_ext. intros k. f_equal. lia.
Qed.
End ConnectProofs.

(** The waits before attempts [2 .. n+1]. *)
Definition backoffs (cfg : Config) (n : nat) : list Z :=
  map (fun k => backoff_spec (1 + Z.of_nat k) (InitialBackoff cfg) (MaxBackoff cfg)) (seq 0 n).

Section ConnectOutcomes.
Context `{Pgx, ZerologFields}.
Variables (cfg : Config) (pool : PoolConfig) (log : Logger).
Hypothesis Hno : backoff_ok (InitialBackoff cfg) (MaxBackoff cfg).
Hypothesis Hsleep : forall i, (1 <= i < MaxRetries cfg)%Z -> sleep_interrupted i = None.

Abbreviation the_loop :=
  (connect_loop cfg pool log (Z.to_nat (MaxRetries cfg)) 1 (InitialBackoff cfg) None).

Lemma the_loop_failures (n : nat) :
  (n < Z.to_nat (MaxRetries cfg))%nat ->
  (forall i, (1 <= i < 1 + Z.of_nat n)%Z -> fst (tryConnect i) <> None) ->
  exists ops l',
    (forall r ops', connect_loop cfg pool log (Z.to_nat (MaxRetries cfg) - n) (1 + Z.of_nat n)
                 (backoff_spec (1 + Z.of_nat n) (InitialBackoff cfg) (MaxBackoff cfg)) l' = (r, ops') ->
       the_loop = (r, (ops ++ ops')%list))
    /\ tally is_new ops = n /\ waits ops = backoffs cfg n.
Proof.
  intros Hn Hf. apply (connect_loop_failures cfg pool log n (Z.to_nat (MaxRetries cfg)) 1 None Hno);
    try lia. intros i Hi. split; [by apply Hf|]. apply Hsleep. lia.
Qed.

(** The database answers at attempt [k + 1]. *)
Lemma the_loop_answer (k : nat) :
  (k < Z.to_nat (MaxRetries cfg))%nat -> fst (tryConnect (1 + Z.of_nat k)) = None ->
  (forall i, (1 <= i < 1 + Z.of_nat k)%Z -> fst (tryConnect i) <> None) ->
  fst the_loop = Ok {| db_pool := pool; db_cfg := cfg |}
  /\ tally is_new (snd the_loop) = S k /\ waits (snd the_loop) = backoffs cfg k.
Proof.
  intros Hk Hok Hf. destruct (the_loop_failures k Hk Hf) as (ops0 & l' & Hrun & Htal & Hwait).
  destruct (tryConnect_ops (1 + Z.of_nat k)) as (Hn & Hw & _).
  destruct (Z.to_nat (MaxRetries cfg) - k)%nat as [|rem] eqn:E; [lia|].
  destruct (tryConnect (1 + Z.of_nat k)) as [e ops1] eqn:Ht. cbn [fst snd] in *. subst e.
  cbn [connect_loop] in Hrun. rewrite Ht in Hrun. rewrite (Hrun _ _ eq_refl). cbn [fst snd].
  rewrite !tally_app, !waits_app, Hw, Hwait, Htal, Hn. simpl. rewrite !app_nil_r.
  split; [done|]. split; [unfold tally; simpl; lia|done].
Qed.

(** The database never answers. *)
Lemma the_loop_exhausted :
  (0 < MaxRetries cfg)%Z ->
  (forall i, (1 <= i <= MaxRetries cfg)%Z -> fst (tryConnect i) <> None) ->
  exists e, fst (tryConnect (MaxRetries cfg)) = Some e
    /\ fst the_loop = Err (unreachable cfg (Some e))
    /\ tally is_new (snd the_loop) = Z.to_nat (MaxRetries cfg)
    /\ waits (snd the_loop) = backoffs cfg (pred (Z.to_nat (MaxRetries cfg))).
Proof.
  intros Hpos Hf.
  destruct (the_loop_failures (pred (Z.to_nat (MaxRetries cfg)))) as (ops0 & l' & Hrun & Htal & Hwait);
    [lia|intros i Hi; apply Hf; lia|].
  replace (1 + Z.of_nat (pred (Z.to_nat (MaxRetries cfg))))%Z with (MaxRetries cfg) in Hrun by lia.
  replace (Z.to_nat (MaxRetries cfg) - pred (Z.to_nat (MaxRetries cfg)))%nat with 1%nat in Hrun by lia.
  destruct (tryConnect_ops (MaxRetries cfg)) as (Hn & Hw & _).
  specialize (Hf (MaxRetries cfg) ltac:(lia)).
  destruct (tryConnect (MaxRetries cfg)) as [[e|] ops1] eqn:Ht; [|done]. cbn [fst snd] in *.
  cbn [connect_loop] in Hrun. rewrite Ht, Z.eqb_refl in Hrun.
  exists e. split; [done|]. rewrite (Hrun _ _ eq_refl). cbn [fst snd].
  rewrite !tally_app, !waits_app, Hw, Hwait, Htal, Hn. simpl. rewrite !app_nil_r.
  split; [done|]. split; [unfold tally; simpl; lia|done].
Qed.
End ConnectOutcomes.


(** The database answers at the third attempt. *)
Definition third_time_lucky : Pgx := {|
  ParseConfig := fun _ => None;
  NewWithConfig := fun _ => None;
  PingAnswer := fun n => if (n <? 3)%Z then Some (Sentinel "refused" "connection refused") else None;
  sleep_interrupted := fun _ => None
|}.

Definition sample_config : Config := {|
  URL := "postgres://db"; MaxConns := 0; MinConns := 0; MaxConnLifetime := 0; MaxConnIdleTime := 0;
  HealthCheckPeriod := 0; ConnectTimeout := 0; MaxRetries := 0; InitialBackoff := 0; MaxBackoff := 0;
  RunMigrations := false |}.


(** ** Migrations *)

(** The scheme the migrator is given, and nothing else changes. *)
Lemma migrateDSN_spec dsn :
  (forall rest, dsn = "postgres://" ++ rest -> migrateDSN dsn = "pgx5://" ++ rest)
  /\ (forall rest, dsn = "postgresql://" ++ rest -> migrateDSN dsn = "pgx5://" ++ rest)
  /\ (HasPrefix dsn "postgres://" = false -> HasPrefix dsn "postgresql://" = false ->
        migrateDSN dsn = dsn).
Proof.
  split; [|split].
  - intros rest ->. reflexivity.
  - intros rest ->. reflexivity.
  - unfold HasPrefix, migrateDSN. cbn [rewrite_scheme]. intros H1 H2.
    destruct (CutPrefix dsn "postgres://"); [done|]. by destruct (CutPrefix dsn "postgresql://").
Qed.

(** migrations are applied only on a clean schema, and the migrator never
    stays open.  A schema marked dirty is reported and [Up] is not called; every
    failure is an [ErrMigration]; nil is returned only when [Up] succeeded or had
    nothing to do; and a migrator that was opened is closed on every path. *)
Theorem Migrate_safe `{Migrator} dsn path log :
  let '(r, ops) := Migrate dsn path log in
  (forall err, r = Some err -> Is err ErrMigration = true)
  /\ (forall v, Version_before = Ok (v, true) -> (MUp ∉ ops) /\ r <> None)
  /\ (r = None -> MUp ∈ ops /\ (Up = None \/ exists e, Up = Some e /\ Is e ErrNoChange = true))
  /\ (fst (newMigrator dsn path) = None -> MClose ∈ ops).
Proof.
  unfold Migrate. destruct (newMigrator dsn path) as [[err|] ops] eqn:Hn.
  - unfold newMigrator in Hn. repeat case_match; simplify_eq/=;
      (split; [by intros err0 [= <-]|]; split; [by (intros; split; [set_solver|])|]; done).
  - assert ((MUp ∉ closeMigrator log) /\ MClose ∈ closeMigrator log /\ (MUp ∉ ops)) as (Hc1 & Hc2 & Ho).
    { unfold closeMigrator, newMigrator in *. repeat case_match; simplify_eq/=; set_solver. }
    repeat case_match; simplify_eq/=;
      (split; [by intros err0 [= <-]|]);
      (split; [intros v Hv; simplify_eq; try by (split; [set_solver|])|]);
      (split; [|set_solver]); try done; intros _; (split; [set_solver|]); eauto.
Qed.
