(* ===== verification/Jwt.v ===== *)
(** * pkg/jwt: keys, tokens and their verification

    The key set with its rotation (keyset.go, pem.go), loading it from the
    configuration and publishing it (jwks.go), issuing (issuer.go, claims.go) and
    verifying (verifier.go) access tokens.  Cryptography, X.509, PEM and the
    golang-jwt parser are parameters; what the code relies on in them are the
    laws of the classes [Crypto] and [JwtLib]. *)

From stdpp Require Import base list gmap sets strings numbers.
From Stdlib Require Import ZArith Lia String.
From S2P Require Import Prelude GoStrings GoErrors.

Local Open Scope string_scope.

(** ** keyset.go *)

Definition ErrNoSigningKey : goerror := Sentinel "jwt.ErrNoSigningKey" "jwt: no active signing key".
Definition ErrUnknownKey : goerror := Sentinel "jwt.ErrUnknownKey" "jwt: unknown kid".
Definition ErrInvalidKey : goerror := Sentinel "jwt.ErrInvalidKey" "jwt: invalid key".

(** Key material is bytes; an absent private half is empty. *)
Record Key := mkKey { KID : string; Public : string; Private : string }.

Definition CanSign (k : Key) : bool := (0 <? String.length (Private k))%nat.

(** The mutex only serialises the operations; each is atomic here. *)
Record KeySet := mkKeySet { keys : gmap string Key; activeKID : string }.

Definition NewKeySet : KeySet := {| keys := ∅; activeKID := "" |}.

Definition PublicKeySize : nat := 32.

(** [key_digest]: the first 8 bytes of the SHA-256 of a public key in unpadded
    base64url; [pem_Decode]: the contents of the first PEM block and what
    follows it; the X.509 parsers give an Ed25519 key, or the name of the type
    of another key. *)
Class Crypto := {
  key_digest : string -> string;
  base64url : string -> string;
  pem_Decode : string -> option (string * string);
  pem_Encode : string -> string;
  ParsePKCS8PrivateKey : string -> res (string + string);
  ParsePKIXPublicKey : string -> res (string + string);
  private_Public : string -> option string;
  key_digest_nonempty : forall public, key_digest public <> "";
  private_nonempty : forall block private,
    ParsePKCS8PrivateKey block = Ok (inl private) -> private <> "";
  pem_Decode_shorter : forall data block rest,
    pem_Decode data = Some (block, rest) -> (String.length rest < String.length data)%nat
}.

Section Keys.
Context `{Crypto}.

Definition KeyID (public : string) : string := key_digest public.

Definition Add (key : Key) (s : KeySet) : option goerror * KeySet :=
  if negb (String.length (Public key) =? PublicKeySize)%nat
  then (Some (Errorf "" [(ErrInvalidKey, ": the public key of " ++ Quote (KID key)
                           ++ " is not Ed25519")]), s)
  else
    let key := if String.eqb (KID key) ""
               then {| KID := KeyID (Public key); Public := Public key; Private := Private key |}
               else key in
    (None, {| keys := <[KID key := key]> (keys s);
              activeKID := if String.eqb (activeKID s) "" && CanSign key then KID key
                           else activeKID s |}).

Definition SetActive (kid : string) (s : KeySet) : option goerror * KeySet :=
  match keys s !! kid with
  | None => (Some (Errorf "" [(ErrUnknownKey, ": " ++ kid)]), s)
  | Some key =>
      if negb (CanSign key)
      then (Some (Errorf "" [(ErrNoSigningKey, ": " ++ kid ++ " has no private half")]), s)
      else (None, {| keys := keys s; activeKID := kid |})
  end.

Definition zeroKey : Key := {| KID := ""; Public := ""; Private := "" |}.

Definition Active (s : KeySet) : res Key :=
  if String.eqb (activeKID s) "" then Err ErrNoSigningKey
  else Ok (default zeroKey (keys s !! activeKID s)).

Definition Get (kid : string) (s : KeySet) : res Key :=
  match keys s !! kid with
  | None => Err (Errorf "" [(ErrUnknownKey, ": " ++ kid)])
  | Some key => Ok key
  end.

(** Go ranges over a map in any order; the list stands for all of them. *)
Definition Keys (s : KeySet) : list Key := snd <$> map_to_list (keys s).

Definition ParsePrivateKeyPEM (data : string) : res Key :=
  match pem_Decode data with
  | None => Err (Errorf "" [(ErrInvalidKey, ": the private key is not valid PEM")])
  | Some (block, _) =>
      match ParsePKCS8PrivateKey block with
      | Err err => Err (Errorf "" [(ErrInvalidKey, ": "); (err, "")])
      | Ok (inr ty) => Err (Errorf "" [(ErrInvalidKey, ": the key is " ++ ty ++ ", not Ed25519")])
      | Ok (inl private) =>
          match private_Public private with
          | None => Err (Errorf "" [(ErrInvalidKey, ": the public half is not Ed25519")])
          | Some public => Ok {| KID := KeyID public; Public := public; Private := private |}
          end
      end
  end.

Definition ParsePublicKeyPEM (data : string) : res Key :=
  match pem_Decode data with
  | None => Err (Errorf "" [(ErrInvalidKey, ": the public key is not valid PEM")])
  | Some (block, _) =>
      match ParsePKIXPublicKey block with
      | Err err => Err (Errorf "" [(ErrInvalidKey, ": "); (err, "")])
      | Ok (inr ty) => Err (Errorf "" [(ErrInvalidKey, ": the key is " ++ ty ++ ", not Ed25519")])
      | Ok (inl public) => Ok {| KID := KeyID public; Public := public; Private := "" |}
      end
  end.

(** ** pem.go *)

(** No key and no error means there are no more blocks. *)
Definition nextPublicKey (data : string) : res (option (Key * string)) :=
  let data := TrimSpace data in
  if String.eqb data "" then Ok None
  else match pem_Decode data with
       | None => Ok None
       | Some (block, rest) =>
           match ParsePublicKeyPEM (pem_Encode block) with
           | Err err => Err err
           | Ok key => Ok (Some (key, rest))
           end
       end.

(** ** jwks.go *)

Record JWK := mkJWK { KeyType : string; Curve : string; JWK_KeyID : string; Use : string;
                      Algorithm : string; X : string }.

Definition JWKS (s : KeySet) : list JWK :=
  map (fun key => {| KeyType := "OKP"; Curve := "Ed25519"; JWK_KeyID := KID key; Use := "sig";
                     Algorithm := "EdDSA"; X := base64url (Public key) |}) (Keys s).

Record Config := mkConfig {
  Issuer_name : string;
  Audience : list string;
  AccessTokenTTL : Z;
  PrivateKeyPEM : string;
  PublicKeysPEM : string;
  ClockSkew : Z
}.

Definition normalizePEM (pem : string) : string := ReplaceAll pem backslash_n newline.

(** The [for] loop, for at most [fuel] blocks ([None]: more blocks than that). *)
Fixpoint addPublicKeys_loop (fuel : nat) (s : KeySet) (rest : string)
    : option (option goerror * KeySet) :=
  match fuel with
  | O => None
  | S fuel' =>
      match nextPublicKey rest with
      | Err err => Some (Some err, s)
      | Ok None => Some (None, s)
      | Ok (Some (key, remaining)) =>
          match Get (KID key) s with
          | Ok existing =>
              if CanSign existing then addPublicKeys_loop fuel' s remaining
              else match Add key s with
                   | (Some err, s) => Some (Some err, s)
                   | (None, s) => addPublicKeys_loop fuel' s remaining
                   end
          | Err _ =>
              match Add key s with
              | (Some err, s) => Some (Some err, s)
              | (None, s) => addPublicKeys_loop fuel' s remaining
              end
          end
      end
  end.

(** Every block is shorter than the data, so this fuel is never used up
    ([addPublicKeys_total]). *)
Definition addPublicKeys (s : KeySet) (data : string) : option (option goerror * KeySet) :=
  addPublicKeys_loop (S (String.length data)) s data.

(** The private half of [LoadKeySet]. *)
Definition loadPrivate (cfg : Config) : res KeySet :=
  if String.eqb (PrivateKeyPEM cfg) "" then Ok NewKeySet
  else match ParsePrivateKeyPEM (normalizePEM (PrivateKeyPEM cfg)) with
       | Err err => Err err
       | Ok key => match Add key NewKeySet with
                   | (Some err, _) => Err err
                   | (None, s) => Ok s
                   end
       end.

Definition LoadKeySet (cfg : Config) : option (res KeySet) :=
  match loadPrivate cfg with
  | Err err => Some (Err err)
  | Ok s =>
      if String.eqb (PublicKeysPEM cfg) "" then Some (Ok s)
      else match addPublicKeys s (normalizePEM (PublicKeysPEM cfg)) with
           | None => None
           | Some (Some err, _) => Some (Err err)
           | Some (None, s) =>
               if (List.length (Keys s) =? 0)%nat
               then Some (Err (Errorf "" [(ErrInvalidKey,
                      ": the public keys are set but contain no PEM block")]))
               else Some (Ok s)
           end
  end.
End Keys.

(** ** claims.go and issuer.go *)

(** Times in nanoseconds; an absent time is [None]. *)
Record Claims := mkClaims {
  cl_Subject : string;
  cl_Issuer : string;
  cl_Audience : list string;
  cl_ID : string;
  cl_IssuedAt : option Z;
  cl_NotBefore : option Z;
  cl_ExpiresAt : option Z;
  SessionVersion : Z;
  SessionID : string;
  Scope : list string
}.

(** The zero [time.Time]: the first instant of year 1. *)
Definition zeroTime : Z := -62135596800 * Second.

Definition Subject (c : Claims) : string := cl_Subject c.
Definition TokenID (c : Claims) : string := cl_ID c.
Definition ExpiresAt (c : Claims) : Z := match cl_ExpiresAt c with None => zeroTime | Some t => t end.
Definition IssuedAt (c : Claims) : Z := match cl_IssuedAt c with None => zeroTime | Some t => t end.

Definition HasScope (c : Claims) (scope : string) : bool := existsb (String.eqb scope) (Scope c).

Record TokenRequest := mkTokenRequest {
  rq_UserID : string;
  rq_SessionID : string;
  rq_SessionVersion : Z;
  rq_Scope : list string;
  rq_Audience : list string
}.

Definition DefaultAccessTokenTTL : Z := 15 * Minute.

Record Issuer := mkIssuer { is_keys : KeySet; is_cfg : Config }.

Definition with_ttl (ttl : Z) (c : Config) : Config :=
  {| Issuer_name := Issuer_name c; Audience := Audience c; AccessTokenTTL := ttl;
     PrivateKeyPEM := PrivateKeyPEM c; PublicKeysPEM := PublicKeysPEM c; ClockSkew := ClockSkew c |}.

Definition NewIssuer (s : KeySet) (cfg : Config) : res Issuer :=
  match Active s with
  | Err err => Err err
  | Ok _ =>
      Ok {| is_keys := s;
            is_cfg := if (AccessTokenTTL cfg <=? 0)%Z then with_ttl DefaultAccessTokenTTL cfg
                      else cfg |}
  end.

Definition TTL (i : Issuer) : Z := AccessTokenTTL (is_cfg i).

(** The header of a token: its algorithm and its kid, when it has one. *)
Record Header := mkHeader { h_alg : string; h_kid : option string }.

Definition ErrExpired : goerror := Sentinel "jwt.ErrExpired" "jwt: the token has expired".
Definition ErrInvalidToken : goerror := Sentinel "jwt.ErrInvalidToken" "jwt: invalid token".
Definition ErrMissingKID : goerror := Sentinel "jwt.ErrMissingKID" "jwt: the token carries no kid".
Definition ErrWrongAlgorithm : goerror :=
  Sentinel "jwt.ErrWrongAlgorithm" "jwt: unexpected signing algorithm".
Definition ErrTokenExpired : goerror := Sentinel "golang-jwt.ErrTokenExpired" "token is expired".

Definition EdDSA := "EdDSA".

(** golang-jwt.  [decode] is what a token says without checking it, [sig_ok] the
    check of its signature.  [NumericDate] is the precision of a time claim.
    [ParseWithClaims] is given the key function, the options (the valid methods, the
    issuer, the leeway) and the time; the law is its documented checks: with valid methods
    given, it succeeds exactly when the token decodes, declares one of them, the key
    function yields a key the signature verifies under, and the issuer and the time claims
    that are present fit.  Signing produces a token that decodes to what was signed, when the
    claims survive JSON ([json_safe]), and that verifies under the public half
    ([pair_ok]: the two halves belong together). *)
Class JwtLib := {
  decode : string -> option (Header * Claims);
  sig_ok : string -> string -> bool;
  NumericDate : Z -> Z;
  NumericDate_near : forall t, (t - Second < NumericDate t <= t)%Z;
  json_safe : Claims -> bool;
  pair_ok : string -> string -> bool;
  SignedString : string -> Header -> Claims -> res string;
  ParseWithClaims : string -> (Header -> res string) -> list string -> string -> Z -> Z -> res Claims;
  parse_ok_iff : forall token keyFor methods iss leeway now claims, methods <> [] ->
    ParseWithClaims token keyFor methods iss leeway now = Ok claims <->
    exists hdr public, decode token = Some (hdr, claims) /\ h_alg hdr ∈ methods
      /\ keyFor hdr = Ok public /\ sig_ok token public = true
      /\ (iss = "" \/ cl_Issuer claims = iss)
      /\ (forall t, cl_ExpiresAt claims = Some t -> (now < t + leeway)%Z)
      /\ (forall t, cl_NotBefore claims = Some t -> (t - leeway <= now)%Z);
  signed_ok : forall private public hdr claims token,
    SignedString private hdr claims = Ok token -> pair_ok private public = true ->
    json_safe claims = true ->
    decode token = Some (hdr, claims) /\ sig_ok token public = true
}.

Section Tokens.
Context `{JwtLib}.

(** [uuid] is the fresh jti. *)
Definition Issue (i : Issuer) (now : Z) (uuid : string) (req : TokenRequest) : res (string * Claims) :=
  match Active (is_keys i) with
  | Err err => Err err
  | Ok key =>
      let audience := match rq_Audience req with [] => Audience (is_cfg i) | a => a end in
      let claims := {| cl_Subject := rq_UserID req; cl_Issuer := Issuer_name (is_cfg i);
                       cl_Audience := audience; cl_ID := uuid;
                       cl_IssuedAt := Some (NumericDate now);
                       cl_NotBefore := Some (NumericDate now);
                       cl_ExpiresAt := Some (NumericDate (now + AccessTokenTTL (is_cfg i)));
                       SessionID := rq_SessionID req; SessionVersion := rq_SessionVersion req;
                       Scope := rq_Scope req |} in
      match SignedString (Private key) {| h_alg := EdDSA; h_kid := Some (KID key) |} claims with
      | Err err => Err (Wrap "signing the token: " err)
      | Ok signed => Ok (signed, claims)
      end
  end.

(** ** verifier.go *)

Record Verifier := mkVerifier { v_keys : KeySet; v_cfg : Config }.

Definition keyFor (v : Verifier) (hdr : Header) : res string :=
  if negb (String.eqb (h_alg hdr) EdDSA)
  then Err (Errorf "" [(ErrWrongAlgorithm, ": " ++ h_alg hdr)])
  else match h_kid hdr with
       | None => Err ErrMissingKID
       | Some kid =>
           if String.eqb kid "" then Err ErrMissingKID
           else match Get kid (v_keys v) with
                | Err err => Err err
                | Ok key => Ok (Public key)
                end
       end.

Definition checkAudience (v : Verifier) (claims : Claims) : option goerror :=
  match Audience (v_cfg v) with
  | [] => None
  | wanted =>
      if existsb (fun want => existsb (String.eqb want) (cl_Audience claims)) wanted then None
      else Some (Errorf "" [(ErrInvalidToken, ": the audience does not match")])
  end.

Definition translate (err : goerror) : goerror :=
  if Is err ErrTokenExpired then ErrExpired
  else if Is err ErrUnknownKey || Is err ErrMissingKID || Is err ErrWrongAlgorithm then err
  else Errorf "" [(ErrInvalidToken, ": "); (err, "")].

(** A token the parser accepts is valid and has the claims type asked for. *)
Definition Verify (v : Verifier) (now : Z) (token : string) : res Claims :=
  match ParseWithClaims token (keyFor v) [EdDSA] (Issuer_name (v_cfg v)) (ClockSkew (v_cfg v)) now with
  | Err err => Err (translate err)
  | Ok claims => match checkAudience v claims with
                 | Some err => Err err
                 | None => Ok claims
                 end
  end.
End Tokens.

(** ** Invariant of the key set *)

Record keyset_wf (s : KeySet) : Prop := {
  wf_keys : map_Forall (fun kid key => KID key = kid /\ kid <> ""
                        /\ String.length (Public key) = PublicKeySize) (keys s);
  wf_active : activeKID s = "" \/ exists key, keys s !! activeKID s = Some key /\ CanSign key = true
}.

Lemma NewKeySet_wf : keyset_wf NewKeySet.
Proof. split; [apply map_Forall_empty|by left]. Qed.

Lemma CanSign_nonempty k : CanSign k = true <-> Private k <> "".
Proof. unfold CanSign. destruct (Private k); simpl; naive_solver. Qed.

Section KeySetProofs.
Context `{Crypto}.

(** [Add] keeps the invariant unless it replaces the active key by one that
    cannot sign. *)
Lemma Add_wf key s s' :
  keyset_wf s -> Add key s = (None, s') ->
  (CanSign key = true \/ activeKID s = "" \/ KID key <> "" /\ KID key <> activeKID s
   \/ KID key = "" /\ KeyID (Public key) <> activeKID s) ->
  keyset_wf s'.
Proof.
  intros [Hk Ha] Hadd Hsafe. unfold Add in Hadd.
  destruct (negb _) eqn:Hlen; [done|]. zbool. injection Hadd as <-.
  set (key' := if String.eqb (KID key) "" then _ else key).
  assert (KID key' <> "" /\ Public key' = Public key /\ CanSign key' = CanSign key
          /\ (KID key' = KID key \/ KID key = "" /\ KID key' = KeyID (Public key)))
    as (Hid & Hpub & Hsign & Hkid).
  { subst key'. destruct (String.eqb (KID key) "") eqn:?; zbool; simpl.
    - split; [apply key_digest_nonempty|]. repeat split. by right.
    - repeat split; auto. }
  split; simpl.
  - apply map_Forall_insert_2; [|done]. rewrite Hpub. auto.
  - destruct (String.eqb (activeKID s) "") eqn:E; zbool; simpl.
    + destruct (CanSign key') eqn:Hc; [|auto]. right. exists key'. by rewrite lookup_insert_eq.
    + right. destruct Ha as [|(k & Hl & Hc)]; [done|].
      destruct (decide (KID key' = activeKID s)) as [Heq|Hne].
      * exists key'. rewrite Heq, lookup_insert_eq. split; [done|]. rewrite Hsign.
        destruct Hsafe as [?|[?|[[? ?]|[? ?]]]], Hkid as [?|[? ?]]; congruence.
      * exists k. by rewrite lookup_insert_ne.
Qed.

Lemma SetActive_wf kid s : keyset_wf s -> keyset_wf (snd (SetActive kid s)).
Proof.
  intros [Hk Ha]. unfold SetActive. destruct (keys s !! kid) as [key|] eqn:Hl; [|by split].
  destruct (CanSign key) eqn:Hc; simpl; split; simpl; eauto.
Qed.

Lemma nextPublicKey_spec data key rest :
  nextPublicKey data = Ok (Some (key, rest)) ->
  Private key = "" /\ KID key = KeyID (Public key)
  /\ (String.length rest < String.length (TrimSpace data))%nat.
Proof.
  unfold nextPublicKey, ParsePublicKeyPEM. intros Hn.
  repeat case_match; simplify_eq/=; (split; [done|]; split; [done|]);
    by eapply pem_Decode_shorter.
Qed.
End KeySetProofs.

(** ** Loading *)

Section Loading.
Context `{Crypto}.

(** The loop terminates within the fuel: every block shortens the data. *)
Lemma addPublicKeys_total fuel : forall s rest,
  (String.length rest < fuel)%nat -> addPublicKeys_loop fuel s rest <> None.
Proof.
  induction fuel as [|fuel IH]; intros s rest Hl; [lia|]. cbn [addPublicKeys_loop].
  destruct (nextPublicKey rest) as [[[key remaining]|]|err] eqn:Hn; [|done..].
  apply nextPublicKey_spec in Hn as (_ & _ & Hlen). pose proof (TrimSpace_length rest).
  assert (Hrec : forall s, addPublicKeys_loop fuel s remaining <> None) by (intros; apply IH; lia).
  repeat case_match; auto.
Qed.

(** Adding public keys never takes a signing key away. *)
Lemma addPublicKeys_keeps fuel : forall s rest r s',
  keyset_wf s -> addPublicKeys_loop fuel s rest = Some (r, s') ->
  keyset_wf s' /\ activeKID s' = activeKID s
  /\ forall kid key, keys s !! kid = Some key -> CanSign key = true -> keys s' !! kid = Some key.
Proof.
  induction fuel as [|fuel IH]; intros s rest r s' Hwf Hloop; [done|]. cbn [addPublicKeys_loop] in Hloop.
  destruct (nextPublicKey rest) as [[[key remaining]|]|err] eqn:Hn; [|by simplify_eq..].
  apply nextPublicKey_spec in Hn as (Hpriv & Hkid & _).
  assert (Hcs : CanSign key = false) by (unfold CanSign; by rewrite Hpriv).
  assert (Hne : KID key <> "") by (rewrite Hkid; apply key_digest_nonempty).
  assert (Hadd : (forall e, keys s !! KID key = Some e -> CanSign e = false) ->
    match Add key s with
    | (Some err, s0) => Some (Some err, s0)
    | (None, s0) => addPublicKeys_loop fuel s0 remaining
    end = Some (r, s') ->
    keyset_wf s' /\ activeKID s' = activeKID s
    /\ forall kid k, keys s !! kid = Some k -> CanSign k = true -> keys s' !! kid = Some k).
  { intros Hold Hrest. destruct (Add key s) as [[err|] s1] eqn:Ha.
    - assert (s1 = s) as -> by (unfold Add in Ha; by destruct (negb _); simplify_eq). by simplify_eq.
    - pose proof (Add_wf key s s1 Hwf Ha) as Hwf1. unfold Add in Ha.
      destruct (negb _); [done|]. rewrite (proj2 (String.eqb_neq _ _) Hne), Hcs, andb_false_r in Ha.
      injection Ha as <-. destruct (IH _ _ _ _ ltac:(apply Hwf1; destruct (wf_active s Hwf) as
        [?|(k & Hl & Hc)]; [tauto|]; right; right; left; split; [done|]; intros Heq;
        rewrite <- Heq in Hl; specialize (Hold _ Hl); congruence) Hrest) as (? & ? & Hkeep).
      split; [done|]. split; [done|]. intros kid k Hl Hc. apply Hkeep; [|done]. simpl.
      rewrite lookup_insert_ne; [done|]. intros <-. specialize (Hold _ Hl). congruence. }
  unfold Get in Hloop. destruct (keys s !! KID key) as [existing|] eqn:Hg.
  - destruct (CanSign existing) eqn:Hce; [by eapply IH|]. apply Hadd; [|done]. intros e [= <-]. done.
  - apply Hadd; [|done]. done.
Qed.

Lemma loadPrivate_wf cfg s :
  loadPrivate cfg = Ok s ->
  keyset_wf s /\ (PrivateKeyPEM cfg <> "" ->
    exists key, keys s !! activeKID s = Some key /\ CanSign key = true /\ activeKID s <> "").
Proof.
  unfold loadPrivate. destruct (String.eqb (PrivateKeyPEM cfg) "") eqn:E; zbool.
  { intros [= <-]. split; [apply NewKeySet_wf|done]. }
  destruct (ParsePrivateKeyPEM _) as [key|err] eqn:Hp; [|done].
  assert (Hk : CanSign key = true /\ KID key <> "").
  { unfold ParsePrivateKeyPEM in Hp. repeat case_match; simplify_eq/=.
    split; [apply CanSign_nonempty; simpl; by eapply private_nonempty|apply key_digest_nonempty]. }
  destruct Hk as [Hcs Hne]. destruct (Add key NewKeySet) as [[err|] s0] eqn:Ha; [done|].
  intros [= <-]. split; [eapply Add_wf; [apply NewKeySet_wf|done|by left]|]. intros _.
  unfold Add in Ha. destruct (negb _); [done|]. rewrite (proj2 (String.eqb_neq _ _) Hne), Hcs in Ha.
  injection Ha as <-. exists key. simpl. by rewrite lookup_insert_eq.
Qed.
End Loading.

(** C34: the key set a service starts with is usable.  Loading always ends; every
    key of the result is filed under its own kid and is an Ed25519 key; the
    active key, if there is one, can sign; and a service configured with a
    private key always has an active one, even when the same key is listed among
    the public ones. *)
Theorem LoadKeySet_usable `{Crypto} cfg :
  LoadKeySet cfg <> None
  /\ forall s, LoadKeySet cfg = Some (Ok s) ->
       keyset_wf s
       /\ (PrivateKeyPEM cfg <> "" -> exists key, Active s = Ok key /\ CanSign key = true).
Proof.
  unfold LoadKeySet. destruct (loadPrivate cfg) as [s0|err] eqn:Hp; [|by split].
  destruct (loadPrivate_wf cfg s0 Hp) as [Hwf Hact].
  assert (Hgood : forall s, keyset_wf s -> activeKID s = activeKID s0 ->
    (forall kid key, keys s0 !! kid = Some key -> CanSign key = true -> keys s !! kid = Some key) ->
    keyset_wf s /\ (PrivateKeyPEM cfg <> "" -> exists key, Active s = Ok key /\ CanSign key = true)).
  { intros s Hs Heq Hkeep. split; [done|]. intros Hne. destruct (Hact Hne) as (key & Hl & Hc & Hk).
    exists key. unfold Active. rewrite Heq, (proj2 (String.eqb_neq _ _) Hk), (Hkeep _ _ Hl Hc). done. }
  destruct (String.eqb (PublicKeysPEM cfg) ""); [split; [done|]; intros s [= <-]; by apply Hgood|].
  unfold addPublicKeys. destruct (addPublicKeys_loop _ _ _) as [[[err|] s1]|] eqn:Hl.
  - done.
  - destruct (addPublicKeys_keeps _ _ _ _ _ Hwf Hl) as (? & ? & ?).
    destruct (_ =? 0)%nat; (split; [done|]); [done|]. intros s [= <-]. by apply Hgood.
  - exfalso. eapply addPublicKeys_total; [|exact Hl]. lia.
Qed.

(** unreadable public keys go unnoticed where a private key is set.  When
    the configured public keys hold no PEM block at all, a service with a private
    key starts without an error and without any of them: the check counts the
    private key's own entry. *)
Theorem LoadKeySet_ignores_unreadable_public_keys `{Crypto} cfg s :
  PrivateKeyPEM cfg <> "" -> loadPrivate cfg = Ok s ->
  pem_Decode (TrimSpace (normalizePEM (PublicKeysPEM cfg))) = None ->
  LoadKeySet cfg = Some (Ok s).
Proof.
  intros Hne Hp Hpem. destruct (loadPrivate_wf cfg s Hp) as [_ Hact].
  destruct (Hact Hne) as (key & Hl & _). unfold LoadKeySet. rewrite Hp.
  destruct (String.eqb (PublicKeysPEM cfg) ""); [done|]. unfold addPublicKeys.
  cbn [addPublicKeys_loop]. unfold nextPublicKey. rewrite Hpem.
  assert (Hlen : (List.length (Keys s) =? 0)%nat = false).
  { apply Nat.eqb_neq. unfold Keys. rewrite length_fmap. intros H0%nil_length_inv.
    apply map_to_list_empty_iff in H0. by rewrite H0 in Hl. }
  destruct (String.eqb _ ""); by rewrite Hlen.
Qed.

(** the published key set holds public halves only.  The document does not
    depend on the private keys: removing them all publishes the same keys. *)
Theorem JWKS_public_only `{Crypto} s :
  let strip k := {| KID := KID k; Public := Public k; Private := "" |} in
  JWKS {| keys := strip <$> keys s; activeKID := activeKID s |} ≡ₚ JWKS s.
Proof.
  intros strip. unfold JWKS, Keys. simpl. rewrite map_to_list_fmap.
  rewrite <- !list_fmap_compose. done.
Qed.

(** ** Tokens *)

Section TokenProofs.
Context `{JwtLib}.

Lemma keyFor_Ok v hdr public :
  keyFor v hdr = Ok public <->
  h_alg hdr = EdDSA /\ exists kid key, h_kid hdr = Some kid /\ kid <> ""
    /\ keys (v_keys v) !! kid = Some key /\ public = Public key.
Proof.
  unfold keyFor, Get. destruct (String.eqb (h_alg hdr) EdDSA) eqn:Ha; zbool; simpl; [|naive_solver].
  destruct (h_kid hdr) as [kid|]; [|naive_solver].
  destruct (String.eqb kid "") eqn:Hk; zbool; [naive_solver|].
  destruct (keys (v_keys v) !! kid) as [key|] eqn:Hl; naive_solver.
Qed.

(** A wanted audience is among the token's, or none is wanted. *)
Definition audience_fits (v : Verifier) (claims : Claims) : Prop :=
  Audience (v_cfg v) = [] \/ exists a, a ∈ Audience (v_cfg v) /\ a ∈ cl_Audience claims.

Lemma checkAudience_None v claims : checkAudience v claims = None <-> audience_fits v claims.
Proof.
  unfold checkAudience, audience_fits. destruct (Audience (v_cfg v)) as [|a l]; [naive_solver|].
  destruct (existsb _ (a :: l)) eqn:He.
  - split; [|done]. intros _. right. apply existsb_Exists, Exists_exists in He as (x & Hx & He).
    apply existsb_Exists, Exists_exists in He as (y & Hy & Heq%String.eqb_eq). subst.
    exists y. by rewrite !list_elem_of_In.
  - split; [done|]. intros [?|(x & Hx & Hc)]; [done|]. rewrite Forall_existsb_false in He.
    rewrite list.Forall_forall in He. specialize (He x Hx). rewrite Forall_existsb_false in He.
    rewrite list.Forall_forall in He. specialize (He x Hc). by rewrite String.eqb_refl in He.
Qed.

(** What [Verify] accepts, in full. *)
Lemma Verify_Ok_iff v now token claims :
  Verify v now token = Ok claims <->
  exists hdr kid key, decode token = Some (hdr, claims) /\ h_alg hdr = EdDSA
    /\ h_kid hdr = Some kid /\ kid <> "" /\ keys (v_keys v) !! kid = Some key
    /\ sig_ok token (Public key) = true
    /\ (Issuer_name (v_cfg v) = "" \/ cl_Issuer claims = Issuer_name (v_cfg v))
    /\ (forall t, cl_ExpiresAt claims = Some t -> (now < t + ClockSkew (v_cfg v))%Z)
    /\ (forall t, cl_NotBefore claims = Some t -> (t - ClockSkew (v_cfg v) <= now)%Z)
    /\ audience_fits v claims.
Proof.
  unfold Verify. split.
  - destruct (ParseWithClaims _ _ _ _ _ _) as [c|e] eqn:Hp; [|done].
    destruct (checkAudience v c) eqn:Ha; [done|]. intros [= ->].
    apply checkAudience_None in Ha.
    apply parse_ok_iff in Hp as (hdr & public & Hd & Halg%list_elem_of_singleton & Hk & Hs & Hi & He & Hn); [|done].
    apply keyFor_Ok in Hk as (_ & kid & key & ? & ? & ? & ->). naive_solver.
  - intros (hdr & kid & key & Hd & Halg & Hkid & Hne & Hl & Hs & Hi & He & Hn & Ha).
    rewrite (proj2 (parse_ok_iff token (keyFor v) [EdDSA] (Issuer_name (v_cfg v)) (ClockSkew (v_cfg v)) now claims
                      ltac:(done))).
    + by rewrite (proj2 (checkAudience_None v claims) Ha).
    + exists hdr, (Public key). split; [done|]. split; [by apply list_elem_of_singleton|].
      split; [apply keyFor_Ok; naive_solver|].
      naive_solver.
Qed.
End TokenProofs.

(** C14: what [Verify] accepts can be trusted.  The token is signed with EdDSA,
    and no other algorithm, under the key its kid names in the service's own key
    set; it was issued by the configured issuer for one of the configured
    audiences; and it has not expired, up to the tolerated clock skew. *)
Theorem verified_token_trusted `{JwtLib} v now token claims :
  Verify v now token = Ok claims ->
  exists hdr kid key, decode token = Some (hdr, claims) /\ h_alg hdr = EdDSA
    /\ h_kid hdr = Some kid /\ keys (v_keys v) !! kid = Some key
    /\ sig_ok token (Public key) = true
    /\ (Issuer_name (v_cfg v) <> "" -> cl_Issuer claims = Issuer_name (v_cfg v))
    /\ (Audience (v_cfg v) <> [] -> exists a, a ∈ Audience (v_cfg v) /\ a ∈ cl_Audience claims)
    /\ (forall t, cl_ExpiresAt claims = Some t -> (now < t + ClockSkew (v_cfg v))%Z).
Proof.
  intros (hdr & kid & key & Hd & Halg & Hkid & _ & Hl & Hs & Hi & He & _ & Ha)%Verify_Ok_iff.
  exists hdr, kid, key. unfold audience_fits in Ha. naive_solver.
Qed.

(** C15: a token that was issued verifies.  What [Issue] returns is accepted,
    with exactly the claims it was issued with, by every verifier that holds the
    public half of the signing key under its kid, expects the same issuer and one
    of the token's audiences, from the time of issue until one second before its
    lifetime ends. *)
Theorem issued_token_verifies `{JwtLib} i now uuid req token claims v key key' later :
  Issue i now uuid req = Ok (token, claims) -> json_safe claims = true ->
  Active (is_keys i) = Ok key -> KID key <> "" ->
  keys (v_keys v) !! KID key = Some key' -> pair_ok (Private key) (Public key') = true ->
  Issuer_name (v_cfg v) = Issuer_name (is_cfg i) -> audience_fits v claims ->
  (0 <= ClockSkew (v_cfg v))%Z -> (now <= later <= now + TTL i - Second)%Z ->
  Verify v later token = Ok claims.
Proof.
  intros Hi Hjson Hact Hkid Hl Hpair Hiss Haud Hskew Hlater. unfold Issue in Hi. rewrite Hact in Hi.
  destruct (SignedString _ _ _) as [signed|err] eqn:Hs; [|done]. injection Hi as -> <-.
  destruct (signed_ok _ _ _ _ _ Hs Hpair Hjson) as [Hd Hsig].
  apply Verify_Ok_iff. do 3 eexists. split; [exact Hd|]. split; [done|]. split; [done|].
  split; [done|]. split; [exact Hl|]. split; [done|]. split; [by right|].
  unfold TTL in Hlater. split; [|split; [|done]].
  - intros t [= <-]. pose proof (NumericDate_near (now + AccessTokenTTL (is_cfg i))).
    unfold Second in *. lia.
  - intros t [= <-]. pose proof (NumericDate_near now). lia.
Qed.

(** C39: a rotation signs nobody out.  Adding a key under a kid that was not in
    the set, active or not, leaves every token that verified before verifying
    with the same claims. *)
Theorem rotation_keeps_tokens_valid `{Crypto, JwtLib} s cfg key s' now token claims :
  KID key <> "" -> keys s !! KID key = None -> Add key s = (None, s') ->
  Verify {| v_keys := s; v_cfg := cfg |} now token = Ok claims ->
  Verify {| v_keys := s'; v_cfg := cfg |} now token = Ok claims.
Proof.
  intros Hne Hnew Hadd (hdr & kid & k & Hd & Halg & Hkid & Hk & Hl & Hrest)%Verify_Ok_iff.
  apply Verify_Ok_iff. exists hdr, kid, k. repeat (split; [done|]). simpl in *.
  unfold Add in Hadd. destruct (negb _); [done|].
  rewrite (proj2 (String.eqb_neq _ _) Hne) in Hadd. injection Hadd as <-. simpl.
  split; [|done]. rewrite lookup_insert_ne; [done|]. congruence.
Qed.

(** ** Witnesses *)

#[export] Instance Claims_eq_dec : EqDecision Claims.
Proof. solve_decision. Defined.
#[export] Instance Header_eq_dec : EqDecision Header.
Proof. solve_decision. Defined.

Definition thirty_two : string := "abcdefghijklmnopqrstuvwxyz012345".

(** A world with one key pair, whose private half is written as such in PEM. *)
Definition toy_crypto : Crypto.
Proof.
  refine {| key_digest := fun _ => "kid1"; base64url := fun s => s;
            pem_Decode := fun s => if String.eqb s "PRIVATE" then Some ("private", "")
                                   else if String.eqb s "PUBLIC" then Some ("public", "") else None;
            pem_Encode := fun b => if String.eqb b "public" then "PUBLIC" else "PRIVATE";
            ParsePKCS8PrivateKey := fun b => if String.eqb b "private" then Ok (inl "secret")
                                             else Ok (inr "*rsa.PrivateKey");
            ParsePKIXPublicKey := fun b => Ok (inl thirty_two);
            private_Public := fun _ => Some thirty_two |}.
  - abstract done.
  - abstract (intros block private; destruct (String.eqb block "private"); naive_solver).
  - abstract (intros data block rest; destruct (String.eqb data "PRIVATE") eqn:E;
      [|destruct (String.eqb data "PUBLIC") eqn:E2]; zbool; intros; simplify_eq; simpl; lia).
Defined.

Definition sample_jwt_config : Config :=
  {| Issuer_name := "dizen"; Audience := ["dizen-app"]; AccessTokenTTL := 0;
     PrivateKeyPEM := "PRIVATE"; PublicKeysPEM := "garbage"; ClockSkew := 30 * Second |}.

Definition sample_key : Key := {| KID := "kid1"; Public := thirty_two; Private := "secret" |}.
Definition sample_keys : KeySet := {| keys := {["kid1" := sample_key]}; activeKID := "kid1" |}.

Lemma LoadKeySet_ignores_unreadable_public_keys_witness :
  @LoadKeySet toy_crypto sample_jwt_config = Some (Ok sample_keys).
Proof.
  apply (@LoadKeySet_ignores_unreadable_public_keys toy_crypto sample_jwt_config sample_keys);
    [discriminate|reflexivity|reflexivity].
Defined.

Definition sample_claims : Claims :=
  {| cl_Subject := "u1"; cl_Issuer := "dizen"; cl_Audience := ["dizen-app"]; cl_ID := "j1";
     cl_IssuedAt := Some 0%Z; cl_NotBefore := Some 0%Z; cl_ExpiresAt := Some (15 * Minute)%Z;
     SessionVersion := 1; SessionID := "s1"; Scope := [] |}.
Definition sample_header : Header := {| h_alg := EdDSA; h_kid := Some "kid1" |}.

(** A parser of the one token that key signs. *)
Definition toy_parse (decode : string -> option (Header * Claims)) (sig_ok : string -> string -> bool)
    (token : string) (keyFor : Header -> res string) (methods : list string) (iss : string) (leeway now : Z)
    : res Claims :=
  match decode token with
  | None => Err (Sentinel "malformed" "token is malformed")
  | Some (hdr, claims) =>
      if negb (bool_decide (h_alg hdr ∈ methods)) then Err (Sentinel "method" "signing method is invalid")
      else match keyFor hdr with
           | Err e => Err (Wrap "token is unverifiable: " e)
           | Ok public =>
               if negb (sig_ok token public) then Err (Sentinel "signature" "signature is invalid")
               else if match cl_ExpiresAt claims with Some t => (t + leeway <=? now)%Z | None => false end
               then Err (Wrap "token has invalid claims: " ErrTokenExpired)
               else if match cl_NotBefore claims with Some t => (now <? t - leeway)%Z | None => false end
               then Err (Sentinel "nbf" "token is not valid yet")
               else if negb (String.eqb iss "") && negb (String.eqb (cl_Issuer claims) iss)
               then Err (Sentinel "iss" "token has invalid issuer")
               else Ok claims
           end
  end.

Lemma toy_parse_ok_iff dec sig token kf methods iss leeway now claims : methods <> [] ->
  toy_parse dec sig token kf methods iss leeway now = Ok claims <->
  exists hdr public, dec token = Some (hdr, claims) /\ h_alg hdr ∈ methods
    /\ kf hdr = Ok public /\ sig token public = true
    /\ (iss = "" \/ cl_Issuer claims = iss)
    /\ (forall t, cl_ExpiresAt claims = Some t -> (now < t + leeway)%Z)
    /\ (forall t, cl_NotBefore claims = Some t -> (t - leeway <= now)%Z).
Proof.
  intros _. unfold toy_parse. split.
  - destruct (dec token) as [[hdr c]|]; [|done]. destruct (base.decide (h_alg hdr ∈ methods)) as [Hm|Hm];
      [rewrite bool_decide_true by done|by rewrite bool_decide_false]. cbn [negb].
    intros Hp. repeat case_match; simplify_eq; zbool; do 2 eexists; repeat (split; [done|]);
      repeat match goal with
      | H : (_ && _)%bool = false |- _ => apply andb_false_iff in H; rewrite !negb_false_iff, !String.eqb_eq in H
      end; (split; [naive_solver|]); split; intros t Ht; simplify_eq; lia.
  - intros (hdr & public & -> & Hm & -> & -> & Hi & He & Hn). rewrite bool_decide_true by done. simpl.
    destruct (cl_ExpiresAt claims) as [t|]; [specialize (He t eq_refl);
      rewrite (proj2 (Z.leb_gt _ _)) by lia|];
      (destruct (cl_NotBefore claims) as [t'|]; [specialize (Hn t' eq_refl);
        rewrite (proj2 (Z.ltb_ge _ _)) by lia|]);
      (destruct Hi as [-> | ->]; [done|]; rewrite String.eqb_refl; simpl; by rewrite andb_false_r).
Qed.

Definition toy_decode (token : string) : option (Header * Claims) :=
  if String.eqb token "tok" then Some (sample_header, sample_claims) else None.
Definition toy_sig (token public : string) : bool :=
  String.eqb token "tok" && String.eqb public thirty_two.

Definition toy_jwt : JwtLib.
Proof.
  refine {| decode := toy_decode; sig_ok := toy_sig; NumericDate := fun t => t - t mod Second;
            json_safe := fun c => bool_decide (c = sample_claims);
            pair_ok := fun private public => String.eqb private "secret" && String.eqb public thirty_two;
            SignedString := fun private hdr claims =>
              if String.eqb private "secret" && bool_decide (hdr = sample_header)
                 && bool_decide (claims = sample_claims)
              then Ok "tok" else Err (Sentinel "sign" "cannot sign");
            ParseWithClaims := toy_parse toy_decode toy_sig;
            parse_ok_iff := toy_parse_ok_iff toy_decode toy_sig |}%Z.
  - abstract (intros t; pose proof (Z.mod_pos_bound t Second); unfold Second in *; lia).
  - abstract (intros private public hdr claims token Hs Hp _; unfold toy_decode, toy_sig;
      destruct (String.eqb private "secret" && bool_decide (hdr = sample_header)
                && bool_decide (claims = sample_claims)) eqn:E; [|done];
      injection Hs as <-; apply andb_true_iff in E as [[_ E1]%andb_true_iff E2];
      apply bool_decide_eq_true in E1, E2; subst; apply andb_true_iff in Hp as [_ Hp];
      by rewrite Hp).
Defined.

Definition sample_issuer : Issuer :=
  {| is_keys := sample_keys; is_cfg := with_ttl DefaultAccessTokenTTL sample_jwt_config |}.
Definition sample_request : TokenRequest :=
  {| rq_UserID := "u1"; rq_SessionID := "s1"; rq_SessionVersion := 1; rq_Scope := [];
     rq_Audience := [] |}.
Definition sample_verifier : Verifier :=
  {| v_keys := {| keys := {["kid1" := {| KID := "kid1"; Public := thirty_two; Private := "" |}]};
                  activeKID := "" |}; v_cfg := sample_jwt_config |}.

Lemma issued_token_verifies_witness :
  @Verify toy_jwt sample_verifier (14 * Minute) "tok" = Ok sample_claims.
Proof.
  apply (@issued_token_verifies toy_jwt sample_issuer 0 "j1" sample_request "tok" sample_claims
           sample_verifier sample_key {| KID := "kid1"; Public := thirty_two; Private := "" |});
    try reflexivity; try discriminate.
  - right. exists "dizen-app". split; apply elem_of_cons; by left.
  - vm_compute. split; discriminate.
Defined.

Lemma verified_token_trusted_witness :
  exists hdr kid key, @decode toy_jwt "tok" = Some (hdr, sample_claims) /\ h_alg hdr = EdDSA
    /\ keys (v_keys sample_verifier) !! kid = Some key.
Proof.
  destruct (@verified_token_trusted toy_jwt sample_verifier (14 * Minute) "tok" sample_claims eq_refl)
    as (hdr & kid & key & ? & ? & ? & ? & _). exists hdr, kid, key. auto.
Defined.

Definition second_key : Key := {| KID := "kid2"; Public := thirty_two; Private := "secret" |}.

Lemma rotation_keeps_tokens_valid_witness :
  @Verify toy_jwt {| v_keys := snd (@Add toy_crypto second_key (v_keys sample_verifier));
                     v_cfg := sample_jwt_config |} (14 * Minute) "tok" = Ok sample_claims.
Proof.
  apply (@rotation_keeps_tokens_valid toy_crypto toy_jwt (v_keys sample_verifier) sample_jwt_config
           second_key); try reflexivity. discriminate.
Defined.
