(* ===== verification/Keygen.v ===== *)
(** * pkg/jwt: generating, encoding and publishing keys

    Generating a pair and writing it as PEM (keyset.go), serving the public halves
    (jwks.go), the accessors of the claims (claims.go) and the command that prints a
    new pair for an environment (cmd/keygen/main.go).  Ed25519, X.509 and PEM are
    parameters with the laws the code relies on. *)

From stdpp Require Import base list gmap sets strings numbers.
From Stdlib Require Import ZArith Lia Ascii String.
From S2P Require Import Prelude GoStrings GoErrors Jwt.

Local Open Scope string_scope.

(** What the libraries promise when writing keys: a pair that belongs together; the
    X.509 parsers read what the marshallers wrote; the text of a PEM block has no
    backslash and decodes to the block, with nothing left, also without the
    whitespace around it. *)
Class KeyEncoding `{Crypto} := {
  ed25519_GenerateKey : res (string * string);
  MarshalPKCS8PrivateKey : string -> res string;
  MarshalPKIXPublicKey : string -> res string;
  pem_Block : string -> string -> string;
  generated_pair : forall public private, ed25519_GenerateKey = Ok (public, private) ->
    String.length public = PublicKeySize /\ private_Public private = Some public;
  PKCS8_roundtrip : forall private der ty, MarshalPKCS8PrivateKey private = Ok der ->
    ParsePKCS8PrivateKey (pem_Block ty der) = Ok (inl private);
  PKIX_roundtrip : forall public der ty, MarshalPKIXPublicKey public = Ok der ->
    ParsePKIXPublicKey (pem_Block ty der) = Ok (inl public);
  pem_roundtrip : forall block, pem_Decode (pem_Encode block) = Some (block, "")
    /\ pem_Decode (TrimSpace (pem_Encode block)) = Some (block, "");
  pem_no_backslash : forall block, contains_byte (byte 92) (pem_Encode block) = false
}.

(** ** keyset.go *)

Section Encoding.
Context `{KeyEncoding}.

Definition GenerateKey : res Key :=
  match ed25519_GenerateKey with
  | Err err => Err (Wrap "generating the Ed25519 key: " err)
  | Ok (public, private) => Ok {| KID := KeyID public; Public := public; Private := private |}
  end.

Definition EncodePrivateKeyPEM (key : Key) : res string :=
  match MarshalPKCS8PrivateKey (Private key) with
  | Err err => Err (Wrap "encoding the private key: " err)
  | Ok der => Ok (pem_Encode (pem_Block "PRIVATE KEY" der))
  end.

Definition EncodePublicKeyPEM (key : Key) : res string :=
  match MarshalPKIXPublicKey (Public key) with
  | Err err => Err (Wrap "encoding the public key: " err)
  | Ok der => Ok (pem_Encode (pem_Block "PUBLIC KEY" der))
  end.

(** ** jwks.go: the handler *)

Definition JWKSPath := "/.well-known/jwks.json".

Record jwks_response := mkJwksResponse {
  jr_headers : list (string * string);
  jr_keys : list JWK
}.

Definition JWKSHandler (s : KeySet) : jwks_response := {|
  jr_headers := [("Content-Type", "application/jwk-set+json");
                 ("Cache-Control", "public, max-age=300")];
  jr_keys := JWKS s |}.

(** ** cmd/keygen/main.go *)

Definition escape (pem : string) : string := ReplaceAll (TrimSpace pem) newline backslash_n.

Definition quote_mark : string := bytes [34%N].

(** What the command printed: standard output, or the error it ends with. *)
Definition keygen (raw : bool) : string + string :=
  match GenerateKey with
  | Err err => inr ("generating the key: " ++ Error err ++ newline)
  | Ok key =>
      match EncodePrivateKeyPEM key with
      | Err err => inr ("encoding the private key: " ++ Error err ++ newline)
      | Ok privatePEM =>
          match EncodePublicKeyPEM key with
          | Err err => inr ("encoding the public key: " ++ Error err ++ newline)
          | Ok publicPEM =>
              inl ("# kid: " ++ KID key ++ newline ++ newline ++
                if raw
                then "# JWT_PRIVATE_KEY_PEM  --  identity only, copy everything between the markers"
                     ++ newline ++ TrimSpace privatePEM ++ newline
                     ++ newline ++ "# JWT_PUBLIC_KEYS_PEM  --  every service" ++ newline
                     ++ TrimSpace publicPEM ++ newline
                else "# identity only:" ++ newline ++ "JWT_PRIVATE_KEY_PEM=" ++ quote_mark
                     ++ escape privatePEM ++ quote_mark ++ newline ++ newline
                     ++ "# every service:" ++ newline ++ "JWT_PUBLIC_KEYS_PEM=" ++ quote_mark
                     ++ escape publicPEM ++ quote_mark ++ newline ++ newline
                     ++ "# This form is for a .env file only. For Doppler or any other secrets manager"
                     ++ newline
                     ++ "# run it again with -pem: the escaped form does not parse there." ++ newline)
          end
      end
  end.
End Encoding.

(** ** What is printed can be loaded *)

(** The two forms in which a PEM text is printed. *)
Definition printed (raw : bool) (pem : string) : string := if raw then TrimSpace pem else escape pem.

Section Roundtrip.
Context `{KeyEncoding}.

Lemma normalize_printed raw block :
  normalizePEM (printed raw (pem_Encode block)) = TrimSpace (pem_Encode block).
Proof.
  pose proof (contains_byte_TrimSpace _ _ (pem_no_backslash block)) as Hb.
  unfold normalizePEM. destruct raw; cbn [printed].
  - by apply ReplaceAll_absent.
  - by apply newline_escape_roundtrip.
Qed.

Lemma encoded_nonempty block : TrimSpace (pem_Encode block) <> "".
Proof.
  intros Hs. destruct (pem_roundtrip block) as [_ Hd]. rewrite Hs in Hd.
  apply pem_Decode_shorter in Hd. cbn in Hd. lia.
Qed.

Lemma printed_nonempty raw block : String.eqb (printed raw (pem_Encode block)) "" = false.
Proof.
  apply String.eqb_neq. intros Hs. apply (encoded_nonempty block).
  by rewrite <- (normalize_printed raw), Hs.
Qed.

Lemma generated_key key : GenerateKey = Ok key ->
  KID key = KeyID (Public key) /\ String.length (Public key) = PublicKeySize
  /\ private_Public (Private key) = Some (Public key).
Proof.
  unfold GenerateKey. destruct ed25519_GenerateKey as [[public private]|] eqn:Hg; [|done].
  intros [= <-]. destruct (generated_pair _ _ Hg). done.
Qed.

Lemma parse_encoded_private key privatePEM raw :
  GenerateKey = Ok key -> EncodePrivateKeyPEM key = Ok privatePEM ->
  String.eqb (printed raw privatePEM) "" = false
  /\ ParsePrivateKeyPEM (normalizePEM (printed raw privatePEM)) = Ok key /\ CanSign key = true.
Proof.
  intros (Hk & Hl & Hp)%generated_key He. unfold EncodePrivateKeyPEM in He.
  destruct (MarshalPKCS8PrivateKey (Private key)) as [der|] eqn:Hm; [|done]. injection He as <-.
  pose proof (PKCS8_roundtrip _ _ "PRIVATE KEY" Hm) as Hpk. split; [apply printed_nonempty|]. split.
  - rewrite normalize_printed. unfold ParsePrivateKeyPEM.
    rewrite (proj2 (pem_roundtrip _)), Hpk, Hp, <- Hk. by destruct key.
  - apply CanSign_nonempty. by eapply private_nonempty.
Qed.

Lemma next_encoded_public key publicPEM raw :
  GenerateKey = Ok key -> EncodePublicKeyPEM key = Ok publicPEM ->
  String.eqb (printed raw publicPEM) "" = false
  /\ nextPublicKey (normalizePEM (printed raw publicPEM))
     = Ok (Some ({| KID := KID key; Public := Public key; Private := "" |}, "")).
Proof.
  intros (Hk & Hl & Hp)%generated_key He. unfold EncodePublicKeyPEM in He.
  destruct (MarshalPKIXPublicKey (Public key)) as [der|] eqn:Hm; [|done]. injection He as <-.
  pose proof (PKIX_roundtrip _ _ "PUBLIC KEY" Hm) as Hpk. split; [apply printed_nonempty|].
  rewrite normalize_printed. unfold nextPublicKey, ParsePublicKeyPEM.
  rewrite TrimSpace_idemp, (proj2 (String.eqb_neq _ _) (encoded_nonempty _)).
  by rewrite (proj2 (pem_roundtrip _)), (proj1 (pem_roundtrip _)), Hpk, Hk.
Qed.

Lemma Add_generated key priv s : GenerateKey = Ok key ->
  Add {| KID := KID key; Public := Public key; Private := priv |} s
  = (None, {| keys := <[KID key := {| KID := KID key; Public := Public key; Private := priv |}]> (keys s);
              activeKID := if String.eqb (activeKID s) ""
                              && CanSign {| KID := KID key; Public := Public key; Private := priv |}
                           then KID key else activeKID s |}).
Proof.
  intros (Hk & Hl & _)%generated_key. unfold Add. cbn [Public KID]. rewrite Hl. cbn [negb Nat.eqb].
  rewrite (proj2 (String.eqb_neq _ _)); [done|]. rewrite Hk. apply key_digest_nonempty.
Qed.

Lemma addPublicKeys_last s data key :
  nextPublicKey data = Ok (Some (key, "")) ->
  addPublicKeys s data =
    match Get (KID key) s with
    | Ok existing => if CanSign existing then Some (None, s) else Some (Add key s)
    | Err _ => Some (Add key s)
    end.
Proof.
  intros Hn. pose proof (nextPublicKey_spec _ _ _ Hn) as (_ & _ & Hlen). pose proof (TrimSpace_length data).
  unfold addPublicKeys. destruct (String.length data) as [|n]; [lia|]. cbn [addPublicKeys_loop].
  assert (Hend : nextPublicKey "" = Ok None) by reflexivity. rewrite Hn, Hend.
  destruct (Get (KID key) s) as [e|]; [destruct (CanSign e)|]; destruct (Add key s) as [[]]; done.
Qed.
End Roundtrip.

(** C26: the pair the key generator prints, in either of its two forms, is the pair a
    service loads.  Given both halves, identity has exactly the new key and signs with
    it; given the public half alone, a service has exactly that half, under the same
    kid, and cannot sign. *)
Theorem printed_pair_loads `{KeyEncoding} key privatePEM publicPEM raw cfg :
  GenerateKey = Ok key -> EncodePrivateKeyPEM key = Ok privatePEM ->
  EncodePublicKeyPEM key = Ok publicPEM -> PublicKeysPEM cfg = printed raw publicPEM ->
  (PrivateKeyPEM cfg = printed raw privatePEM ->
     LoadKeySet cfg = Some (Ok {| keys := {[KID key := key]}; activeKID := KID key |}))
  /\ (PrivateKeyPEM cfg = "" ->
     LoadKeySet cfg =
       Some (Ok {| keys := {[KID key := {| KID := KID key; Public := Public key; Private := "" |}]};
                   activeKID := "" |})).
Proof.
  intros Hg Hpr Hpu Hcfg.
  destruct (next_encoded_public key publicPEM raw Hg Hpu) as [Hne Hnext].
  unfold LoadKeySet, loadPrivate. split; intros Hpriv; rewrite Hpriv, Hcfg, Hne.
  - destruct (parse_encoded_private key privatePEM raw Hg Hpr) as (Hpne & Hparse & Hcs).
    rewrite Hpne, Hparse. pose proof (Add_generated key (Private key) NewKeySet Hg) as Ha.
    replace {| KID := KID key; Public := Public key; Private := Private key |} with key in Ha
      by (by destruct key).
    rewrite Ha, Hcs. cbn [NewKeySet activeKID keys String.eqb andb].
    rewrite (addPublicKeys_last _ _ _ Hnext). unfold Get. cbn [keys KID].
    rewrite insert_empty, lookup_singleton_eq, Hcs. unfold Keys. cbn [keys].
    by rewrite map_to_list_singleton.
  - cbn [String.eqb]. rewrite (addPublicKeys_last _ _ _ Hnext). unfold Get.
    cbn [keys NewKeySet KID]. rewrite lookup_empty, Add_generated by done.
    cbn [NewKeySet activeKID keys String.eqb andb CanSign Private String.length Nat.ltb Nat.leb].
    unfold Keys. cbn [keys]. by rewrite insert_empty, map_to_list_singleton.
Qed.

(** ** A world of keys *)

(** Blocks written bit by bit between dashes. *)
Definition bit (b : bool) : ascii := if b then "1"%char else "0"%char.
Definition is_one (c : ascii) : bool := Ascii.eqb c "1"%char.

Fixpoint to_bits (s : string) : string :=
  match s with
  | "" => "-"
  | String (Ascii b0 b1 b2 b3 b4 b5 b6 b7) s' =>
      String (bit b0) (String (bit b1) (String (bit b2) (String (bit b3)
        (String (bit b4) (String (bit b5) (String (bit b6) (String (bit b7) (to_bits s'))))))))
  end.

Fixpoint of_bits (s : string) : string :=
  match s with
  | String c0 (String c1 (String c2 (String c3 (String c4 (String c5 (String c6 (String c7 s'))))))) =>
      String (Ascii (is_one c0) (is_one c1) (is_one c2) (is_one c3)
                    (is_one c4) (is_one c5) (is_one c6) (is_one c7)) (of_bits s')
  | _ => ""
  end.

Definition bits_encode (block : string) : string := String "-" (to_bits block).
Definition bits_decode (data : string) : option (string * string) :=
  match data with String c s => if Ascii.eqb c "-"%char then Some (of_bits s, "") else None | "" => None end.

Lemma is_one_bit b : is_one (bit b) = b.
Proof. by destruct b. Qed.

Lemma of_to_bits s : of_bits (to_bits s) = s.
Proof.
  induction s as [|[b0 b1 b2 b3 b4 b5 b6 b7] s IH]; [done|]. cbn [to_bits of_bits].
  by rewrite !is_one_bit, IH.
Qed.

Lemma bits_encode_trim s : TrimSpace (bits_encode s) = bits_encode s.
Proof.
  assert (Hend : exists x, to_bits s = x ++ "-").
  { induction s as [|[b0 b1 b2 b3 b4 b5 b6 b7] s [x Hx]]; [by exists ""|]. cbn [to_bits]. rewrite Hx.
    by exists (String (bit b0) (String (bit b1) (String (bit b2) (String (bit b3)
        (String (bit b4) (String (bit b5) (String (bit b6) (String (bit b7) x)))))))). }
  destruct Hend as [x Hx]. unfold bits_encode.
  apply (TrimSpace_fix _ _ "-"%char (rev_string (String "-" x))); [|reflexivity|vm_compute; reflexivity].
  rewrite Hx. change (String "-" (x ++ "-")) with (String "-" x ++ "-"). by rewrite rev_string_app.
Qed.

Lemma bits_no_backslash s : contains_byte (byte 92) (bits_encode s) = false.
Proof.
  unfold bits_encode. induction s as [|[[] [] [] [] [] [] [] []] s IH]; exact IH || done.
Qed.

#[local] Instance bits_crypto : Crypto.
Proof.
  refine {| key_digest := fun _ => "kid1"; base64url := fun s => s;
            pem_Decode := bits_decode; pem_Encode := bits_encode;
            ParsePKCS8PrivateKey := fun b => if String.eqb b "" then Ok (inr "*rsa.PrivateKey") else Ok (inl b);
            ParsePKIXPublicKey := fun b => Ok (inl b);
            private_Public := fun _ => Some thirty_two |}.
  - abstract done.
  - abstract (intros block private; destruct (String.eqb_spec block ""); naive_solver).
  - abstract (intros [|c data] block rest; cbn; [done|];
      destruct (Ascii.eqb c "-"%char); intros; simplify_eq; cbn; lia).
Defined.

#[local] Instance bits_keys : KeyEncoding.
Proof.
  refine {| ed25519_GenerateKey := Ok (thirty_two, "secret");
            MarshalPKCS8PrivateKey := fun private => if String.eqb private ""
              then Err (Errorf "x509: unknown key type" []) else Ok private;
            MarshalPKIXPublicKey := fun public => Ok public;
            pem_Block := fun _ der => der |}.
  - abstract by intros public private [= <- <-].
  - abstract (intros private der ty; cbn; destruct (String.eqb_spec private ""); [done|];
      intros [= <-]; by rewrite (proj2 (String.eqb_neq _ _))).
  - abstract by intros public der ty [= <-].
  - abstract (intros block; cbn [pem_Decode pem_Encode bits_crypto]; rewrite bits_encode_trim;
      unfold bits_decode, bits_encode; cbn; by rewrite of_to_bits).
  - abstract (intros block; apply bits_no_backslash).
Defined.

Definition printed_config (private : bool) : Config :=
  {| Issuer_name := "dizen"; Audience := []; AccessTokenTTL := 0;
     PrivateKeyPEM := if private then printed false (bits_encode "secret") else "";
     PublicKeysPEM := printed false (bits_encode thirty_two); ClockSkew := 0 |}.

(** The escaped form, as a secrets manager hands it over. *)
Lemma printed_pair_loads_witness :
  LoadKeySet (printed_config true) = Some (Ok {| keys := {["kid1" := sample_key]}; activeKID := "kid1" |})
  /\ LoadKeySet (printed_config false)
     = Some (Ok {| keys := {["kid1" := {| KID := "kid1"; Public := thirty_two; Private := "" |}]};
                   activeKID := "" |}).
Proof.
  split.
  - apply (printed_pair_loads sample_key (bits_encode "secret") (bits_encode thirty_two) false
             (printed_config true)); reflexivity.
  - apply (printed_pair_loads sample_key (bits_encode "secret") (bits_encode thirty_two) false
             (printed_config false)); reflexivity.
Defined.
