(* ===== verification/Cache.v ===== *)
(** * pkg/cache: keys and the Redis cache

    The naming of keys (key.go) and the cache over a Redis client (redis.go,
    cache.go).  The client is a parameter: the class [RedisClient] has its
    commands and, as laws, their documented effect on the keyspace. *)

From stdpp Require Import base list gmap sets strings numbers pretty.
From Stdlib Require Import ZArith Lia Ascii String.
From S2P Require Import Prelude GoStrings GoErrors.

Local Open Scope string_scope.

(** ** key.go *)

Definition Separator := ":".

Record Namespace := mkNamespace { ns_service : string }.

Definition NewNamespace (service : string) : Namespace := {| ns_service := service |}.

Definition Service (n : Namespace) : string := ns_service n.

Definition NSKey (n : Namespace) (segments : list string) : string :=
  Join (ns_service n :: segments) Separator.

Definition Versioned (n : Namespace) (entity id : string) (version : Z) : string :=
  NSKey n [entity; id; "v" ++ Itoa version].

Definition Prefix (n : Namespace) (segments : list string) : string :=
  NSKey n segments ++ Separator.

(** ** redis.go *)

Definition ErrNotFound : goerror := Sentinel "cache.ErrNotFound" "cache: key not found".
Definition ErrEmptyPrefix : goerror :=
  Sentinel "cache.ErrEmptyPrefix" "cache: DeleteByPrefix requires a non-empty prefix".

Definition scanBatchSize : Z := 256.

Record Config := mkConfig {
  URL : string;
  CfgNamespace : string;
  DefaultTTL : Z;
  DialTimeout : Z;
  ReadTimeout : Z;
  PoolSize : Z
}.

Record RedisCache := mkRedisCache { namespace : Namespace; defaultTTL : Z }.

(** The bytes that mean something in a pattern of SCAN. *)
Definition glob_special (c : ascii) : bool :=
  existsb (Ascii.eqb c) ["*"%char; "?"%char; "["%char; "]"%char; byte 92].

Fixpoint plain (s : string) : bool :=
  match s with "" => true | String c s' => negb (glob_special c) && plain s' end.

(** A round of a scan: the data, the cursor asked for, what was returned. *)
Definition round (R : Type) : Type := R * Z * list string * Z.
Definition r_data {R} (x : round R) : R := x.1.1.1.
Definition r_cursor {R} (x : round R) : Z := x.1.1.2.
Definition r_keys {R} (x : round R) : list string := x.1.2.
Definition r_next {R} (x : round R) : Z := x.2.

(** Rounds that continue each other from [cursor]. *)
Fixpoint chained {R} (cursor : Z) (l : list (round R)) : Prop :=
  match l with
  | [] => True
  | x :: l' => r_cursor x = cursor /\ (l' <> [] -> r_next x <> 0%Z) /\ chained (r_next x) l'
  end.

(** A time to live as go-redis sends it: in whole milliseconds, at least one. *)
Definition wire_ttl (ttl : Z) : Z :=
  (if ttl <? Millisecond then Millisecond else ttl - ttl mod Millisecond)%Z.

(** The client.  A failed command may have taken effect or not, which no
    theorem relies on.  [SCAN_complete] and [SCAN_ends] are the guarantees of a full
    iteration: a matching key present in every round is returned in one; and an iteration
    terminates as long as the number of keys remains bounded, after a number of rounds
    that depends on the bound. *)
Class RedisClient (R : Type) := {
  lookup_key : R -> string -> option string;
  ttl_of : R -> string -> option Z;
  GET : R -> string -> res (option string);
  SET : R -> string -> string -> Z -> option goerror * R;
  DEL : R -> list string -> option goerror * R;
  SCAN : R -> Z -> string -> Z -> res (list string * Z);
  DBSIZE : R -> nat;
  glob : string -> string -> bool;
  GET_law : forall r k v, GET r k = Ok v -> v = lookup_key r k;
  SET_law : forall r k v ttl r', SET r k v ttl = (None, r') -> (0 < ttl)%Z ->
    lookup_key r' k = Some v /\ ttl_of r' k = Some (wire_ttl ttl)
    /\ forall k', k' <> k -> lookup_key r' k' = lookup_key r k';
  DEL_law : forall r ks r', DEL r ks = (None, r') ->
    (forall k, lookup_key r' k = if bool_decide (k ∈ ks) then None else lookup_key r k)
    /\ (DBSIZE r' <= DBSIZE r)%nat;
  SCAN_matches : forall r c p n ks next, SCAN r c p n = Ok (ks, next) ->
    Forall (fun k => glob p k = true) ks;
  SCAN_complete : forall p n (l : list (round R)) k,
    chained 0 l -> Forall (fun x => SCAN (r_data x) (r_cursor x) p n = Ok (r_keys x, r_next x)) l ->
    (exists l0 x, l = (l0 ++ [x])%list /\ r_next x = 0%Z) ->
    Forall (fun x => lookup_key (r_data x) k <> None) l -> glob p k = true ->
    Exists (fun x => k ∈ r_keys x) l;
  SCAN_ends : forall p n size, exists bound, forall l : list (round R),
    chained 0 l -> Forall (fun x => SCAN (r_data x) (r_cursor x) p n = Ok (r_keys x, r_next x)) l ->
    Forall (fun x => (DBSIZE (r_data x) <= size)%nat) l -> (List.length l <= bound)%nat;
  glob_plain : forall p k, plain p = true -> glob (p ++ "*") k = HasPrefix k p;
  glob_question : glob "h?llo*" "hello" = true
}.

(** JSON encoding of the values of a type. *)
Class JsonValue (V : Type) := { Marshal : V -> res string; Unmarshal : string -> res V }.

Definition NewRedisWithClient (cfg : Config) (serviceName : string) : RedisCache :=
  {| namespace := NewNamespace (if String.eqb (CfgNamespace cfg) "" then serviceName
                                else CfgNamespace cfg);
     defaultTTL := if (DefaultTTL cfg <=? 0)%Z then (5 * Minute)%Z else DefaultTTL cfg |}.

(** What [NewRedis] asks of the client: parsing the URL, the ping, and closing
    the client again when it does not answer. *)
Definition NewRedis (parse ping : option goerror) (cfg : Config) (serviceName : string)
    : res RedisCache * bool :=
  match parse with
  | Some err => (Err (Wrap "REDIS_URL could not be parsed: " err), false)
  | None =>
      match ping with
      | Some err => (Err (Wrap "connecting to Redis: " err), true)
      | None => (Ok (NewRedisWithClient cfg serviceName), false)
      end
  end.

Section Cache.
Context `{RedisClient R} `{JsonValue V}.

(** A miss is [redis.Nil]; the result also carries the data, because a value
    that cannot be decoded is deleted. *)
Definition Get (key : string) (r : R) : res V * R :=
  match GET r key with
  | Err err => (Err (Wrap ("reading the cache key " ++ Quote key ++ ": ") err), r)
  | Ok None => (Err ErrNotFound, r)
  | Ok (Some raw) =>
      match Unmarshal raw with
      | Err _ => (Err ErrNotFound, snd (DEL r [key]))
      | Ok v => (Ok v, r)
      end
  end.

Definition Set_ (c : RedisCache) (key : string) (value : V) (ttl : Z) (r : R) : option goerror * R :=
  match Marshal value with
  | Err err => (Some (Wrap ("serializing the value for the cache key " ++ Quote key ++ ": ") err), r)
  | Ok raw =>
      let ttl := if (ttl =? 0)%Z then defaultTTL c else ttl in
      match SET r key raw ttl with
      | (Some err, r) => (Some (Wrap ("writing the cache key " ++ Quote key ++ ": ") err), r)
      | (None, r) => (None, r)
      end
  end.

Definition Delete (keys : list string) (r : R) : option goerror * R :=
  match keys with
  | [] => (None, r)
  | _ => match DEL r keys with
         | (Some err, r) =>
             (Some (Wrap ("deleting " ++ Itoa (Z.of_nat (List.length keys)) ++ " cache keys: ") err), r)
         | (None, r) => (None, r)
         end
  end.

(** The [for] loop, for at most [fuel] rounds ([None]: more than that). *)
Fixpoint delete_loop (fuel : nat) (prefix : string) (cursor : Z) (r : R)
    : option (option goerror * R) :=
  match fuel with
  | O => None
  | S fuel' =>
      match SCAN r cursor (prefix ++ "*") scanBatchSize with
      | Err err => Some (Some (Wrap ("scanning the cache prefix " ++ Quote prefix ++ ": ") err), r)
      | Ok (keys, next) =>
          match Delete keys r with
          | (Some err, r) => Some (Some err, r)
          | (None, r) => if (next =? 0)%Z then Some (None, r) else delete_loop fuel' prefix next r
          end
      end
  end.

Definition DeleteByPrefix (fuel : nat) (prefix : string) (r : R) : option (option goerror * R) :=
  if String.eqb prefix "" then Some (Some ErrEmptyPrefix, r)
  else delete_loop fuel prefix 0 r.

Definition Ping (answered : option goerror) : option goerror :=
  match answered with Some err => Some (Wrap "pinging Redis: " err) | None => None end.

Definition Close (closed : option goerror) : option goerror :=
  match closed with Some err => Some (Wrap "closing the Redis connection: " err) | None => None end.

(** [CacheService], what the services depend on, and the Redis cache as one. *)
Record CacheService := mkCacheService {
  cs_Get : string -> R -> res V * R;
  cs_Set : string -> V -> Z -> R -> option goerror * R;
  cs_Delete : list string -> R -> option goerror * R;
  cs_DeleteByPrefix : nat -> string -> R -> option (option goerror * R);
  cs_Ping : option goerror -> option goerror;
  cs_Close : option goerror -> option goerror
}.

Definition redis_service (c : RedisCache) : CacheService :=
  {| cs_Get := Get; cs_Set := Set_ c; cs_Delete := Delete; cs_DeleteByPrefix := DeleteByPrefix;
     cs_Ping := Ping; cs_Close := Close |}.
End Cache.

Definition RedisCache_Namespace (c : RedisCache) : Namespace := namespace c.

(** ** Keys *)

Definition no_sep (s : string) : bool := negb (contains_byte ":"%char s).

Lemma append_sep_inj a b x y :
  no_sep a = true -> no_sep b = true -> a ++ String ":" x = b ++ String ":" y -> a = b /\ x = y.
Proof.
  unfold no_sep. revert b. induction a as [|c a IH]; intros [|d b] Ha Hb Heq; simpl in *.
  - by simplify_eq.
  - injection Heq as <- _. simpl in Hb. done.
  - injection Heq as -> _. simpl in Ha. done.
  - injection Heq as <- Heq. rewrite negb_orb in Ha, Hb. zbool.
    destruct (IH b) as [-> ->]; [by apply negb_true_iff..|done|done].
Qed.

Lemma no_sep_app a x : no_sep (a ++ String ":" x) = false.
Proof.
  unfold no_sep. apply negb_false_iff. induction a as [|c a IH]; simpl; [done|].
  by rewrite IH, orb_true_r.
Qed.

(** Joining segments without separators is injective. *)
Lemma Join_inj l1 : forall l2 a b,
  Forall (fun s => no_sep s = true) (a :: l1) -> Forall (fun s => no_sep s = true) (b :: l2) ->
  Join (a :: l1) Separator = Join (b :: l2) Separator -> a = b /\ l1 = l2.
Proof.
  induction l1 as [|x l1 IH]; intros [|y l2] a b Ha Hb Heq; unfold Join in *; simpl in Heq.
  - done.
  - apply Forall_cons_iff in Ha as [Ha _]. rewrite Heq in Ha. by rewrite no_sep_app in Ha.
  - apply Forall_cons_iff in Hb as [Hb _]. rewrite <- Heq in Hb. by rewrite no_sep_app in Hb.
  - apply Forall_cons_iff in Ha as [Ha Hal], Hb as [Hb Hbl].
    apply append_sep_inj in Heq as [-> Heq]; [|done..].
    destruct (IH l2 x y Hal Hbl Heq) as [-> ->]. done.
Qed.

(** ** Invalidation *)

Section Invalidation.
Context `{RedisClient R}.

Abbreviation scanned prefix :=
  (Forall (fun x : round R => SCAN (r_data x) (r_cursor x) (prefix ++ "*") scanBatchSize
                              = Ok (r_keys x, r_next x))).

Lemma Delete_law ks r r' : Delete ks r = (None, r') ->
  (forall k, lookup_key r' k = if bool_decide (k ∈ ks) then None else lookup_key r k)
  /\ (DBSIZE r' <= DBSIZE r)%nat.
Proof.
  unfold Delete. destruct ks as [|k0 ks].
  - intros [= <-]. split; [|done]. intros k. by rewrite bool_decide_false by apply not_elem_of_nil.
  - destruct (DEL r (k0 :: ks)) as [[err|] r1] eqn:Hd; [done|]. intros [= <-]. by apply DEL_law.
Qed.

(** Running out of fuel is an iteration as long, over data that did not grow. *)
Lemma delete_loop_None prefix fuel : forall cursor r,
  delete_loop fuel prefix cursor r = None ->
  exists l, List.length l = fuel /\ chained cursor l /\ scanned prefix l
    /\ Forall (fun x => (DBSIZE (r_data x) <= DBSIZE r)%nat) l.
Proof.
  induction fuel as [|fuel IH]; intros cursor r Hl; [by exists []|]. cbn [delete_loop] in Hl.
  destruct (SCAN r cursor _ _) as [[ks next]|] eqn:Hs; [|done].
  destruct (Delete ks r) as [[err|] r1] eqn:Hd; [done|]. apply Delete_law in Hd as [_ Hd].
  destruct (next =? 0)%Z eqn:Hn; [done|]. zbool. destruct (IH next r1 Hl) as (l & Hlen & Hc & Hf & Hb).
  exists ((r, cursor, ks, next) :: l). simpl. rewrite Hlen. split; [done|]. split; [done|].
  split; [by constructor|]. constructor; [done|]. eapply list.Forall_impl; [exact Hb|]. simpl. lia.
Qed.

(** More fuel changes nothing. *)
Lemma delete_loop_more prefix fuel fuel' : forall cursor r x, (fuel <= fuel')%nat ->
  delete_loop fuel prefix cursor r = Some x -> delete_loop fuel' prefix cursor r = Some x.
Proof.
  revert fuel'. induction fuel as [|fuel IH]; intros [|fuel'] cursor r x Hle Hl; [done|done|lia|].
  cbn [delete_loop] in *. destruct (SCAN r cursor _ _) as [[ks next]|]; [|done].
  destruct (Delete ks r) as [[err|] r1]; [done|]. destruct (next =? 0)%Z; [done|]. apply IH; [lia|done].
Qed.

(** What a completed loop did, as the rounds it went through. *)
Lemma delete_loop_Some prefix fuel : forall cursor r r',
  delete_loop fuel prefix cursor r = Some (None, r') ->
  exists l, chained cursor l /\ scanned prefix l
    /\ (exists l0 x, l = (l0 ++ [x])%list /\ r_next x = 0%Z)
    /\ (forall k, Exists (fun x => k ∈ r_keys x) l -> lookup_key r' k = None)
    /\ (forall k, ~ Exists (fun x => k ∈ r_keys x) l ->
          lookup_key r' k = lookup_key r k
          /\ Forall (fun x => lookup_key (r_data x) k = lookup_key r k) l).
Proof.
  induction fuel as [|fuel IH]; intros cursor r r' Hl; [done|]. cbn [delete_loop] in Hl.
  destruct (SCAN r cursor _ _) as [[ks next]|] eqn:Hs; [|done].
  destruct (Delete ks r) as [[err|] r1] eqn:Hd; [done|]. destruct (Delete_law _ _ _ Hd) as [Hdel _].
  destruct (next =? 0)%Z eqn:Hn; zbool.
  - injection Hl as <-. exists [(r, cursor, ks, next)]. split; [done|]. split; [by constructor|].
    split; [by exists [], (r, cursor, ks, next)|]. unfold r_keys, r_data. simpl. split; intros k Hk.
    + apply Exists_cons in Hk as [Hk|?%Exists_nil]; [|done]. simpl in Hk.
      by rewrite Hdel, bool_decide_true.
    + rewrite Exists_cons in Hk. rewrite Hdel, bool_decide_false by tauto.
      split; [done|]. by constructor.
  - destruct (IH next r1 r' Hl) as (l & Hc & Hf & (l0 & x & -> & Hx) & Hin & Hout).
    exists ((r, cursor, ks, next) :: (l0 ++ [x]))%list. split; [done|]. split; [by constructor|].
    split; [by exists ((r, cursor, ks, next) :: l0), x|]. split; intros k Hk; rewrite Exists_cons in Hk.
    + destruct (decide (Exists (fun x => k ∈ r_keys x) (l0 ++ [x]))) as [He|He]; [by apply Hin|].
      destruct Hk as [Hk|?]; [|done]. unfold r_keys in Hk. simpl in Hk.
      rewrite (proj1 (Hout k He)), Hdel. by rewrite bool_decide_true.
    + assert (lookup_key r1 k = lookup_key r k) as Heq
        by (rewrite Hdel; rewrite bool_decide_false; [done|]; tauto).
      destruct (Hout k ltac:(tauto)) as [-> Hall]. rewrite Heq in *. split; [done|]. by constructor.
Qed.

(** [DeleteByPrefix] ends, and a nil result means that what the pattern
    matches is gone and nothing else changed. *)
Lemma DeleteByPrefix_pattern prefix r : prefix <> "" ->
  exists rounds res r', (forall fuel, (rounds <= fuel)%nat -> DeleteByPrefix fuel prefix r = Some (res, r'))
    /\ (res = None -> forall k, lookup_key r' k
                                = if glob (prefix ++ "*") k then None else lookup_key r k).
Proof.
  intros Hne. unfold DeleteByPrefix. rewrite (proj2 (String.eqb_neq _ _) Hne).
  destruct (SCAN_ends (prefix ++ "*") scanBatchSize (DBSIZE r)) as [bound Hend].
  destruct (delete_loop (S bound) prefix 0 r) as [[res r']|] eqn:Hl.
  - exists (S bound), res, r'. split; [intros fuel Hf; by eapply delete_loop_more|]. intros -> k.
    destruct (delete_loop_Some _ _ _ _ _ Hl) as (l & Hc & Hf & Hlast & Hin & Hout).
    destruct (decide (Exists (fun x => k ∈ r_keys x) l)) as [He|He].
    + rewrite (Hin k He). apply Exists_exists in He as (x & Hx & Hk).
      rewrite Forall_forall in Hf. pose proof (SCAN_matches _ _ _ _ _ _ (Hf x Hx)) as Hm.
      rewrite list.Forall_forall in Hm. by rewrite (Hm k Hk).
    + destruct (Hout k He) as [-> Hall]. destruct (glob _ k) eqn:Hp; [|done].
      destruct (lookup_key r k) as [v|] eqn:Hk; [|done]. exfalso. apply He.
      apply (SCAN_complete _ _ l k Hc Hf Hlast); [|done].
      eapply list.Forall_impl; [exact Hall|]. intros x ->. done.
  - destruct (delete_loop_None _ _ _ _ Hl) as (l & Hlen & Hc & Hf & Hb).
    pose proof (Hend l Hc Hf Hb). lia.
Qed.
End Invalidation.

(** ** Names of entities *)

(** A segment that the convention can carry: no separator, nothing that means
    something in a pattern. *)
Definition segment (s : string) : bool := no_sep s && plain s.

Lemma segment_no_sep s : segment s = true -> no_sep s = true.
Proof. unfold segment. intros ?. by zbool. Qed.

Lemma plain_app a b : plain (a ++ b) = plain a && plain b.
Proof. induction a as [|c a IH]; simpl; [done|]. by rewrite IH, andb_assoc. Qed.

Lemma Versioned_eq n e i v :
  Versioned n e i v
  = ns_service n ++ String ":" (e ++ String ":" (i ++ String ":" (String "v" (Itoa v)))).
Proof. done. Qed.

Lemma Prefix_eq n e i :
  Prefix n [e; i] = ns_service n ++ String ":" (e ++ String ":" (i ++ String ":" "")).
Proof. unfold Prefix, NSKey, Join. simpl. rewrite !append_assoc. simpl. by rewrite !append_assoc. Qed.

Lemma Prefix_plain n e i :
  segment (ns_service n) = true -> segment e = true -> segment i = true ->
  plain (Prefix n [e; i]) = true.
Proof.
  unfold segment. intros ???. zbool. rewrite Prefix_eq, plain_app. cbn [plain].
  rewrite plain_app. cbn [plain]. rewrite plain_app. cbn [plain].
  repeat (apply andb_true_iff; split); done.
Qed.

Lemma Prefix_nonempty n l : Prefix n l <> "".
Proof. unfold Prefix. by destruct (NSKey n l). Qed.

(** The keys under an entity are the versions of that entity. *)
Lemma HasPrefix_Versioned n e i n' e' i' v :
  no_sep (ns_service n) = true -> no_sep e = true -> no_sep i = true ->
  no_sep (ns_service n') = true -> no_sep e' = true -> no_sep i' = true ->
  HasPrefix (Versioned n' e' i' v) (Prefix n [e; i])
  = bool_decide ((ns_service n', e', i') = (ns_service n, e, i)).
Proof.
  intros Hn He Hi Hn' He' Hi'. case_bool_decide as Heq.
  - simplify_eq. apply HasPrefix_spec. exists (String "v" (Itoa v)).
    rewrite Prefix_eq, Versioned_eq, H. rewrite append_assoc. cbn [String.append].
    rewrite append_assoc. cbn [String.append]. by rewrite append_assoc.
  - apply not_true_iff_false. intros [x Hx]%HasPrefix_spec. apply Heq.
    rewrite Versioned_eq, Prefix_eq, append_assoc in Hx. cbn [String.append] in Hx.
    rewrite append_assoc in Hx. cbn [String.append] in Hx. rewrite append_assoc in Hx.
    cbn [String.append] in Hx.
    apply append_sep_inj in Hx as [-> Hx]; [|done..].
    apply append_sep_inj in Hx as [-> Hx]; [|done..].
    by apply append_sep_inj in Hx as [-> _]; [|done..].
Qed.

(** no two cached entities share a key.  For names without the separator, the
    versioned key determines the service, the entity, the identifier and the
    version, so two services on one Redis never collide and a new version is
    never answered with the value of an old one. *)
Theorem Versioned_injective n e i v n' e' i' v' :
  Forall (fun s => no_sep s = true) [ns_service n; e; i; ns_service n'; e'; i'] ->
  Versioned n e i v = Versioned n' e' i' v' ->
  ns_service n = ns_service n' /\ e = e' /\ i = i' /\ v = v'.
Proof.
  rewrite !Forall_cons_iff. intros (Hn & He & Hi & Hn' & He' & Hi' & _). rewrite !Versioned_eq.
  intros Hx. apply append_sep_inj in Hx as [-> Hx]; [|done..].
  apply append_sep_inj in Hx as [-> Hx]; [|done..].
  apply append_sep_inj in Hx as [-> Hx]; [|done..].
  injection Hx as Hx. apply (inj pretty) in Hx. done.
Qed.

Lemma Versioned_injective_witness :
  Versioned (NewNamespace "tours") "tour" "42" 1 = Versioned (NewNamespace "tours") "tour" "42" 1
  /\ (1 = 1)%Z.
Proof.
  split; [reflexivity|].
  exact (proj2 (proj2 (proj2 (Versioned_injective (NewNamespace "tours") "tour" "42" 1
    (NewNamespace "tours") "tour" "42" 1 ltac:(repeat constructor) eq_refl)))).
Defined.

(** C16: invalidating an entity removes all its versions and nothing else.  For a
    service, entity and identifier without separators and pattern characters, and with
    nobody else writing meanwhile, [DeleteByPrefix (Prefix n [e; i])] ends, after as many
    rounds as the scan takes; and when it returns nil, every version of that entity is
    gone, and every versioned key of another service, entity or identifier is as it was. *)
Theorem invalidate_entity `{RedisClient R} n e i (r : R) :
  Forall (fun s => segment s = true) [ns_service n; e; i] ->
  exists rounds res r',
    (forall fuel, (rounds <= fuel)%nat -> DeleteByPrefix fuel (Prefix n [e; i]) r = Some (res, r'))
    /\ (res = None -> forall n' e' i' v,
          Forall (fun s => no_sep s = true) [ns_service n'; e'; i'] ->
          lookup_key r' (Versioned n' e' i' v)
          = if bool_decide ((ns_service n', e', i') = (ns_service n, e, i))
            then None else lookup_key r (Versioned n' e' i' v)).
Proof.
  rewrite !Forall_cons_iff. intros (Hn & He & Hi & _).
  destruct (DeleteByPrefix_pattern (Prefix n [e; i]) r (Prefix_nonempty _ _)) as (rounds & res & r' & Hd & Hres).
  exists rounds, res, r'. split; [done|]. intros Hnil n' e' i' v. rewrite !Forall_cons_iff.
  intros (Hn' & He' & Hi' & _). rewrite (Hres Hnil), glob_plain by by apply Prefix_plain.
  by rewrite HasPrefix_Versioned by auto using segment_no_sep.
Qed.

(** The prefix is used as a pattern.  A prefix that contains pattern
    characters deletes keys that do not start with it: invalidating the prefix
    with a question mark removes the key that has a letter in its place. *)
Theorem prefix_is_a_pattern `{RedisClient R} (r : R) :
  HasPrefix "hello" "h?llo" = false
  /\ exists rounds res r',
       (forall fuel, (rounds <= fuel)%nat -> DeleteByPrefix fuel "h?llo" r = Some (res, r'))
       /\ (res = None -> lookup_key r' "hello" = None).
Proof.
  split; [reflexivity|].
  destruct (DeleteByPrefix_pattern "h?llo" r ltac:(done)) as (rounds & res & r' & Hd & Hres).
  exists rounds, res, r'. split; [exact Hd|]. intros Hnil. rewrite (Hres Hnil).
  cbn [String.append]. by rewrite glob_question.
Qed.

Lemma wire_ttl_positive ttl : (0 < ttl -> 0 < wire_ttl ttl)%Z.
Proof.
  intros Ht. unfold wire_ttl. pose proof (Z.mod_pos_bound ttl Millisecond ltac:(done)).
  destruct (Z.ltb_spec ttl Millisecond); [done|].
  pose proof (Z.div_mod ttl Millisecond ltac:(done)). pose proof (Z.div_pos ttl Millisecond).
  assert (1 <= ttl / Millisecond)%Z by (apply Z.div_le_lower_bound; unfold Millisecond in *; lia).
  unfold Millisecond in *. lia.
Qed.

Lemma wire_ttl_exact ttl : (0 < ttl -> ttl mod Millisecond = 0 -> wire_ttl ttl = ttl)%Z.
Proof.
  intros Ht Hm. unfold wire_ttl. destruct (Z.ltb_spec ttl Millisecond); [|lia].
  rewrite Z.mod_small in Hm; lia.
Qed.


(** ** A client in memory *)

(** The pattern language, without character classes and escapes. *)
Fixpoint glob_match (p : string) : string -> bool :=
  match p with
  | "" => fun k => String.eqb k ""
  | String c p' =>
      if Ascii.eqb c "*"%char
      then (fix star (k : string) : bool :=
              glob_match p' k || match k with "" => false | String _ k' => star k' end)
      else fun k => match k with
                    | "" => false
                    | String d k' => (Ascii.eqb c "?"%char || Ascii.eqb c d) && glob_match p' k'
                    end
  end.

Lemma glob_match_star k : glob_match "*" k = true.
Proof. induction k as [|c k IH]; [done|]. cbn in *. by rewrite IH, ?orb_true_r. Qed.

Lemma glob_match_plain p : forall k, plain p = true -> glob_match (p ++ "*") k = HasPrefix k p.
Proof.
  induction p as [|c p IH]; intros k Hp; [apply glob_match_star|].
  cbn [plain] in Hp. apply andb_true_iff in Hp as [Hc Hp]. unfold glob_special in Hc.
  cbn [existsb] in Hc. zbool. cbn [String.append glob_match]. rewrite H.
  unfold HasPrefix. destruct k as [|d k]; [done|]. cbn [CutPrefix].
  rewrite H0. cbn [orb]. destruct (Ascii.eqb c d); [|done]. cbn [andb]. by apply IH.
Qed.

Abbreviation memory := (gmap string (string * Z)).

Definition memory_SCAN (r : memory) (p : string) : list string :=
  filter (fun k => glob_match p k = true) (map_to_list r).*1.

Lemma memory_DEL_lookup (r : memory) ks k :
  fst <$> foldr delete r ks !! k = if bool_decide (k ∈ ks) then None else fst <$> r !! k.
Proof.
  induction ks as [|k0 ks IH]; cbn [foldr]; [by case_bool_decide as Hn; [inversion Hn|]|].
  destruct (decide (k = k0)) as [->|Hne].
  - by rewrite lookup_delete_eq, bool_decide_true by left.
  - rewrite lookup_delete_ne by done. rewrite IH.
    erewrite bool_decide_ext; [reflexivity|]. rewrite elem_of_cons. naive_solver.
Qed.

Lemma memory_DEL_size (r : memory) ks : (size (foldr delete r ks) <= size r)%nat.
Proof.
  induction ks as [|k ks IH]; cbn [foldr]; [done|]. etrans; [|exact IH].
  apply map_subseteq_size, delete_subseteq.
Qed.

#[refine] Instance memory_client : RedisClient memory := {
  lookup_key r k := fst <$> r !! k;
  ttl_of r k := snd <$> r !! k;
  GET r k := Ok (fst <$> r !! k);
  SET r k v ttl := (None, <[k := (v, wire_ttl ttl)]> r);
  DEL r ks := (None, foldr delete r ks);
  SCAN r _ p _ := Ok (memory_SCAN r p, 0%Z);
  DBSIZE r := size r;
  glob := glob_match
}.
Proof.
  - by intros r k v [= <-].
  - intros r k v ttl r' [= <-] _. rewrite lookup_insert_eq. split_and!; [done..|].
    intros k' Hk. by rewrite lookup_insert_ne by done.
  - intros r ks r' [= <-]. split; [exact (memory_DEL_lookup r ks)|exact (memory_DEL_size r ks)].
  - intros r c p n ks next [= <- <-]. apply list.Forall_forall. intros k Hk.
    by apply list_elem_of_filter in Hk as [Hk _].
  - intros p n l k Hc Hs (l0 & x & -> & Hx) Hpres Hg. apply Exists_app. right. left.
    apply Forall_app in Hs as [_ Hs]. apply Forall_app in Hpres as [_ Hpres].
    apply Forall_cons_iff in Hs as [[= Hks Hnx] _], Hpres as [Hpres _]. rewrite <- Hks.
    apply list_elem_of_filter. split; [done|]. apply list_elem_of_fmap.
    destruct (r_data x !! k) as [v|] eqn:Hl; [|done].
    exists (k, v). split; [done|]. by apply elem_of_map_to_list.
  - intros p n sz. exists 1. intros [|x [|y l]] Hc Hs _; [simpl; lia..|]. destruct Hc as (_ & Hne & _).
    apply Forall_cons_iff in Hs as [[= _ Hnx] _]. destruct (Hne ltac:(done)). done.
  - exact glob_match_plain.
  - reflexivity.
Defined.

Definition sample_store : memory :=
  <[Versioned (NewNamespace "tours") "tour" "42" 1 := ("a", 300%Z)]>
  (<[Versioned (NewNamespace "tours") "tour" "42" 2 := ("b", 300%Z)]>
  (<[Versioned (NewNamespace "tours") "tour" "421" 1 := ("c", 300%Z)]>
  (<["hello" := ("d", 300%Z)]> ∅))).

(** The deletion really runs: two versions are removed, the neighbour whose
    identifier extends the invalidated one stays. *)
Lemma invalidate_entity_witness :
  (fun x : option goerror * memory =>
     (x.1, lookup_key x.2 (Versioned (NewNamespace "tours") "tour" "42" 1),
      lookup_key x.2 (Versioned (NewNamespace "tours") "tour" "421" 1)))
    <$> DeleteByPrefix 1 (Prefix (NewNamespace "tours") ["tour"; "42"]) sample_store
  = Some (None, None, Some "c")
  /\ exists rounds res r', (forall fuel, (rounds <= fuel)%nat ->
       DeleteByPrefix fuel (Prefix (NewNamespace "tours") ["tour"; "42"]) sample_store = Some (res, r'))
    /\ (res = None -> forall n' e' i' v,
          Forall (fun s => no_sep s = true) [ns_service n'; e'; i'] ->
          lookup_key r' (Versioned n' e' i' v)
          = if bool_decide ((ns_service n', e', i') = (ns_service (NewNamespace "tours"), "tour", "42"))
            then None else lookup_key sample_store (Versioned n' e' i' v)).
Proof.
  split; [vm_compute; reflexivity|].
  exact (invalidate_entity (NewNamespace "tours") "tour" "42" sample_store ltac:(repeat constructor)).
Defined.

Lemma prefix_is_a_pattern_witness :
  lookup_key sample_store "hello" = Some "d"
  /\ fst <$> DeleteByPrefix 1 "h?llo" sample_store = Some None
  /\ exists rounds res r', (forall fuel, (rounds <= fuel)%nat -> DeleteByPrefix fuel "h?llo" sample_store = Some (res, r'))
       /\ (res = None -> lookup_key r' "hello" = None).
Proof.
  split; [vm_compute; reflexivity|]. split; [vm_compute; reflexivity|].
  exact (proj2 (prefix_is_a_pattern sample_store)).
Defined.

Instance bool_json : JsonValue bool := {
  Marshal b := Ok (if b then "true" else "false");
  Unmarshal s := if String.eqb s "true" then Ok true
                 else if String.eqb s "false" then Ok false
                 else Err (Errorf "invalid character" [])
}.

