(* ===== verification/Tx.v ===== *)
(** * pkg/database: transactions

    [WithTx] of tx.go: begin, run the function on the transaction, commit on
    success, roll back on error or panic.  The transaction works on a private
    copy of the data that the commit makes visible; the driver's answers to
    begin, commit and rollback are parameters, including a commit that took
    effect although its answer was lost. *)

From stdpp Require Import base list sets strings.
From Stdlib Require Import String.
From S2P Require Import Prelude GoStrings GoErrors.

Local Open Scope string_scope.

Definition ErrTxClosed : goerror := Sentinel "pgx.ErrTxClosed" "tx is closed".

(** What the driver did with a commit: applied it, refused it, or applied it
    and reported an error because the answer did not arrive. *)
Inductive commit_answer :=
| Committed
| CommitRejected (e : goerror)
| CommitLost (e : goerror).

Record Driver := mkDriver {
  begin_answer : option goerror;
  commit_answered : commit_answer;
  rollback_answer : option goerror
}.

(** The calls made on the driver and on [fn], in order. *)
Inductive txcall := TxBegin | TxFn | TxCommit | TxRollback.

Section WithTx.
Context {S : Type}.

(** The function run in the transaction: it may change the private copy, and
    return an error or panic. *)
Abbreviation txfn := (S -> outcome (option goerror) * S).

(** The error the deferred function leaves in the named result. *)
Definition rollback_error (err : goerror) (rollbackErr : option goerror) : goerror :=
  match rollbackErr with
  | Some e => if Is e ErrTxClosed then err
              else Errorf "" [(err, " (rollback also failed: "); (e, ")")]
  | None => err
  end.

Definition WithTx (drv : Driver) (fn : txfn) (s : S)
    : outcome (option goerror) * list txcall * S :=
  match begin_answer drv with
  | Some err => (Returns (Some (Wrap "beginning the transaction: " err)), [TxBegin], s)
  | None =>
      match fn s with
      | (Panics v, _) => (Panics v, [TxBegin; TxFn; TxRollback], s)
      | (Returns (Some err), _) =>
          (Returns (Some (rollback_error err (rollback_answer drv))),
           [TxBegin; TxFn; TxRollback], s)
      | (Returns None, s') =>
          match commit_answered drv with
          | Committed => (Returns None, [TxBegin; TxFn; TxCommit], s')
          | CommitRejected err =>
              (Returns (Some (rollback_error (Wrap "committing the transaction: " err)
                                (rollback_answer drv))),
               [TxBegin; TxFn; TxCommit; TxRollback], s)
          | CommitLost err =>
              (Returns (Some (rollback_error (Wrap "committing the transaction: " err)
                                (rollback_answer drv))),
               [TxBegin; TxFn; TxCommit; TxRollback], s')
          end
      end
  end.

(** [DB.WithTx]: on the pool of the [DB]. *)
Definition DB_WithTx : Driver -> txfn -> S -> outcome (option goerror) * list txcall * S := WithTx.

(** ** Lemmas *)

(** The original error stays visible to [errors.Is] whatever the rollback says. *)
Lemma Is_rollback_error err r n t :
  Is err (Sentinel n t) = true -> Is (rollback_error err r) (Sentinel n t) = true.
Proof.
  unfold rollback_error. intros H. destruct r as [e|]; [|done].
  destruct (Is e ErrTxClosed); [done|]. unfold Is in *. simpl.
  rewrite existsb_app, H. done.
Qed.

(** ** Theorems *)

(** C11: a transaction is all or nothing.  What [WithTx] leaves is either the
    data as it was or exactly what [fn] made of it; a nil result means the whole
    of [fn] is visible; an error returned by [fn], an error of begin, a refused
    commit and a panic all leave the data as it was; and a function that fails
    with an error never gets committed. *)
Theorem WithTx_atomic drv (fn : txfn) s :
  let '(r, l, s') := WithTx drv fn s in
  (s' = s \/ s' = snd (fn s))
  /\ (r = Returns None -> fst (fn s) = Returns None /\ s' = snd (fn s))
  /\ (fst (fn s) <> Returns None -> s' = s /\ (TxCommit ∉ l) /\ r <> Returns None)
  /\ (s' <> s -> (fst (fn s) = Returns None) /\ (begin_answer drv = None)
                /\ (forall e, commit_answered drv <> CommitRejected e)).
Proof.
  unfold WithTx. destruct (begin_answer drv) as [e|]; simpl.
  { repeat split; try done; try set_solver; by left. }
  destruct (fn s) as [[[err|]|v] s1]; simpl.
  1,3: repeat split; try done; try set_solver; by left.
  destruct (commit_answered drv) as [|e|e]; simpl;
    repeat split; try done; try (by left); try (by right).
Qed.

(** a transaction that was begun is always ended, on every path: the last
    call is the commit when it succeeded and the rollback otherwise, the
    function's panic keeps unwinding with its own value after the rollback, and
    the error of [fn] is still the one [errors.Is] finds in the result. *)
Theorem WithTx_ends_transaction drv (fn : txfn) s :
  let '(r, l, _) := WithTx drv fn s in
  (begin_answer drv = None ->
     last l = Some (match r with Returns None => TxCommit | _ => TxRollback end))
  /\ (begin_answer drv = None -> forall v, fst (fn s) = Panics v -> r = Panics v)
  /\ (begin_answer drv = None -> forall err n t, fst (fn s) = Returns (Some err) ->
        Is err (Sentinel n t) = true ->
        exists err', r = Returns (Some err') /\ Is err' (Sentinel n t) = true)
  /\ (forall e, begin_answer drv = Some e -> l = [TxBegin]).
Proof.
  unfold WithTx. destruct (begin_answer drv) as [e|]; simpl.
  { repeat split; done. }
  destruct (fn s) as [[[err|]|v] s1]; simpl;
    [|destruct (commit_answered drv) as [|e|e]; simpl|];
    repeat split; intros; simplify_eq; eauto using Is_rollback_error.
Qed.
End WithTx.
