(* ===== verification/OutboxStore.v ===== *)
(** * The outbox table, its queries and the repository over them

    The table created by the base migration and the six statements of
    outbox.sql, as functions on the table; the sqlc wrappers; the repository
    (internal/repository/outbox.go); and the adapter to the contracts of
    pkg/outbox (outbox_store.go).  The five services carry identical copies of
    these files; the identity service's are the ones followed here.

    PostgreSQL is modelled only as far as the statements go: a row is found by
    its key, a statement takes effect as a whole or not at all, and any
    statement may be answered by an error, either before or after it took
    effect. *)

From stdpp Require Import base list gmap sets strings numbers sorting.
From Stdlib Require Import ZArith Lia String.
From S2P Require Import Prelude GoStrings GoErrors.

Local Open Scope string_scope.

(** ** Rows and the table *)

(** [sqlc.Outbox]; a nullable column is an option.  Times are nanoseconds. *)
Record Outbox := mkOutbox {
  ID : Z;
  Aggregate : string;
  AggregateID : option string;
  RoutingKey : string;
  Payload : string;
  PublishedAt : option Z;
  Attempts : Z;
  LastError : option string;
  AvailableAt : Z;
  CreatedAt : Z
}.

#[export] Instance Outbox_eq_dec : EqDecision Outbox.
Proof. solve_decision. Defined.

(** The table, and the next value of its identity column. *)
Record db := mkDb { table : gmap Z Outbox; next_id : Z }.

Definition with_table (t : gmap Z Outbox) (d : db) : db := {| table := t; next_id := next_id d |}.

(** What the server does with values on their way in: [jsonb] is the stored
    form of a JSON document ([None]: not valid JSON), and [timestamptz] the
    stored form of a time, which has microsecond resolution. *)
Class Postgres := {
  jsonb : string -> option string;
  timestamptz : Z -> Z;
  timestamptz_near : forall t, (t - 1000 < timestamptz t < t + 1000)%Z;
  invalid_json : goerror;
  out_of_range : goerror;
  negative_limit : goerror
}.

(** The circumstances of one statement: whether it reaches the server and its
    answer comes back, the transaction's [now()], and the rows that other
    transactions hold locked. *)
Inductive fault :=
| NoFault
| Rejected (e : goerror)
| Lost (e : goerror).

Record exec := mkExec { x_fault : fault; x_now : Z; x_locked : Z -> bool }.

(** Run a statement: [q] gives the answer and the new data, or an error. *)
Definition statement {A} (x : exec) (q : db -> res (A * db)) (d : db) : res A * db :=
  match x_fault x with
  | Rejected e => (Err e, d)
  | NoFault => match q d with Ok (a, d') => (Ok a, d') | Err e => (Err e, d) end
  | Lost e => match q d with Ok (_, d') => (Err e, d') | Err e' => (Err e', d) end
  end.

(** ** outbox.sql and its sqlc wrappers *)

Record InsertOutboxEventParams := mkInsertParams {
  ins_aggregate : string;
  ins_aggregate_id : option string;
  ins_routing_key : string;
  ins_payload : string
}.

(** insert into outbox (...) values (...) returning star: the identity column
    and the defaults of the migration fill the rest. *)
Definition InsertOutboxEvent `{Postgres} (x : exec) (arg : InsertOutboxEventParams)
    : db -> res Outbox * db :=
  statement x (fun d =>
    match jsonb (ins_payload arg) with
    | None => Err invalid_json
    | Some payload =>
        let row := {| ID := next_id d; Aggregate := ins_aggregate arg;
                      AggregateID := ins_aggregate_id arg; RoutingKey := ins_routing_key arg;
                      Payload := payload; PublishedAt := None; Attempts := 0;
                      LastError := None; AvailableAt := timestamptz (x_now x);
                      CreatedAt := timestamptz (x_now x) |} in
        Ok (row, {| table := <[next_id d := row]> (table d); next_id := next_id d + 1 |})
    end).

(** The rows of the table in the order of their key. *)
Definition rows_by_id (d : db) : list Outbox :=
  omap (fun id => table d !! id) (merge_sort Z.le (elements (dom (table d)))).

(** where published_at is null and available_at <= now() *)
Definition due (now : Z) (row : Outbox) : bool :=
  match PublishedAt row with None => (AvailableAt row <=? now)%Z | Some _ => false end.

(** order by id limit $1 for update skip locked *)
Definition ClaimPendingOutboxEvents `{Postgres} (x : exec) (limit : Z) : db -> res (list Outbox) * db :=
  statement x (fun d =>
    if (limit <? 0)%Z then Err negative_limit
    else Ok (take (Z.to_nat limit)
               (filter (fun row => due (timestamptz (x_now x)) row && negb (x_locked x (ID row)))
                  (rows_by_id d)), d)).

(** update outbox set published_at = now() where id = $1 *)
Definition MarkOutboxEventPublished `{Postgres} (x : exec) (id : Z) : db -> res unit * db :=
  statement x (fun d =>
    Ok (tt, with_table (alter (fun row =>
      {| ID := ID row; Aggregate := Aggregate row; AggregateID := AggregateID row;
         RoutingKey := RoutingKey row; Payload := Payload row;
         PublishedAt := Some (timestamptz (x_now x)); Attempts := Attempts row;
         LastError := LastError row; AvailableAt := AvailableAt row;
         CreatedAt := CreatedAt row |}) id (table d)) d)).

Record RescheduleOutboxEventParams := mkRescheduleParams {
  rs_id : Z;
  rs_last_error : option string;
  rs_available_at : Z
}.

Definition rescheduled `{Postgres} (arg : RescheduleOutboxEventParams) (row : Outbox) : Outbox :=
  {| ID := ID row; Aggregate := Aggregate row; AggregateID := AggregateID row;
     RoutingKey := RoutingKey row; Payload := Payload row; PublishedAt := PublishedAt row;
     Attempts := Attempts row + 1; LastError := rs_last_error arg;
     AvailableAt := timestamptz (rs_available_at arg); CreatedAt := CreatedAt row |}.

(** update outbox set attempts = attempts + 1, last_error = $2,
    available_at = $3 where id = $1; the sum is checked against the range of
    the integer column. *)
Definition RescheduleOutboxEvent `{Postgres} (x : exec) (arg : RescheduleOutboxEventParams)
    : db -> res unit * db :=
  statement x (fun d =>
    match table d !! rs_id arg with
    | None => Ok (tt, d)
    | Some row =>
        if (MaxInt32 <=? Attempts row)%Z then Err out_of_range
        else Ok (tt, with_table (<[rs_id arg := rescheduled arg row]> (table d)) d)
    end).

Definition pending (row : Outbox) : bool :=
  match PublishedAt row with None => true | Some _ => false end.

(** select count(star) from outbox where published_at is null *)
Definition CountPendingOutboxEvents (x : exec) : db -> res Z * db :=
  statement x (fun d => Ok (Z.of_nat (List.length (filter (fun r => pending r) (rows_by_id d))), d)).

Definition published_before `{Postgres} (before : Z) (row : Outbox) : bool :=
  match PublishedAt row with None => false | Some at_ => (at_ <? timestamptz before)%Z end.

(** delete from outbox where published_at is not null and published_at < $1 *)
Definition DeletePublishedOutboxEventsBefore `{Postgres} (x : exec) (before : Z)
    : db -> res Z * db :=
  statement x (fun d =>
    Ok (Z.of_nat (List.length (filter (fun r => published_before before r) (rows_by_id d))),
        with_table (filter (fun kv => published_before before kv.2 = false) (table d)) d)).

(** ** repository/outbox.go *)

Record OutboxEvent := mkOutboxEvent {
  oe_ID : Z;
  oe_Aggregate : string;
  oe_AggregateID : string;
  oe_RoutingKey : string;
  oe_Payload : string;
  oe_Attempts : Z;
  oe_LastError : string;
  oe_AvailableAt : Z;
  oe_CreatedAt : Z;
  oe_PublishedAt : option Z
}.

Definition Published (e : OutboxEvent) : bool :=
  match oe_PublishedAt e with Some _ => true | None => false end.

Record NewOutboxEvent := mkNewOutboxEvent {
  ne_Aggregate : string;
  ne_AggregateID : string;
  ne_RoutingKey : string;
  ne_Payload : string
}.

Definition nullable (s : string) : option string := if String.eqb s "" then None else Some s.
Definition deref (s : option string) : string := default "" s.

Definition toDomain (row : Outbox) : OutboxEvent :=
  {| oe_ID := ID row; oe_Aggregate := Aggregate row; oe_AggregateID := deref (AggregateID row);
     oe_RoutingKey := RoutingKey row; oe_Payload := Payload row; oe_Attempts := Attempts row;
     oe_LastError := deref (LastError row); oe_AvailableAt := AvailableAt row;
     oe_CreatedAt := CreatedAt row; oe_PublishedAt := PublishedAt row |}.

Definition outboxRepository_Insert `{Postgres} (x : exec) (event : NewOutboxEvent) (d : db)
    : res OutboxEvent * db :=
  match InsertOutboxEvent x {| ins_aggregate := ne_Aggregate event;
                               ins_aggregate_id := nullable (ne_AggregateID event);
                               ins_routing_key := ne_RoutingKey event;
                               ins_payload := ne_Payload event |} d with
  | (Err err, d) =>
      (Err (Wrap ("inserting the outbox event " ++ Quote (ne_RoutingKey event) ++ ": ") err), d)
  | (Ok row, d) => (Ok (toDomain row), d)
  end.

Definition outboxRepository_ClaimPending `{Postgres} (x : exec) (limit : Z) (d : db)
    : res (list OutboxEvent) * db :=
  match ClaimPendingOutboxEvents x limit d with
  | (Err err, d) => (Err (Wrap "claiming pending outbox events: " err), d)
  | (Ok rows, d) => (Ok (map toDomain rows), d)
  end.

(** An error result of a statement that returns nothing. *)
Definition wrapped {A} (text : string) (r : res A * db) : option goerror * db :=
  match r with
  | (Err err, d) => (Some (Wrap text err), d)
  | (Ok _, d) => (None, d)
  end.

Definition outboxRepository_MarkPublished `{Postgres} (x : exec) (id : Z) (d : db)
    : option goerror * db :=
  wrapped ("marking outbox event " ++ Itoa id ++ " as published: ")
    (MarkOutboxEventPublished x id d).

Definition outboxRepository_Reschedule `{Postgres} (x : exec) (id : Z) (reason : string)
    (retryAt : Z) (d : db) : option goerror * db :=
  wrapped ("rescheduling outbox event " ++ Itoa id ++ ": ")
    (RescheduleOutboxEvent x {| rs_id := id; rs_last_error := nullable reason;
                                rs_available_at := retryAt |} d).

Definition outboxRepository_CountPending (x : exec) (d : db) : res Z * db :=
  match CountPendingOutboxEvents x d with
  | (Err err, d) => (Err (Wrap "counting pending outbox events: " err), d)
  | r => r
  end.

Definition outboxRepository_DeletePublishedBefore `{Postgres} (x : exec) (before : Z) (d : db)
    : res Z * db :=
  match DeletePublishedOutboxEventsBefore x before d with
  | (Err err, d) => (Err (Wrap "pruning published outbox events: " err), d)
  | r => r
  end.

(** ** pkg/outbox data and repository/outbox_store.go *)

(** [outbox.Event], as the store hands it out, and [outbox.NewEvent]. *)
Record Event := mkEvent {
  ev_ID : Z;
  ev_Aggregate : string;
  ev_AggregateID : string;
  ev_RoutingKey : string;
  ev_Payload : string;
  ev_Attempts : Z;
  ev_LastError : string;
  ev_AvailableAt : Z;
  ev_CreatedAt : Z
}.

Record NewEvent := mkNewEvent {
  nv_Aggregate : string;
  nv_AggregateID : string;
  nv_RoutingKey : string;
  nv_Payload : string
}.

Definition toOutboxEvent (event : OutboxEvent) : Event :=
  {| ev_ID := oe_ID event; ev_Aggregate := oe_Aggregate event;
     ev_AggregateID := oe_AggregateID event; ev_RoutingKey := oe_RoutingKey event;
     ev_Payload := oe_Payload event; ev_Attempts := oe_Attempts event;
     ev_LastError := oe_LastError event; ev_AvailableAt := oe_AvailableAt event;
     ev_CreatedAt := oe_CreatedAt event |}.

Definition OutboxStore_Insert `{Postgres} (x : exec) (event : NewEvent) (d : db) : res Event * db :=
  match outboxRepository_Insert x {| ne_Aggregate := nv_Aggregate event;
                                     ne_AggregateID := nv_AggregateID event;
                                     ne_RoutingKey := nv_RoutingKey event;
                                     ne_Payload := nv_Payload event |} d with
  | (Err err, d) => (Err err, d)
  | (Ok stored, d) => (Ok (toOutboxEvent stored), d)
  end.

Definition OutboxStore_ClaimPending `{Postgres} (x : exec) (limit : Z) (d : db)
    : res (list Event) * db :=
  match outboxRepository_ClaimPending x limit d with
  | (Err err, d) => (Err err, d)
  | (Ok events, d) => (Ok (map toOutboxEvent events), d)
  end.

Definition OutboxStore_MarkPublished `{Postgres} := outboxRepository_MarkPublished.
Definition OutboxStore_Reschedule `{Postgres} := outboxRepository_Reschedule.
Definition OutboxStore_CountPending := outboxRepository_CountPending.

(** ** Invariant *)

(** A row is stored under its own key, keys come from the identity column, and
    the attempt count is an [integer] that never goes negative. *)
Definition row_wf (d : db) (id : Z) (row : Outbox) : Prop :=
  (ID row = id /\ id < next_id d /\ 0 <= Attempts row <= MaxInt32)%Z.

Definition db_wf (d : db) : Prop := map_Forall (row_wf d) (table d).

Lemma statement_inv {A} (P : db -> Prop) x (q : db -> res (A * db)) d :
  P d -> (forall a d', q d = Ok (a, d') -> P d') -> P (snd (statement x q d)).
Proof. unfold statement. intros ? Hq. repeat case_match; simplify_eq/=; eauto. Qed.

Lemma statement_Ok {A} x (q : db -> res (A * db)) d a d' :
  statement x q d = (Ok a, d') -> q d = Ok (a, d').
Proof. unfold statement. intros. repeat case_match; by simplify_eq/=. Qed.

Lemma statement_cases {A} x (q : db -> res (A * db)) d r d' :
  statement x q d = (r, d') -> d' = d \/ exists a, q d = Ok (a, d').
Proof. unfold statement. intros. repeat case_match; simplify_eq/=; eauto. Qed.

Lemma statement_NoFault {A} x (q : db -> res (A * db)) d :
  x_fault x = NoFault ->
  statement x q d = match q d with Ok (a, d') => (Ok a, d') | Err e => (Err e, d) end.
Proof. unfold statement. by intros ->. Qed.

Section Invariant.
Context `{Postgres}.

Lemma Insert_wf x arg d : db_wf d -> db_wf (snd (InsertOutboxEvent x arg d)).
Proof.
  intros Hwf. apply (statement_inv db_wf); [done|]. intros a d' Hq.
  destruct (jsonb _); simplify_eq/=. intros id row Hl. unfold row_wf in *; simpl in *.
  destruct (decide (id = next_id d)) as [->|Hne].
  - rewrite lookup_insert_eq in Hl. simplify_eq/=. unfold MaxInt32. lia.
  - rewrite lookup_insert_ne in Hl by done. destruct (Hwf id row Hl) as (? & ? & ?). lia.
Qed.

Lemma Mark_wf x id d : db_wf d -> db_wf (snd (MarkOutboxEventPublished x id d)).
Proof.
  intros Hwf. apply (statement_inv db_wf); [done|]. intros a d' [= <- <-] i row Hl. simpl in Hl.
  apply lookup_alter_Some in Hl as [(-> & r0 & Hl & ->)|[_ Hl]]; by apply Hwf in Hl.
Qed.

Lemma Reschedule_wf x arg d : db_wf d -> db_wf (snd (RescheduleOutboxEvent x arg d)).
Proof.
  intros Hwf. apply (statement_inv db_wf); [done|]. intros a d' Hq.
  destruct (table d !! rs_id arg) as [row|] eqn:Hrow; [|by simplify_eq].
  destruct (MaxInt32 <=? Attempts row)%Z eqn:Hmax; simplify_eq. zbool.
  apply map_Forall_insert_2; [|done]. apply Hwf in Hrow. unfold row_wf in *. simpl. lia.
Qed.

Lemma Delete_wf x before d : db_wf d -> db_wf (snd (DeletePublishedOutboxEventsBefore x before d)).
Proof.
  intros Hwf. apply (statement_inv db_wf); [done|]. intros a d' [= <- <-].
  intros i row [Hl _]%map_lookup_filter_Some. by apply Hwf in Hl.
Qed.
End Invariant.

#[export] Hint Resolve Insert_wf Mark_wf Reschedule_wf Delete_wf : go.

Lemma wrapped_snd {A} t (r : res A * db) : snd (wrapped t r) = snd r.
Proof. by destruct r as [[]]. Qed.

Lemma Insert_store_wf `{Postgres} x e d : db_wf d -> db_wf (snd (OutboxStore_Insert x e d)).
Proof.
  intros Hwf. unfold OutboxStore_Insert, outboxRepository_Insert.
  match goal with |- context [InsertOutboxEvent x ?a d] => pose proof (Insert_wf x a d Hwf) end.
  by repeat case_match; simplify_eq/=.
Qed.

Lemma Mark_store_wf `{Postgres} x id d : db_wf d -> db_wf (snd (OutboxStore_MarkPublished x id d)).
Proof.
  unfold OutboxStore_MarkPublished, outboxRepository_MarkPublished. rewrite wrapped_snd.
  apply Mark_wf.
Qed.

Lemma Reschedule_store_wf `{Postgres} x id reason at_ d :
  db_wf d -> db_wf (snd (OutboxStore_Reschedule x id reason at_ d)).
Proof.
  unfold OutboxStore_Reschedule, outboxRepository_Reschedule. rewrite wrapped_snd.
  apply Reschedule_wf.
Qed.

Lemma Delete_store_wf `{Postgres} x before d :
  db_wf d -> db_wf (snd (outboxRepository_DeletePublishedBefore x before d)).
Proof.
  intros Hwf. unfold outboxRepository_DeletePublishedBefore.
  pose proof (Delete_wf x before d Hwf). by repeat case_match; simplify_eq/=.
Qed.

(** A claim and a count change nothing. *)
Lemma Claim_store_snd `{Postgres} x limit d : snd (OutboxStore_ClaimPending x limit d) = d.
Proof.
  unfold OutboxStore_ClaimPending, outboxRepository_ClaimPending, ClaimPendingOutboxEvents, statement.
  by repeat case_match; simplify_eq/=.
Qed.

Lemma Count_store_snd x d : snd (OutboxStore_CountPending x d) = d.
Proof.
  unfold OutboxStore_CountPending, outboxRepository_CountPending, CountPendingOutboxEvents, statement.
  by repeat case_match; simplify_eq/=.
Qed.

#[export] Hint Resolve Insert_store_wf Mark_store_wf Reschedule_store_wf Delete_store_wf : go.

(** ** The rows in key order *)

Definition by_id (r1 r2 : Outbox) : Prop := (ID r1 < ID r2)%Z.

Lemma elem_of_rows_by_id d row :
  db_wf d -> row ∈ rows_by_id d <-> table d !! ID row = Some row.
Proof.
  intros Hwf. unfold rows_by_id. rewrite list_elem_of_omap. split.
  - intros (id & _ & Hl). by destruct (Hwf id row Hl) as [<- _].
  - intros Hl. exists (ID row). split; [|done].
    rewrite merge_sort_Permutation, elem_of_elements, elem_of_dom. by eexists.
Qed.

Lemma omap_sorted d ids :
  db_wf d -> StronglySorted Z.le ids -> NoDup ids ->
  StronglySorted by_id (omap (fun id => table d !! id) ids).
Proof.
  intros Hwf. induction 1 as [|id ids Hs IH Hall]; intros Hnd; [constructor|].
  apply NoDup_cons in Hnd as [Hni Hnd]. simpl.
  destruct (table d !! id) as [row|] eqn:Hrow; [|auto]. constructor; [auto|].
  apply Forall_forall. intros r' (i' & Hi' & Hl')%list_elem_of_omap.
  destruct (Hwf _ _ Hrow) as [Hr _], (Hwf _ _ Hl') as [Hr' _]. unfold by_id.
  rewrite Forall_forall in Hall. specialize (Hall i' Hi').
  assert (id <> i') by congruence. lia.
Qed.

Lemma rows_by_id_sorted d : db_wf d -> StronglySorted by_id (rows_by_id d).
Proof.
  intros Hwf. apply omap_sorted; [done| |].
  - apply StronglySorted_merge_sort; apply _.
  - rewrite merge_sort_Permutation. apply NoDup_elements.
Qed.

Lemma StronglySorted_filter {A} (R : relation A) (P : A -> Prop) `{forall x, Decision (P x)} l :
  StronglySorted R l -> StronglySorted R (filter P l).
Proof.
  induction 1 as [|x l Hs IH Hall]; [constructor|]. rewrite filter_cons.
  case_decide; [|done]. constructor; [done|].
  rewrite Forall_forall in *. intros y [_ Hy]%list_elem_of_filter. auto.
Qed.

Lemma StronglySorted_take {A} (R : relation A) n l :
  StronglySorted R l -> StronglySorted R (take n l).
Proof.
  intros Hs. revert n. induction Hs as [|x l Hs IH Hall]; intros [|n]; simpl; try constructor; auto.
  by apply Forall_take.
Qed.

(** In a sorted list, what [take] leaves out comes after what it keeps. *)
Lemma StronglySorted_take_drop {A} (R : relation A) n l x y :
  StronglySorted R l -> x ∈ take n l -> y ∈ drop n l -> R x y.
Proof.
  intros Hs. revert n. induction Hs as [|z l Hs IH Hall]; intros [|n]; simpl; try set_solver.
  intros [->|Hx]%elem_of_cons Hy; [|eauto].
  rewrite Forall_forall in Hall. apply Hall. rewrite <- (take_drop n l). set_solver.
Qed.

(** ** Theorems about the queries *)

Section Queries.
Context `{Postgres}.

(** The rows one claim may hand out. *)
Definition claimable (x : exec) (row : Outbox) : bool :=
  due (timestamptz (x_now x)) row && negb (x_locked x (ID row)).

End Queries.

(** A server that stores documents as they are and drops nanoseconds. *)
Definition sample_postgres : Postgres.
Proof.
  refine {| jsonb := fun s => if String.eqb s "" then None else Some s;
            timestamptz := fun t => t - t mod 1000;
            invalid_json := Sentinel "22P02" "invalid input syntax for type json";
            out_of_range := Sentinel "22003" "integer out of range";
            negative_limit := Sentinel "2201W" "LIMIT must not be negative" |}%Z.
  abstract (intros t; pose proof (Z.mod_pos_bound t 1000); lia).
Defined.

Definition calm (now : Z) : exec := {| x_fault := NoFault; x_now := now; x_locked := fun _ => false |}.

Definition new_booking (payload : string) : NewEvent :=
  {| nv_Aggregate := "booking"; nv_AggregateID := ""; nv_RoutingKey := "booking.confirmed";
     nv_Payload := payload |}.

Definition empty_db : db := {| table := ∅; next_id := 1 |}.

(** Three bookings, the second already published and the third locked. *)
Definition sample_db : db :=
  let insert p d := snd (@OutboxStore_Insert sample_postgres (calm 5000) (new_booking p) d) in
  snd (@OutboxStore_MarkPublished sample_postgres (calm 6000) 2
         (insert "{3}" (insert "{2}" (insert "{1}" empty_db)))).

Lemma sample_db_wf : db_wf sample_db.
Proof. apply Mark_store_wf. do 3 apply Insert_store_wf. apply map_Forall_empty. Qed.

