(* ===== verification/OutboxWorker.v ===== *)
(** * pkg/outbox: recording and publishing events

    The contracts of outbox.go (the store, the inserter, the publisher) as
    classes, recording an event on a transaction in progress, and the worker of
    worker.go.  The worker is written as a program over the calls it makes on
    its collaborators, so the same definition runs alone (one round, or the
    whole loop) and interleaved with other workers, transactions and crashes. *)

From stdpp Require Import base list gmap sets strings numbers.
From Stdlib Require Import ZArith Lia String.
From S2P Require Import Prelude GoStrings GoErrors Backoff Logger OutboxStore.

Local Open Scope string_scope.

(** ** The contracts of outbox.go *)

(** [St] is the state of the store and [X] the circumstances of one call on it
    (faults, the server's clock, foreign locks); [B] and [Y] are the same for
    the broker. *)
Class Store (St X : Type) := {
  ClaimPending : X -> Z -> St -> res (list Event) * St;
  MarkPublished : X -> Z -> St -> option goerror * St;
  Reschedule : X -> Z -> string -> Z -> St -> option goerror * St;
  CountPending : X -> St -> res Z * St
}.

Class Inserter (St X : Type) := Insert : X -> NewEvent -> St -> res Event * St.

Class Publisher (B Y : Type) := PublishMessage : Y -> string -> string -> B -> option goerror * B.

(** ** outbox.go and errors.go *)

Definition RoutingKeyUserRegistered := "user.registered".
Definition RoutingKeyBookingConfirmed := "booking.confirmed".
Definition RoutingKeyBookingCancelled := "booking.cancelled".
Definition RoutingKeySubscriptionRenew := "subscription.renewed".
Definition RoutingKeyTourPublished := "tour.published".
Definition RoutingKeyTourRunCompleted := "tour_run.completed".

Definition ErrEmptyRoutingKey : goerror :=
  Sentinel "outbox.ErrEmptyRoutingKey" "outbox: the routing key is empty".

(** The payload handed in: raw JSON, or a value of another type, which
    [json.Marshal] serialises or refuses. *)
Class Json (V : Type) := Marshal : V -> res string.

Inductive any_payload (V : Type) :=
| RawMessage (raw : string)
| Value (v : V).
Arguments RawMessage {V} _.
Arguments Value {V} _.

Definition marshal `{Json V} (payload : any_payload V) : res string :=
  match payload with
  | RawMessage raw => Ok raw
  | Value v => match Marshal v with
               | Ok raw => Ok raw
               | Err err => Err (Wrap "serializing the outbox payload: " err)
               end
  end.

Definition PublishFor `{Json V, Inserter St X} (x : X) (aggregate aggregateID routingKey : string)
    (payload : any_payload V) (s : St) : option goerror * St :=
  if String.eqb routingKey "" then (Some ErrEmptyRoutingKey, s)
  else match marshal payload with
       | Err err => (Some err, s)
       | Ok raw =>
           match Insert x {| nv_Aggregate := aggregate; nv_AggregateID := aggregateID;
                             nv_RoutingKey := routingKey; nv_Payload := raw |} s with
           | (Err err, s) =>
               (Some (Wrap ("recording the outbox event " ++ Quote routingKey ++ ": ") err), s)
           | (Ok _, s) => (None, s)
           end
       end.

Definition Publish `{Json V, Inserter St X} (x : X) (routingKey : string)
    (payload : any_payload V) (s : St) : option goerror * St :=
  PublishFor x "" "" routingKey payload s.

(** ** worker.go *)

Definition DefaultPollInterval : Z := 1 * Second.
Definition DefaultBatchSize : Z := 100.
Definition DefaultInitialBackoff : Z := 5 * Second.
Definition DefaultMaxBackoff : Z := 5 * Minute.

Record WorkerConfig := mkWorkerConfig {
  PollInterval : Z;
  BatchSize : Z;
  InitialBackoff : Z;
  MaxBackoff : Z
}.

Definition positive_or (v default : Z) : Z := if (v <=? 0)%Z then default else v.

Definition withDefaults (c : WorkerConfig) : WorkerConfig := {|
  PollInterval := positive_or (PollInterval c) DefaultPollInterval;
  BatchSize := positive_or (BatchSize c) DefaultBatchSize;
  InitialBackoff := positive_or (InitialBackoff c) DefaultInitialBackoff;
  MaxBackoff := positive_or (MaxBackoff c) DefaultMaxBackoff
|}.

Definition backoffFor (attempt initial maximum : Z) : Z :=
  if (attempt <=? 1)%Z then initial
  else double_capped (Z.to_nat (int32 (attempt - 1))) initial maximum.

(** The worker's own data; its store, publisher and clock are what its calls
    go to. *)
Record Worker := mkWorker { w_cfg : WorkerConfig; w_log : Logger }.

Definition NewWorker (cfg : WorkerConfig) (log : Logger) : Worker :=
  {| w_cfg := withDefaults cfg; w_log := log |}.

(** A program over the calls the worker makes, each with what is done with its
    answer. *)
Inductive prog (A : Type) : Type :=
| Ret (a : A)
| DoClaim (limit : Z) (k : res (list Event) -> prog A)
| DoMark (id : Z) (k : option goerror -> prog A)
| DoReschedule (id : Z) (reason : string) (retryAt : Z) (k : option goerror -> prog A)
| DoCount (k : res Z -> prog A)
| DoPublish (routingKey payload : string) (k : option goerror -> prog A)
| DoNow (k : Z -> prog A)
| DoCtxErr (k : option goerror -> prog A)
| DoPoll (interval : Z) (k : bool -> prog A)
| DoLog (es : list LogEntry) (k : prog A).
Arguments Ret {A} _.
Arguments DoClaim {A} _ _.
Arguments DoMark {A} _ _.
Arguments DoReschedule {A} _ _ _ _.
Arguments DoCount {A} _.
Arguments DoPublish {A} _ _ _.
Arguments DoNow {A} _.
Arguments DoCtxErr {A} _.
Arguments DoPoll {A} _ _.
Arguments DoLog {A} _ _.

Fixpoint bind {A B} (p : prog A) (f : A -> prog B) : prog B :=
  match p with
  | Ret a => f a
  | DoClaim l k => DoClaim l (fun r => bind (k r) f)
  | DoMark id k => DoMark id (fun r => bind (k r) f)
  | DoReschedule id why at_ k => DoReschedule id why at_ (fun r => bind (k r) f)
  | DoCount k => DoCount (fun r => bind (k r) f)
  | DoPublish key pl k => DoPublish key pl (fun r => bind (k r) f)
  | DoNow k => DoNow (fun r => bind (k r) f)
  | DoCtxErr k => DoCtxErr (fun r => bind (k r) f)
  | DoPoll i k => DoPoll i (fun r => bind (k r) f)
  | DoLog es k => DoLog es (bind k f)
  end.

Section Worker.
Context `{ZerologFields}.

Definition reschedule (w : Worker) (event : Event) (cause : goerror) (log : Logger) : prog unit :=
  let delay := backoffFor (int32 (ev_Attempts event + 1)) (InitialBackoff (w_cfg w))
                 (MaxBackoff (w_cfg w)) in
  DoNow (fun now =>
    let retryAt := (now + delay)%Z in
    DoLog (emit log WarnLevel [("error", Error cause);
                               ("attempts", Itoa (int32 (ev_Attempts event + 1)));
                               ("retry_in", Dur delay)]
             "publishing the event failed, rescheduling")
      (DoReschedule (ev_ID event) (Error cause) retryAt (fun r =>
         match r with
         | Some err => DoLog (emit log ErrorLevel [("error", Error err)]
                                "could not reschedule the event") (Ret tt)
         | None => Ret tt
         end))).

Definition publishOne (w : Worker) (event : Event) : prog bool :=
  let log := With (w_log w) [("event_id", Itoa (ev_ID event)); ("routing_key", ev_RoutingKey event)] in
  DoPublish (ev_RoutingKey event) (ev_Payload event) (fun r =>
    match r with
    | Some err => bind (reschedule w event err log) (fun _ => Ret false)
    | None =>
        DoMark (ev_ID event) (fun r =>
          match r with
          | Some err =>
              DoLog (emit log ErrorLevel [("error", Error err)]
                       "the event was published but could not be marked, it will be republished")
                (Ret true)
          | None => DoLog (emit log DebugLevel [] "event published") (Ret true)
          end)
    end).

(** The loop of [ProcessBatch] over the claimed events. *)
Fixpoint publishAll (w : Worker) (events : list Event) (published : nat)
    : prog (nat * option goerror) :=
  match events with
  | [] => Ret (published, None)
  | event :: events' =>
      DoCtxErr (fun r =>
        match r with
        | Some err => Ret (published, Some err)
        | None => bind (publishOne w event) (fun ok =>
                    publishAll w events' (if ok then S published else published))
        end)
  end.

Definition ProcessBatch (w : Worker) : prog (nat * option goerror) :=
  DoClaim (BatchSize (w_cfg w)) (fun r =>
    match r with
    | Err err => Ret (O, Some err)
    | Ok events => publishAll w events O
    end).

(** The [for] loop of [Run], for at most [fuel] rounds: [None] when the loop
    is still going after them, [Some err] the value returned. *)
Fixpoint Run_loop (w : Worker) (fuel : nat) : prog (option (option goerror)) :=
  match fuel with
  | O => Ret None
  | S fuel' =>
      DoCtxErr (fun r =>
        match r with
        | Some _ => DoLog (emit (w_log w) InfoLevel [] "the outbox worker stopped") (Ret (Some None))
        | None =>
            bind (ProcessBatch w) (fun '(published, err) =>
              let rest :=
                if (0 <? published)%nat then Run_loop w fuel'
                else DoPoll (PollInterval (w_cfg w)) (fun done =>
                       if done
                       then DoLog (emit (w_log w) InfoLevel [] "the outbox worker stopped")
                              (Ret (Some None))
                       else Run_loop w fuel') in
              match err with
              | Some e => if negb (Is e context_Canceled)
                          then DoLog (emit (w_log w) ErrorLevel [("error", Error e)]
                                        "the outbox round failed") rest
                          else rest
              | None => rest
              end)
        end)
  end.

Definition Run (w : Worker) (fuel : nat) : prog (option (option goerror)) :=
  DoLog (emit (w_log w) InfoLevel [("poll_interval", Dur (PollInterval (w_cfg w)));
                                   ("batch_size", Itoa (BatchSize (w_cfg w)))]
           "the outbox worker started")
    (Run_loop w fuel).

Definition LogBacklog (ctx : Context) : prog unit :=
  DoCount (fun r =>
    match r with
    | Err err => DoLog (emit (Ctx ctx) WarnLevel [("error", Error err)]
                          "could not read the outbox backlog") (Ret tt)
    | Ok pending => DoLog (emit (Ctx ctx) InfoLevel [("pending", Itoa pending)] "outbox backlog")
                      (Ret tt)
    end).
End Worker.
