(* ===== verification/OutboxSystem.v ===== *)
(** * The outbox as a system

    Any number of workers, the transactions that record events, the pruning of
    old rows, crashes and faults, interleaved call by call on one store and one
    broker.  The theorems are proved against what the store and the publisher
    promise ([StoreSpec], [PublisherSpec]); the table of OutboxStore discharges
    the first promise here. *)

From stdpp Require Import base list gmap sets strings numbers.
From Stdlib Require Import ZArith Lia String.
From S2P Require Import Prelude GoStrings GoErrors Backoff Logger OutboxStore OutboxWorker.

Local Open Scope string_scope.

(** ** What the worker relies on *)

(** A message as the broker sees it: routing key and body. *)
Abbreviation message := (string * string)%type.

(** What the theorems see of a stored event: the message, and whether it is
    marked published. *)
Abbreviation stored := (message * bool)%type.

Class Pruner (St X : Type) := Prune : X -> Z -> St -> res Z * St.

(** The store: a claim hands out unpublished events as they are stored and
    changes nothing; marking sets the mark of one event at most, and does it
    when it returns nil; rescheduling and counting leave messages and marks
    alone; an insert adds at most one unpublished event under a fresh key; pruning
    removes published events only. *)
Class StoreSpec (St X : Type) `{!Store St X, !Inserter St X, !Pruner St X} := {
  store_wf : St -> Prop;
  contents : St -> gmap Z stored;
  key_bound : St -> Z;
  contents_bound : forall s id m, store_wf s -> contents s !! id = Some m -> (id < key_bound s)%Z;
  claim_law : forall x limit s, store_wf s ->
    snd (ClaimPending x limit s) = s /\
    forall evs, fst (ClaimPending x limit s) = Ok evs ->
      Forall (fun ev => contents s !! ev_ID ev
                        = Some (ev_RoutingKey ev, ev_Payload ev, false)) evs;
  mark_law : forall x id s, store_wf s ->
    let '(r, s') := MarkPublished x id s in
    store_wf s' /\ key_bound s' = key_bound s
    /\ (contents s' = contents s \/ contents s' = alter (fun m => (m.1, true)) id (contents s))
    /\ (r = None -> contents s' = alter (fun m => (m.1, true)) id (contents s));
  reschedule_law : forall x id why at_ s, store_wf s ->
    let s' := snd (Reschedule x id why at_ s) in
    store_wf s' /\ key_bound s' = key_bound s /\ contents s' = contents s;
  count_law : forall x s, snd (CountPending x s) = s;
  insert_law : forall x ev s, store_wf s ->
    let s' := snd (Insert x ev s) in
    store_wf s' /\ (key_bound s <= key_bound s')%Z
    /\ (contents s' = contents s
        \/ exists id payload, (key_bound s <= id)%Z
             /\ contents s' = <[id := (nv_RoutingKey ev, payload, false)]> (contents s));
  prune_law : forall x before s, store_wf s ->
    let s' := snd (Prune x before s) in
    store_wf s' /\ key_bound s' = key_bound s /\ contents s' ⊆ contents s
    /\ forall id m, contents s !! id = Some (m, false) -> contents s' !! id = Some (m, false)
}.

(** The publisher: [taken] is what a nil result means, and stays so.  What it is for
    the publisher of pkg/amqp, with and without deadlines, is in OutboxAmqp. *)
Class PublisherSpec (B Y : Type) `{!Publisher B Y} := {
  broker_wf : B -> Prop;
  taken : B -> message -> Prop;
  publish_law : forall y key payload b, broker_wf b ->
    let '(r, b') := PublishMessage y key payload b in
    broker_wf b' /\ (r = None -> taken b' (key, payload))
    /\ forall m, taken b m -> taken b' m
}.

(** ** Running programs *)

Section Execution.
Context `{HS : Store St X, HP : Publisher B Y}.

Record world := mkWorld { w_store : St; w_broker : B; w_logs : list LogEntry }.

(** The circumstances of one call: those of the store and of the broker, the
    clock, and the error of the context when it is done. *)
Record env := mkEnv { e_store : X; e_broker : Y; e_now : Z; e_ctx : option goerror }.

Definition set_store (s : St) (w : world) : world :=
  {| w_store := s; w_broker := w_broker w; w_logs := w_logs w |}.
Definition set_broker (b : B) (w : world) : world :=
  {| w_store := w_store w; w_broker := b; w_logs := w_logs w |}.
Definition add_logs (es : list LogEntry) (w : world) : world :=
  {| w_store := w_store w; w_broker := w_broker w; w_logs := (w_logs w ++ es)%list |}.

(** One call of a program; a finished program stays finished. *)
Definition prog_step {A} (e : env) (p : prog A) (w : world) : prog A * world :=
  match p with
  | Ret a => (Ret a, w)
  | DoClaim limit k => let '(r, s) := ClaimPending (e_store e) limit (w_store w) in
                       (k r, set_store s w)
  | DoMark id k => let '(r, s) := MarkPublished (e_store e) id (w_store w) in
                   (k r, set_store s w)
  | DoReschedule id why at_ k => let '(r, s) := Reschedule (e_store e) id why at_ (w_store w) in
                                 (k r, set_store s w)
  | DoCount k => let '(r, s) := CountPending (e_store e) (w_store w) in (k r, set_store s w)
  | DoPublish key payload k =>
      let '(r, b) := PublishMessage (e_broker e) key payload (w_broker w) in
      (k r, set_broker b w)
  | DoNow k => (k (e_now e), w)
  | DoCtxErr k => (k (e_ctx e), w)
  | DoPoll _ k => (k (match e_ctx e with Some _ => true | None => false end), w)
  | DoLog es k => (k, add_logs es w)
  end.

(** A program run alone to its end; [o n] are the circumstances of its [n]-th
    call. *)
Fixpoint exec_prog {A} (p : prog A) (o : nat -> env) (n : nat) (w : world) : A * nat * world :=
  match p with
  | Ret a => (a, n, w)
  | DoClaim limit k => let '(r, s) := ClaimPending (e_store (o n)) limit (w_store w) in
                       exec_prog (k r) o (S n) (set_store s w)
  | DoMark id k => let '(r, s) := MarkPublished (e_store (o n)) id (w_store w) in
                   exec_prog (k r) o (S n) (set_store s w)
  | DoReschedule id why at_ k =>
      let '(r, s) := Reschedule (e_store (o n)) id why at_ (w_store w) in
      exec_prog (k r) o (S n) (set_store s w)
  | DoCount k => let '(r, s) := CountPending (e_store (o n)) (w_store w) in
                 exec_prog (k r) o (S n) (set_store s w)
  | DoPublish key payload k =>
      let '(r, b) := PublishMessage (e_broker (o n)) key payload (w_broker w) in
      exec_prog (k r) o (S n) (set_broker b w)
  | DoNow k => exec_prog (k (e_now (o n))) o (S n) w
  | DoCtxErr k => exec_prog (k (e_ctx (o n))) o (S n) w
  | DoPoll _ k => exec_prog (k (match e_ctx (o n) with Some _ => true | None => false end)) o (S n) w
  | DoLog es k => exec_prog k o n (add_logs es w)
  end.
End Execution.

Arguments world : clear implicits.
Arguments env : clear implicits.

(** ** The system *)

Section System.
Context `{HS : Store St X, HI : !Inserter St X, HR : !Pruner St X, HP : Publisher B Y}.
Context `{ZerologFields}.

Record sys := mkSys { procs : list (prog (option (option goerror))); sys_world : world St B }.

(** What can happen next: a worker makes its next call; a worker's process dies
    and is started again, losing what it knew; a transaction that records an
    event commits; rows are pruned. *)
Inductive sysev :=
| EvWorker (i : nat) (e : env X Y)
| EvRestart (i : nat) (w : Worker) (fuel : nat)
| EvRecord (x : X) (event : NewEvent)
| EvPrune (x : X) (before : Z).

Definition sys_step (ev : sysev) (s : sys) : sys :=
  match ev with
  | EvWorker i e =>
      match procs s !! i with
      | Some p => let '(p', w') := prog_step e p (sys_world s) in
                  {| procs := <[i := p']> (procs s); sys_world := w' |}
      | None => s
      end
  | EvRestart i w fuel => {| procs := <[i := Run w fuel]> (procs s); sys_world := sys_world s |}
  | EvRecord x event =>
      {| procs := procs s;
         sys_world := set_store (snd (Insert x event (w_store (sys_world s)))) (sys_world s) |}
  | EvPrune x before =>
      {| procs := procs s;
         sys_world := set_store (snd (Prune x before (w_store (sys_world s)))) (sys_world s) |}
  end.

Definition sys_run (evs : list sysev) (s : sys) : sys := foldl (fun s ev => sys_step ev s) s evs.

(** Workers that have just been started. *)
Definition sys_init (ws : list (Worker * nat)) (w : world St B) : sys :=
  {| procs := map (fun '(w, fuel) => Run w fuel) ws; sys_world := w |}.
End System.

Arguments sys : clear implicits.
Arguments sysev : clear implicits.

(** ** Safe programs *)

(** [safe K T p]: knowing that the events of [K] are stored with the message
    given there and that the broker has taken the messages of [T], the program
    never marks an event whose message the broker has not taken. *)
Fixpoint safe {A} (K : list (Z * message)) (T : list message) (p : prog A) : Prop :=
  match p with
  | Ret _ => True
  | DoClaim _ k =>
      (forall e, safe K T (k (Err e)))
      /\ forall evs, safe (map (fun ev => (ev_ID ev, (ev_RoutingKey ev, ev_Payload ev))) evs ++ K)%list
                       T (k (Ok evs))
  | DoMark id k => (exists m, (id, m) ∈ K /\ m ∈ T) /\ forall r, safe K T (k r)
  | DoPublish key payload k =>
      safe K ((key, payload) :: T) (k None) /\ forall e, safe K T (k (Some e))
  | DoReschedule _ _ _ k => forall r, safe K T (k r)
  | DoCount k => forall r, safe K T (k r)
  | DoNow k => forall r, safe K T (k r)
  | DoCtxErr k => forall r, safe K T (k r)
  | DoPoll _ k => forall r, safe K T (k r)
  | DoLog _ k => safe K T k
  end.

Lemma safe_mono {A} (p : prog A) : forall K T K' T',
  K ⊆ K' -> T ⊆ T' -> safe K T p -> safe K' T' p.
Proof.
  induction p; simpl; intros K T K' T' HK HT; try by eauto.
  - intros [He Ho]. split; [by eauto|]. intros evs.
    eapply H; [| |apply Ho]; [|done]. set_solver.
  - intros [(m & ? & ?) Hk]. split; [|by eauto]. exists m. set_solver.
  - intros [Hn He]. split; [|by eauto]. eapply H; [| |apply Hn]; [done|]. set_solver.
Qed.

Lemma safe_bind {A C} (p : prog A) (f : A -> prog C) : forall K T,
  safe K T p ->
  (forall a K' T', K ⊆ K' -> T ⊆ T' -> safe K' T' (f a)) -> safe K T (bind p f).
Proof.
  induction p; simpl; intros K T Hp Hf; try by eauto.
  - destruct Hp as [He Ho]. split; [by eauto|]. intros evs. eapply H; [apply Ho|].
    intros a' K' T' HK HT. apply Hf; set_solver.
  - destruct Hp as [? Hk]. split; [done|]. by eauto.
  - destruct Hp as [Hn He]. split; [|by eauto]. eapply H; [apply Hn|].
    intros a' K' T' HK HT. apply Hf; set_solver.
Qed.

Section SafeWorker.
Context `{ZerologFields}.

Lemma reschedule_safe w ev cause log K T : safe K T (reschedule w ev cause log).
Proof. simpl. intros ? r. by destruct r. Qed.

Lemma publishOne_safe w ev K T :
  (ev_ID ev, (ev_RoutingKey ev, ev_Payload ev)) ∈ K -> safe K T (publishOne w ev).
Proof.
  intros Hk. cbn [publishOne safe]. split.
  - split; [|intros []; done]. eexists. split; [done|]. set_solver.
  - intros e. by apply safe_bind; [apply reschedule_safe|].
Qed.

Lemma publishAll_safe w evs : forall n K T,
  Forall (fun ev => (ev_ID ev, (ev_RoutingKey ev, ev_Payload ev)) ∈ K) evs ->
  safe K T (publishAll w evs n).
Proof.
  induction evs as [|ev evs IH]; intros n K T Hall; [done|].
  apply Forall_cons_iff in Hall as [Hev Hall]. cbn [publishAll safe]. intros [err|]; [done|].
  apply safe_bind; [by apply publishOne_safe|]. intros ok K' T' HK HT. apply IH.
  eapply Forall_impl; [|done]. intros ev' Hev'. by apply HK.
Qed.

Lemma ProcessBatch_safe w K T : safe K T (ProcessBatch w).
Proof.
  cbn [ProcessBatch safe]. split; [done|]. intros evs. apply publishAll_safe. apply list.Forall_forall.
  intros ev Hev. apply elem_of_app. left.
  apply (list_elem_of_fmap_2 (fun ev => (ev_ID ev, (ev_RoutingKey ev, ev_Payload ev)))).
  done.
Qed.

Lemma Run_safe w fuel K T : safe K T (Run w fuel).
Proof.
  cbn [Run safe]. revert K T. induction fuel as [|fuel IH]; intros K T; [done|].
  cbn [Run_loop safe]. intros [err|]; [done|].
  apply safe_bind; [apply ProcessBatch_safe|]. intros [n err] K' T' _ _.
  assert (Hrest : safe K' T' (if (0 <? n)%nat then Run_loop w fuel
                    else DoPoll (PollInterval (w_cfg w)) (fun done =>
                           if done then DoLog (emit (w_log w) InfoLevel [] "the outbox worker stopped")
                                          (Ret (Some None))
                           else Run_loop w fuel))).
  { destruct (0 <? n)%nat; [apply IH|]. intros []; [done|apply IH]. }
  destruct err as [e|]; [|done]. by destruct (negb _).
Qed.
End SafeWorker.

(** ** Safety of the system *)

Section Safety.
Context `{SS : StoreSpec St X, PS : PublisherSpec B Y} `{ZerologFields}.

(** What a worker remembers about a stored event stays true. *)
Definition known (s : St) (K : list (Z * message)) : Prop :=
  Forall (fun '(id, m) => (id < key_bound s)%Z
                          /\ forall m' f, contents s !! id = Some (m', f) -> m' = m) K.

(** One statement's effect on the contents. *)
Definition evolves (s s' : St) : Prop :=
  (key_bound s <= key_bound s')%Z
  /\ (forall id m f, (id < key_bound s)%Z -> contents s' !! id = Some (m, f) ->
        exists f', contents s !! id = Some (m, f'))
  /\ (forall id m, contents s !! id = Some (m, false) -> exists f, contents s' !! id = Some (m, f)).

Definition published_taken (s : St) (b : B) : Prop :=
  forall id m, contents s !! id = Some (m, true) -> taken b m.

Definition proc_ok (w : world St B) (p : prog (option (option goerror))) : Prop :=
  exists K T, safe K T p /\ known (w_store w) K /\ Forall (taken (w_broker w)) T.

Definition sys_inv (s : sys St B) : Prop :=
  let w := sys_world s in
  store_wf (w_store w) /\ broker_wf (w_broker w)
  /\ published_taken (w_store w) (w_broker w) /\ Forall (proc_ok w) (procs s).

Lemma known_evolves s s' K : evolves s s' -> known s K -> known s' K.
Proof.
  intros (Hb & Hold & _). apply Forall_impl. intros [id m] [Hid Hm]. split; [lia|].
  intros m' f Hl. destruct (Hold id m' f Hid Hl) as [f' Hl']. eauto.
Qed.

Lemma evolves_same s s' : key_bound s' = key_bound s -> contents s' = contents s -> evolves s s'.
Proof. unfold evolves. intros -> ->. split; [lia|]. eauto. Qed.

Lemma evolves_marked s s' id :
  key_bound s' = key_bound s -> contents s' = alter (fun m => (m.1, true)) id (contents s) ->
  evolves s s'.
Proof.
  unfold evolves. intros -> ->. split; [lia|]. split.
  - intros i m f _ [(-> & [m0 f0] & Hl & [= -> ->])|[_ Hl]]%lookup_alter_Some; eauto.
  - intros i m Hl. destruct (decide (i = id)) as [->|Hne].
    + exists true. by rewrite lookup_alter_eq, Hl.
    + exists false. by rewrite lookup_alter_ne.
Qed.

Lemma proc_ok_evolves w s' b' p :
  evolves (w_store w) s' -> (forall m, taken (w_broker w) m -> taken b' m) ->
  proc_ok w p -> forall es, proc_ok {| w_store := s'; w_broker := b'; w_logs := es |} p.
Proof.
  intros Hev Hb (K & T & ? & ? & ?) es. exists K, T. simpl. repeat split; [done| |].
  - by eapply known_evolves.
  - eapply Forall_impl; [|done]. auto.
Qed.

Lemma known_app s K K' : known s K -> known s K' -> known s (K ++ K')%list.
Proof. apply Forall_app_2. Qed.

(** A claim teaches the worker what it hands out. *)
Lemma known_claimed x limit s evs :
  store_wf s -> fst (ClaimPending x limit s) = Ok evs ->
  known s (map (fun ev => (ev_ID ev, (ev_RoutingKey ev, ev_Payload ev))) evs).
Proof.
  intros Hwf Hq. destruct (claim_law x limit s Hwf) as [_ Hall]. specialize (Hall _ Hq).
  unfold known. rewrite Forall_fmap. eapply Forall_impl; [|done]. intros ev Hl. simpl in *.
  split; [exact (contents_bound _ _ _ Hwf Hl)|]. intros m' f Hl'. congruence.
Qed.

(** What one call of a safe program does to the world. *)
Definition world_steps (w w' : world St B) : Prop :=
  store_wf (w_store w') /\ broker_wf (w_broker w') /\ evolves (w_store w) (w_store w')
  /\ (forall m, taken (w_broker w) m -> taken (w_broker w') m)
  /\ published_taken (w_store w') (w_broker w').

Lemma world_steps_refl w :
  store_wf (w_store w) -> broker_wf (w_broker w) -> published_taken (w_store w) (w_broker w) ->
  world_steps w w.
Proof.
  intros. repeat (split; [done|]). split; [by apply evolves_same|]. by split.
Qed.

Lemma published_taken_same s s' b : contents s' = contents s ->
  published_taken s b -> published_taken s' b.
Proof. unfold published_taken. by intros ->. Qed.

Lemma mark_steps x id w m (K : list (Z * message)) T :
  store_wf (w_store w) -> broker_wf (w_broker w) -> published_taken (w_store w) (w_broker w) ->
  known (w_store w) K -> Forall (taken (w_broker w)) T -> (id, m) ∈ K -> m ∈ T ->
  world_steps w (set_store (snd (MarkPublished x id (w_store w))) w).
Proof.
  intros Hs Hb Hpt Hk HT Hid Hm. pose proof (mark_law x id (w_store w) Hs) as Hl.
  destruct (MarkPublished _ _ _) as [r s']. destruct Hl as (Hs' & Hbd & Hc & _).
  unfold world_steps. simpl. split; [done|]. split; [done|].
  split; [destruct Hc; eauto using evolves_same, evolves_marked|]. split; [done|].
  destruct Hc as [Hc|Hc]; [by eapply published_taken_same|].
  intros i m' Hl. rewrite Hc in Hl.
  apply lookup_alter_Some in Hl as [(-> & [m0 f0] & Hl & [= ->])|[_ Hl]]; [|by eapply Hpt].
  destruct (proj1 (list.Forall_forall _ _) Hk _ Hid) as [_ Heq]. rewrite (Heq _ _ Hl).
  by apply (proj1 (list.Forall_forall _ _) HT).
Qed.

Lemma prog_step_ok e p w p' w' :
  store_wf (w_store w) -> broker_wf (w_broker w) -> published_taken (w_store w) (w_broker w) ->
  proc_ok w p -> prog_step e p w = (p', w') -> world_steps w w' /\ proc_ok w' p'.
Proof.
  intros Hs Hb Hpt (K & T & Hsafe & HK & HT) Hst.
  pose proof (world_steps_refl w Hs Hb Hpt) as Hrefl.
  destruct p as [a|limit k|id k|id why at_ k|k|key payload k|k|k|i k|es k]; simpl in *.
  - simplify_eq. split; [done|]. exists K, T. auto.
  - destruct (claim_law (e_store e) limit (w_store w) Hs) as [Heq _].
    pose proof (known_claimed (e_store e) limit (w_store w)) as Hkn.
    destruct (ClaimPending _ _ _) as [r s']. simpl in *. simplify_eq. destruct w; simpl in *.
    split; [done|]. destruct Hsafe as [He Ho]. destruct r as [evs|err]; [|by exists K, T].
    exists (map (fun ev => (ev_ID ev, (ev_RoutingKey ev, ev_Payload ev))) evs ++ K)%list, T.
    split; [apply Ho|]. split; [|done]. apply known_app; [|done]. by apply Hkn.
  - destruct Hsafe as [(m & Hm & HmT) Hsafe].
    pose proof (mark_steps (e_store e) id w m K T Hs Hb Hpt HK HT Hm HmT) as Hstep.
    destruct (MarkPublished _ _ _) as [r s']. simplify_eq/=. split; [done|].
    destruct Hstep as (_ & _ & Hev & _). exists K, T. eauto using known_evolves.
  - pose proof (reschedule_law (e_store e) id why at_ (w_store w) Hs) as (? & ? & ?).
    destruct (Reschedule _ _ _ _ _) as [r s']. simplify_eq/=.
    pose proof (evolves_same (w_store w) s' ltac:(done) ltac:(done)) as Hev.
    split; [repeat split; try done; try apply Hev; by eapply published_taken_same|].
    exists K, T. eauto using known_evolves.
  - pose proof (count_law (e_store e) (w_store w)) as Heq.
    destruct (CountPending _ _) as [r s']. simpl in *. simplify_eq. destruct w; simpl in *.
    split; [done|]. exists K, T. auto.
  - pose proof (publish_law (e_broker e) key payload (w_broker w) Hb) as Hl.
    destruct (PublishMessage _ _ _ _) as [r b']. destruct Hl as (Hb' & Hn & Hmono). simplify_eq/=.
    assert (Forall (taken b') T) by (eapply Forall_impl; [|done]; auto).
    split; [repeat split; try done; try apply Hrefl; intros id m Hl; by apply Hmono, (Hpt id)|].
    destruct r as [err|]; [exists K, T; naive_solver|]. exists K, ((key, payload) :: T).
    split; [apply Hsafe|]. split; [done|]. constructor; auto.
  - simplify_eq. split; [done|]. exists K, T. auto.
  - simplify_eq. split; [done|]. exists K, T. auto.
  - simplify_eq. split; [done|]. exists K, T. auto.
  - simplify_eq. split; [done|]. exists K, T. auto.
Qed.

(** The other events change the store only. *)
Lemma store_step_ok s s' w procs0 :
  store_wf s' -> evolves s s' -> (forall id m, contents s' !! id = Some (m, true) ->
    contents s !! id = Some (m, true)) ->
  w_store w = s -> sys_inv {| procs := procs0; sys_world := w |} ->
  sys_inv {| procs := procs0; sys_world := set_store s' w |}.
Proof.
  intros Hs' Hev Hpub <- (Hs & Hb & Hpt & Hall). unfold sys_inv in *. simpl in *.
  split; [done|]. split; [done|]. split; [intros id m Hl; eapply Hpt, Hpub, Hl|].
  eapply Forall_impl; [|done]. intros p Hp. by apply (proc_ok_evolves w).
Qed.

Lemma insert_evolves x ev s :
  store_wf s ->
  let s' := snd (Insert x ev s) in
  store_wf s' /\ evolves s s'
  /\ forall id m, contents s' !! id = Some (m, true) -> contents s !! id = Some (m, true).
Proof.
  intros Hs. pose proof (insert_law x ev s Hs) as (Hs' & Hb & Hc). simpl in *.
  split; [done|]. destruct Hc as [Hc|(id & payload & Hid & Hc)].
  { rewrite Hc. split; [|done]. unfold evolves. rewrite Hc. split; [done|]. eauto. }
  assert (Hfresh : contents s !! id = None).
  { destruct (contents s !! id) as [m|] eqn:Hl; [|done].
    pose proof (contents_bound s id m Hs Hl). lia. }
  unfold evolves. rewrite Hc. repeat split; [done|..].
  - intros i m f Hi Hl. rewrite lookup_insert_ne in Hl by lia. eauto.
  - intros i m Hl. rewrite lookup_insert_ne by congruence. eauto.
  - intros i m Hl. by apply lookup_insert_Some in Hl as [[_ ?]|[_ ?]]; simplify_eq.
Qed.

Lemma prune_evolves x before s :
  store_wf s ->
  let s' := snd (Prune x before s) in
  store_wf s' /\ evolves s s'
  /\ forall id m, contents s' !! id = Some (m, true) -> contents s !! id = Some (m, true).
Proof.
  intros Hs. pose proof (prune_law x before s Hs) as (Hs' & Hb & Hsub & Hkeep). simpl in *.
  split; [done|]. unfold evolves. rewrite Hb. repeat split; [done|..]; eauto using lookup_weaken.
Qed.

Lemma sys_step_inv ev s : sys_inv s -> sys_inv (sys_step ev s) /\
  evolves (w_store (sys_world s)) (w_store (sys_world (sys_step ev s)))
  /\ forall m, taken (w_broker (sys_world s)) m -> taken (w_broker (sys_world (sys_step ev s))) m.
Proof.
  intros Hinv. pose proof Hinv as (Hs & Hb & Hpt & Hall). destruct s as [ps w]. simpl in *.
  destruct ev as [i e|i wk fuel|x event|x before]; simpl.
  - destruct (ps !! i) as [p|] eqn:Hi; [|split; [done|]; split; [by apply evolves_same|done]].
    destruct (prog_step e p w) as [p' w'] eqn:Hst.
    pose proof (Forall_lookup_1 _ _ _ _ Hall Hi) as Hp.
    destruct (prog_step_ok e p w p' w' Hs Hb Hpt Hp Hst) as [(? & ? & Hev & Hmono & ?) Hp'].
    split; [|done]. repeat (split; [done|]). simpl. apply Forall_insert; [|done].
    eapply Forall_impl; [|done]. intros q Hq. destruct w' as [s' b' l'].
    by eapply proc_ok_evolves.
  - split; [|split; [by apply evolves_same|done]]. repeat (split; [done|]). simpl.
    apply Forall_insert; [done|]. exists [], []. split; [apply Run_safe|]. by split; constructor.
  - destruct (insert_evolves x event _ Hs) as (? & ? & ?). split; [by eapply store_step_ok|done].
  - destruct (prune_evolves x before _ Hs) as (? & ? & ?). split; [by eapply store_step_ok|done].
Qed.

Lemma sys_run_inv evs : forall s, sys_inv s -> sys_inv (sys_run evs s)
  /\ forall m, taken (w_broker (sys_world s)) m -> taken (w_broker (sys_world (sys_run evs s))) m.
Proof.
  induction evs as [|ev evs IH]; intros s Hs; [by split|]. simpl.
  destruct (sys_step_inv ev s Hs) as (Hs' & _ & Hm). destruct (IH _ Hs') as [? Hm'].
  split; [done|]. auto.
Qed.

Lemma sys_init_inv ws w :
  store_wf (w_store w) -> broker_wf (w_broker w) -> published_taken (w_store w) (w_broker w) ->
  sys_inv (sys_init ws w).
Proof.
  intros. repeat (split; [done|]). simpl. apply Forall_fmap, Forall_true. intros [wk fuel]. simpl.
  exists [], []. split; [apply Run_safe|]. by split; constructor.
Qed.

(** An event stays stored unpublished until the broker has its message. *)
Lemma sys_run_pending evs : forall s id m,
  sys_inv s -> contents (w_store (sys_world s)) !! id = Some (m, false) ->
  contents (w_store (sys_world (sys_run evs s))) !! id = Some (m, false)
  \/ taken (w_broker (sys_world (sys_run evs s))) m.
Proof.
  induction evs as [|ev evs IH]; intros s id m Hs Hl; [by left|]. simpl.
  destruct (sys_step_inv ev s Hs) as (Hs' & (_ & _ & Hev) & _).
  destruct (Hev _ _ Hl) as [[] Hl']; [|by apply IH]. right.
  apply (sys_run_inv evs _ Hs'). destruct Hs' as (_ & _ & Hpt & _). by eapply Hpt.
Qed.

End Safety.

(** ** The table keeps the promise of the store *)

Section TableStore.
Context `{Postgres}.

#[export] Instance table_store : Store db exec := {|
  ClaimPending := OutboxStore_ClaimPending;
  MarkPublished := OutboxStore_MarkPublished;
  Reschedule := OutboxStore_Reschedule;
  CountPending := OutboxStore_CountPending
|}.

#[export] Instance table_inserter : Inserter db exec := OutboxStore_Insert.

#[export] Instance table_pruner : Pruner db exec := outboxRepository_DeletePublishedBefore.

Definition row_message (row : Outbox) : stored :=
  ((RoutingKey row, Payload row), negb (pending row)).

Definition table_contents (d : db) : gmap Z stored := row_message <$> table d.

Lemma table_contents_bound d id m :
  db_wf d -> table_contents d !! id = Some m -> (id < next_id d)%Z.
Proof.
  intros Hwf. unfold table_contents. rewrite lookup_fmap_Some. intros (row & _ & Hl).
  by destruct (Hwf id row Hl) as (_ & ? & _).
Qed.

Lemma table_claim_law x limit d : db_wf d ->
  snd (OutboxStore_ClaimPending x limit d) = d /\
  forall evs, fst (OutboxStore_ClaimPending x limit d) = Ok evs ->
    Forall (fun ev => table_contents d !! ev_ID ev
                      = Some (ev_RoutingKey ev, ev_Payload ev, false)) evs.
Proof.
  intros Hwf. split; [apply Claim_store_snd|].
  unfold OutboxStore_ClaimPending, outboxRepository_ClaimPending. intros evs Heq.
  destruct (ClaimPendingOutboxEvents x limit d) as [[rows|e] d'] eqn:Hq; simplify_eq/=.
  rewrite !Forall_fmap. apply statement_Ok in Hq. destruct (limit <? 0)%Z; simplify_eq.
  apply Forall_take, list.Forall_forall. intros row [Hdue Hin]%list_elem_of_filter.
  apply elem_of_rows_by_id in Hin; [|done]. apply Is_true_true in Hdue. zbool.
  unfold table_contents. simpl. rewrite lookup_fmap, Hin. simpl. unfold row_message.
  unfold due, pending in *. by destruct (PublishedAt row).
Qed.

Lemma table_mark_law x id d : db_wf d ->
  let '(r, d') := OutboxStore_MarkPublished x id d in
  db_wf d' /\ next_id d' = next_id d
  /\ (table_contents d' = table_contents d
      \/ table_contents d' = alter (fun m => (m.1, true)) id (table_contents d))
  /\ (r = None -> table_contents d' = alter (fun m => (m.1, true)) id (table_contents d)).
Proof.
  intros Hwf. pose proof (Mark_store_wf x id d Hwf) as Hwf'.
  destruct (OutboxStore_MarkPublished x id d) as [r d'] eqn:Hq. simpl in Hwf'.
  unfold OutboxStore_MarkPublished, outboxRepository_MarkPublished in Hq.
  assert (Halter : forall a, MarkOutboxEventPublished x id d = a ->
    table_contents (snd a) = table_contents d /\ next_id (snd a) = next_id d
      /\ (exists e, fst a = Err e)
    \/ table_contents (snd a) = alter (fun m => (m.1, true)) id (table_contents d)
      /\ next_id (snd a) = next_id d).
  { intros [r0 d0] Hs. unfold MarkOutboxEventPublished, statement in Hs. unfold table_contents.
    destruct (x_fault x); simplify_eq/=; [right|left; eauto|right]; (split; [|done]);
      apply map_eq; intros i; rewrite lookup_fmap; destruct (decide (i = id)) as [->|];
      rewrite ?lookup_alter_eq, ?lookup_alter_ne, ?lookup_fmap by done; try done;
      by destruct (table d !! id). }
  destruct (MarkOutboxEventPublished x id d) as [r0 d0].
  destruct (Halter _ eq_refl) as [(? & ? & e & ?)|[? ?]]; destruct r0; simplify_eq/=;
    (split; [done|]; split; [done|]; split; [auto|done]).
Qed.

Lemma table_reschedule_law x id why at_ d : db_wf d ->
  let d' := snd (OutboxStore_Reschedule x id why at_ d) in
  db_wf d' /\ next_id d' = next_id d /\ table_contents d' = table_contents d.
Proof.
  intros Hwf. simpl. split; [by apply Reschedule_store_wf|].
  unfold OutboxStore_Reschedule, outboxRepository_Reschedule. rewrite wrapped_snd.
  apply (statement_inv (fun d' => next_id d' = next_id d /\ table_contents d' = table_contents d));
    [done|]. intros a d' Hq. simpl in Hq.
  destruct (table d !! id) as [row|] eqn:Hrow; [|by simplify_eq].
  destruct (MaxInt32 <=? Attempts row)%Z; simplify_eq/=. split; [done|].
  unfold table_contents, with_table. simpl. rewrite fmap_insert. apply insert_id.
  by rewrite lookup_fmap, Hrow.
Qed.

Lemma table_insert_law x ev d : db_wf d ->
  let d' := snd (OutboxStore_Insert x ev d) in
  db_wf d' /\ (next_id d <= next_id d')%Z
  /\ (table_contents d' = table_contents d
      \/ exists id payload, (next_id d <= id)%Z
           /\ table_contents d' = <[id := (nv_RoutingKey ev, payload, false)]> (table_contents d)).
Proof.
  intros Hwf. simpl. split; [by apply Insert_store_wf|].
  unfold OutboxStore_Insert, outboxRepository_Insert.
  match goal with |- context [InsertOutboxEvent x ?a d] =>
    assert (Hi : forall r d', InsertOutboxEvent x a d = (r, d') -> d' = d \/
      exists payload, next_id d' = (next_id d + 1)%Z /\ table_contents d'
        = <[next_id d := (nv_RoutingKey ev, payload, false)]> (table_contents d));
    [|destruct (InsertOutboxEvent x a d) as [r d'] eqn:Hq] end.
  { intros r d' [->|[row Hq]]%statement_cases; [by left|]. simpl in Hq.
    destruct (jsonb _) as [payload|]; simplify_eq/=. right. exists payload. split; [done|].
    unfold table_contents. simpl. by rewrite fmap_insert. }
  destruct (Hi _ _ eq_refl) as [->|(payload & Hn & Hc)].
  - destruct r; simpl; (split; [lia|by left]).
  - destruct r; simpl; (split; [lia|right]; exists (next_id d), payload; split; [lia|done]).
Qed.

Lemma table_prune_law x before d : db_wf d ->
  let d' := snd (outboxRepository_DeletePublishedBefore x before d) in
  db_wf d' /\ next_id d' = next_id d /\ table_contents d' ⊆ table_contents d
  /\ forall id m, table_contents d !! id = Some (m, false) ->
       table_contents d' !! id = Some (m, false).
Proof.
  intros Hwf. simpl. split; [by apply Delete_store_wf|].
  assert (Hd : snd (outboxRepository_DeletePublishedBefore x before d)
               = snd (DeletePublishedOutboxEventsBefore x before d)).
  { unfold outboxRepository_DeletePublishedBefore. by repeat case_match; simplify_eq/=. }
  rewrite Hd. apply (statement_inv (fun d' => next_id d' = next_id d
    /\ table_contents d' ⊆ table_contents d /\ forall id m,
       table_contents d !! id = Some (m, false) -> table_contents d' !! id = Some (m, false)));
    [done|]. intros a d' [= <- <-]. split; [done|]. unfold table_contents. simpl. split.
  - apply map_fmap_mono, map_filter_subseteq.
  - intros id m (row & Hm & Hl)%lookup_fmap_Some. apply lookup_fmap_Some. exists row.
    split; [done|]. apply map_lookup_filter_Some. split; [done|]. simpl.
    unfold row_message, pending, published_before in *. by destruct (PublishedAt row).
Qed.

#[export] Instance table_store_spec : StoreSpec db exec := {|
  store_wf := db_wf;
  contents := table_contents;
  key_bound := next_id;
  contents_bound := table_contents_bound;
  claim_law := table_claim_law;
  mark_law := table_mark_law;
  reschedule_law := table_reschedule_law;
  count_law := Count_store_snd;
  insert_law := table_insert_law;
  prune_law := table_prune_law
|}.
End TableStore.

(** ** A broker *)

(** The messages a broker has taken, in order; a publication may be refused, or
    taken while its confirmation is lost. *)
#[export] Instance queue_publisher : Publisher (list message) fault := fun y key payload b =>
  match y with
  | NoFault => (None, b ++ [(key, payload)])%list
  | Rejected e => (Some e, b)
  | Lost e => (Some e, b ++ [(key, payload)])%list
  end.

(** ** A run *)

Definition sample_worker : Worker :=
  NewWorker {| PollInterval := 0; BatchSize := 0; InitialBackoff := 0; MaxBackoff := 0 |} Nop.

Definition no_dur : ZerologFields := fun _ => "".

Definition quiet_env (now : Z) : env exec fault :=
  {| e_store := calm now; e_broker := NoFault; e_now := now; e_ctx := None |}.

(** [n] calls of worker [i] in a row, without faults. *)
Definition calls_of (i n : nat) (now : Z) : list (sysev exec fault) :=
  repeat (EvWorker i (quiet_env now)) n.

Definition empty_world : world db (list message) :=
  {| w_store := empty_db; w_broker := []; w_logs := [] |}.

Abbreviation run_from evs s :=
  (@sys_run _ _ (@table_store sample_postgres) (@table_inserter sample_postgres)
     (@table_pruner sample_postgres) _ _ queue_publisher no_dur evs s).
Abbreviation sample_run evs :=
  (run_from evs (@sys_init _ _ no_dur [(sample_worker, 5); (sample_worker, 5)] empty_world)).

(** Two workers on the same table publish the same event, with nothing
    failing: the row locks of a claim last only as long as its statement, which
    runs outside any transaction, so a second worker that claims between the
    first one's claim and its mark is handed the same event. *)
Theorem two_workers_publish_twice :
  let s := sample_run (EvRecord (calm 1000) (new_booking "{1}")
             :: calls_of 0 4 2000 ++ calls_of 1 6 2000 ++ calls_of 0 2 2000)%list in
  w_broker (sys_world s) = [("booking.confirmed", "{1}"); ("booking.confirmed", "{1}")]
  /\ table_contents (w_store (sys_world s)) !! 1%Z = Some ("booking.confirmed", "{1}", true).
Proof. vm_compute. done. Qed.
