(* ===== verification/OutboxRounds.v ===== *)
(** * What the rounds of the outbox worker achieve

    The worker of pkg/outbox run alone: what one event, one batch and the whole
    loop of [Run] do to the table and the broker, when everything works, when a
    publication fails, and when the context is canceled. *)

From Stdlib Require Import ZArith Lia String.
From stdpp Require Import base list gmap sets strings numbers sorting.
From S2P Require Import Prelude GoStrings GoErrors Backoff Logger OutboxStore OutboxWorker OutboxSystem.

Local Open Scope string_scope.

(** ** Programs run alone *)

Section Exec.
Context `{HS : Store St X, HP : Publisher B Y}.

Lemma exec_prog_bind {A C} (p : prog A) (f : A -> prog C) : forall (o : nat -> env X Y) n w,
  exec_prog (bind p f) o n w
  = let '(a, n', w') := exec_prog p o n w in exec_prog (f a) o n' w'.
Proof.
  induction p; intros o n w; simpl; try done;
    try match goal with |- (let '(_, _) := ?c in _) = _ => destruct c end; auto.
Qed.

(** A call is never undone: the call counter only grows. *)
Lemma exec_prog_count {A} (p : prog A) : forall (o : nat -> env X Y) n w,
  (n <= (exec_prog p o n w).1.2)%nat.
Proof.
  induction p; intros o n w; simpl; try lia;
    repeat match goal with |- context [let '(_, _) := ?c in _] => destruct c end;
    try (etrans; [|by eauto]; lia); by auto.
Qed.

Context `{ZerologFields}.

(** A context that is done from call [N] on stops the loop. *)
Lemma Run_loop_stops wk (o : nat -> env X Y) N :
  (forall n, (N <= n)%nat -> e_ctx (o n) <> None) ->
  forall fuel n w, (N - n < fuel)%nat ->
  (exec_prog (Run_loop wk fuel) o n w).1.1 = Some None.
Proof.
  intros Hdone. induction fuel as [|fuel IH]; intros n w Hn; [lia|]. cbn [Run_loop exec_prog].
  destruct (e_ctx (o n)) as [err|] eqn:Hctx; [done|].
  assert (n < N)%nat.
  { destruct (decide (n < N)%nat); [done|]. destruct (Hdone n); [lia|done]. }
  rewrite exec_prog_bind. pose proof (exec_prog_count (ProcessBatch wk) o (S n) w) as Hc.
  destruct (exec_prog (ProcessBatch wk) o (S n) w) as [[[published err] n'] w']. simpl in Hc.
  assert (Hrest : forall w, (exec_prog
    (if (0 <? published)%nat then Run_loop wk fuel
     else DoPoll (PollInterval (w_cfg wk)) (fun done =>
            if done then DoLog (emit (w_log wk) InfoLevel [] "the outbox worker stopped")
                           (Ret (Some None))
            else Run_loop wk fuel)) o n' w).1.1 = Some None).
  { intros w0. destruct (0 <? published)%nat; [apply IH; lia|]. cbn [exec_prog].
    destruct (e_ctx (o n')); [done|]. apply IH. lia. }
  destruct err as [e|]; [|apply Hrest].
  destruct (negb (Is e context_Canceled)); apply Hrest.
Qed.
End Exec.

(** the loop ends when it is told to.  Once the context is done (from call
    [N] on), [Run] returns nil, whatever the store and the broker answer and
    however often they fail, after at most [N] more rounds: with fuel for them
    the program never runs out of it. *)
Theorem Run_returns_when_canceled `{Store St X, Publisher B Y, ZerologFields}
    wk (o : nat -> env X Y) N fuel (w : world St B) :
  (forall n, (N <= n)%nat -> e_ctx (o n) <> None) -> (N < fuel)%nat ->
  (exec_prog (Run wk fuel) o 0 w).1.1 = Some None.
Proof. intros Hdone Hf. cbn [Run exec_prog]. apply (Run_loop_stops wk o N); [done|lia]. Qed.

(** Canceled from the fourth call on. *)
Definition canceled_after_3 (n : nat) : env exec fault :=
  {| e_store := calm 2000; e_broker := NoFault; e_now := 2000;
     e_ctx := if (3 <=? n)%nat then Some context_Canceled else None |}.

Lemma Run_returns_when_canceled_witness :
  (@exec_prog _ _ (@table_store sample_postgres) _ _ queue_publisher _
     (@Run no_dur sample_worker 4) canceled_after_3 0 empty_world).1.1 = Some None.
Proof.
  apply (@Run_returns_when_canceled _ _ (@table_store sample_postgres) _ _ queue_publisher no_dur
           sample_worker canceled_after_3 3 4 empty_world); [|lia].
  intros n Hn. unfold canceled_after_3. cbn [e_ctx].
  destruct (3 <=? n)%nat eqn:E; [discriminate|]. zbool. lia.
Defined.

(** ** One event *)

Lemma worker_backoffFor_correct attempt initial maximum :
  no_overflow initial maximum -> in_int32 attempt ->
  backoffFor attempt initial maximum = backoff_spec attempt initial maximum.
Proof. apply doubling_loop_correct. Qed.

Section OneEvent.
Context `{Postgres, Publisher B Y, ZerologFields}.

(** The row after a failed publication at [now]. *)
Definition after_failure (cfg : WorkerConfig) (now : Z) (err : goerror) (row : Outbox) : Outbox :=
  rescheduled {| rs_id := ID row; rs_last_error := nullable (Error err);
                 rs_available_at := now + backoff_spec (Attempts row + 1) (InitialBackoff cfg)
                                            (MaxBackoff cfg) |} row.

End OneEvent.

Definition broker_down : goerror := Sentinel "down" "the broker is down".

(** The publication at call 0 is refused. *)
Definition refused_first (n : nat) : env exec fault :=
  {| e_store := calm 2000; e_broker := if (n =? 0)%nat then Rejected broker_down else NoFault;
     e_now := 2000; e_ctx := None |}.

Definition sample_row : Outbox :=
  {| ID := 1; Aggregate := "booking"; AggregateID := None; RoutingKey := "booking.confirmed";
     Payload := "{1}"; PublishedAt := None; Attempts := 0; LastError := None;
     AvailableAt := 5000; CreatedAt := 5000 |}.

Definition sample_world : world db (list message) :=
  {| w_store := {| table := {[1%Z := sample_row]}; next_id := 2 |}; w_broker := []; w_logs := [] |}.


(** ** A batch and a backlog, with a working broker *)

Section Drain.
Context `{Postgres, ZerologFields}.
Variable now : Z.

(** Nothing fails and the context is not done; the clock stands at [now]. *)
Definition all_quiet (n : nat) : env exec fault := quiet_env now.

Definition marked_at (row : Outbox) : Outbox :=
  {| ID := ID row; Aggregate := Aggregate row; AggregateID := AggregateID row;
     RoutingKey := RoutingKey row; Payload := Payload row;
     PublishedAt := Some (timestamptz now); Attempts := Attempts row;
     LastError := LastError row; AvailableAt := AvailableAt row; CreatedAt := CreatedAt row |}.

Definition mark_all (ids : list Z) (d : db) : db :=
  foldl (fun d id => with_table (alter marked_at id (table d)) d) d ids.

Lemma publishOne_quiet wk ev n (w : world db (list message)) :
  exists es, exec_prog (publishOne wk ev) all_quiet n w
  = (true, S (S n),
     {| w_store := with_table (alter marked_at (ev_ID ev) (table (w_store w))) (w_store w);
        w_broker := (w_broker w ++ [(ev_RoutingKey ev, ev_Payload ev)])%list;
        w_logs := es |}).
Proof. eexists. reflexivity. Qed.

Lemma publishAll_quiet wk evs : forall k n (w : world db (list message)),
  exists n' es, exec_prog (publishAll wk evs k) all_quiet n w
  = ((k + List.length evs, None)%nat, n',
     {| w_store := mark_all (map ev_ID evs) (w_store w);
        w_broker := (w_broker w ++ map (fun ev => (ev_RoutingKey ev, ev_Payload ev)) evs)%list;
        w_logs := es |}).
Proof.
  induction evs as [|ev evs IH]; intros k n w.
  - exists n, (w_logs w). simpl. rewrite Nat.add_0_r, app_nil_r. by destruct w.
  - cbn [publishAll exec_prog all_quiet quiet_env e_ctx]. rewrite exec_prog_bind.
    destruct (publishOne_quiet wk ev (S n) w) as [es0 ->].
    destruct (IH (S k) (S (S (S n))) {|
        w_store := with_table (alter marked_at (ev_ID ev) (table (w_store w))) (w_store w);
        w_broker := (w_broker w ++ [(ev_RoutingKey ev, ev_Payload ev)])%list;
        w_logs := es0 |}) as (n' & es & ->).
    exists n', es. simpl. rewrite <- app_assoc, Nat.add_succ_r. done.
Qed.

(** The claimable rows, oldest first, and the messages they carry. *)
Definition backlog (d : db) : list Outbox := filter (fun r => due (timestamptz now) r) (rows_by_id d).
Definition message_of (row : Outbox) : message := (RoutingKey row, Payload row).

Lemma ProcessBatch_quiet wk n (w : world db (list message)) :
  (0 < BatchSize (w_cfg wk))%Z ->
  let batch := take (Z.to_nat (BatchSize (w_cfg wk))) (backlog (w_store w)) in
  exists n' es, exec_prog (ProcessBatch wk) all_quiet n w
  = ((List.length batch, None), n',
     {| w_store := mark_all (map ID batch) (w_store w);
        w_broker := (w_broker w ++ map message_of batch)%list;
        w_logs := es |}).
Proof.
  intros Hb batch. cbn [ProcessBatch exec_prog].
  assert (Hc : ClaimPending (e_store (all_quiet n)) (BatchSize (w_cfg wk)) (w_store w)
               = (Ok (map toOutboxEvent (map toDomain batch)), w_store w)).
  { simpl. unfold OutboxStore_ClaimPending, outboxRepository_ClaimPending, ClaimPendingOutboxEvents.
    rewrite statement_NoFault by done. destruct (_ <? 0)%Z eqn:?; zbool; [lia|].
    unfold batch, backlog. do 5 f_equal. apply list_filter_iff. intros r. simpl.
    by rewrite andb_true_r. }
  rewrite Hc. destruct (publishAll_quiet wk (map toOutboxEvent (map toDomain batch)) 0 (S n)
    (set_store (w_store w) w)) as (n' & es & ->).
  exists n', es. rewrite !length_map, !map_map. done.
Qed.

(** Marking in key order: the marked rows leave the backlog. *)
Lemma mark_wf id d : db_wf d -> db_wf (with_table (alter marked_at id (table d)) d).
Proof. apply (Mark_wf (calm now) id d). Qed.

Lemma mark_all_wf ids : forall d, db_wf d -> db_wf (mark_all ids d).
Proof. induction ids; intros d ?; simpl; auto using mark_wf. Qed.

Lemma omap_alter (f : Outbox -> Outbox) (t : gmap Z Outbox) id ids :
  (forall i r, t !! i = Some r -> ID r = i) ->
  omap (fun i => alter f id t !! i) ids
  = map (fun r => if decide (ID r = id) then f r else r) (omap (fun i => t !! i) ids).
Proof.
  intros Hid. induction ids as [|i ids IH]; [done|]. simpl.
  destruct (decide (i = id)) as [->|Hne].
  - rewrite lookup_alter_eq. destruct (t !! id) as [r|] eqn:Hr; simpl; [|done].
    rewrite decide_True by eauto. f_equal. exact IH.
  - rewrite lookup_alter_ne by done. destruct (t !! i) as [r|] eqn:Hr; simpl; [|done].
    rewrite decide_False by (rewrite (Hid _ _ Hr); done). f_equal. exact IH.
Qed.

Lemma backlog_mark id d :
  db_wf d ->
  backlog (with_table (alter marked_at id (table d)) d)
  = filter (fun r => ID r <> id) (backlog d).
Proof.
  intros Hwf. unfold backlog, rows_by_id, with_table. cbn [table].
  rewrite dom_alter_L, omap_alter by (intros i r Hl; by destruct (Hwf i r Hl)).
  generalize (omap (fun i => table d !! i) (merge_sort Z.le (elements (dom (table d))))).
  intros l. induction l as [|r l IH]; [done|]. simpl.
  destruct (decide (ID r = id)) as [Hr|Hr].
  - rewrite !filter_cons. simpl. destruct (decide (Is_true (due (timestamptz now) r))).
    + rewrite filter_cons, decide_False by auto. done.
    + done.
  - rewrite !filter_cons. destruct (decide (Is_true (due (timestamptz now) r))); [|done].
    rewrite filter_cons, decide_True by done. by rewrite IH.
Qed.

Lemma backlog_mark_all ids : forall d, db_wf d ->
  backlog (mark_all ids d) = filter (fun r => ID r ∉ ids) (backlog d).
Proof.
  induction ids as [|id ids IH]; intros d Hwf; simpl.
  - symmetry. apply list_filter_all. set_solver.
  - rewrite IH by by apply mark_wf. rewrite backlog_mark, list_filter_filter by done.
    apply list_filter_iff. set_solver.
Qed.

Lemma backlog_sorted d : db_wf d -> StronglySorted by_id (backlog d).
Proof. intros. by apply StronglySorted_filter, rows_by_id_sorted. Qed.

(** A batch takes the front of the backlog. *)
Lemma backlog_batch k d : db_wf d ->
  backlog (mark_all (map ID (take k (backlog d))) d) = drop k (backlog d).
Proof.
  intros Hwf. rewrite backlog_mark_all by done. pose proof (backlog_sorted d Hwf) as Hs.
  trans (filter (fun r => ID r ∉ map ID (take k (backlog d)))
           (take k (backlog d) ++ drop k (backlog d))%list); [by rewrite take_drop|].
  rewrite list.filter_app.
  assert (filter (fun r => ID r ∉ map ID (take k (backlog d))) (take k (backlog d)) = []) as ->.
  { apply list_filter_none. intros r Hr Hn. apply Hn.
    by apply (list_elem_of_fmap_2 ID). }
  simpl. apply list_filter_all. intros r Hr (r' & Heq & Hr')%list_elem_of_fmap.
  pose proof (StronglySorted_take_drop by_id k _ r' r Hs Hr' Hr) as Hlt. unfold by_id in Hlt. lia.
Qed.

Lemma Run_loop_quiet wk : (0 < BatchSize (w_cfg wk))%Z ->
  forall fuel n (w : world db (list message)), db_wf (w_store w) ->
  (Z.of_nat (List.length (backlog (w_store w))) <= Z.of_nat fuel * BatchSize (w_cfg wk))%Z ->
  exists n' w', exec_prog (Run_loop wk fuel) all_quiet n w = (None, n', w')
    /\ w_store w' = mark_all (map ID (backlog (w_store w))) (w_store w)
    /\ w_broker w' = (w_broker w ++ map message_of (backlog (w_store w)))%list.
Proof.
  intros Hb. induction fuel as [|fuel IH]; intros n w Hwf Hlen.
  { assert (backlog (w_store w) = []) as -> by (apply nil_length_inv; lia).
    exists n, w. simpl. by rewrite app_nil_r. }
  cbn [Run_loop exec_prog all_quiet quiet_env e_ctx]. rewrite exec_prog_bind.
  destruct (ProcessBatch_quiet wk (S n) w Hb) as (n1 & es & ->).
  set (k := Z.to_nat (BatchSize (w_cfg wk))). set (w1 := mkWorld _ _ _).
  assert (Hrest : backlog (w_store w1) = drop k (backlog (w_store w))) by by apply backlog_batch.
  assert (Hfin : forall n2, exists n' w', exec_prog (Run_loop wk fuel) all_quiet n2 w1 = (None, n', w')
    /\ w_store w' = mark_all (map ID (backlog (w_store w))) (w_store w)
    /\ w_broker w' = (w_broker w ++ map message_of (backlog (w_store w)))%list).
  { intros n2. destruct (IH n2 w1) as (n' & w' & He & Hst & Hbr).
    { by apply mark_all_wf. } { rewrite Hrest, length_drop. lia. }
    exists n', w'. split; [done|]. rewrite Hst, Hbr, Hrest. simpl. split.
    - unfold mark_all. rewrite <- foldl_app, <- map_app, take_drop. done.
    - rewrite <- app_assoc, <- map_app, take_drop. done. }
  destruct (0 <? List.length (take k (backlog (w_store w))))%nat; [apply Hfin|].
  cbn [exec_prog e_ctx]. apply Hfin.
Qed.
End Drain.

(** C6: a backlog drains.  With a broker that confirms and a store that
    answers, [Run] publishes every due event exactly once, in insertion order,
    whatever the size of the backlog and of a batch: after as many rounds as the
    backlog has batches nothing due is left, and exactly the due events are
    marked. *)
Theorem Run_drains_backlog `{Postgres, ZerologFields} now cfg log fuel (w : world db (list message)) :
  let wk := NewWorker cfg log in
  db_wf (w_store w) ->
  (Z.of_nat (List.length (backlog now (w_store w))) <= Z.of_nat fuel * BatchSize (w_cfg wk))%Z ->
  exists n' w', exec_prog (Run wk fuel) (all_quiet now) 0 w = (None, n', w')
    /\ w_broker w' = (w_broker w ++ map message_of (backlog now (w_store w)))%list
    /\ backlog now (w_store w') = []
    /\ w_store w' = mark_all now (map ID (backlog now (w_store w))) (w_store w).
Proof.
  intros wk Hwf Hlen. cbn [Run exec_prog].
  assert (Hb : (0 < BatchSize (w_cfg wk))%Z).
  { simpl. unfold positive_or. destruct (_ <=? 0)%Z eqn:?; zbool; unfold DefaultBatchSize; lia. }
  match goal with |- context [exec_prog _ _ _ ?w0] =>
    destruct (Run_loop_quiet now wk Hb fuel 0 w0) as (n' & w' & He & Hst & Hbr) end; [done..|].
  exists n', w'. split; [done|]. split; [done|]. split; [|done]. rewrite Hst. simpl.
  pose proof (backlog_batch now (List.length (backlog now (w_store w))) (w_store w) Hwf) as Hd.
  by rewrite take_ge, drop_ge in Hd by lia.
Qed.

Lemma Run_drains_backlog_witness :
  exists n' w', @exec_prog _ _ (@table_store sample_postgres) _ _ queue_publisher _
      (@Run no_dur sample_worker 1) (all_quiet 6000) 0 sample_world = (None, n', w')
    /\ w_broker w' = [("booking.confirmed", "{1}")].
Proof.
  destruct (@Run_drains_backlog sample_postgres no_dur 6000
    {| PollInterval := 0; BatchSize := 0; InitialBackoff := 0; MaxBackoff := 0 |} Nop 1 sample_world)
    as (n' & w' & He & Hb & _ & _).
  - apply map_Forall_singleton. vm_compute. done.
  - vm_compute. discriminate.
  - exists n', w'. split; [exact He|exact Hb].
Defined.
