(* ===== verification/OutboxServices.v ===== *)
(** * The outboxes of the five services

    Every service has a database of its own with an outbox table, and its own copy of
    the queries (internal/db/sqlc), the repository and the adapter the worker is given
    (internal/repository).  The copies are the same text but for the imports; here the
    interfaces they implement are records of operations, with one value of each per
    service. *)

From stdpp Require Import base list gmap sets strings numbers.
From Stdlib Require Import ZArith Lia String.
From S2P Require Import Prelude GoStrings GoErrors OutboxStore OutboxWorker OutboxSystem.

Local Open Scope string_scope.

Inductive service := Identity | Tours | Booking | Admin | MailDispatcher.

#[export] Instance service_eq_dec : EqDecision service.
Proof. solve_decision. Defined.

(** ** The interfaces *)

(** [sqlc.Querier]. *)
Record Querier := mkQuerier {
  q_ClaimPending : exec -> Z -> db -> res (list Outbox) * db;
  q_CountPending : exec -> db -> res Z * db;
  q_DeletePublishedBefore : exec -> Z -> db -> res Z * db;
  q_Insert : exec -> InsertOutboxEventParams -> db -> res Outbox * db;
  q_MarkPublished : exec -> Z -> db -> res unit * db;
  q_Reschedule : exec -> RescheduleOutboxEventParams -> db -> res unit * db
}.

(** [repository.OutboxRepository]. *)
Record OutboxRepository := mkOutboxRepository {
  r_Insert : exec -> NewOutboxEvent -> db -> res OutboxEvent * db;
  r_ClaimPending : exec -> Z -> db -> res (list OutboxEvent) * db;
  r_MarkPublished : exec -> Z -> db -> option goerror * db;
  r_Reschedule : exec -> Z -> string -> Z -> db -> option goerror * db;
  r_CountPending : exec -> db -> res Z * db;
  r_DeletePublishedBefore : exec -> Z -> db -> res Z * db
}.

(** [repository.OutboxStore]: what the worker and the recorder are given. *)
Record StoreAdapter := mkStoreAdapter {
  a_Store : Store db exec;
  a_Inserter : Inserter db exec
}.

Section Services.
Context `{Postgres}.

(** ** The copies *)

Definition identity_queries : Querier := {|
  q_ClaimPending := ClaimPendingOutboxEvents; q_CountPending := CountPendingOutboxEvents;
  q_DeletePublishedBefore := DeletePublishedOutboxEventsBefore; q_Insert := InsertOutboxEvent;
  q_MarkPublished := MarkOutboxEventPublished; q_Reschedule := RescheduleOutboxEvent |}.

Definition identity_repository : OutboxRepository := {|
  r_Insert := outboxRepository_Insert; r_ClaimPending := outboxRepository_ClaimPending;
  r_MarkPublished := outboxRepository_MarkPublished; r_Reschedule := outboxRepository_Reschedule;
  r_CountPending := outboxRepository_CountPending;
  r_DeletePublishedBefore := outboxRepository_DeletePublishedBefore |}.

Definition identity_store : StoreAdapter := {|
  a_Store := {| ClaimPending := OutboxStore_ClaimPending; MarkPublished := OutboxStore_MarkPublished;
                Reschedule := OutboxStore_Reschedule; CountPending := OutboxStore_CountPending |};
  a_Inserter := OutboxStore_Insert |}.

Definition tours_queries : Querier := {|
  q_ClaimPending := ClaimPendingOutboxEvents; q_CountPending := CountPendingOutboxEvents;
  q_DeletePublishedBefore := DeletePublishedOutboxEventsBefore; q_Insert := InsertOutboxEvent;
  q_MarkPublished := MarkOutboxEventPublished; q_Reschedule := RescheduleOutboxEvent |}.

Definition tours_repository : OutboxRepository := {|
  r_Insert := outboxRepository_Insert; r_ClaimPending := outboxRepository_ClaimPending;
  r_MarkPublished := outboxRepository_MarkPublished; r_Reschedule := outboxRepository_Reschedule;
  r_CountPending := outboxRepository_CountPending;
  r_DeletePublishedBefore := outboxRepository_DeletePublishedBefore |}.

Definition tours_store : StoreAdapter := {|
  a_Store := {| ClaimPending := OutboxStore_ClaimPending; MarkPublished := OutboxStore_MarkPublished;
                Reschedule := OutboxStore_Reschedule; CountPending := OutboxStore_CountPending |};
  a_Inserter := OutboxStore_Insert |}.

Definition booking_queries : Querier := {|
  q_ClaimPending := ClaimPendingOutboxEvents; q_CountPending := CountPendingOutboxEvents;
  q_DeletePublishedBefore := DeletePublishedOutboxEventsBefore; q_Insert := InsertOutboxEvent;
  q_MarkPublished := MarkOutboxEventPublished; q_Reschedule := RescheduleOutboxEvent |}.

Definition booking_repository : OutboxRepository := {|
  r_Insert := outboxRepository_Insert; r_ClaimPending := outboxRepository_ClaimPending;
  r_MarkPublished := outboxRepository_MarkPublished; r_Reschedule := outboxRepository_Reschedule;
  r_CountPending := outboxRepository_CountPending;
  r_DeletePublishedBefore := outboxRepository_DeletePublishedBefore |}.

Definition booking_store : StoreAdapter := {|
  a_Store := {| ClaimPending := OutboxStore_ClaimPending; MarkPublished := OutboxStore_MarkPublished;
                Reschedule := OutboxStore_Reschedule; CountPending := OutboxStore_CountPending |};
  a_Inserter := OutboxStore_Insert |}.

Definition admin_queries : Querier := {|
  q_ClaimPending := ClaimPendingOutboxEvents; q_CountPending := CountPendingOutboxEvents;
  q_DeletePublishedBefore := DeletePublishedOutboxEventsBefore; q_Insert := InsertOutboxEvent;
  q_MarkPublished := MarkOutboxEventPublished; q_Reschedule := RescheduleOutboxEvent |}.

Definition admin_repository : OutboxRepository := {|
  r_Insert := outboxRepository_Insert; r_ClaimPending := outboxRepository_ClaimPending;
  r_MarkPublished := outboxRepository_MarkPublished; r_Reschedule := outboxRepository_Reschedule;
  r_CountPending := outboxRepository_CountPending;
  r_DeletePublishedBefore := outboxRepository_DeletePublishedBefore |}.

Definition admin_store : StoreAdapter := {|
  a_Store := {| ClaimPending := OutboxStore_ClaimPending; MarkPublished := OutboxStore_MarkPublished;
                Reschedule := OutboxStore_Reschedule; CountPending := OutboxStore_CountPending |};
  a_Inserter := OutboxStore_Insert |}.

Definition mail_queries : Querier := {|
  q_ClaimPending := ClaimPendingOutboxEvents; q_CountPending := CountPendingOutboxEvents;
  q_DeletePublishedBefore := DeletePublishedOutboxEventsBefore; q_Insert := InsertOutboxEvent;
  q_MarkPublished := MarkOutboxEventPublished; q_Reschedule := RescheduleOutboxEvent |}.

Definition mail_repository : OutboxRepository := {|
  r_Insert := outboxRepository_Insert; r_ClaimPending := outboxRepository_ClaimPending;
  r_MarkPublished := outboxRepository_MarkPublished; r_Reschedule := outboxRepository_Reschedule;
  r_CountPending := outboxRepository_CountPending;
  r_DeletePublishedBefore := outboxRepository_DeletePublishedBefore |}.

Definition mail_store : StoreAdapter := {|
  a_Store := {| ClaimPending := OutboxStore_ClaimPending; MarkPublished := OutboxStore_MarkPublished;
                Reschedule := OutboxStore_Reschedule; CountPending := OutboxStore_CountPending |};
  a_Inserter := OutboxStore_Insert |}.

(** ** By service *)

Definition queries_of (svc : service) : Querier :=
  match svc with
  | Identity => identity_queries | Tours => tours_queries | Booking => booking_queries
  | Admin => admin_queries | MailDispatcher => mail_queries
  end.

Definition repository_of (svc : service) : OutboxRepository :=
  match svc with
  | Identity => identity_repository | Tours => tours_repository | Booking => booking_repository
  | Admin => admin_repository | MailDispatcher => mail_repository
  end.

Definition store_of (svc : service) : StoreAdapter :=
  match svc with
  | Identity => identity_store | Tours => tours_store | Booking => booking_store
  | Admin => admin_store | MailDispatcher => mail_store
  end.

Definition service_store (svc : service) : Store db exec := a_Store (store_of svc).
Definition service_inserter (svc : service) : Inserter db exec := a_Inserter (store_of svc).
Definition service_pruner (svc : service) : Pruner db exec :=
  r_DeletePublishedBefore (repository_of svc).

(** Every one of them keeps the promise of the store. *)
Definition service_store_spec (svc : service) :
  @StoreSpec db exec (service_store svc) (service_inserter svc) (service_pruner svc) :=
  match svc with
  | Identity | Tours | Booking | Admin | MailDispatcher => table_store_spec
  end.

(** The layers of a service agree: its repository is its queries with their errors
    wrapped, and what its worker is given is its repository with the events renamed. *)
Theorem layers_agree (svc : service) :
  (forall x id d, r_MarkPublished (repository_of svc) x id d
     = wrapped ("marking outbox event " ++ Itoa id ++ " as published: ")
         (q_MarkPublished (queries_of svc) x id d))
  /\ (forall x limit d, @ClaimPending _ _ (service_store svc) x limit d
       = match r_ClaimPending (repository_of svc) x limit d with
         | (Err err, d) => (Err err, d)
         | (Ok events, d) => (Ok (map toOutboxEvent events), d)
         end)
  /\ (forall x limit d, (r_ClaimPending (repository_of svc) x limit d).2
       = (q_ClaimPending (queries_of svc) x limit d).2).
Proof.
  destruct svc; (split; [done|]); (split; [done|]); intros x limit d;
    cbn; unfold outboxRepository_ClaimPending; by destruct (ClaimPendingOutboxEvents x limit d) as [[] ?].
Qed.
End Services.
