(* ===== verification/Repository.v ===== *)
(** * The repositories of the services, as handles

    internal/repository/repository.go and internal/db/sqlc/db.go of the five services,
    which have the same text: a [Repository] holds the pool and the queries bound to a
    handle, the pool itself or a transaction, and [WithTx] hands out one bound to a
    transaction.  Here the handle is explicit, and what is issued through it acts on the
    committed data or on the changes of an open transaction; the model of a transaction as
    a private copy (Tx) is proved to be what a caller sees that keeps to its handle. *)

From stdpp Require Import base list gmap strings numbers.
From Stdlib Require Import ZArith Lia String.
From S2P Require Import Prelude GoStrings GoErrors Tx OutboxStore OutboxWorker OutboxSystem OutboxServices.

Local Open Scope string_scope.

(** ** db.go *)

(** What implements [DBTX]: the pool, or the transaction of a number. *)
Inductive DBTX := OnPool | OnTx (n : nat).

Record Queries := mkQueries { q_db : DBTX }.

Definition sqlc_New (db : DBTX) : Queries := {| q_db := db |}.

Definition Queries_WithTx (q : Queries) (tx : nat) : Queries := {| q_db := OnTx tx |}.

(** ** The database behind the handles *)

Section Handles.
Context {S : Type}.

(** The committed data, and the changes of every open transaction, in order. *)
Record dbstate := mkDbstate {
  committed : S;
  open_txs : gmap nat (list (S -> S));
  next_tx : nat
}.

Definition apply_all (changes : list (S -> S)) (s : S) : S := foldl (fun s f => f s) s changes.

Definition set_committed (s : S) (w : dbstate) : dbstate :=
  {| committed := s; open_txs := open_txs w; next_tx := next_tx w |}.
Definition set_open (t : gmap nat (list (S -> S))) (w : dbstate) : dbstate :=
  {| committed := committed w; open_txs := t; next_tx := next_tx w |}.

(** Statements through a handle: on the pool they are visible at once; in a transaction
    they see its changes over what is committed, and stay with it; on a transaction that
    has ended the driver refuses them. *)
Definition issue {R} (h : DBTX) (f : exec -> S -> R * S) (x : exec) (w : dbstate) : R * dbstate :=
  match h with
  | OnPool => let '(r, s) := f x (committed w) in (r, set_committed s w)
  | OnTx n =>
      match open_txs w !! n with
      | Some changes =>
          (fst (f x (apply_all changes (committed w))),
           set_open (<[n := (changes ++ [fun s => snd (f x s)])%list]> (open_txs w)) w)
      | None =>
          (fst (f {| x_fault := Rejected ErrTxClosed; x_now := x_now x; x_locked := x_locked x |}
                  (committed w)), w)
      end
  end.

(** [pool.Begin], and the two ends of a transaction. *)
Definition begin_tx (w : dbstate) : nat * dbstate :=
  (next_tx w, {| committed := committed w; open_txs := <[next_tx w := []]> (open_txs w);
                 next_tx := (next_tx w + 1)%nat |}).
Definition commit_tx (n : nat) (w : dbstate) : dbstate :=
  {| committed := apply_all (default [] (open_txs w !! n)) (committed w);
     open_txs := delete n (open_txs w); next_tx := next_tx w |}.
Definition rollback_tx (n : nat) (w : dbstate) : dbstate := set_open (delete n (open_txs w)) w.

(** [database.WithTx] on the pool: Tx.WithTx with the transaction named. *)
Definition database_WithTx (drv : Driver) (fn : nat -> dbstate -> outcome (option goerror) * dbstate)
    (w : dbstate) : outcome (option goerror) * dbstate :=
  match begin_answer drv with
  | Some err => (Returns (Some (Wrap "beginning the transaction: " err)), w)
  | None =>
      let '(n, w) := begin_tx w in
      match fn n w with
      | (Panics v, w) => (Panics v, rollback_tx n w)
      | (Returns (Some err), w) =>
          (Returns (Some (rollback_error err (rollback_answer drv))), rollback_tx n w)
      | (Returns None, w) =>
          match commit_answered drv with
          | Committed => (Returns None, commit_tx n w)
          | CommitRejected err =>
              (Returns (Some (rollback_error (Wrap "committing the transaction: " err)
                                (rollback_answer drv))), rollback_tx n w)
          | CommitLost err =>
              (Returns (Some (rollback_error (Wrap "committing the transaction: " err)
                                (rollback_answer drv))), commit_tx n w)
          end
      end
  end.

(** ** repository.go *)

(** The pool is one; the field says that the repository can begin transactions. *)
Inductive Pool := thePool.

Record Repository := mkRepository { pool : Pool; queries : Queries }.

Definition New (p : Pool) : Repository := {| pool := p; queries := sqlc_New OnPool |}.

Definition WithTx (r : Repository) (drv : Driver)
    (fn : Repository -> dbstate -> outcome (option goerror) * dbstate)
    : dbstate -> outcome (option goerror) * dbstate :=
  database_WithTx drv (fun tx => fn {| pool := pool r; queries := sqlc_New (OnTx tx) |}).
End Handles.

Arguments dbstate : clear implicits.

(** [Outbox]: the operations of the outbox through the handle of the repository, on a
    database that also holds the service's own tables [A]. *)
Section Bound.
Context `{Postgres} {A : Type}.

Definition on_outbox {R} (f : exec -> db -> R * db) (x : exec) (s : A * db) : R * (A * db) :=
  let '(r, d) := f x s.2 in (r, (s.1, d)).

Record BoundOutbox := mkBoundOutbox {
  b_Insert : NewOutboxEvent -> exec -> dbstate (A * db) -> res OutboxEvent * dbstate (A * db);
  b_ClaimPending : Z -> exec -> dbstate (A * db) -> res (list OutboxEvent) * dbstate (A * db);
  b_MarkPublished : Z -> exec -> dbstate (A * db) -> option goerror * dbstate (A * db);
  b_Reschedule : Z -> string -> Z -> exec -> dbstate (A * db) -> option goerror * dbstate (A * db);
  b_CountPending : exec -> dbstate (A * db) -> res Z * dbstate (A * db);
  b_DeletePublishedBefore : Z -> exec -> dbstate (A * db) -> res Z * dbstate (A * db)
}.

Definition Outbox (ops : OutboxRepository) (r : Repository) : BoundOutbox :=
  let h := q_db (queries r) in
  {| b_Insert e := issue h (on_outbox (fun x => r_Insert ops x e));
     b_ClaimPending limit := issue h (on_outbox (fun x => r_ClaimPending ops x limit));
     b_MarkPublished id := issue h (on_outbox (fun x => r_MarkPublished ops x id));
     b_Reschedule id why at_ := issue h (on_outbox (fun x => r_Reschedule ops x id why at_));
     b_CountPending := issue h (on_outbox (r_CountPending ops));
     b_DeletePublishedBefore before :=
       issue h (on_outbox (fun x => r_DeletePublishedBefore ops x before)) |}.

(** ** The five copies *)

(** What the two files of a service export. *)
Record SqlcPackage := mkSqlcPackage { s_New : DBTX -> Queries; s_WithTx : Queries -> nat -> Queries }.

Record RepositoryPackage := mkRepositoryPackage {
  p_New : Pool -> Repository;
  p_Outbox : Repository -> BoundOutbox;
  p_WithTx : Repository -> Driver ->
    (Repository -> dbstate (A * db) -> outcome (option goerror) * dbstate (A * db)) ->
    dbstate (A * db) -> outcome (option goerror) * dbstate (A * db)
}.

Definition identity_sqlc : SqlcPackage := {| s_New := sqlc_New; s_WithTx := Queries_WithTx |}.
Definition tours_sqlc : SqlcPackage := {| s_New := sqlc_New; s_WithTx := Queries_WithTx |}.
Definition booking_sqlc : SqlcPackage := {| s_New := sqlc_New; s_WithTx := Queries_WithTx |}.
Definition admin_sqlc : SqlcPackage := {| s_New := sqlc_New; s_WithTx := Queries_WithTx |}.
Definition mail_sqlc : SqlcPackage := {| s_New := sqlc_New; s_WithTx := Queries_WithTx |}.

Definition identity_package : RepositoryPackage :=
  {| p_New := New; p_Outbox := Outbox identity_repository; p_WithTx := WithTx |}.
Definition tours_package : RepositoryPackage :=
  {| p_New := New; p_Outbox := Outbox tours_repository; p_WithTx := WithTx |}.
Definition booking_package : RepositoryPackage :=
  {| p_New := New; p_Outbox := Outbox booking_repository; p_WithTx := WithTx |}.
Definition admin_package : RepositoryPackage :=
  {| p_New := New; p_Outbox := Outbox admin_repository; p_WithTx := WithTx |}.
Definition mail_package : RepositoryPackage :=
  {| p_New := New; p_Outbox := Outbox mail_repository; p_WithTx := WithTx |}.

Definition package_of (svc : service) : RepositoryPackage :=
  match svc with
  | Identity => identity_package | Tours => tours_package | Booking => booking_package
  | Admin => admin_package | MailDispatcher => mail_package
  end.

Definition sqlc_of (svc : service) : SqlcPackage :=
  match svc with
  | Identity => identity_sqlc | Tours => tours_sqlc | Booking => booking_sqlc
  | Admin => admin_sqlc | MailDispatcher => mail_sqlc
  end.
End Bound.

Arguments RepositoryPackage : clear implicits.

(** ** A caller that keeps to its handle *)

Section Scripts.
Context {S : Type}.

(** Statements, each chosen by the answers to those before it, and an end. *)
Inductive script :=
| Finish (o : outcome (option goerror))
| Issue {R : Type} (f : exec -> S -> R * S) (x : exec) (k : R -> script).

Fixpoint run_script (h : DBTX) (sc : script) (w : dbstate S) : outcome (option goerror) * dbstate S :=
  match sc with
  | Finish o => (o, w)
  | Issue f x k => let '(r, w) := issue h f x w in run_script h (k r) w
  end.

(** The same statements on a copy of the data. *)
Fixpoint run_private (sc : script) (s : S) : outcome (option goerror) * S :=
  match sc with
  | Finish o => (o, s)
  | Issue f x k => let '(r, s) := f x s in run_private (k r) s
  end.

(** Transactions are numbered in the order they begin. *)
Definition dbstate_wf (w : dbstate S) : Prop := forall n, next_tx w <= n -> open_txs w !! n = None.

Lemma apply_all_app l1 l2 (s : S) : apply_all (l1 ++ l2) s = apply_all l2 (apply_all l1 s).
Proof. apply foldl_app. Qed.

(** In a transaction the statements are gathered, and see what they would on a copy. *)
Lemma run_script_tx n sc : forall changes (w : dbstate S), open_txs w !! n = Some changes ->
  exists changes',
    run_script (OnTx n) sc w
    = (fst (run_private sc (apply_all changes (committed w))),
       set_open (<[n := changes']> (open_txs w)) w)
    /\ apply_all changes' (committed w) = snd (run_private sc (apply_all changes (committed w))).
Proof.
  induction sc as [o|R f x k IH]; intros changes w Hn; cbn [run_script run_private].
  - exists changes. split; [|done]. unfold set_open. rewrite insert_id by done. by destruct w.
  - unfold issue. rewrite Hn. destruct (f x (apply_all changes (committed w))) as [r s] eqn:Hf. cbn [fst].
    destruct (IH r (changes ++ [fun s => snd (f x s)])%list
                (set_open (<[n := (changes ++ [fun s => snd (f x s)])%list]> (open_txs w)) w))
      as (changes' & Hr & Ha); [cbn; by rewrite lookup_insert_eq|].
    rewrite Hr. cbn [committed set_open open_txs next_tx] in *. rewrite apply_all_app in *. cbn in *.
    rewrite Hf in *. cbn in *. exists changes'. split; [|done].
    unfold set_open. cbn. by rewrite insert_insert_eq.
Qed.

Lemma begun_wf (w : dbstate S) : dbstate_wf w -> delete (next_tx w) (<[next_tx w := []]> (open_txs w)) = open_txs w.
Proof. intros Hw. rewrite delete_insert_eq. apply delete_id, Hw. lia. Qed.

(** What [WithTx] leaves after a script: the outcome and the data of a transaction on a
    private copy, and the other transactions as they were. *)
Lemma WithTx_script r drv sc (w : dbstate S) : dbstate_wf w ->
  let '(o, w') := WithTx r drv (fun repo => run_script (q_db (queries repo)) sc) w in
  let '(o', _, s') := Tx.WithTx drv (run_private sc) (committed w) in
  o = o' /\ committed w' = s' /\ open_txs w' = open_txs w.
Proof.
  intros Hw. unfold WithTx, database_WithTx, Tx.WithTx. cbn [begin_tx fst snd q_db queries sqlc_New].
  destruct (begin_answer drv) as [e|]; [done|].
  destruct (run_script_tx (next_tx w) sc [] (snd (begin_tx w))) as (changes & Hr & Ha);
    [cbn; by rewrite lookup_insert_eq|].
  cbn [snd begin_tx] in Hr. rewrite Hr. cbn in Ha |- *.
  destruct (run_private sc (committed w)) as [o s] eqn:Hp. cbn [fst snd] in *.
  destruct o as [[err|]|v]; cbn; rewrite ?insert_insert_eq, ?delete_insert_eq.
  - split_and!; [done|done|]. by apply delete_id, Hw.
  - destruct (commit_answered drv); cbn; rewrite ?lookup_insert_eq; cbn;
      (split_and!; [done|done|]); rewrite ?insert_insert_eq, ?delete_insert_eq; by apply delete_id, Hw.
  - split_and!; [done|done|]. by apply delete_id, Hw.
Qed.
End Scripts.

(** C12: what a caller of [Repository.WithTx] sees is a transaction on a private copy, in
    every service.  For any statements issued through the repository [fn] is given, of the
    outbox or of the service's own tables, each chosen by the answers before it, and
    whatever the driver and the server answer: the outcome and the data left behind are
    those of [database.WithTx] on a copy of the committed data (Tx), and transactions that
    were open stay as they were. *)
Theorem repository_transaction_is_private `{Postgres} {A} (svc : service) r drv
    (sc : @script (A * db)) (w : dbstate (A * db)) :
  dbstate_wf w ->
  let '(o, w') := p_WithTx (package_of svc) r drv (fun repo => run_script (q_db (queries repo)) sc) w in
  let '(o', _, s') := Tx.WithTx drv (run_private sc) (committed w) in
  o = o' /\ committed w' = s' /\ open_txs w' = open_txs w.
Proof. destruct svc; apply WithTx_script. Qed.

(** a transaction begun on the repository [fn] was given is not part of the one it
    was given for: [WithTx] starts it on the pool.  What it commits is visible, and stays,
    although the outer function fails and its transaction is rolled back. *)
Theorem nested_transaction_outlives_outer `{Postgres} {A} (svc : service) r outer
    (sc : @script (A * db)) (w : dbstate (A * db)) s err :
  dbstate_wf w -> begin_answer outer = None ->
  run_private sc (committed w) = (Returns None, s) ->
  let calm := {| begin_answer := None; commit_answered := Committed; rollback_answer := None |} in
  let '(o, w') := p_WithTx (package_of svc) r outer (fun repo w =>
      let '(_, w) := p_WithTx (package_of svc) repo calm
                       (fun inner => run_script (q_db (queries inner)) sc) w in
      (Returns (Some err), w)) w in
  (exists err', o = Returns (Some err')) /\ committed w' = s.
Proof.
  intros Hw Hb Hs calm.
  assert (Hgoal : forall svc', p_WithTx (A := A) (package_of svc') = WithTx) by (by intros []). rewrite Hgoal. clear Hgoal.
  unfold WithTx at 1, database_WithTx at 1. rewrite Hb. cbn [begin_tx].
  set (w1 := {| committed := committed w; open_txs := <[next_tx w := []]> (open_txs w);
                next_tx := (next_tx w + 1)%nat |}).
  assert (Hw1 : dbstate_wf w1).
  { intros n Hn. unfold w1 in *. cbn [next_tx open_txs] in *. rewrite lookup_insert_ne by lia. apply Hw. lia. }
  pose proof (WithTx_script {| pool := pool r; queries := sqlc_New (OnTx (next_tx w)) |} calm sc w1 Hw1) as Hin.
  destruct (WithTx _ calm _ w1) as [o w2]. unfold Tx.WithTx in Hin. cbn [begin_answer calm committed w1] in Hin.
  rewrite Hs in Hin. destruct Hin as (_ & Hc & _). split; [by eexists|done].
Qed.

(** ** Runs *)

Definition booking_event : NewOutboxEvent :=
  {| ne_Aggregate := "booking"; ne_AggregateID := "b1"; ne_RoutingKey := "booking.confirmed";
     ne_Payload := "{1}" |}.

Definition record_booking : @script (nat * db) :=
  Issue (on_outbox (fun x => outboxRepository_Insert (H := sample_postgres) x booking_event)) (calm 1000)
    (fun r => Finish (Returns (match r with Ok _ => None | Err e => Some e end))).

Definition empty_state : dbstate (nat * db) :=
  {| committed := (0%nat, empty_db); open_txs := ∅; next_tx := 0 |}.

Lemma empty_state_wf : dbstate_wf empty_state.
Proof. intros n _. apply lookup_empty. Qed.

Definition calm_answers : Driver :=
  {| begin_answer := None; commit_answered := Committed; rollback_answer := None |}.

Lemma repository_transaction_is_private_witness :
  let '(o, w') := p_WithTx (package_of (H := sample_postgres) Booking) (New thePool) calm_answers
                    (fun repo => run_script (q_db (queries repo)) record_booking) empty_state in
  o = Returns None /\ size (table (committed w').2) = 1%nat /\ open_txs w' = ∅.
Proof.
  pose proof (repository_transaction_is_private (H := sample_postgres) Booking (New thePool) calm_answers
                record_booking empty_state empty_state_wf) as Hp.
  destruct (p_WithTx _ _ _ _ _) as [o w'].
  destruct (Tx.WithTx calm_answers (run_private record_booking) (committed empty_state)) as [[o' l] s'] eqn:Hs.
  destruct Hp as (-> & -> & Ho). vm_compute in Hs. injection Hs as <- _ <-.
  split; [reflexivity|]. split; [vm_compute; reflexivity|exact Ho].
Defined.

Lemma nested_transaction_outlives_outer_witness :
  let '(o, w') := p_WithTx (package_of (H := sample_postgres) Booking) (New thePool) calm_answers
    (fun repo w =>
       let '(_, w) := p_WithTx (package_of (H := sample_postgres) Booking) repo calm_answers
                        (fun inner => run_script (q_db (queries inner)) record_booking) w in
       (Returns (Some ErrTxClosed), w)) empty_state in
  (exists err', o = Returns (Some err')) /\ committed w' = snd (run_private record_booking (0%nat, empty_db)).
Proof.
  apply (nested_transaction_outlives_outer (H := sample_postgres) Booking (New thePool) calm_answers
           record_booking empty_state (snd (run_private record_booking (0%nat, empty_db))) ErrTxClosed).
  - exact empty_state_wf.
  - reflexivity.
  - vm_compute. reflexivity.
Defined.
