(* ===== verification/OutboxAmqp.v ===== *)
(** * The outbox over the AMQP publisher

    The worker of pkg/outbox publishes through the publisher of pkg/amqp.  Here
    the state machine of AmqpPublisher.v is put behind the contract [Publisher]:
    one call is a publication, what happens while its caller is blocked, and what
    it returns.  The machine keeps the promise [PublisherSpec] twice: in any
    circumstances a nil result means that the broker acknowledged the message, or that
    an earlier call on the same publisher gave up at its deadline; without deadlines it
    means the first.  The theorems on the outbox follow for the two together. *)

From stdpp Require Import base list gmap sets strings numbers.
From Stdlib Require Import ZArith Lia String.
From S2P Require Import Prelude GoStrings GoErrors Backoff Logger AmqpRetry AmqpConsumer AmqpPublisher OutboxStore OutboxWorker OutboxSystem OutboxServices.

Local Open Scope string_scope.

(** ** A call of Publish *)

(** What can happen while a caller waits, and between calls. *)
Inductive happening :=
| HConfirm (ack : bool)
| HReceive
| HTimeout (ctxErr : goerror)
| HClose
| HReturn (key : string).

Definition event_of (h : happening) : pevent :=
  match h with
  | HConfirm ack => EvConfirm ack
  | HReceive => EvReceive
  | HTimeout err => EvTimeout err
  | HClose => EvClose
  | HReturn key => EvReturn key
  end.

(** The circumstances of a call: the context it is made in, what happens before
    it, whether handing the message over fails, and what happens until it returns. *)
Record circumstances := mkCircumstances {
  y_ctx : Context;
  y_before : list happening;
  y_fails : option goerror;
  y_during : list happening
}.

Definition events_of (y : circumstances) (key payload : string) : list pevent :=
  (map event_of (y_before y)
   ++ match y_fails y with
      | Some err => [EvPublishFails key err]
      | None => EvPublish (y_ctx y) key payload None :: map event_of (y_during y)
      end)%list.

(** [Publish]: the result recorded last.  Circumstances that cannot happen in the
    state are answered as a closed connection, with nothing changed. *)
Definition amqp_publish (conn : Connection) (y : circumstances) (key payload : string) (s : pstate)
    : option goerror * pstate :=
  match run conn (events_of y key payload) s with
  | Some s' =>
      match p_waiting s', list.last (p_results s') with
      | None, Some (_, r) => (r, s')
      | _, _ => (Some ErrConnectionClosed, s)
      end
  | None => (Some ErrConnectionClosed, s)
  end.

(** The workers' publishers: each process opens its own, with a channel of its own,
    and is its only caller.  A process that starts again has a new number. *)
Definition machine (b : gmap nat pstate) (i : nat) : pstate := default p_init (b !! i).

Definition amqp_publish_on (conn : Connection) (i : nat) (y : circumstances) (key payload : string)
    (b : gmap nat pstate) : option goerror * gmap nat pstate :=
  let '(r, s) := amqp_publish conn y key payload (machine b i) in (r, <[i := s]> b).

Definition no_deadline (h : happening) : bool := match h with HTimeout _ => false | _ => true end.

(** The broker took charge of a message: it acknowledged the publication of it to the
    exchange. *)
Definition acked_message (ex : string) (s : pstate) (m : message) : Prop :=
  exists t p, (1 <= t)%nat /\ t ∈ p_acked s
    /\ p_sent s !! (t - 1)%nat = Some (CPublish ex m.1 true p) /\ p_body p = m.2.

Definition acked_by_broker (ex : string) (b : gmap nat pstate) (m : message) : Prop :=
  exists i, acked_message ex (machine b i) m.

(** A message was handed to the broker and [Publish] returned nil for it, on a publisher
    of which an earlier call gave up at its deadline. *)
Definition late_message (ex : string) (s : pstate) (m : message) : Prop :=
  exists t p, (1 <= t)%nat /\ (t, None) ∈ p_results s /\ gave_up s t
    /\ p_sent s !! (t - 1)%nat = Some (CPublish ex m.1 true p) /\ p_body p = m.2.

Definition sent_after_deadline (ex : string) (b : gmap nat pstate) (m : message) : Prop :=
  exists i, late_message ex (machine b i) m.

(** ** The machine during a call *)

Lemma run_app conn evs1 evs2 s :
  run conn (evs1 ++ evs2) s = match run conn evs1 s with Some s' => run conn evs2 s' | None => None end.
Proof.
  revert s. induction evs1 as [|e evs1 IH]; intros s; [done|]. cbn [app run].
  destruct (step conn e s); [apply IH|done].
Qed.

(** What a publisher did is never undone. *)
Definition grows (s s' : pstate) : Prop :=
  p_sent s `prefix_of` p_sent s' /\ p_acked s ⊆ p_acked s' /\ p_results s ⊆ p_results s'.

#[export] Instance grows_preorder : PreOrder grows.
Proof. split; [by intros ?|]. intros s1 s2 s3 (? & ? & ?) (? & ? & ?). split; [by etrans|]. by split; etrans. Qed.

Lemma run_grows conn evs : forall s s', run conn evs s = Some s' -> grows s s'.
Proof.
  induction evs as [|e evs IH]; intros s s' Hr; cbn [run] in Hr; [by simplify_eq|].
  destruct (step conn e s) as [s1|] eqn:Hst; [|done]. etrans; [|by apply IH].
  destruct (step_grows _ _ _ _ Hst) as (? & ? & _). split; [|done].
  destruct e; simpl in Hst; repeat case_match; simplify_eq/=; try done; by eexists.
Qed.

(** Messages are numbered by their delivery tag. *)
Definition numbered (s : pstate) : Prop := p_next s = S (List.length (p_sent s)).

Lemma run_numbered conn evs : forall s s', run conn evs s = Some s' -> numbered s -> numbered s'.
Proof.
  unfold numbered. induction evs as [|e evs IH]; intros s s' Hr Hs; cbn [run] in Hr; [by simplify_eq|].
  destruct (step conn e s) as [s1|] eqn:Hst; [|done]. eapply IH; [done|].
  destruct e; simpl in Hst; repeat case_match; simplify_eq/=; rewrite ?length_app; simpl; lia.
Qed.

(** While nobody publishes, at most the call that is waiting ends. *)
Lemma quiet_run conn hs : forall s s', run conn (map event_of hs) s = Some s' ->
  p_waiting s' = p_waiting s /\ p_results s' = p_results s
  \/ exists t key r, p_waiting s = Some (t, key) /\ p_waiting s' = None
       /\ p_results s' = (p_results s ++ [(t, r)])%list.
Proof.
  induction hs as [|h hs IH]; intros s s' Hr; cbn [map run] in Hr; [injection Hr as <-; auto|].
  destruct (step conn (event_of h) s) as [s1|] eqn:Hst; [|done].
  assert (H1 : p_waiting s1 = p_waiting s /\ p_results s1 = p_results s
               \/ exists t key r, p_waiting s = Some (t, key) /\ p_waiting s1 = None
                    /\ p_results s1 = (p_results s ++ [(t, r)])%list).
  { destruct h; cbn [event_of step] in Hst; repeat case_match; simplify_eq/=; eauto 10. }
  destruct H1 as [[Hw Hr1]|(t & key & r & Hw & Hw1 & Hr1)]; [rewrite <- Hw, <- Hr1; by apply IH|].
  right. exists t, key, r. destruct (IH _ _ Hr) as [[Hw2 Hr2]|(t' & key' & r' & Hw2 & _)]; [|congruence].
  rewrite Hw2, Hr2. done.
Qed.

(** ** What a call promises *)

Section Call.
Context (conn : Connection).

Let ex := Exchange (conn_cfg conn).

(** Between calls. *)
Definition machine_wf (s : pstate) : Prop := accountable s /\ numbered s /\ p_waiting s = None.

Lemma p_init_wf : machine_wf p_init.
Proof. split; [apply p_init_accountable|done]. Qed.

Lemma acked_message_mono s s' m : grows s s' -> acked_message ex s m -> acked_message ex s' m.
Proof.
  intros ([l Hs] & Ha & _) (t & p & ? & Ht & Hl & ?). exists t, p. rewrite Hs.
  split_and!; [done|by apply Ha|by apply lookup_app_l_Some|done].
Qed.

Lemma late_message_mono s s' m : grows s s' -> late_message ex s m -> late_message ex s' m.
Proof.
  intros ([l Hs] & _ & Hr) (t & p & ? & Ht & Hg & Hl & ?). exists t, p. rewrite Hs.
  split_and!; [done|by apply Hr|apply (gave_up_mono s s' t t Hr (le_n t) Hg)|by apply lookup_app_l_Some|done].
Qed.

(** A nil result is that of the message of the call. *)
Lemma nil_result_sent y key payload s s' t :
  p_waiting s = None -> numbered s -> run conn (events_of y key payload) s = Some s' ->
  p_waiting s' = None -> list.last (p_results s') = Some (t, None) ->
  exists p, (1 <= t)%nat /\ p_sent s' !! (t - 1)%nat = Some (CPublish ex key true p) /\ p_body p = payload.
Proof.
  intros Hw Hnum Hr Hw' Hl. unfold events_of in Hr. rewrite run_app in Hr.
  destruct (run conn (map event_of (y_before y)) s) as [s1|] eqn:Hr1; [|done].
  pose proof (run_numbered _ _ _ _ Hr1 Hnum) as Hnum1. unfold numbered in Hnum1.
  destruct (quiet_run _ _ _ _ Hr1) as [[Hw1 _]|(? & ? & ? & ? & _)]; [|congruence].
  rewrite Hw in Hw1. destruct (y_fails y) as [err|].
  { cbn [run step] in Hr. rewrite Hw1 in Hr. injection Hr as <-. cbn in Hl. by rewrite last_snoc in Hl. }
  cbn [run step] in Hr. rewrite Hw1 in Hr. destruct (p_closed s1); [done|].
  destruct (run_grows _ _ _ _ Hr) as ([l Hs] & _). cbn in Hs.
  destruct (quiet_run _ _ _ _ Hr) as [[Hq _]|(t' & key' & r & [= <- <-] & _ & Hq)]; [cbn in Hq; congruence|].
  cbn in Hq. rewrite Hq, last_snoc in Hl. injection Hl as <- ->.
  exists (publishing (y_ctx y) payload None ""). split; [lia|]. split; [|done].
  replace (p_next s1 - 1)%nat with (List.length (p_sent s1)) by lia.
  rewrite Hs, <- app_assoc. by apply list_lookup_middle.
Qed.

(** A call in any circumstances: with a nil result the broker acknowledged the message,
    or an earlier call on this publisher had given up. *)
Lemma amqp_publish_sound y key payload s :
  machine_wf s ->
  let '(r, s') := amqp_publish conn y key payload s in
  machine_wf s' /\ grows s s'
  /\ (r = None -> acked_message ex s' (key, payload) \/ late_message ex s' (key, payload)).
Proof.
  intros Hwf. pose proof Hwf as (Hacc & Hnum & Hw). unfold amqp_publish.
  destruct (run conn (events_of y key payload) s) as [s'|] eqn:Hr; [|by split_and!].
  destruct (p_waiting s') eqn:Hw'; [by split_and!|].
  destruct (list.last (p_results s')) as [[t r]|] eqn:Hl; [|by split_and!].
  pose proof (run_accountable _ _ _ _ Hr Hacc) as Hacc'.
  split; [split_and!; [done|by eapply run_numbered|done]|]. split; [by eapply run_grows|].
  intros ->. destruct (nil_result_sent _ _ _ _ _ _ Hw Hnum Hr Hw' Hl) as (p & Ht & Hs & Hp).
  assert (Hin : (t, None) ∈ p_results s') by (apply last_Some in Hl as [l ->]; set_solver).
  destruct Hacc' as (_ & Hres & _). destruct (Hres t Hin) as [?|?]; [left|right]; exists t, p; by split_and!.
Qed.

(** A call that meets no deadline. *)
Record prompt := mkPrompt {
  y_of :> circumstances;
  y_prompt : forallb no_deadline (y_before y_of) && forallb no_deadline (y_during y_of) = true
}.

(** No call gave up. *)
Definition patient (s : pstate) : Prop := forall t key err, ~ (t, on_done key err) ∈ p_results s.

Lemma prompt_events (y : prompt) key payload :
  Forall (fun e => is_timeout e = false) (events_of y key payload).
Proof.
  assert (Hq : forall hs, forallb no_deadline hs = true ->
            Forall (fun e => is_timeout e = false) (map event_of hs)).
  { induction hs as [|[] hs IH]; simpl; intros ?; constructor; auto; done. }
  destruct y as [y Hy]. destruct (andb_prop _ _ Hy) as [Hb Hd]. unfold events_of. cbn [y_of].
  apply Forall_app_2; [by apply Hq|]. destruct (y_fails y); repeat constructor. by apply Hq.
Qed.

Lemma amqp_publish_patient (y : prompt) key payload s :
  patient s -> patient (amqp_publish conn y key payload s).2.
Proof.
  intros Hs. unfold amqp_publish. destruct (run conn (events_of y key payload) s) as [s'|] eqn:Hr; [|done].
  destruct (p_waiting s'); [done|]. destruct (list.last (p_results s')) as [[]|]; [|done].
  exact (run_no_deadline conn _ s s' (prompt_events y key payload) Hr Hs).
Qed.

Lemma patient_not_late s m : patient s -> ~ late_message ex s m.
Proof. intros Hs (t & p & _ & _ & (t' & key & err & _ & Ht) & _). by eapply Hs. Qed.

(** ** The publishers of the workers *)

Lemma machine_insert_eq b i s : machine (<[i := s]> b) i = s.
Proof. unfold machine. by rewrite lookup_insert_eq. Qed.

Lemma machine_insert_ne b i j s : i <> j -> machine (<[i := s]> b) j = machine b j.
Proof. intros. unfold machine. by rewrite lookup_insert_ne. Qed.

(** A property of every publisher, and one of some publisher. *)
Lemma machines_insert (P : pstate -> Prop) b i s :
  (forall j, P (machine b j)) -> P s -> forall j, P (machine (<[i := s]> b) j).
Proof.
  intros Hb Hs j. destruct (base.decide (i = j)) as [->|Hne];
    [by rewrite machine_insert_eq|by rewrite machine_insert_ne].
Qed.

Lemma some_machine_insert (P : pstate -> Prop) b i s :
  (P (machine b i) -> P s) -> (exists j, P (machine b j)) -> exists j, P (machine (<[i := s]> b) j).
Proof.
  intros Hs [j Hj]. exists j. destruct (base.decide (i = j)) as [->|Hne];
    [rewrite machine_insert_eq; auto|by rewrite machine_insert_ne].
Qed.

#[export] Instance amqp_publishers : Publisher (gmap nat pstate) (nat * circumstances) :=
  fun '(i, y) => amqp_publish_on conn i y.

(** What the publisher of pkg/amqp keeps of the promise, deadlines included. *)
#[export] Instance amqp_publishers_spec : PublisherSpec (gmap nat pstate) (nat * circumstances).
Proof.
  refine {| broker_wf := fun b => forall i, machine_wf (machine b i);
            taken := fun b m => acked_by_broker ex b m \/ sent_after_deadline ex b m |}.
  intros [i y] key payload b Hwf. unfold PublishMessage, amqp_publishers, amqp_publish_on.
  pose proof (amqp_publish_sound y key payload (machine b i) (Hwf i)) as Hok.
  destruct (amqp_publish conn y key payload (machine b i)) as [r s']. destruct Hok as (Hs' & Hg & Hn).
  split; [by apply (machines_insert machine_wf)|]. split.
  - intros Hr. destruct (Hn Hr); [left|right]; exists i; by rewrite machine_insert_eq.
  - intros m [Hm|Hm]; [left|right].
    + apply (some_machine_insert (fun s => acked_message ex s m)); [|done]. by apply acked_message_mono.
    + apply (some_machine_insert (fun s => late_message ex s m)); [|done]. by apply late_message_mono.
Defined.

(** Without a deadline it is kept in full. *)
#[export] Instance prompt_publishers : Publisher (gmap nat pstate) (nat * prompt) :=
  fun '(i, y) => amqp_publish_on conn i (y_of y).

#[export] Instance prompt_publishers_spec : PublisherSpec (gmap nat pstate) (nat * prompt).
Proof.
  refine {| broker_wf := fun b => forall i, machine_wf (machine b i) /\ patient (machine b i);
            taken := acked_by_broker ex |}.
  intros [i y] key payload b Hwf. unfold PublishMessage, prompt_publishers, amqp_publish_on.
  destruct (Hwf i) as [Hwf1 Hpat]. pose proof (amqp_publish_sound y key payload _ Hwf1) as Hok.
  pose proof (amqp_publish_patient y key payload _ Hpat) as Hpat'.
  destruct (amqp_publish conn y key payload (machine b i)) as [r s']. destruct Hok as (Hs' & Hg & Hn).
  split; [apply (machines_insert (fun s => machine_wf s /\ patient s)); auto|]. split.
  - intros Hr. exists i. rewrite machine_insert_eq. destruct (Hn Hr) as [?|Hlate]; [done|].
    by apply patient_not_late in Hlate.
  - intros m Hm. apply (some_machine_insert (fun s => acked_message ex s m)); [|done].
    by apply acked_message_mono.
Defined.
End Call.

(** ** The two together *)

Section EndToEnd.
Context `{Postgres, ZerologFields} (conn : Connection).

Abbreviation outbox_start ws logs :=
  (sys_init ws {| w_store := empty_db; w_broker := ∅; w_logs := logs |}).

(** A run of a service's outbox, with a publisher of its own per worker. *)
Definition outbox_runs (svc : service) (evs : list (sysev exec (nat * circumstances)))
    (s : sys db (gmap nat pstate)) : sys db (gmap nat pstate) :=
  @sys_run _ _ (service_store svc) (service_inserter svc) (service_pruner svc) _ _
    (amqp_publishers conn) _ evs s.

(** The runs in which no publication meets a deadline. *)
Definition outbox_run (svc : service) (evs : list (sysev exec (nat * prompt)))
    (s : sys db (gmap nat pstate)) : sys db (gmap nat pstate) :=
  @sys_run _ _ (service_store svc) (service_inserter svc) (service_pruner svc) _ _
    (prompt_publishers conn) _ evs s.

Lemma outbox_runs_inv svc ws logs evs :
  sys_inv (SS := table_store_spec) (PS := amqp_publishers_spec conn) (outbox_runs svc evs (outbox_start ws logs)).
Proof.
  assert (Hinit : sys_inv (SS := table_store_spec) (PS := amqp_publishers_spec conn) (outbox_start ws logs)).
  { apply sys_init_inv; [apply map_Forall_empty|intros i; apply p_init_wf|]. intros i m Hm. done. }
  destruct svc; exact (proj1 (@sys_run_inv _ _ _ _ _ table_store_spec _ _ _ (amqp_publishers_spec conn) _
    evs _ Hinit)).
Qed.

Lemma outbox_run_inv svc ws logs evs :
  sys_inv (SS := table_store_spec) (PS := prompt_publishers_spec conn) (outbox_run svc evs (outbox_start ws logs)).
Proof.
  assert (Hinit : sys_inv (SS := table_store_spec) (PS := prompt_publishers_spec conn) (outbox_start ws logs)).
  { apply sys_init_inv; [apply map_Forall_empty| |intros i m Hm; done].
    intros i. split; [apply p_init_wf|]. by intros ? ? ? ?%not_elem_of_nil. }
  destruct svc; exact (proj1 (@sys_run_inv _ _ _ _ _ table_store_spec _ _ _ (prompt_publishers_spec conn) _
    evs _ Hinit)).
Qed.

(** What is stored stays pending, or was taken. *)
Lemma stored_pending_or_taken svc ws logs evs1 evs2 id key payload f :
  let s1 := outbox_runs svc evs1 (outbox_start ws logs) in
  let s2 := outbox_runs svc evs2 s1 in
  table_contents (w_store (sys_world s1)) !! id = Some (key, payload, f) ->
  table_contents (w_store (sys_world s2)) !! id = Some (key, payload, false)
  \/ acked_by_broker (Exchange (conn_cfg conn)) (w_broker (sys_world s2)) (key, payload)
  \/ sent_after_deadline (Exchange (conn_cfg conn)) (w_broker (sys_world s2)) (key, payload).
Proof.
  intros s1 s2 Hl. pose proof (outbox_runs_inv svc ws logs evs1) as Hinv. fold s1 in Hinv.
  destruct f.
  - right. destruct Hinv as (Hwf & Hb & Hpt & Hps). pose proof (Hpt id (key, payload) Hl) as Ht.
    destruct svc; exact (proj2 (@sys_run_inv _ _ _ _ _ table_store_spec _ _ _ (amqp_publishers_spec conn) _
      evs2 _ (conj Hwf (conj Hb (conj Hpt Hps)))) _ Ht).
  - destruct svc; exact (@sys_run_pending _ _ _ _ _ table_store_spec _ _ _ (amqp_publishers_spec conn) _
      evs2 _ id (key, payload) Hinv Hl).
Qed.

(** C3: a row is marked published only for a message the broker took, or may have
    taken.  From an empty table, in every state of the outbox of any service over the
    publisher of pkg/amqp, the message of a row marked published, with its key and
    payload and for the configured exchange, was acknowledged by the broker on one of
    the publishers; or it was handed to the broker and its [Publish] returned nil on a
    publisher of which an earlier publication had given up at its deadline or been
    cancelled.  It holds for any number of workers, each with a publisher of its own, any
    interleaving of their calls with the transactions, the pruning, crashes and restarts,
    and whatever statements fail, with or without effect, and whatever confirms, refusals,
    deadlines and lost connections the publications meet. *)
Theorem marked_rows_were_taken svc ws logs evs id key payload :
  let s := outbox_runs svc evs (outbox_start ws logs) in
  table_contents (w_store (sys_world s)) !! id = Some (key, payload, true) ->
  exists i t p, (1 <= t)%nat
    /\ p_sent (machine (w_broker (sys_world s)) i) !! (t - 1)%nat
       = Some (CPublish (Exchange (conn_cfg conn)) key true p)
    /\ p_body p = payload
    /\ (t ∈ p_acked (machine (w_broker (sys_world s)) i)
        \/ (t, None) ∈ p_results (machine (w_broker (sys_world s)) i)
           /\ gave_up (machine (w_broker (sys_world s)) i) t).
Proof.
  intros s Hl. destruct (outbox_runs_inv svc ws logs evs) as (_ & _ & Hpt & _).
  destruct (Hpt id (key, payload) Hl) as [(i & t & p & ? & ? & ? & ?)|(i & t & p & ? & ? & ? & ? & ?)];
    exists i, t, p; split_and!; auto.
Qed.

(** C4: no event is lost by the outbox.  An event that is stored at some point of a run
    is at every later point still stored and pending under its id, with its key and
    payload; or the broker acknowledged its message; or its message was handed to the
    broker and reported as published on a publisher of which an earlier publication had
    given up at its deadline or been cancelled.  Crashes, failed statements, other
    workers, refused publications and pruning never make an unsent event disappear. *)
Theorem recorded_events_never_lost svc ws logs evs1 evs2 id key payload f :
  let s1 := outbox_runs svc evs1 (outbox_start ws logs) in
  let s2 := outbox_runs svc evs2 s1 in
  table_contents (w_store (sys_world s1)) !! id = Some (key, payload, f) ->
  table_contents (w_store (sys_world s2)) !! id = Some (key, payload, false)
  \/ acked_by_broker (Exchange (conn_cfg conn)) (w_broker (sys_world s2)) (key, payload)
  \/ sent_after_deadline (Exchange (conn_cfg conn)) (w_broker (sys_world s2)) (key, payload).
Proof. exact (stored_pending_or_taken svc ws logs evs1 evs2 id key payload f). Qed.

(** C5: the outbox of every service over the publisher of pkg/amqp.  The machine
    implements what the outbox relies on, so that a row is marked published only when
    the broker itself acknowledged its message, published to the configured exchange, on
    one of the publishers: from an empty
    table, for any number of workers, each with a publisher of its own, any
    interleaving of their calls with the transactions, the pruning, crashes, failing
    statements, confirms, refusals and lost connections, as long as no publication runs
    into its deadline. *)
Theorem marked_rows_were_acked svc ws logs evs id key payload :
  let s := outbox_run svc evs
             (sys_init ws {| w_store := empty_db; w_broker := ∅; w_logs := logs |}) in
  table_contents (w_store (sys_world s)) !! id = Some (key, payload, true) ->
  exists i t p, (1 <= t)%nat /\ t ∈ p_acked (machine (w_broker (sys_world s)) i)
    /\ p_sent (machine (w_broker (sys_world s)) i) !! (t - 1)%nat
       = Some (CPublish (Exchange (conn_cfg conn)) key true p)
    /\ p_body p = payload.
Proof.
  intros s Hl. destruct (outbox_run_inv svc ws logs evs) as (_ & _ & Hpt & _).
  exact (Hpt id (key, payload) Hl).
Qed.
End EndToEnd.

(** ** Runs *)

Definition answered (during : list happening) : circumstances := {|
  y_ctx := no_context; y_before := []; y_fails := None; y_during := during |}.

Definition acked_call : prompt := {| y_of := answered [HConfirm true; HReceive]; y_prompt := eq_refl |}.

Definition acked_env (now : Z) : env exec (nat * prompt) :=
  {| e_store := calm now; e_broker := (0, acked_call); e_now := now; e_ctx := None |}.

Definition one_acked_event : list (sysev exec (nat * prompt)) :=
  (EvRecord (calm 1000) (new_booking "{1}") :: repeat (EvWorker 0 (acked_env 2000)) 6)%list.

Lemma marked_rows_were_acked_witness :
  let s := @outbox_run sample_postgres no_dur sample_connection Booking one_acked_event
             (@sys_init _ _ no_dur [(sample_worker, 5)]
                {| w_store := empty_db; w_broker := ∅; w_logs := [] |}) in
  table_contents (w_store (sys_world s)) !! 1%Z = Some ("booking.confirmed", "{1}", true)
  /\ exists i t p, (1 <= t)%nat /\ t ∈ p_acked (machine (w_broker (sys_world s)) i)
       /\ p_sent (machine (w_broker (sys_world s)) i) !! (t - 1)%nat
          = Some (CPublish (Exchange (conn_cfg sample_connection)) "booking.confirmed" true p)
       /\ p_body p = "{1}".
Proof.
  intros s.
  assert (Hl : table_contents (w_store (sys_world s)) !! 1%Z = Some ("booking.confirmed", "{1}", true))
    by (vm_compute; reflexivity).
  split; [exact Hl|].
  exact (@marked_rows_were_acked sample_postgres no_dur sample_connection Booking [(sample_worker, 5)] []
           one_acked_event 1%Z "booking.confirmed" "{1}" Hl).
Defined.

(** Publications that may run into a deadline. *)
Definition hasty_env (y : circumstances) (now : Z) : env exec (nat * circumstances) :=
  {| e_store := calm now; e_broker := (0, y); e_now := now; e_ctx := None |}.

Definition deadline : goerror := Sentinel "context.DeadlineExceeded" "context deadline exceeded".

(** The first publication is not confirmed in time; its confirmation comes before the
    second is made, which is never confirmed. *)
Definition late_confirm : circumstances := {|
  y_ctx := no_context; y_before := [HConfirm true]; y_fails := None; y_during := [HReceive] |}.

Definition two_events : list (sysev exec (nat * circumstances)) :=
  (EvRecord (calm 1000) (new_booking "{1}") :: EvRecord (calm 1001) (new_booking "{2}")
   :: repeat (EvWorker 0 (hasty_env (answered [HTimeout deadline]) 2000)) 8
   ++ repeat (EvWorker 0 (hasty_env late_confirm 2000)) 3)%list.

Abbreviation hasty_start :=
  (@sys_init db (gmap nat pstate) no_dur [(sample_worker, 5)]
     {| w_store := empty_db; w_broker := ∅; w_logs := [] |}).

Definition hasty_run : sys db (gmap nat pstate) :=
  @outbox_runs sample_postgres no_dur sample_connection Booking two_events hasty_start.

(** The second row is marked; its message was sent after a deadline. *)
Lemma marked_rows_were_taken_witness :
  let s := @outbox_runs sample_postgres no_dur sample_connection Booking two_events hasty_start in
  table_contents (w_store (sys_world s)) !! 2%Z = Some ("booking.confirmed", "{2}", true)
  /\ exists i t p, (1 <= t)%nat
       /\ p_sent (machine (w_broker (sys_world s)) i) !! (t - 1)%nat
          = Some (CPublish (Exchange (conn_cfg sample_connection)) "booking.confirmed" true p)
       /\ p_body p = "{2}"
       /\ (t ∈ p_acked (machine (w_broker (sys_world s)) i)
           \/ (t, None) ∈ p_results (machine (w_broker (sys_world s)) i)
              /\ gave_up (machine (w_broker (sys_world s)) i) t).
Proof.
  intros s.
  assert (Hl : table_contents (w_store (sys_world s)) !! 2%Z
               = Some ("booking.confirmed", "{2}", true)) by (vm_compute; reflexivity).
  split; [exact Hl|].
  exact (@marked_rows_were_taken sample_postgres no_dur sample_connection Booking [(sample_worker, 5)] []
           two_events 2%Z "booking.confirmed" "{2}" Hl).
Defined.

(** The first row is rescheduled and stays pending; its publication had no answer. *)
Lemma recorded_events_never_lost_witness :
  let s1 := @outbox_runs sample_postgres no_dur sample_connection Booking (firstn 2 two_events) hasty_start in
  let s2 := @outbox_runs sample_postgres no_dur sample_connection Booking (skipn 2 two_events) s1 in
  table_contents (w_store (sys_world s1)) !! 1%Z = Some ("booking.confirmed", "{1}", false)
  /\ (table_contents (w_store (sys_world s2)) !! 1%Z = Some ("booking.confirmed", "{1}", false)
      \/ acked_by_broker (Exchange (conn_cfg sample_connection)) (w_broker (sys_world s2))
           ("booking.confirmed", "{1}")
      \/ sent_after_deadline (Exchange (conn_cfg sample_connection)) (w_broker (sys_world s2))
           ("booking.confirmed", "{1}")).
Proof.
  intros s1 s2.
  assert (Hl : table_contents (w_store (sys_world s1)) !! 1%Z = Some ("booking.confirmed", "{1}", false))
    by (vm_compute; reflexivity).
  split; [exact Hl|].
  exact (@recorded_events_never_lost sample_postgres no_dur sample_connection Booking [(sample_worker, 5)] []
           (firstn 2 two_events) (skipn 2 two_events) 1%Z "booking.confirmed" "{1}" false Hl).
Defined.

(** The second case of [marked_rows_were_taken] happens.  The first publication runs into
    its deadline and its event is rescheduled; the broker's late confirmation of it is
    taken for that of the second, so the second row is marked published, and no worker
    claims it again, although the broker has acknowledged its message on no publisher. *)
Theorem deadline_marks_unacked_row :
  table_contents (w_store (sys_world hasty_run)) !! 2%Z = Some ("booking.confirmed", "{2}", true)
  /\ forall ex, ~ acked_by_broker ex (w_broker (sys_world hasty_run)) ("booking.confirmed", "{2}").
Proof.
  split; [vm_compute; reflexivity|]. set (b := w_broker (sys_world hasty_run)).
  assert (Hb : b = <[0 := machine b 0]> ∅) by (vm_compute; reflexivity).
  assert (Ha : p_acked (machine b 0) = [1]) by (vm_compute; reflexivity).
  assert (Hf : match p_sent (machine b 0) !! 0 with
               | Some (CPublish _ _ _ p) => p_body p = "{1}" | _ => False end)
    by (vm_compute; reflexivity).
  intros ex (i & t & p & Ht & Hacked & Hl & Hp). destruct (base.decide (0 = i)) as [<-|Hne].
  - rewrite Ha in Hacked. apply list_elem_of_singleton in Hacked as ->.
    change (1 - 1)%nat with 0 in Hl. rewrite Hl in Hf. cbn in Hp. congruence.
  - rewrite Hb, machine_insert_ne in Hacked by done. by apply not_elem_of_nil in Hacked.
Qed.
