(* ===== verification/Pipeline.v ===== *)
(** * From the transaction to the handler

    The whole way of an event: the outbox table with its workers and publishers
    (OutboxAmqp), the broker, and the consumers of a queue (AmqpBroker), as one system.
    What joins them is RabbitMQ's promise about publisher confirms: a publication is
    acknowledged once it has been accepted by every queue it is routed to, and a topic
    exchange routes a message to the queues bound with its own key. *)

From stdpp Require Import base list gmap sets strings numbers relations.
From Stdlib Require Import ZArith Lia String.
From S2P Require Import Prelude GoStrings GoErrors Backoff Logger AmqpRetry AmqpConsumer AmqpBroker MemoryBroker AmqpPublisher OutboxStore OutboxWorker OutboxSystem OutboxServices OutboxAmqp.

Local Open Scope string_scope.

(** C2: no message is lost between the broker and the consumers of a queue, counting
    equal messages apart.  Once a consumer was opened and the broker carried out its
    declarations, for any number of consumers, answers of the library, handlers, channels
    lost at any frame and messages that expire, in any order: however often a body has
    arrived in the queue, it has been handled with a nil result, is ready in the queue, its
    retry queue or its dead-letter queue, or is delivered on a live channel and not
    settled, at least as often. *)
Theorem arrived_messages_are_never_lost `{BS : BrokerSpec B, Channel, GoPlatform}
    cfg spec log uuid s c s' i b b1 es st body :
  Name spec <> "" ->
  NewConsumer cfg spec log uuid s = (Ok c, s') ->
  run_frames i (new_calls s s') b = Some b1 ->
  qrun (Name spec) es (q_start b1) = Some st ->
  copies (eq body) (q_arrived st)
  <= copies (eq body) (q_handled st)
     + copies (fun m => body_of m = body)
         (ready (q_broker st) (Name spec) ++ ready (q_broker st) (RetryQueueName (Name spec))
          ++ ready (q_broker st) (DLQName (Name spec)))
     + delivered_live (Name spec) st body.
Proof.
  intros Hn Hc Hr Hq. destruct (NewConsumer_topology _ _ _ _ _ _ _ _ _ _ Hn Hc Hr) as [Ht _].
  destruct (qrun_ok _ _ _ _ Hq (q_start_ok _ _ Ht)) as (_ & _ & Hacc).
  etrans; [apply Hacc|apply accounted_visible].
Qed.

(** ** The system *)

Section Pipeline.
Context `{Postgres, ZerologFields, BS : BrokerSpec B, GoPlatform} (svc : service) (conn : Connection).

(** The queue, and the exchange and key of its bindings. *)
Context (queue : string) (bindings : list (string * string)).

Record pipe := mkPipe { pi_outbox : sys db (gmap nat pstate); pi_queue : qsys B }.

(** What a publisher was told the broker accepted is in the queue, if it was published
    under one of its bindings. *)
Definition confirms_routed (s : sys db (gmap nat pstate)) (q : qsys B) : Prop :=
  forall ex key body, (ex, key) ∈ bindings ->
    acked_by_broker ex (w_broker (sys_world s)) (key, body) -> body ∈ q_arrived q.

(** A step of the outbox (a call of a worker, a restart, a transaction that records an
    event, a pruning) with what happens at the broker meanwhile, or a step of the
    consumers and the broker. *)
Inductive pipe_step : pipe -> pipe -> Prop :=
| outbox_moves e s q es q' :
    qrun queue es q = Some q' -> confirms_routed (outbox_runs conn svc [e] s) q' ->
    pipe_step (mkPipe s q) (mkPipe (outbox_runs conn svc [e] s) q')
| consumers_move l s q q' :
    qexec queue l q = Some q' -> pipe_step (mkPipe s q) (mkPipe s q').

Lemma qexec_arrived l (q q' : qsys B) : qexec queue l q = Some q' -> q_arrived q ⊆ q_arrived q'.
Proof.
  destruct l; cbn [qexec]; repeat case_match; intros [= <-]; cbn; set_solver.
Qed.

Lemma pipe_step_confirms p p' : pipe_step p p' ->
  confirms_routed (pi_outbox p) (pi_queue p) -> confirms_routed (pi_outbox p') (pi_queue p').
Proof.
  destruct 1 as [|l s q q' Hq]; [done|]. cbn. intros Hc ex key body Hb Ha.
  apply (qexec_arrived _ _ _ Hq). by eapply Hc.
Qed.

Lemma pipe_step_queue p p' : pipe_step p p' ->
  qsys_ok queue (pi_queue p) -> qsys_ok queue (pi_queue p').
Proof. destruct 1; cbn; eauto using qrun_ok, qexec_ok. Qed.

(** A run of the whole is, on the side of the outbox, a run of the outbox. *)
Lemma pipe_outbox p p' : rtc pipe_step p p' ->
  exists evs, pi_outbox p' = outbox_runs conn svc evs (pi_outbox p).
Proof.
  induction 1 as [|p1 p2 p3 Hs _ [evs IH]]; [by exists []|].
  rewrite IH. destruct Hs as [e s q es q' _ _|]; [|by exists evs]. by exists (e :: evs).
Qed.

Lemma pipe_inv p p' : rtc pipe_step p p' ->
  qsys_ok queue (pi_queue p) /\ confirms_routed (pi_outbox p) (pi_queue p) ->
  qsys_ok queue (pi_queue p') /\ confirms_routed (pi_outbox p') (pi_queue p').
Proof. induction 1; [done|]. intros []. eauto using pipe_step_queue, pipe_step_confirms. Qed.

(** Nothing recorded, nothing published, the queue declared. *)
Definition pipe_start (ws : list (Worker * nat)) (b : B) : pipe :=
  mkPipe (sys_init ws {| w_store := empty_db; w_broker := ∅; w_logs := [] |}) (q_start b).

Lemma pipe_start_confirms ws b : confirms_routed (pi_outbox (pipe_start ws b)) (pi_queue (pipe_start ws b)).
Proof.
  intros ex key body _ (i & t & p & _ & Ht & _). cbn in Ht. unfold machine in Ht.
  rewrite lookup_empty in Ht. by apply not_elem_of_nil in Ht.
Qed.

(** Runs that can be evaluated: with the messages that arrive given in advance, it is
    enough that whatever was sent has arrived. *)
Definition sent_arrived (s : sys db (gmap nat pstate)) (q : qsys B) : bool :=
  forallb (fun '(_, m) =>
    forallb (fun c => match c with
                      | CPublish _ _ _ p => bool_decide (p_body p ∈ q_arrived q)
                      | _ => true
                      end) (p_sent m)) (map_to_list (w_broker (sys_world s))).

Lemma sent_arrived_routed s q : sent_arrived s q = true -> confirms_routed s q.
Proof.
  intros Hs ex key body _ (i & t & p & _ & Ht & Hl & Hb). unfold machine in *.
  destruct (w_broker (sys_world s) !! i) as [m|] eqn:Hm; [|by apply not_elem_of_nil in Ht].
  unfold sent_arrived in Hs. rewrite forallb_forall in Hs.
  assert (Hin : In (i, m) (map_to_list (w_broker (sys_world s))))
    by (by apply list_elem_of_In, elem_of_map_to_list).
  specialize (Hs _ Hin). cbn beta iota in Hs. rewrite forallb_forall in Hs.
  assert (Hc : In (CPublish ex key true p) (p_sent m)) by (apply list_elem_of_In; by eapply list_elem_of_lookup_2).
  specialize (Hs _ Hc). cbn beta iota in Hs. apply bool_decide_eq_true in Hs. cbn in Hb. by rewrite <- Hb.
Qed.

Definition pipe_event : Type := (sysev exec (nat * circumstances) * list qlabel) + qlabel.

Fixpoint pipe_run (es : list pipe_event) (p : pipe) : option pipe :=
  match es with
  | [] => Some p
  | inl (e, ls) :: es' =>
      let s := outbox_runs conn svc [e] (pi_outbox p) in
      match qrun queue ls (pi_queue p) with
      | Some q => if sent_arrived s q then pipe_run es' (mkPipe s q) else None
      | None => None
      end
  | inr l :: es' =>
      match qexec queue l (pi_queue p) with
      | Some q => pipe_run es' (mkPipe (pi_outbox p) q)
      | None => None
      end
  end.

Lemma pipe_run_steps es : forall p p', pipe_run es p = Some p' -> rtc pipe_step p p'.
Proof.
  induction es as [|[[e ls]|l] es IH]; intros [s q] p'; cbn [pipe_run pi_outbox pi_queue].
  - by intros [= <-].
  - destruct (qrun queue ls q) as [q'|] eqn:Hq; [|done]. destruct (sent_arrived _ q') eqn:Hs; [|done].
    intros Hr. eapply rtc_l; [|by apply IH]. eapply outbox_moves; [exact Hq|]. by apply sent_arrived_routed.
  - destruct (qexec queue l q) as [q'|] eqn:Hq; [|done]. intros Hr.
    eapply rtc_l; [|by apply IH]. by eapply consumers_move.
Qed.
End Pipeline.

(** The bindings of a queue. *)
Definition bindings_of `{Broker B} (queue : string) (b : B) : list (string * string) :=
  fst <$> filter (fun x => x.2 = queue) (bound b).

(** C1: an event is never lost on its way from the transaction to the handler.  A
    consumer was opened for the queue with the event's routing key among its keys, on the
    exchange the publishers use.  Then an event stored in the outbox of any service is at
    every later point pending in the table; or its payload has been handled with a nil
    result, or is ready in the queue, its retry queue or its dead-letter queue, or is
    delivered on a live channel and not settled; or its message was handed to the broker
    and reported as published on a publisher of which an earlier publication had given up
    at its deadline or been cancelled.  It holds for any number of workers, publishers
    and consumers, any interleaving of their calls with transactions, prunings, crashes
    and restarts, failing statements, refused and unanswered publications, deadlines, lost
    connections and channels, failing handlers and expiring messages. *)
Theorem stored_event_reaches_handler `{Postgres, ZerologFields, BS : BrokerSpec B, Channel, GoPlatform}
    svc conn cfg spec log uuid st c st' i b b1 ws p1 p2 id key payload f :
  Name spec <> "" ->
  NewConsumer cfg spec log uuid st = (Ok c, st') ->
  run_frames i (new_calls st st') b = Some b1 ->
  key ∈ RoutingKeys spec -> Exchange cfg = Exchange (conn_cfg conn) ->
  let step := pipe_step svc conn (Name spec) (bindings_of (Name spec) b1) in
  rtc step (pipe_start ws b1) p1 -> rtc step p1 p2 ->
  table_contents (w_store (sys_world (pi_outbox p1))) !! id = Some (key, payload, f) ->
  table_contents (w_store (sys_world (pi_outbox p2))) !! id = Some (key, payload, false)
  \/ payload ∈ q_handled (pi_queue p2)
  \/ (exists q m, q ∈ [Name spec; RetryQueueName (Name spec); DLQName (Name spec)]
                  /\ m ∈ ready (q_broker (pi_queue p2)) q /\ body_of m = payload)
  \/ (exists j t m, l_alive (link_of (pi_queue p2) j) = true
                    /\ unacked (q_broker (pi_queue p2)) !! (j, t) = Some (Name spec, m)
                    /\ body_of m = payload)
  \/ sent_after_deadline (Exchange cfg) (w_broker (sys_world (pi_outbox p2))) (key, payload).
Proof.
  intros Hn Hc Hr Hk Hex step Hr1 Hr2 Hl.
  destruct (NewConsumer_topology _ _ _ _ _ _ _ _ _ _ Hn Hc Hr) as [Ht Hb].
  assert (Hr12 : rtc step (pipe_start ws b1) p2) by (by transitivity p1).
  destruct (pipe_inv _ _ _ _ _ _ Hr12
              (conj (q_start_ok _ _ Ht) (pipe_start_confirms _ ws b1))) as [Hok Hcr].
  destruct (pipe_outbox _ _ _ _ _ _ Hr1) as [evs1 E1]. destruct (pipe_outbox _ _ _ _ _ _ Hr2) as [evs2 E2].
  rewrite E1 in Hl, E2. cbn [pi_outbox pipe_start] in *.
  destruct (stored_pending_or_taken conn svc ws [] evs1 evs2 id key payload f Hl) as [Hp|[Ha|Hd]];
    [left; by rewrite E2|right|do 4 right; by rewrite Hex, E2].
  assert (Harr : payload ∈ q_arrived (pi_queue p2));
    [|destruct (arrived_somewhere _ _ _ Hok Harr) as [?|[?|?]]; auto].
  apply (Hcr (Exchange cfg) key).
  - unfold bindings_of. apply list_elem_of_fmap. exists (Exchange cfg, key, Name spec). split; [done|].
    apply list_elem_of_filter. split; [done|by apply Hb].
  - by rewrite Hex, E2.
Qed.

(** ** Runs *)

Definition mail_spec : QueueSpec :=
  {| Name := "mail"; RoutingKeys := ["booking.confirmed"]; Durable := true |}.

Definition mail_consumer : Consumer := {|
  c_cfg := c_cfg sample_consumer; c_spec := mail_spec; c_log := sample_log; c_tag := "mail-1" |}.

Definition opened : chst :=
  snd (@NewConsumer quiet_channel (c_cfg mail_consumer) mail_spec sample_log "1" fresh).

Definition no_broker : mbroker := {| mb_queues := ∅; mb_bound := []; mb_unacked := ∅ |}.

Definition mail_broker : mbroker :=
  default no_broker (run_frames 0 (new_calls fresh opened) no_broker).

Definition mail_message : Message :=
  {| m_key := "booking.confirmed"; m_pub := publishing no_context "{1}" None "" |}.

Definition handle_on (i : nat) (result : option goerror) : qlabel :=
  QHandle i quiet_channel mail_consumer no_context (fun _ => result) (fun _ => false).

(** The same message twice.  The handler fails and the channel is lost with the retry and
    the acknowledgement on it; a copy is delivered again, fails again, and reaches the
    retry queue; the other copy is handled. *)
Definition mail_run : list qlabel :=
  [QArrive mail_message; QArrive mail_message; QDeliver 0 1 mail_message; handle_on 0 (Some boom);
   QLost 0; QDeliver 1 1 mail_message; handle_on 1 (Some boom); QFrame 1; QFrame 1;
   QDeliver 1 2 mail_message; handle_on 1 None; QFrame 1].

Definition mail_state : qsys mbroker :=
  default (q_start mail_broker) (@qrun _ _ amd64 "mail" mail_run (q_start mail_broker)).

Lemma arrived_messages_are_never_lost_witness :
  q_arrived mail_state = ["{1}"; "{1}"] /\ q_handled mail_state = ["{1}"]
  /\ body_of <$> ready (q_broker mail_state) (RetryQueueName "mail") = ["{1}"]
  /\ 2 <= copies (eq "{1}") (q_handled mail_state)
          + copies (fun m => body_of m = "{1}")
              (ready (q_broker mail_state) "mail" ++ ready (q_broker mail_state) (RetryQueueName "mail")
               ++ ready (q_broker mail_state) (DLQName "mail"))
          + delivered_live "mail" mail_state "{1}".
Proof.
  split; [vm_compute; reflexivity|]. split; [vm_compute; reflexivity|]. split; [vm_compute; reflexivity|].
  apply (@arrived_messages_are_never_lost mbroker memory_broker memory_broker_spec quiet_channel amd64
           (c_cfg mail_consumer) mail_spec sample_log "1" fresh mail_consumer opened 0 no_broker
           mail_broker mail_run mail_state "{1}").
  - discriminate.
  - vm_compute; reflexivity.
  - vm_compute; reflexivity.
  - vm_compute; reflexivity.
Defined.

(** A booking is recorded, published by a worker, delivered and handled. *)
Definition recorded : list pipe_event := [inl (EvRecord (calm 1000) (new_booking "{1}"), [])].

Definition journey : list pipe_event :=
  (inr (QArrive mail_message) :: repeat (inl (EvWorker 0 (hasty_env acked_call 2000), [])) 6
   ++ [inr (QDeliver 0 1 mail_message); inr (handle_on 0 None); inr (QFrame 0)])%list.

Definition sample_pipe (es : list pipe_event) (p : @pipe mbroker) : @pipe mbroker :=
  default p (@pipe_run sample_postgres no_dur mbroker memory_broker amd64 Booking sample_connection "mail" es p).

Definition pipe0 : @pipe mbroker := @pipe_start no_dur mbroker [(sample_worker, 5)] mail_broker.
Definition pipe1 : @pipe mbroker := sample_pipe recorded pipe0.
Definition pipe2 : @pipe mbroker := sample_pipe journey pipe1.

Lemma sample_pipe_steps es p :
  (match @pipe_run sample_postgres no_dur mbroker memory_broker amd64 Booking sample_connection "mail" es p with
   | Some _ => true | None => false end) = true ->
  rtc (@pipe_step sample_postgres no_dur mbroker memory_broker amd64 Booking sample_connection "mail"
         (bindings_of "mail" mail_broker)) p (sample_pipe es p).
Proof.
  unfold sample_pipe. destruct (pipe_run _ _ _ es p) as [p'|] eqn:E; [|done]. intros _.
  by eapply pipe_run_steps.
Qed.

Lemma stored_event_reaches_handler_witness :
  table_contents (w_store (sys_world (pi_outbox pipe1))) !! 1%Z = Some ("booking.confirmed", "{1}", false)
  /\ table_contents (w_store (sys_world (pi_outbox pipe2))) !! 1%Z = Some ("booking.confirmed", "{1}", true)
  /\ q_handled (pi_queue pipe2) = ["{1}"]
  /\ (table_contents (w_store (sys_world (pi_outbox pipe2))) !! 1%Z = Some ("booking.confirmed", "{1}", false)
      \/ "{1}" ∈ q_handled (pi_queue pipe2)
      \/ (exists q m, q ∈ ["mail"; RetryQueueName "mail"; DLQName "mail"]
                      /\ m ∈ ready (q_broker (pi_queue pipe2)) q /\ body_of m = "{1}")
      \/ (exists j t m, l_alive (link_of (pi_queue pipe2) j) = true
                        /\ unacked (q_broker (pi_queue pipe2)) !! (j, t) = Some ("mail", m) /\ body_of m = "{1}")
      \/ sent_after_deadline (Exchange (c_cfg mail_consumer)) (w_broker (sys_world (pi_outbox pipe2)))
           ("booking.confirmed", "{1}")).
Proof.
  assert (Hl : table_contents (w_store (sys_world (pi_outbox pipe1))) !! 1%Z
               = Some ("booking.confirmed", "{1}", false)) by (vm_compute; reflexivity).
  split; [exact Hl|]. split; [vm_compute; reflexivity|]. split; [vm_compute; reflexivity|].
  apply (@stored_event_reaches_handler sample_postgres no_dur mbroker memory_broker memory_broker_spec
           quiet_channel amd64 Booking sample_connection (c_cfg mail_consumer) mail_spec sample_log "1"
           fresh mail_consumer opened 0 no_broker mail_broker [(sample_worker, 5)] pipe1 pipe2
           1%Z "booking.confirmed" "{1}" false).
  - discriminate.
  - vm_compute; reflexivity.
  - vm_compute; reflexivity.
  - apply list_elem_of_singleton; reflexivity.
  - reflexivity.
  - apply (sample_pipe_steps recorded pipe0). vm_compute; reflexivity.
  - apply (sample_pipe_steps journey pipe1). vm_compute; reflexivity.
  - exact Hl.
Defined.
