(* ===== verification/Health.v ===== *)
(** * pkg/health and the self probe of pkg/bootstrap

    The registry of dependency checks, the readiness report and the HTTP
    answers built from it (health.go, handler.go), and the probe a container
    runs against its own service (bootstrap/healthcheck.go). *)

From stdpp Require Import base list strings numbers.
From Stdlib Require Import ZArith Lia String.
From S2P Require Import Prelude GoStrings GoErrors.

Local Open Scope string_scope.

(** ** health.go *)

Inductive Status := StatusUp | StatusDown.

#[export] Instance Status_eq_dec : EqDecision Status.
Proof. solve_decision. Defined.

Definition Status_string (s : Status) : string :=
  match s with StatusUp => "up" | StatusDown => "down" end.

(** A probe, given the timeout of its context, answers after some time. *)
Record Check := mkCheck {
  Name : string;
  Probe : Z -> option goerror * Z;
  Critical : bool
}.

Record Result := mkResult {
  r_Name : string;
  r_Status : Status;
  r_Critical : bool;
  r_Latency : string;
  r_Error : string;
  r_duration : Z
}.

Record Report := mkReport {
  rep_Status : Status;
  rep_Service : string;
  rep_Version : string;
  rep_Checks : list Result
}.

Definition Ready (r : Report) : bool := bool_decide (rep_Status r = StatusUp).

Record Registry := mkRegistry {
  checks : list Check;
  service : string;
  version : string;
  timeout : Z
}.

Definition DefaultTimeout : Z := 2 * Second.

Definition NewRegistry (service version : string) : Registry :=
  {| checks := []; service := service; version := version; timeout := DefaultTimeout |}.

Definition Register (check : Check) (r : Registry) : Registry :=
  {| checks := checks r ++ [check]; service := service r; version := version r;
     timeout := timeout r |}.

Definition SetTimeout (t : Z) (r : Registry) : Registry :=
  {| checks := checks r; service := service r; version := version r; timeout := t |}.

Definition run (check : Check) (timeout : Z) : Result :=
  let '(err, elapsed) := Probe check timeout in
  {| r_Name := Name check;
     r_Status := match err with Some _ => StatusDown | None => StatusUp end;
     r_Critical := Critical check;
     r_Latency := Duration_String elapsed;
     r_Error := match err with Some e => Error e | None => "" end;
     r_duration := elapsed |}.

(** The loop over the results, with its [break]. *)
Fixpoint overall (results : list Result) : Status :=
  match results with
  | [] => StatusUp
  | result :: results' =>
      if bool_decide (r_Status result = StatusDown) && r_Critical result then StatusDown
      else overall results'
  end.

(** The probes run at the same time, each writing its own slot of the result
    slice, so that the slice does not depend on the order they answer in. *)
Definition RunChecks (r : Registry) : Report :=
  let results := map (fun check => run check (timeout r)) (checks r) in
  {| rep_Status := overall results; rep_Service := service r; rep_Version := version r;
     rep_Checks := results |}.

(** ** handler.go *)

Inductive body :=
| LivenessBody (status service version : string)
| ReportBody (report : Report).

(** What [writeJSON] sends: the code, the headers and the body. *)
Record response := mkResponse {
  resp_code : Z;
  resp_headers : list (string * string);
  resp_body : body
}.

Definition writeJSON (code : Z) (b : body) : response :=
  {| resp_code := code;
     resp_headers := [("Content-Type", "application/json; charset=utf-8");
                      ("Cache-Control", "no-store")];
     resp_body := b |}.

Definition LivenessHandler (service version : string) : response :=
  writeJSON 200 (LivenessBody (Status_string StatusUp) service version).

Definition ReadinessHandler (r : Registry) : response :=
  let report := RunChecks r in
  writeJSON (if Ready report then 200 else 503) (ReportBody report).

(** ** bootstrap/healthcheck.go *)

Definition ErrUnhealthy : goerror :=
  Sentinel "bootstrap.ErrUnhealthy" "the service is not answering /livez".

Definition HealthcheckTimeout : Z := 3 * Second.

Definition healthcheck_url (port : Z) : string := "http://127.0.0.1:" ++ Itoa port ++ "/livez".

(** [request] and [do] are the answers of building the request and of sending
    it; the second has the status code. *)
Definition Healthcheck (port : Z) (request : option goerror) (do_ : res Z) : option goerror :=
  let url := healthcheck_url port in
  match request with
  | Some err => Some (Wrap "building the healthcheck request: " err)
  | None =>
      match do_ with
      | Err err => Some (Wrap ("probing " ++ url ++ ": ") err)
      | Ok code =>
          if negb (code =? 200)%Z
          then Some (Errorf "" [(ErrUnhealthy, ": " ++ url ++ " answered " ++ Itoa code)])
          else None
      end
  end.

(** ** Properties *)

Lemma ReadinessHandler_code r :
  resp_code (ReadinessHandler r)
  = (if forallb (fun c => negb (Critical c) || bool_decide ((Probe c (timeout r)).1 = None)) (checks r)
     then 200 else 503)%Z.
Proof.
  unfold ReadinessHandler, Ready, RunChecks. cbn.
  replace (bool_decide _) with (forallb (fun c => negb (Critical c) ||
    bool_decide ((Probe c (timeout r)).1 = None)) (checks r)); [done|].
  induction (checks r) as [|c l IH]; [done|]. cbn [map overall forallb]. rewrite IH.
  unfold run. destruct (Probe c (timeout r)) as [[e|] d], (Critical c); done.
Qed.

(** C36: readiness is exactly the health of the critical dependencies.
    [/readyz] answers 200 when every critical probe succeeded and 503 otherwise,
    whatever the others said; and in both cases the body names every registered
    dependency, in order, with the text of the error of each one that failed. *)
Theorem readiness_is_critical_health r :
  resp_code (ReadinessHandler r)
  = (if forallb (fun c => negb (Critical c) || bool_decide ((Probe c (timeout r)).1 = None)) (checks r)
     then 200 else 503)%Z
  /\ exists report, resp_body (ReadinessHandler r) = ReportBody report
     /\ map r_Name (rep_Checks report) = map Name (checks r)
     /\ Forall2 (fun c x => r_Status x = match (Probe c (timeout r)).1 with
                                         | Some _ => StatusDown | None => StatusUp end
                           /\ r_Error x = match (Probe c (timeout r)).1 with
                                          | Some e => Error e | None => "" end)
          (checks r) (rep_Checks report).
Proof.
  split; [apply ReadinessHandler_code|].
  exists (RunChecks r). split; [done|]. cbn [rep_Checks RunChecks]. split.
  - rewrite map_map. apply map_ext. intros c. unfold run. by destruct (Probe c (timeout r)).
  - induction (checks r) as [|c l IH]; constructor; [|done].
    unfold run. by destruct (Probe c (timeout r)) as [[e|] d].
Qed.
