(* ===== verification/HttpServer.v ===== *)
(** * pkg/httpserver: the REST gateway and the operational routes

    The routes of a server and its life cycle (server.go), and the gateway's
    header matching and registration (gateway.go).  grpc-gateway's default matcher
    and the answers of the network are parameters; the multiplexer of net/http is
    modelled for patterns that are plain paths. *)

From stdpp Require Import base list gmap sets strings numbers.
From Stdlib Require Import ZArith Lia Ascii String.
From S2P Require Import Prelude GoStrings GoErrors Logger Health.

Local Open Scope string_scope.

(** ** server.go *)

Definition PathAPI := "/v1/".
Definition PathLiveness := "/livez".
Definition PathReadiness := "/readyz".
Definition PathMetrics := "/metrics".

Definition defaultReadHeaderTimeout : Z := 10 * Second.
Definition defaultReadTimeout : Z := 30 * Second.
Definition defaultWriteTimeout : Z := 60 * Second.
Definition defaultIdleTimeout : Z := 120 * Second.

Definition ErrHealthRegistryRequired : goerror :=
  Sentinel "httpserver.ErrHealthRegistryRequired" "httpserver: a health registry is required".
Definition ErrServerClosed : goerror := Sentinel "http.ErrServerClosed" "http: Server closed".

(** The gateway and the metrics registry may be nil; [Extra] is a map, listed in
    the order the loop happens to visit it, its handlers named. *)
Record Config := mkConfig {
  Address : string;
  ServiceName : string;
  Version : string;
  CfgLogger : Logger;
  Gateway : bool;
  CfgHealth : option Registry;
  HasMetrics : bool;
  Extra : list (string * string);
  ShutdownTimeout : Z
}.

(** What answers under a pattern. *)
Inductive route :=
| Liveness (service version : string)
| Readiness (registry : Registry)
| MetricsScrape
| GatewayMux
| ExtraHandler (name : string).

Definition mux : Type := list (string * route).

(** [mux.Handle]: a pattern that is registered already panics. *)
Definition Handle (pattern : string) (r : route) (m : mux) : outcome mux :=
  if bool_decide (pattern ∈ m.*1)
  then Panics ("pattern " ++ Quote pattern ++ " conflicts with a registered pattern")
  else Returns (m ++ [(pattern, r)])%list.

Definition handle_if (b : bool) (pattern : string) (r : route) (m : mux) : outcome mux :=
  if b then Handle pattern r m else Returns m.

Fixpoint handle_all (extra : list (string * string)) (m : mux) : outcome mux :=
  match extra with
  | [] => Returns m
  | (path, h) :: extra' =>
      match Handle path (ExtraHandler h) m with
      | Returns m => handle_all extra' m
      | Panics v => Panics v
      end
  end.

Definition obind {A B} (x : outcome A) (f : A -> outcome B) : outcome B :=
  match x with Returns a => f a | Panics v => Panics v end.

Record Server := mkServer { s_cfg : Config; s_mux : mux; s_listener : option string }.

Definition with_timeout (t : Z) (c : Config) : Config :=
  {| Address := Address c; ServiceName := ServiceName c; Version := Version c;
     CfgLogger := CfgLogger c; Gateway := Gateway c; CfgHealth := CfgHealth c;
     HasMetrics := HasMetrics c; Extra := Extra c; ShutdownTimeout := t |}.

Definition New (cfg : Config) : outcome (res Server) :=
  match CfgHealth cfg with
  | None => Returns (Err ErrHealthRegistryRequired)
  | Some registry =>
      let cfg := if (ShutdownTimeout cfg <=? 0)%Z then with_timeout (15 * Second) cfg else cfg in
      obind (Handle PathLiveness (Liveness (ServiceName cfg) (Version cfg)) []) (fun m =>
      obind (Handle PathReadiness (Readiness registry) m) (fun m =>
      obind (handle_if (HasMetrics cfg) PathMetrics MetricsScrape m) (fun m =>
      obind (handle_if (Gateway cfg) PathAPI GatewayMux m) (fun m =>
      obind (handle_all (Extra cfg) m) (fun m =>
        Returns (Ok {| s_cfg := cfg; s_mux := m; s_listener := None |}))))))
  end.

(** How the multiplexer picks: the pattern equal to the path, or the longest one
    that ends in a slash and is a prefix of it. *)
Definition subtree (path : string) (e : string * route) : bool :=
  HasSuffix e.1 "/" && HasPrefix path e.1.

Definition longer (a b : option (string * route)) : option (string * route) :=
  match a, b with
  | Some x, Some y => if (String.length x.1 <=? String.length y.1)%nat then b else a
  | None, _ => b
  | _, None => a
  end.

Definition lookup_route (m : mux) (path : string) : option route :=
  match List.find (fun e => String.eqb e.1 path) m with
  | Some e => Some e.2
  | None => snd <$> fold_right (fun e acc => longer (Some e) acc) None (List.filter (subtree path) m)
  end.

Definition Server_Address (s : Server) : string := default (Address (s_cfg s)) (s_listener s).

(** [bound] is the address the kernel gave, or the error of the listener. *)
Definition Listen (bound : res string) (s : Server) : option goerror * Server :=
  match bound with
  | Err err => (Some (Wrap ("listening on " ++ Address (s_cfg s) ++ ": ") err), s)
  | Ok addr => (None, {| s_cfg := s_cfg s; s_mux := s_mux s; s_listener := Some addr |})
  end.

(** [served] is what [http.Server.Serve] returned. *)
Definition Serve (bound : res string) (served : option goerror) (s : Server)
    : option goerror * Server :=
  let '(err, s) := match s_listener s with None => Listen bound s | Some _ => (None, s) end in
  match err with
  | Some e => (Some e, s)
  | None =>
      (match served with
       | Some e => if Is e ErrServerClosed then None else Some (Wrap "serving HTTP: " e)
       | None => None
       end, s)
  end.

(** [drained]: what [http.Server.Shutdown] answers under a deadline. *)
Definition Shutdown (drained : Z -> option goerror) (now deadline : Z) (s : Server) : option goerror :=
  match drained (Z.min deadline (now + ShutdownTimeout (s_cfg s))) with
  | Some err => Some (Wrap "shutting down HTTP: " err)
  | None => None
  end.

(** ** gateway.go *)

Definition forwardedHeaders : list string :=
  ["authorization"; "x-device-id"; "x-app-version"; "x-api-version"; "x-platform";
   "accept-language"; "traceparent"; "tracestate"].

(** grpc-gateway's matcher: the metadata key of a header, when it has one.  Its
    documentation: a header named with the prefix Grpc-Metadata- is passed on under
    the rest of its name. *)
Class GatewayLib := {
  DefaultHeaderMatcher : string -> option string;
  metadata_prefix_passed : forall key, key <> "" -> DefaultHeaderMatcher ("Grpc-Metadata-" ++ key) = Some key
}.

Section Gateway.
Context `{Unicode, GatewayLib}.

Definition headerMatcher (header : string) : option string :=
  let normalized := ToLower header in
  if bool_decide (normalized ∈ forwardedHeaders) then Some normalized
  else DefaultHeaderMatcher header.

(** The multiplexer: its header matcher and the options of its JSON marshaller. *)
Record ServeMux := mkServeMux {
  IncomingHeaderMatcher : string -> option string;
  MarshalerMIME : string;
  UseProtoNames : bool;
  EmitUnpopulated : bool;
  DiscardUnknown : bool
}.

Definition NewGatewayMux : ServeMux :=
  {| IncomingHeaderMatcher := headerMatcher; MarshalerMIME := "*"; UseProtoNames := false;
     EmitUnpopulated := true; DiscardUnknown := false |}.
End Gateway.

Definition DialGRPC (target : string) (dialed : option goerror) : option goerror :=
  match dialed with
  | Some err => Some (Wrap ("connecting the gateway to the gRPC server at " ++ target ++ ": ") err)
  | None => None
  end.

(** The registration functions are given by what they answer. *)
Fixpoint RegisterGateways (register : list (option goerror)) : option goerror :=
  match register with
  | [] => None
  | Some err :: _ => Some (Wrap "registering a gateway handler: " err)
  | None :: register' => RegisterGateways register'
  end.

(** ** Properties *)

Lemma Handle_Returns p r m m' :
  Handle p r m = Returns m' <-> (p ∉ m.*1) /\ m' = (m ++ [(p, r)])%list.
Proof. unfold Handle. case_bool_decide; naive_solver. Qed.

Lemma handle_if_Returns b p r m m' :
  handle_if b p r m = Returns m' <->
  (b = true -> p ∉ m.*1) /\ m' = (m ++ if b then [(p, r)] else [])%list.
Proof.
  unfold handle_if. destruct b; [rewrite Handle_Returns; naive_solver|].
  rewrite app_nil_r. naive_solver.
Qed.

Lemma obind_Returns {A B} (x : outcome A) (f : A -> outcome B) b :
  obind x f = Returns b -> exists a, x = Returns a /\ f a = Returns b.
Proof. destruct x; simpl; [eauto|done]. Qed.

Lemma handle_all_Returns extra : forall m m',
  handle_all extra m = Returns m' <->
  m' = (m ++ map (fun e => (e.1, ExtraHandler e.2)) extra)%list
  /\ NoDup extra.*1 /\ (forall p, p ∈ extra.*1 -> p ∉ m.*1).
Proof.
  induction extra as [|[p h] extra IH]; intros m m'; cbn [handle_all map].
  - rewrite app_nil_r. split; [intros [= <-]|intros (-> & _)]; [|done].
    split; [done|]. split; [constructor|set_solver].
  - destruct (Handle p (ExtraHandler h) m) as [m1|v] eqn:Hh.
    + apply Handle_Returns in Hh as [Hp ->]. rewrite IH, <- app_assoc. cbn [fmap list_fmap].
      rewrite list.NoDup_cons, fmap_app. set_solver.
    + split; [done|]. intros (_ & _ & Hn). unfold Handle in Hh. case_bool_decide as Hin; [|done].
      exfalso. apply (Hn p); [left|done].
Qed.

(** The routes of a server that was built. *)
Lemma New_routes cfg s : New cfg = Returns (Ok s) ->
  exists registry, CfgHealth cfg = Some registry
    /\ s_mux s = ([(PathLiveness, Liveness (ServiceName cfg) (Version cfg));
                   (PathReadiness, Readiness registry)]
                  ++ (if HasMetrics cfg then [(PathMetrics, MetricsScrape)] else [])
                  ++ (if Gateway cfg then [(PathAPI, GatewayMux)] else [])
                  ++ map (fun e => (e.1, ExtraHandler e.2)) (Extra cfg))%list
    /\ (0 < ShutdownTimeout (s_cfg s))%Z.
Proof.
  unfold New. destruct (CfgHealth cfg) as [registry|] eqn:Hreg; [|done].
  intros Hn. exists registry. split; [done|].
  set (cfg' := if (ShutdownTimeout cfg <=? 0)%Z then with_timeout (15 * Second) cfg else cfg) in Hn.
  assert (0 < ShutdownTimeout cfg' /\ ServiceName cfg' = ServiceName cfg /\ Version cfg' = Version cfg
          /\ HasMetrics cfg' = HasMetrics cfg /\ Gateway cfg' = Gateway cfg /\ Extra cfg' = Extra cfg)%Z
    as (Ht & Hsn & Hv & Hm & Hg & He)
    by (subst cfg'; destruct (ShutdownTimeout cfg <=? 0)%Z eqn:Hz; zbool; cbn; unfold Second; by split_and!).
  rewrite Hsn, Hv, Hm, Hg, He in Hn. clearbody cfg'.
  apply obind_Returns in Hn as (m0 & [_ ->]%Handle_Returns & Hn).
  apply obind_Returns in Hn as (m1 & [_ ->]%Handle_Returns & Hn).
  apply obind_Returns in Hn as (m2 & [_ ->]%handle_if_Returns & Hn).
  apply obind_Returns in Hn as (m3 & [_ ->]%handle_if_Returns & Hn).
  apply obind_Returns in Hn as (m4 & [-> _]%handle_all_Returns & Hn). injection Hn as <-.
  cbn [s_mux s_cfg]. split; [|done].
  by rewrite <- !app_assoc.
Qed.

(** A path under /v1/ that no added route covers goes to the gateway, when there is one. *)
Lemma gateway_route cfg s path : New cfg = Returns (Ok s) -> Gateway cfg = true ->
  HasPrefix path PathAPI = true ->
  Forall (fun e => String.eqb e.1 path = false /\ HasPrefix path e.1 = false) (Extra cfg) ->
  lookup_route (s_mux s) path = Some GatewayMux.
Proof.
  intros (registry & _ & Hm & _)%New_routes Hg Hp Hex. rewrite Hm, Hg.
  apply HasPrefix_spec in Hp as [x ->].
  assert (Hfind : List.find (fun e => String.eqb e.1 (PathAPI ++ x))
            (map (fun e => (e.1, ExtraHandler e.2)) (Extra cfg)) = None).
  { clear -Hex. induction Hex as [|e l [He _] _ IH]; [done|].
    cbn [map List.find fst]. by rewrite He. }
  assert (Hfil : List.filter (subtree (PathAPI ++ x))
            (map (fun e => (e.1, ExtraHandler e.2)) (Extra cfg)) = []).
  { clear -Hex. induction Hex as [|e l [_ He] _ IH]; [done|].
    cbn [map List.filter]. unfold subtree at 1. cbn [fst]. by rewrite He, andb_false_r. }
  revert Hfind Hfil. generalize (map (fun e => (e.1, ExtraHandler e.2)) (Extra cfg)) as extra.
  intros extra Hfind Hfil. destruct x as [|c x]; [by destruct (HasMetrics cfg)|].
  assert (lookup_route (([(PathLiveness, Liveness (ServiceName cfg) (Version cfg));
            (PathReadiness, Readiness registry)]
            ++ (if HasMetrics cfg then [(PathMetrics, MetricsScrape)] else [])
            ++ [(PathAPI, GatewayMux)] ++ extra)%list) (PathAPI ++ String c x)
          = match List.find (fun e => String.eqb e.1 (PathAPI ++ String c x)) extra with
            | Some e => Some e.2
            | None => snd <$> longer (Some (PathAPI, GatewayMux))
                (fold_right (fun e acc => longer (Some e) acc) None
                   (List.filter (subtree (PathAPI ++ String c x)) extra))
            end) as -> by (by destruct (HasMetrics cfg)).
  by rewrite Hfind, Hfil.
Qed.


Definition sample_config : Config :=
  {| Address := ":8080"; ServiceName := "identity"; Version := "1.2.0"; CfgLogger := Nop;
     Gateway := true; CfgHealth := Some (NewRegistry "identity" "1.2.0"); HasMetrics := true;
     Extra := [("/.well-known/jwks.json", "jwks")]; ShutdownTimeout := 0 |}.


(** a client can set metadata the gateway does not list.  A header that is
    not among the forwarded ones but is named with the prefix of the default
    matcher reaches the gRPC handlers under any name the client chooses. *)
Theorem unlisted_header_forwarded `{Unicode, GatewayLib} key :
  key <> "" -> is_ascii key = true ->
  (ToLower ("Grpc-Metadata-" ++ key) ∉ forwardedHeaders)
  /\ headerMatcher ("Grpc-Metadata-" ++ key) = Some key.
Proof.
  intros Hne Ha.
  assert (ToLower ("Grpc-Metadata-" ++ key) ∉ forwardedHeaders) as Hn.
  { unfold ToLower. change (is_ascii ("Grpc-Metadata-" ++ key)) with (is_ascii key). rewrite Ha.
    cbn [map_string String.append]. unfold forwardedHeaders. rewrite !not_elem_of_cons.
    repeat (split; [done|]). apply not_elem_of_nil. }
  split; [done|]. unfold headerMatcher. rewrite bool_decide_false by done.
  by apply metadata_prefix_passed.
Qed.

(** A matcher that does what its documentation says of the prefix. *)
Lemma CutPrefix_metadata key :
  CutPrefix ("Grpc-Metadata-" ++ key) "Grpc-Metadata-" = Some key.
Proof. apply CutPrefix_append. Qed.

#[local] Instance sample_gateway : GatewayLib := {
  DefaultHeaderMatcher h := CutPrefix h "Grpc-Metadata-";
  metadata_prefix_passed key _ := CutPrefix_metadata key
}.
#[local] Instance ascii_unicode : Unicode := { lower_nonascii := fun s => s }.

Lemma unlisted_header_forwarded_witness :
  (ToLower ("Grpc-Metadata-" ++ "X-User-Id") ∉ forwardedHeaders)
  /\ headerMatcher ("Grpc-Metadata-" ++ "X-User-Id") = Some "X-User-Id".
Proof. apply unlisted_header_forwarded; [discriminate|reflexivity]. Defined.
