(* ===== verification/Config.v ===== *)
(** * pkg/config: loading and validating the configuration

    The order of the sources, the errors of loading and the sentences an operator
    reads (config.go), and the configuration every service shares (base.go,
    addr.go).  Reading the variables into a struct and checking its rules are the
    libraries' (env, validator): they are parameters, as is the parsing of a .env
    file. *)

From stdpp Require Import base list gmap sets strings numbers.
From Stdlib Require Import ZArith Lia Ascii String.
From S2P Require Import Prelude GoStrings GoErrors.

Local Open Scope string_scope.

(** ** config.go *)

Definition EnvLocal := "local".
Definition EnvStaging := "staging".
Definition EnvProduction := "production".
Definition EnvTest := "test".

Definition IsProduction (e : string) : bool := String.eqb e EnvProduction.
Definition IsLocal (e : string) : bool := String.eqb e EnvLocal.
Definition Environment_String (e : string) : string := e.

Definition ErrInvalidConfig : goerror := Sentinel "config.ErrInvalidConfig" "invalid configuration".

(** The variables of the process. *)
Abbreviation environ := (gmap string string).

(** A file: absent, or read with what parsing it answers. *)
Inductive env_file :=
| Absent
| Present (parsed : res environ).

(** [godotenv.Load]: the variables of the file that are not set yet; nothing when
    it cannot be parsed, which the caller does not look at. *)
Definition godotenv_Load (parsed : res environ) (env : environ) : environ :=
  match parsed with Ok vars => env ∪ vars | Err _ => env end.

Fixpoint loadEnvFiles (files : list env_file) (env : environ) : environ :=
  match files with
  | [] => env
  | Absent :: files' => loadEnvFiles files' env
  | Present parsed :: files' => loadEnvFiles files' (godotenv_Load parsed env)
  end.

(** [validator.FieldError]: the value as %v and as %q render it. *)
Record FieldError := mkFieldError {
  Field : string;
  Tag : string;
  Param : string;
  Value_v : string;
  Value_q : string
}.

(** [reflect.StructField]: the name of a field and its tag [env]. *)
Record StructField := mkStructField { sf_Name : string; sf_env : string }.

(** The function given to [RegisterTagNameFunc]. *)
Definition tag_name (field : StructField) : string :=
  let '(name, _, _) := Cut1 (sf_env field) ","%char in
  if String.eqb name "" then sf_Name field else name.

(** A rule that a field breaks. *)
Record Broken := mkBroken {
  br_field : StructField;
  br_tag : string;
  br_param : string;
  br_value_v : string;
  br_value_q : string
}.

(** What checking the rules of a struct answers. *)
Inductive validation :=
| Valid
| InvalidValidation (err : goerror)
| OtherFailure (err : goerror)
| BrokenRules (rules : list Broken).

(** The library's [FieldError]s: [Field] is what the registered function answers, or the
    name of the field when that is nothing. *)
Definition field_error (registered : StructField -> string) (b : Broken) : FieldError :=
  let name := registered (br_field b) in
  {| Field := if String.eqb name "" then sf_Name (br_field b) else name;
     Tag := br_tag b; Param := br_param b; Value_v := br_value_v b; Value_q := br_value_q b |}.

Definition explain (e : FieldError) : string :=
  let t := Tag e in
  if String.eqb t "required" then "is required but was not set"
  else if String.eqb t "oneof" then "must be one of [" ++ Param e ++ "], got " ++ Value_q e
  else if String.eqb t "min" then "must be at least " ++ Param e ++ ", got " ++ Value_v e
  else if String.eqb t "max" then "must be at most " ++ Param e ++ ", got " ++ Value_v e
  else if String.eqb t "url" then "must be a valid URL, got " ++ Value_q e
  else if String.eqb t "hostname_port" then "must be host:port, got " ++ Value_q e
  else if String.eqb t "gte" then "must be >= " ++ Param e ++ ", got " ++ Value_v e
  else if String.eqb t "lte" then "must be <= " ++ Param e ++ ", got " ++ Value_v e
  else "failed the " ++ Quote t ++ " rule, got " ++ Value_v e.

Definition describe_line (e : FieldError) : string := "  - " ++ Field e ++ ": " ++ explain e.

(** The loop, with the position of the element it is at. *)
Fixpoint describe_from (i : nat) (errs : list FieldError) : string :=
  match errs with
  | [] => ""
  | e :: errs' => (if (0 <? i)%nat then newline else "") ++ describe_line e ++ describe_from (S i) errs'
  end.
Definition describe (errs : list FieldError) : string := describe_from 0 errs.

Definition wrapInvalid (err : goerror) : goerror := Errorf "" [(ErrInvalidConfig, ": "); (err, "")].

Definition Validate (v : validation) : option goerror :=
  match v with
  | Valid => None
  | InvalidValidation err | OtherFailure err => Some (wrapInvalid err)
  | BrokenRules rules =>
      Some (Errorf "" [(ErrInvalidConfig, ":" ++ newline ++ describe (map (field_error tag_name) rules))])
  end.

Section Load.
Context {T : Type} (Parse : environ -> res T) (Struct : T -> validation).

Definition Load (files : list env_file) (env : environ) : res T :=
  match Parse (loadEnvFiles files env) with
  | Err err => Err (wrapInvalid err)
  | Ok cfg => match Validate (Struct cfg) with
              | Some err => Err err
              | None => Ok cfg
              end
  end.
End Load.

(** ** base.go and addr.go *)

(** [TraceSampleRatio] is a float, kept as the text it is configured with. *)
Record Base := mkBase {
  ServiceName : string;
  Environment : string;
  LogLevel : string;
  GRPCPort : Z;
  HTTPPort : Z;
  ShutdownTimeout : Z;
  GRPCMaxRecvMsgSize : Z;
  RequestTimeout : Z;
  MinClientAPIVersion : string;
  OTLPEndpoint : string;
  TraceSampleRatio : string;
  SentryDSN : string
}.

Definition addr (port : Z) : string := ":" ++ Itoa port.
Definition GRPCAddress (b : Base) : string := addr (GRPCPort b).
Definition HTTPAddress (b : Base) : string := addr (HTTPPort b).
Definition TracingEnabled (b : Base) : bool := negb (String.eqb (OTLPEndpoint b) "").

(** ** Lemmas *)

Lemma describe_from_lines i errs :
  describe_from (S i) errs = fold_right (fun e s => newline ++ describe_line e ++ s) "" errs.
Proof. revert i. induction errs as [|e l IH]; intros i; cbn [describe_from fold_right]; [done|]. by rewrite IH. Qed.

Lemma describe_join errs : describe errs = Join (map describe_line errs) newline.
Proof.
  unfold describe. destruct errs as [|e l]; [done|]. cbn [describe_from Nat.ltb Nat.leb map].
  rewrite describe_from_lines. revert e. induction l as [|e' l IH]; intros e; cbn [fold_right map].
  - cbn. by rewrite append_nil_r.
  - change (describe_line e ++ newline ++ (describe_line e' ++ fold_right
      (fun e s => newline ++ describe_line e ++ s) "" l)
      = describe_line e ++ newline ++ Join (describe_line e' :: map describe_line l) newline).
    do 2 f_equal. apply IH.
Qed.

Lemma Join_part l x sep : x ∈ l -> exists a b, Join l sep = a ++ x ++ b.
Proof.
  induction l as [|y l IH]; intros Hx; [inversion Hx|]. apply elem_of_cons in Hx as [->|Hx].
  - destruct l as [|z l]; [exists "", ""; by rewrite append_nil_r|]. by exists "", (sep ++ Join (z :: l) sep).
  - destruct l as [|z l]; [inversion Hx|]. destruct (IH Hx) as (a & b & Hab).
    exists (y ++ sep ++ a), b. unfold Join in *. cbn [String.concat] in *. rewrite Hab, !append_assoc. done.
Qed.

(** The name in the tag is what comes before the first comma. *)
Lemma Cut1_name name rest : contains_byte ","%char name = false ->
  (Cut1 (name ++ rest) ","%char).1.1 = name ++ (Cut1 rest ","%char).1.1.
Proof.
  induction name as [|c name IH]; [done|]. cbn [contains_byte String.append Cut1]. intros Hc.
  apply orb_false_iff in Hc as [Hc Hn]. rewrite Ascii.eqb_sym in Hc. rewrite Hc. specialize (IH Hn).
  destruct (Cut1 (name ++ rest) ",") as [[b a] f]. cbn in *. by rewrite IH.
Qed.

(** A field is reported under the variable its tag names, with or without options. *)
Lemma Field_is_variable b name options : name <> "" -> contains_byte ","%char name = false ->
  sf_env (br_field b) = name \/ sf_env (br_field b) = name ++ "," ++ options ->
  Field (field_error tag_name b) = name.
Proof.
  intros Hne Hc Henv. assert (Hn : (Cut1 (sf_env (br_field b)) ","%char).1.1 = name).
  { destruct Henv as [E|E]; rewrite E; [rewrite <- (append_nil_r name) at 1|];
      rewrite Cut1_name by done; cbn; apply append_nil_r. }
  cbn [field_error Field]. unfold tag_name. destruct (Cut1 _ _) as [[nm a] f]. cbn in Hn. subst nm.
  by rewrite !(proj2 (String.eqb_neq _ _) Hne).
Qed.

(** ** Properties *)

(** the environment always wins.  After loading, a variable has the value of
    the process environment when it is set there, else that of the first file that
    sets it; a file that is missing or cannot be parsed changes nothing. *)
Theorem environment_wins files env k :
  loadEnvFiles files env !! k
  = match env !! k with
    | Some v => Some v
    | None => head (omap (fun f => match f with
                                   | Present (Ok vars) => vars !! k
                                   | _ => None
                                   end) files)
    end.
Proof.
  revert env. induction files as [|f files IH]; intros env; cbn [loadEnvFiles omap list_omap head].
  - by destruct (env !! k).
  - destruct f as [|[vars|err]]; cbn [godotenv_Load]; rewrite IH; try done.
    rewrite lookup_union. destruct (env !! k), (vars !! k); done.
Qed.

