(* ===== verification/Bootstrap.v ===== *)
(** * pkg/bootstrap: running and stopping the components of a service

    [Runner] (runner.go) and the composition of the identity service
    (services/identity/cmd/server/main.go).  The components run concurrently:
    what their Start functions return, and the termination signal, arrive as a
    sequence of events, whose order is the interleaving.  [errgroup] is modelled
    by its documented behaviour: the first error is kept and cancels the group. *)

From stdpp Require Import base list sets strings numbers.
From Stdlib Require Import ZArith Lia String.
From S2P Require Import Prelude GoStrings GoErrors Logger.

Local Open Scope string_scope.

Definition DefaultShutdownTimeout : Z := 30 * Second.

(** [errors.Join]: nil operands are dropped, and nil is returned when none is left. *)
Definition errors_Join (errs : list (option goerror)) : option goerror :=
  match omap id errs with [] => None | es => Some (JoinErr es) end.

(** The clock of the world the Stop functions act on. *)
Class Clock (W : Type) := now : W -> Z.

Section Runner.
Context `{Clock W}.

(** [starts] tells whether [Start] is set; what it returns is in the events.
    [Stop] is given the deadline of its context. *)
Record Component := mkComponent {
  Name : string;
  starts : bool;
  Stop : option (Z -> W -> option goerror * W)
}.

Record Runner := mkRunner {
  components : list Component;
  log : Logger;
  timeout : Z
}.

Definition NewRunner (log : Logger) (timeout : Z) : Runner :=
  {| components := []; log := log;
     timeout := if (timeout <=? 0)%Z then DefaultShutdownTimeout else timeout |}.

Definition Add (component : Component) (r : Runner) : Runner :=
  {| components := components r ++ [component]; log := log r; timeout := timeout r |}.

(** ** The group *)

(** A component's Start returned, or the context of [Run] ended: a termination
    signal, or the cancellation of the caller's context. *)
Inductive event :=
| Signal
| Returned (i : nat) (err : option goerror).

Record group := mkGroup {
  running : list nat;
  first_err : option goerror;
  canceled : bool
}.

(** [imap]: the components by their position, those with a Start launched. *)
Definition started (cs : list Component) : list nat :=
  omap id (imap (fun i c => if starts c then Some i else None) cs).

Definition name_of (cs : list Component) (i : nat) : string :=
  match cs !! i with Some c => Name c | None => "" end.

(** The closure given to [group.Go], with the group's own bookkeeping. *)
Definition group_event (cs : list Component) (g : group) (e : event) : group :=
  match e with
  | Signal => {| running := running g; first_err := first_err g; canceled := true |}
  | Returned i err =>
      if bool_decide (i ∈ running g)
      then {| running := filter (fun j => j <> i) (running g);
              first_err := match first_err g, err with
                           | None, Some x => Some (Wrap (name_of cs i ++ ": ") x)
                           | f, _ => f
                           end;
              canceled := canceled g || match err with Some _ => true | None => false end |}
      else g
  end.

(** [<-groupCtx.Done()]: the group when it is canceled and the events still to
    come; [None] when it never is. *)
Fixpoint await_done (cs : list Component) (g : group) (es : list event)
    : option (group * list event) :=
  if canceled g then Some (g, es)
  else match es with
       | [] => None
       | e :: es' => await_done cs (group_event cs g e) es'
       end.

(** [group.Wait()]: until every launched component returned. *)
Fixpoint await_all (cs : list Component) (g : group) (es : list event) : option group :=
  match running g with
  | [] => Some g
  | _ => match es with
         | [] => None
         | e :: es' => await_all cs (group_event cs g e) es'
         end
  end.

(** ** Stopping *)

(** The loop over the components, given in the order it visits them. *)
Fixpoint stop_all (log : Logger) (deadline : Z) (cs : list Component) (w : W)
    : list goerror * W * list LogEntry :=
  match cs with
  | [] => ([], w, [])
  | c :: cs' =>
      match Stop c with
      | None => stop_all log deadline cs' w
      | Some stop =>
          let out := emit log DebugLevel [("component", Name c)] "stopping" in
          let '(err, w) := stop deadline w in
          let '(errs, w, out') := stop_all log deadline cs' w in
          match err with
          | None => (errs, w, (out ++ out')%list)
          | Some err =>
              (Wrap ("stopping " ++ Name c ++ ": ") err :: errs, w,
               (out ++ emit log ErrorLevel [("error", Error err); ("component", Name c)] "failed to stop"
                    ++ out')%list)
          end
      end
  end.

Definition shutdown (r : Runner) (w : W) : option goerror * W * list LogEntry :=
  let deadline := (now w + timeout r)%Z in
  let '(errs, w, out) := stop_all (log r) deadline (rev (components r)) w in
  (errors_Join (map Some errs), w, out).

Definition start_log (r : Runner) : list LogEntry :=
  List.concat (map (fun c => if starts c then emit (log r) DebugLevel [("component", Name c)] "starting"
                        else []) (components r)).

(** [None]: [Run] is still waiting when the events are used up. *)
Definition Run (r : Runner) (es : list event) (w : W) : option (option goerror * W * list LogEntry) :=
  let cs := components r in
  let g := {| running := started cs; first_err := None; canceled := false |} in
  match await_done cs g es with
  | None => None
  | Some (g, es) =>
      let '(shutdownErr, w, out) := shutdown r w in
      match await_all cs g es with
      | None => None
      | Some g =>
          let runErr := match first_err g with
                        | Some e => if Is e context_Canceled then None else Some e
                        | None => None
                        end in
          Some (errors_Join [runErr; shutdownErr], w,
                (start_log r ++ emit (log r) InfoLevel [] "shutting down" ++ out)%list)
      end
  end.
End Runner.
Arguments Component W : clear implicits.
Arguments Runner W : clear implicits.

(** ** What a run amounts to *)

Section Spec.
Context `{Clock W}.
Implicit Types (cs : list (Component W)) (g : group) (es : list event).

Definition returned (es : list event) : list nat :=
  omap (fun e => match e with Returned i _ => Some i | Signal => None end) es.

(** The first failure of a launched component, with its name. *)
Fixpoint first_failure cs es : option goerror :=
  match es with
  | [] => None
  | Returned i (Some e) :: es' =>
      if bool_decide (i ∈ started cs) then Some (Wrap (name_of cs i ++ ": ") e)
      else first_failure cs es'
  | _ :: es' => first_failure cs es'
  end.

(** Stop every component, the last one first. *)
Definition stop_reversed (deadline : Z) cs (w : W) : W :=
  fold_right (fun c w => match Stop c with Some f => (f deadline w).2 | None => w end) w cs.

(** What the Stop of component [i] answers, run in the world left by the Stops of the
    components registered after it, with the name of the component. *)
Definition stop_error (deadline : Z) cs (w : W) (i : nat) : option goerror :=
  match cs !! i with
  | Some c =>
      match Stop c with
      | Some f =>
          (fun err => Wrap ("stopping " ++ Name c ++ ": ") err)
            <$> (f deadline (stop_reversed deadline (drop (S i) cs) w)).1
      | None => None
      end
  | None => None
  end.

(** The answers, in the order of the Stops. *)
Definition stop_errors (deadline : Z) cs (w : W) : list (option goerror) :=
  map (stop_error deadline cs w) (rev (seq 0 (List.length cs))).

Lemma running_fold cs es : forall g,
  running (foldl (group_event cs) g es) = filter (fun i => i ∉ returned es) (running g).
Proof.
  induction es as [|e es IH]; intros g; cbn [foldl].
  - symmetry. apply list_filter_all. intros i _ Hi. inversion Hi.
  - rewrite IH. destruct e as [|i err]; cbn [group_event returned omap list_omap running]; [done|].
    case_bool_decide as Hi; cbn [running].
    + rewrite list_filter_filter. apply list_filter_iff. intros j. rewrite elem_of_cons. tauto.
    + apply list_filter_iff_in. intros j Hj. rewrite elem_of_cons. naive_solver.
Qed.

Lemma first_err_fold cs es : forall g,
  NoDup (returned es) -> (forall i, i ∈ running g -> i ∈ started cs) ->
  (forall i, i ∈ returned es -> i ∈ started cs -> i ∈ running g) ->
  first_err (foldl (group_event cs) g es)
  = match first_err g with Some e => Some e | None => first_failure cs es end.
Proof.
  induction es as [|e es IH]; intros g Hnd Hsub Hsup; cbn [foldl first_failure];
    [by destruct (first_err g)|].
  destruct e as [|i err]; [by rewrite IH|]. cbn [returned omap list_omap] in Hnd, Hsup.
  apply list.NoDup_cons in Hnd as [Hi Hnd]. cbn [group_event]. case_bool_decide as Hr.
  - rewrite IH; cbn [running first_err]; [|done|..].
    + destruct (first_err g), err; try done. by rewrite bool_decide_true by auto.
    + intros j Hj. apply list_elem_of_filter in Hj as [_ Hj]. auto.
    + intros j Hj Hs. apply list_elem_of_filter. split; [by intros ->|].
      apply Hsup; [by right|done].
  - assert (i ∉ started cs) as Hns by (intros Hs; apply Hr, Hsup; [left|done]).
    rewrite IH; [|done|done|intros j ? ?; apply Hsup; [by right|done]].
    destruct err; [|done]. by rewrite bool_decide_false.
Qed.

Lemma canceled_fold_mono cs es : forall g,
  canceled g = true -> canceled (foldl (group_event cs) g es) = true.
Proof.
  induction es as [|[|i err] es IH]; intros g Hc; cbn [foldl group_event]; [done|..]; apply IH;
    [done|]. case_bool_decide; cbn [canceled]; by rewrite ?Hc.
Qed.

Lemma canceled_fold cs es : forall g,
  (Signal ∈ es \/ (first_err g = None /\ first_err (foldl (group_event cs) g es) <> None)) ->
  canceled (foldl (group_event cs) g es) = true.
Proof.
  induction es as [|e es IH]; intros g Hc; cbn [foldl] in *.
  - destruct Hc as [Hc|[? ?]]; [inversion Hc|congruence].
  - destruct e as [|i err]; [by apply canceled_fold_mono|].
    destruct Hc as [Hc|[Hf Hc]].
    + apply IH. left. apply elem_of_cons in Hc as [?|?]; done.
    + cbn [group_event] in *. case_bool_decide; [|by apply IH; right].
      destruct err as [x|]; [apply canceled_fold_mono; cbn; by rewrite orb_true_r|].
      apply IH. right. split; [cbn; by rewrite Hf|done].
Qed.

Lemma await_done_fold cs es : forall g,
  canceled (foldl (group_event cs) g es) = true ->
  exists g1 es1, await_done cs g es = Some (g1, es1)
    /\ foldl (group_event cs) g1 es1 = foldl (group_event cs) g es.
Proof.
  induction es as [|e es IH]; intros g Hc; cbn [foldl await_done] in *.
  - rewrite Hc. by exists g, [].
  - destruct (canceled g); [by exists g, (e :: es)|]. by apply IH.
Qed.

Lemma idle_fold cs es : forall g,
  running g = [] -> first_err (foldl (group_event cs) g es) = first_err g.
Proof.
  induction es as [|e es IH]; intros g Hr; cbn [foldl]; [done|]. destruct e as [|i err].
  - by rewrite IH.
  - cbn [group_event]. rewrite bool_decide_false by (rewrite Hr; apply not_elem_of_nil). by apply IH.
Qed.

Lemma await_all_fold cs es : forall g,
  running (foldl (group_event cs) g es) = [] ->
  exists g', await_all cs g es = Some g'
    /\ first_err g' = first_err (foldl (group_event cs) g es).
Proof.
  induction es as [|e es IH]; intros g Hr; cbn [foldl await_all] in *.
  - rewrite Hr. by exists g.
  - destruct (running g) as [|i l] eqn:Hg; [|by apply IH]. exists g. split; [done|].
    by rewrite <- (idle_fold cs (e :: es) g Hg).
Qed.

Lemma stop_all_world log deadline cs w :
  (stop_all log deadline cs w).1.2 = stop_reversed deadline (rev cs) w.
Proof.
  revert w. induction cs as [|c cs IH]; intros w; [done|].
  unfold stop_reversed in *. cbn [stop_all rev]. rewrite fold_right_app. cbn [fold_right].
  destruct (Stop c) as [f|]; [|apply IH]. destruct (f deadline w) as [err w1]. specialize (IH w1).
  destruct (stop_all log deadline cs w1) as [[errs w2] out']. by destruct err.
Qed.

Lemma shutdown_world r (w : W) :
  (shutdown r w).1.2 = stop_reversed (now w + timeout r) (components r) w.
Proof.
  unfold shutdown. pose proof (stop_all_world (log r) (now w + timeout r) (rev (components r)) w) as Hw.
  destruct (stop_all _ _ _ w) as [[errs w'] out]. cbn in *. by rewrite Hw, rev_involutive.
Qed.

Lemma stop_reversed_snoc deadline cs c (w : W) :
  stop_reversed deadline (cs ++ [c]) w
  = stop_reversed deadline cs (match Stop c with Some f => (f deadline w).2 | None => w end).
Proof. unfold stop_reversed. by rewrite fold_right_app. Qed.

Lemma stop_errors_snoc deadline cs c (w : W) :
  stop_errors deadline (cs ++ [c]) w
  = (match Stop c with
     | Some f => (fun err => Wrap ("stopping " ++ Name c ++ ": ") err) <$> (f deadline w).1
     | None => None
     end)
    :: stop_errors deadline cs (match Stop c with Some f => (f deadline w).2 | None => w end).
Proof.
  unfold stop_errors. rewrite length_app. cbn [List.length].
  rewrite seq_app, rev_app_distr. cbn [seq rev app map Nat.add]. f_equal.
  - unfold stop_error. rewrite list_lookup_middle by done. rewrite drop_ge by (rewrite length_app; cbn; lia). done.
  - apply map_ext_in. intros i Hi%in_rev%in_seq. unfold stop_error.
    rewrite lookup_app_l by lia. rewrite drop_app_le by lia. by rewrite stop_reversed_snoc.
Qed.

Lemma stop_all_errors log deadline cs : forall w : W,
  (stop_all log deadline (rev cs) w).1.1 = omap id (stop_errors deadline cs w).
Proof.
  induction cs as [|c cs IH] using rev_ind; intros w; [done|].
  rewrite stop_errors_snoc, rev_app_distr. cbn [rev app stop_all omap list_omap].
  destruct (Stop c) as [f|]; [|apply IH]. destruct (f deadline w) as [err w1]. specialize (IH w1).
  destruct (stop_all log deadline (rev cs) w1) as [[errs w2] out']. cbn in IH |- *.
  by destruct err; cbn; rewrite IH.
Qed.

(** The failures to stop: those of the Stops, last registered first. *)
Lemma shutdown_errors r (w : W) :
  (shutdown r w).1.1 = errors_Join (stop_errors (now w + timeout r) (components r) w).
Proof.
  unfold shutdown. pose proof (stop_all_errors (log r) (now w + timeout r) (components r) w) as He.
  destruct (stop_all _ _ _ w) as [[errs w'] out]. cbn in *. rewrite He. unfold errors_Join.
  set (l := omap id (stop_errors _ _ _)). assert (omap id (map Some l) = l) as ->; [|done].
  clearbody l. induction l as [|x l IH]; [done|]. cbn. by f_equal.
Qed.

(** However a run ends, the world is the one the stops leave. *)
Lemma Run_world (r : Runner W) es (w w' : W) err out :
  Run r es w = Some (err, w', out) -> w' = stop_reversed (now w + timeout r) (components r) w.
Proof.
  unfold Run. rewrite <- shutdown_world. destruct (await_done _ _ _) as [[g es']|]; [|done].
  destruct (shutdown r w) as [[serr w1] out1]. destruct (await_all _ _ _); [|done]. by intros [= _ <- _].
Qed.

(** What [Run] returns, once every launched component returned. *)
Lemma Run_result (r : Runner W) es (w : W) :
  NoDup (returned es) -> (forall i, i ∈ started (components r) -> i ∈ returned es) ->
  Signal ∈ es \/ first_failure (components r) es <> None ->
  Run r es w =
    Some (errors_Join [match first_failure (components r) es with
                       | Some e => if Is e context_Canceled then None else Some e
                       | None => None
                       end; (shutdown r w).1.1],
          (shutdown r w).1.2,
          (start_log r ++ emit (log r) InfoLevel [] "shutting down" ++ (shutdown r w).2)%list).
Proof.
  intros Hnd Hall Hend. set (cs := components r) in *.
  set (g := {| running := started cs; first_err := None; canceled := false |}).
  assert (first_err (foldl (group_event cs) g es) = first_failure cs es) as Hfirst
    by by rewrite first_err_fold.
  assert (running (foldl (group_event cs) g es) = []) as Hrun.
  { rewrite running_fold. apply list_filter_none. intros i Hi Hn. by apply Hn, Hall. }
  destruct (await_done_fold cs es g) as (g1 & es1 & Hd & Hf).
  { apply canceled_fold. destruct Hend as [?|Hff]; [by left|right]. by rewrite Hfirst. }
  rewrite <- Hf in Hrun, Hfirst. destruct (await_all_fold cs es1 g1 Hrun) as (g2 & Ha & Hg2).
  rewrite Hfirst in Hg2. unfold Run. fold cs g. rewrite Hd.
  destruct (shutdown r w) as [[serr w'] out']. by rewrite Ha, Hg2.
Qed.
End Spec.

(** ** Properties *)

(** C17: a service always drains completely.  When the process is told to stop or
    one component fails, and every launched component eventually returns, in
    whatever order, [Run] returns: every registered Stop has run, the last
    registered first and each with the same deadline, whatever the others
    answered; and the result joins the first failure, unless it is a cancellation,
    with what every Stop answered when it was run, in the world the Stops before it left,
    each error with the name of its component. *)
Theorem Run_drains `{Clock W} (r : Runner W) (es : list event) (w : W) :
  NoDup (returned es) -> (forall i, i ∈ started (components r) -> i ∈ returned es) ->
  Signal ∈ es \/ first_failure (components r) es <> None ->
  exists out, Run r es w =
    Some (errors_Join [match first_failure (components r) es with
                       | Some e => if Is e context_Canceled then None else Some e
                       | None => None
                       end; errors_Join (stop_errors (now w + timeout r) (components r) w)],
          stop_reversed (now w + timeout r) (components r) w, out).
Proof.
  intros Hnd Hall Hend. rewrite (Run_result r es w Hnd Hall Hend), shutdown_world, shutdown_errors.
  by eexists.
Qed.

(** A world that records the order of the stops, at a time that stands still. *)
Instance trace_clock : Clock (list (string * Z)) := fun _ => 0%Z.

Definition record_stop (name : string) (err : option goerror) : Component (list (string * Z)) :=
  {| Name := name; starts := false; Stop := Some (fun d w => (err, (w ++ [(name, d)])%list)) |}.

Definition record_both (name : string) (err : option goerror) : Component (list (string * Z)) :=
  {| Name := name; starts := true; Stop := Stop (record_stop name err) |}.

(** The components of the identity service; what each Stop answers is given. *)
Definition identity_components (answer : string -> option goerror)
    : list (Component (list (string * Z))) :=
  [record_stop "tracing" (answer "tracing"); record_stop "database" None;
   record_stop "cache" (answer "cache"); record_stop "broker" (answer "broker");
   {| Name := "outbox-worker"; starts := true; Stop := None |};
   record_both "grpc" (answer "grpc"); record_both "http" (answer "http")].

Definition identity_runner (answer : string -> option goerror) : Runner (list (string * Z)) :=
  fold_left (fun r c => Add c r) (identity_components answer) (NewRunner Nop 0).

(** The grpc server fails; the worker and the http server return after it. *)
Definition grpc_fails : list event :=
  [Returned 5 (Some (Errorf "address in use" [])); Returned 4 None; Returned 6 None].

Lemma Run_drains_witness :
  let r := identity_runner (fun _ => Some (Errorf "stuck" [])) in
  stop_reversed (now [] + timeout r) (components r) []
    = map (fun n => (n, 30 * Second)%Z) ["http"; "grpc"; "broker"; "cache"; "database"; "tracing"]
  /\ omap id (stop_errors (now [] + timeout r) (components r) [])
     = map (fun n => Wrap ("stopping " ++ n ++ ": ") (Errorf "stuck" [])) ["http"; "grpc"; "broker"; "cache"; "tracing"]
  /\ exists out, Run r grpc_fails [] =
    Some (errors_Join [match first_failure (components r) grpc_fails with
                       | Some e => if Is e context_Canceled then None else Some e
                       | None => None
                       end; errors_Join (stop_errors (now [] + timeout r) (components r) [])],
          stop_reversed (now [] + timeout r) (components r) [], out).
Proof.
  intros r. split; [vm_compute; reflexivity|]. split; [vm_compute; reflexivity|].
  refine (Run_drains r grpc_fails [] _ _ _).
  - apply (bool_decide_unpack _). vm_compute. exact I.
  - intros i Hi. change (started (components r)) with [4; 5; 6]%nat in Hi. set_solver.
  - right. vm_compute. discriminate.
Defined.

(** after a termination signal only the first component to return is heard.
    When the first error is the cancellation, an error any other component returns
    while closing is not in the result: [Run] returns nil, for every such error. *)
Theorem late_error_unreported `{Clock W} (r : Runner W) (w : W) e :
  started (components r) = [0; 1]%nat -> (shutdown r w).1.1 = None ->
  exists w' out,
    Run r [Signal; Returned 0 (Some context_Canceled); Returned 1 (Some e)] w = Some (None, w', out).
Proof.
  intros Hs Hstop. eexists _, _.
  rewrite (Run_result r [Signal; Returned 0 (Some context_Canceled); Returned 1 (Some e)] w).
  - rewrite Hstop. cbn [first_failure]. rewrite bool_decide_true by (rewrite Hs; left).
    unfold context_Canceled at 1 2. rewrite Is_Wrap, Is_sentinel_refl. reflexivity.
  - cbn. repeat constructor; set_solver.
  - rewrite Hs. set_solver.
  - left. left.
Qed.

(** Two components, told to stop: the second one's failure to close is lost. *)
Lemma late_error_unreported_witness :
  let r := fold_left (fun r c => Add c r)
             [{| Name := "worker"; starts := true; Stop := None |}; record_both "grpc" None]
             (NewRunner Nop 0) in
  exists w' out,
    Run r [Signal; Returned 0 (Some context_Canceled);
           Returned 1 (Some (Errorf "connections were cut" []))] [] = Some (None, w', out).
Proof.
  intros r. exact (late_error_unreported r [] (Errorf "connections were cut" []) eq_refl eq_refl).
Defined.

(** the stops do not wait for a component that has no Stop.  In the identity
    service the database and the broker are closed as soon as the signal arrives,
    when the outbox worker, which uses both, has not returned: its return is only
    awaited afterwards. *)
Theorem dependencies_close_under_worker answer :
  let r := identity_runner answer in
  let g := {| running := started (components r); first_err := None; canceled := false |} in
  name_of (components r) 4 = "outbox-worker"
  /\ forall es, exists g', await_done (components r) g (Signal :: es) = Some (g', es)
     /\ 4%nat ∈ running g'
     /\ (shutdown r []).1.2
        = map (fun n => (n, 30 * Second)%Z) ["http"; "grpc"; "broker"; "cache"; "database"; "tracing"].
Proof.
  split; [reflexivity|]. intros es. eexists. split; [|split; [|by rewrite shutdown_world]].
  - cbn [await_done canceled group_event]. by destruct es.
  - cbn. left.
Qed.
