(* ===== verification/Identity.v ===== *)
(** * The identity service: recording events in the caller's transaction

    [Repository.WithTx] (internal/repository/repository.go), the recorder of
    domain events and its payloads (internal/service), and the reference RPC from
    the handler to the service (internal/transports, internal/service/health.go).
    The queries it reaches are those of OutboxStore.v and the transaction is the
    one of Tx.v. *)

From stdpp Require Import base list gmap strings numbers.
From Stdlib Require Import ZArith Lia Ascii String.
From S2P Require Import Prelude GoStrings GoErrors Tx OutboxStore OutboxWorker.

Local Open Scope string_scope.

(** ** encoding/json on strings *)

Definition code (c : ascii) : Z := Z.of_N (N_of_ascii c).
Definition between (lo hi : Z) (c : ascii) : bool := ((lo <=? code c) && (code c <=? hi))%Z.
Definition cont : ascii -> bool := between 128 191.

(** The length of the valid UTF-8 sequence of two to four bytes at the head of
    a string, 0 when there is none. *)
Definition rune_len (s : string) : nat :=
  match s with
  | String b0 (String b1 s1) =>
      if between 194 223 b0 then (if cont b1 then 2 else 0)%nat
      else match s1 with
           | String b2 s2 =>
               if between 224 239 b0 then
                 let lo := if (code b0 =? 224)%Z then 160%Z else 128%Z in
                 let hi := if (code b0 =? 237)%Z then 159%Z else 191%Z in
                 (if between lo hi b1 && cont b2 then 3 else 0)%nat
               else match s2 with
                    | String b3 _ =>
                        let lo := if (code b0 =? 240)%Z then 144%Z else 128%Z in
                        let hi := if (code b0 =? 244)%Z then 143%Z else 191%Z in
                        (if between 240 244 b0 && between lo hi b1 && cont b2 && cont b3
                         then 4 else 0)%nat
                    | "" => 0%nat
                    end
           | "" => 0%nat
           end
  | _ => 0%nat
  end.

(** The escape of one byte below 128. *)
Definition json_ascii (c : ascii) : string :=
  let n := N_of_ascii c in
  let short d := bytes [92%N; d] in
  if (n =? 92)%N || (n =? 34)%N then short n
  else if (n =? 8)%N then short 98%N
  else if (n =? 12)%N then short 102%N
  else if (n =? 10)%N then short 110%N
  else if (n =? 13)%N then short 114%N
  else if (n =? 9)%N then short 116%N
  else if (n <? 32)%N || existsb (N.eqb n) [38; 60; 62]%N
       then bytes [92; 117; 48; 48]%N
              ++ String (hexdigit (n / 16)) (String (hexdigit (n mod 16)) "")
       else String c "".

(** The bytes of a multi-byte sequence, which are copied, but for the two line
    separators. *)
Definition json_rune (s : string) (n : nat) : string :=
  let r := String.substring 0 n s in
  if String.eqb r (bytes [226; 128; 168]%N) then bytes [92; 117; 50; 48; 50; 56]%N
  else if String.eqb r (bytes [226; 128; 169]%N) then bytes [92; 117; 50; 48; 50; 57]%N
  else r.

(** [skip]: bytes of a sequence already written. *)
Fixpoint json_chars (s : string) (skip : nat) : string :=
  match s with
  | "" => ""
  | String c s' =>
      match skip with
      | S k => json_chars s' k
      | O => if (code c <? 128)%Z then json_ascii c ++ json_chars s' O
             else match rune_len s with
                  | O => bytes [92; 117; 102; 102; 102; 100]%N ++ json_chars s' O
                  | S k => json_rune s (S k) ++ json_chars s' k
                  end
      end
  end.

Definition json_string (s : string) : string := quote_mark ++ json_chars s O ++ quote_mark.

(** [json.Marshal] of a [map[string]string] with one entry, which never fails. *)
Definition Marshal_entry (key value : string) : res string :=
  Ok ("{" ++ json_string key ++ ":" ++ json_string value ++ "}").

(** ** internal/service *)

Definition ErrMissingUserID : goerror :=
  Sentinel "service.ErrMissingUserID" "the user id is empty".

(** [marshaled] is what [json.Marshal] answered for the value. *)
Definition mustPayload (marshaled : res string) : outcome string :=
  match marshaled with
  | Ok raw => Returns raw
  | Err err => Panics ("service: an event payload could not be serialized: " ++ Error err)
  end.

Section Recorder.
Context `{Postgres}.

Definition RecordUserRegistered (x : exec) (userID : string) (d : db)
    : outcome (option goerror) * db :=
  if String.eqb userID ""
  then (Returns (Some (Wrap "recording user.registered: " ErrMissingUserID)), d)
  else match mustPayload (Marshal_entry "user_id" userID) with
       | Panics v => (Panics v, d)
       | Returns payload =>
           match outboxRepository_Insert x
                   {| ne_Aggregate := "user"; ne_AggregateID := userID;
                      ne_RoutingKey := RoutingKeyUserRegistered; ne_Payload := payload |} d with
           | (Err err, d) =>
               (Returns (Some (Wrap ("recording user.registered for " ++ userID ++ ": ") err)), d)
           | (Ok _, d) => (Returns None, d)
           end
       end.

(** ** repository.go *)

(** [fn] is given the repository bound to the transaction: all it can reach is
    the transaction's view, the service's own tables [A] and the outbox. *)
Definition Repository_WithTx {A} (drv : Driver) (fn : A * db -> outcome (option goerror) * (A * db))
    (s : A * db) : outcome (option goerror) * list txcall * (A * db) :=
  WithTx drv fn s.

(** A use case of the service: a change of its own tables, and the event of it
    through the same handle. *)
Definition register {A} (change : A -> option goerror * A) (x : exec) (userID : string)
    (s : A * db) : outcome (option goerror) * (A * db) :=
  match change s.1 with
  | (Some err, a) => (Returns (Some err), (a, s.2))
  | (None, a) => let '(r, d) := RecordUserRegistered x userID s.2 in (r, (a, d))
  end.
End Recorder.

(** ** The reference RPC *)

Record BuildInfo := mkBuildInfo {
  bi_Service : string;
  bi_Version : string;
  bi_Commit : string;
  bi_ServerTime : Z
}.

Record HealthService := mkHealthService { serviceName : string }.

Definition NewHealthService (serviceName : string) : HealthService := {| serviceName := serviceName |}.

(** [info] is the build's version and commit, [now] the clock. *)
Definition Ping (s : HealthService) (info : string * string) (now : Z) : res BuildInfo :=
  Ok {| bi_Service := serviceName s; bi_Version := info.1; bi_Commit := info.2;
        bi_ServerTime := now |}.

Record HealthPingResponse := mkHealthPingResponse {
  hp_Service : string;
  hp_Version : string;
  hp_Commit : string;
  hp_ServerTime : Z
}.

Definition HealthPing (svc : HealthService) (info : string * string) (now : Z)
    : res HealthPingResponse :=
  match Ping svc info now with
  | Err err => Err err
  | Ok info => Ok {| hp_Service := bi_Service info; hp_Version := bi_Version info;
                     hp_Commit := bi_Commit info; hp_ServerTime := bi_ServerTime info |}
  end.

(** ** Properties *)

Section Properties.
Context `{Postgres}.

(** The payload of the event, and its row. *)
Definition registered_payload (userID : string) : string :=
  "{" ++ json_string "user_id" ++ ":" ++ json_string userID ++ "}".

Definition registered_row (userID payload : string) (x : exec) (id : Z) : Outbox :=
  {| ID := id; Aggregate := "user"; AggregateID := Some userID;
     RoutingKey := RoutingKeyUserRegistered; Payload := payload; PublishedAt := None; Attempts := 0;
     LastError := None; AvailableAt := timestamptz (x_now x); CreatedAt := timestamptz (x_now x) |}.

Lemma RecordUserRegistered_nil x userID d d' :
  RecordUserRegistered x userID d = (Returns None, d') ->
  userID <> "" /\ exists payload, jsonb (registered_payload userID) = Some payload
    /\ table d' = <[next_id d := registered_row userID payload x (next_id d)]> (table d).
Proof.
  unfold RecordUserRegistered, outboxRepository_Insert, Marshal_entry, mustPayload.
  fold (registered_payload userID). destruct (String.eqb userID "") eqn:Hu; [done|]. zbool.
  match goal with |- context [InsertOutboxEvent x ?a d] =>
    destruct (InsertOutboxEvent x a d) as [[row|err] d1] eqn:Hi end; [|done].
  intros [= <-]. split; [done|]. apply statement_Ok in Hi.
  cbn [ne_Payload ins_payload] in Hi. destruct (jsonb _) as [payload|]; [|done].
  exists payload. split; [done|]. injection Hi as _ <-. cbn.
  unfold nullable, registered_row. by rewrite (proj2 (String.eqb_neq _ _) Hu).
Qed.
End Properties.

(** C13: the event and the change it reports land together.  Whatever the change
    of the service's own tables, and whatever the driver and the server answer,
    after the transaction either neither is visible, or the change is and the
    outbox holds exactly one more row, pending and due at once, with the user and
    the routing key of the event; a nil result means the second; and a missing
    user id is refused with the change undone. *)
Theorem change_and_event_together `{Postgres} {A} drv (change : A -> option goerror * A) x userID a d :
  let '(r, _, (a', d')) := Repository_WithTx drv (register change x userID) (a, d) in
  let landed := change a = (None, a') /\ userID <> ""
    /\ exists payload, jsonb (registered_payload userID) = Some payload
       /\ table d' = <[next_id d := registered_row userID payload x (next_id d)]> (table d) in
  ((a', d') = (a, d) \/ landed)
  /\ (r = Returns None -> landed)
  /\ (userID = "" -> (a', d') = (a, d) /\ r <> Returns None).
Proof.
  unfold Repository_WithTx, WithTx, register. cbn [fst snd].
  destruct (begin_answer drv) as [e|]; [by split_and!; [left|..]|].
  destruct (change a) as [[err|] a1] eqn:Hch; [by split_and!; [left|..]|].
  destruct (RecordUserRegistered x userID d) as [[[err|]|v] d1] eqn:Hrec;
    [by split_and!; [left|..]| |by split_and!; [left|..]].
  apply RecordUserRegistered_nil in Hrec as (Hu & payload & Hj & Ht).
  destruct (commit_answered drv) as [|e|e]; split_and!; try done; try (by left); try (right; eauto);
    intros _; eauto.
Qed.

Definition calm_driver : Driver :=
  {| begin_answer := None; commit_answered := Committed; rollback_answer := None |}.

(** A registration that commits: the theorem's second case. *)
Lemma change_and_event_together_witness :
  let x := Repository_WithTx calm_driver
             (register (H := sample_postgres) (fun n : nat => (None, S n)) (calm 5000) "u1")
             (0%nat, empty_db) in
  x.1.1 = Returns None /\ x.2.1 = 1%nat
  /\ exists payload, jsonb (Postgres := sample_postgres) (registered_payload "u1") = Some payload
     /\ table x.2.2 = <[next_id empty_db := registered_row (H := sample_postgres) "u1" payload
                                             (calm 5000) (next_id empty_db)]> (table empty_db).
Proof.
  intros x. split; [reflexivity|]. split; [reflexivity|].
  exact (proj2 (proj2 (proj1 (proj2 (change_and_event_together (H := sample_postgres) calm_driver
    (fun n : nat => (None, S n)) (calm 5000) "u1" 0%nat empty_db)) eq_refl))).
Defined.
