(* ===== verification/RestGateway.v ===== *)
(** * REST through the gateway

    The way of an HTTP request to the reference RPC of the identity service: the routes of
    pkg/httpserver hand it to the gateway, the handler generated for the contract
    (pkg/genproto, health.pb.gw.go) turns it into a gRPC call over the loopback connection,
    and the chain of pkg/grpcserver lets it through to the handler or answers itself.

    The runtime of grpc-gateway and the connection are parameters: what the runtime makes
    of the headers, how it renders errors and responses ([GatewayRuntime]), and that a
    connection delivers a call with its metadata and returns the answer of the server
    ([delivers]). *)

From stdpp Require Import base list gmap sets strings numbers.
From Stdlib Require Import ZArith Lia String Ascii.
From S2P Require Import Prelude GoStrings GoErrors Logger Errors GrpcServer HttpServer Identity.

Local Open Scope string_scope.

(** ** Requests and the runtime *)

(** Header names are in the canonical form net/http gives them. *)
Record http_request := mkHttpRequest {
  hr_method : string;
  hr_path : string;
  hr_header : list (string * list string);
  hr_body : option string
}.

Record http_response := mkHttpResponse { ht_status : Z; ht_body : string }.

Abbreviation MD := (gmap string (list string)).

(** A key of plain lower case words, outside the keys the runtime itself uses and those of
    binary values. *)
Definition contract_key (key : string) : bool :=
  all_chars (fun c => Ascii.eqb c "-"%char || (Ascii.leb "a"%char c && Ascii.leb c "z"%char)) key
  && negb (HasPrefix key "x-forwarded-") && negb (HasPrefix key "grpc")
  && negb (String.eqb key "authorization") && negb (HasSuffix key "-bin").

(** The keys of metadata are in lower case. *)
Definition lower_key (key : string) : string := map_string lower_ascii key.

(** A value that can be sent as text: printable ASCII. *)
Definition printable (v : string) : bool :=
  all_chars (fun c => (32 <=? N_of_ascii c) && (N_of_ascii c <=? 126))%N v.

(** [AnnotateContext] gives the metadata of a request, from the headers its matcher maps
    to a key: a header that does not carry binary values passes its printable values on
    under that key in lower case; [HTTPError] and [ForwardResponseMessage] render the two kinds of answer. *)
Class GatewayRuntime (Resp : Type) := {
  AnnotateContext : (string -> option string) -> http_request -> res MD;
  AnnotateIncomingContext : (string -> option string) -> http_request -> res MD;
  HTTPStatusFromCode : Z -> Z;
  HTTPError : Status -> http_response;
  ForwardResponseMessage : Resp -> http_response;
  annotated_values : forall matcher req md key vs v,
    AnnotateContext matcher req = Ok md -> contract_key key = true ->
    md !! key = Some vs -> v ∈ vs ->
    exists h hvs k, (h, hvs) ∈ hr_header req /\ matcher h = Some k /\ lower_key k = key
                    /\ (v ∈ hvs \/ HasSuffix h "-Bin" = true);
  annotated_present : forall matcher req md key h hvs k v,
    AnnotateContext matcher req = Ok md -> contract_key key = true ->
    (h, hvs) ∈ hr_header req -> HasSuffix h "-Bin" = false ->
    matcher h = Some k -> lower_key k = key -> v ∈ hvs -> printable v = true ->
    exists vs, md !! key = Some vs /\ v ∈ vs;
  error_status : forall st, ht_status (HTTPError st) = HTTPStatusFromCode (st_code st);
  failed_precondition_status : HTTPStatusFromCode codes.FailedPrecondition = 400%Z
}.

(** ** The pattern *)

(** A compiled path pattern: pairs of an operation and its operand, the strings they refer
    to, and the verb. *)
Record pattern := mkPattern { pt_ops : list Z; pt_pool : list string; pt_verb : string }.

Definition pattern_HealthService_HealthPing_0 : pattern :=
  {| pt_ops := [2; 0; 2; 1; 2; 2]%Z; pt_pool := ["v1"; "identity"; "health"]; pt_verb := "" |}.

(** The components of a pattern whose operations all push a literal (operation 2); [None]
    for the other operations, which no pattern of the contract uses. *)
Fixpoint literal_path (ops : list Z) (pool : list string) : option (list string) :=
  match ops with
  | [] => Some []
  | 2%Z :: i :: ops' =>
      c ← pool !! Z.to_nat i; rest ← literal_path ops' pool; Some (c :: rest)
  | _ => None
  end.

Definition pattern_matches (p : pattern) (path : string) : bool :=
  match literal_path (pt_ops p) (pt_pool p) with
  | Some cs => String.eqb (pt_verb p) "" && String.eqb path ("/" ++ Join cs "/")
  | None => false
  end.

(** ** The generated code *)

Definition HealthService_HealthPing_FullMethodName := "/dizen.identity.v1.HealthService/HealthPing".

Inductive HealthPingRequest := mkHealthPingRequest.

Section Generated.
Context `{GrpcStatus, GrpcLibs HealthPingRequest, GatewayRuntime HealthPingResponse}.

(** A connection: a unary call of a method, with its metadata. *)
Definition ClientConn : Type :=
  string -> MD -> HealthPingRequest -> gworld -> res HealthPingResponse * gworld.

Record HealthServiceClient := mkHealthServiceClient {
  client_HealthPing : MD -> HealthPingRequest -> gworld -> res HealthPingResponse * gworld
}.

Definition healthServiceClient_HealthPing (cc : ClientConn) (md : MD) (req : HealthPingRequest)
    (w : gworld) : res HealthPingResponse * gworld :=
  match cc HealthService_HealthPing_FullMethodName md req w with
  | (Err err, w) => (Err err, w)
  | (Ok out, w) => (Ok out, w)
  end.

Definition NewHealthServiceClient (cc : ClientConn) : HealthServiceClient :=
  {| client_HealthPing := healthServiceClient_HealthPing cc |}.

(** What the server registers: the interceptors around the method of the service. *)
Definition HealthService_HealthPing_Handler (srv : handler HealthPingRequest HealthPingResponse)
    (chain : list (interceptor HealthPingRequest HealthPingResponse)) :
    handler HealthPingRequest HealthPingResponse :=
  serve chain HealthService_HealthPing_FullMethodName srv.

(** The answer of a service that does not have the method. *)
Definition UnimplementedHealthServiceServer_HealthPing : handler HealthPingRequest HealthPingResponse :=
  fun _ w => (Returns (None, status_Err (status_New 12 "method HealthPing not implemented")), w).

(** What a service is registered as: its name and its methods. *)
Record ServiceDesc := mkServiceDesc {
  sd_ServiceName : string;
  sd_Methods : list (string * (handler HealthPingRequest HealthPingResponse ->
                               list (interceptor HealthPingRequest HealthPingResponse) ->
                               handler HealthPingRequest HealthPingResponse));
  sd_Metadata : string
}.

Definition HealthService_ServiceDesc : ServiceDesc :=
  {| sd_ServiceName := "dizen.identity.v1.HealthService";
     sd_Methods := [("HealthPing", HealthService_HealthPing_Handler)];
     sd_Metadata := "dizen/identity/v1/health.proto" |}.

(** The services of a server, with what implements them. *)
Abbreviation registrar := (list (ServiceDesc * handler HealthPingRequest HealthPingResponse)).

Definition RegisterHealthServiceServer (srv : handler HealthPingRequest HealthPingResponse)
    (s : registrar) : registrar := (s ++ [(HealthService_ServiceDesc, srv)])%list.

(** A server finds the method of a call by its full name. *)
Fixpoint dispatch (s : registrar) (chain : list (interceptor HealthPingRequest HealthPingResponse))
    (method : string) : option (handler HealthPingRequest HealthPingResponse) :=
  match s with
  | [] => None
  | (desc, srv) :: s' =>
      match List.find (fun m => String.eqb method ("/" ++ sd_ServiceName desc ++ "/" ++ m.1))
              (sd_Methods desc) with
      | Some m => Some (m.2 srv chain)
      | None => dispatch s' chain method
      end
  end.

(** The multiplexer of the gateway with the handlers registered on it. *)
Definition gateway_handler : Type := http_request -> gworld -> http_response * gworld.
Record gateway_mux := mkGatewayMux {
  gm_options : ServeMux;
  gm_handlers : list (string * pattern * gateway_handler)
}.

(** The last handler registered is tried first. *)
Definition gateway_Handle (method : string) (p : pattern) (h : gateway_handler) (m : gateway_mux)
    : gateway_mux :=
  {| gm_options := gm_options m; gm_handlers := (method, p, h) :: gm_handlers m |}.

Definition ServeHTTP (m : gateway_mux) (req : http_request) (w : gworld) :
    option (http_response * gworld) :=
  match List.find (fun x => String.eqb x.1.1 (hr_method req) && pattern_matches x.1.2 (hr_path req))
          (gm_handlers m) with
  | Some x => Some (x.2 req w)
  | None => None
  end.

(** The body is read and dropped; the message of the request has no fields. *)
Definition request_HealthService_HealthPing_0 (md : MD) (client : HealthServiceClient)
    (req : http_request) (w : gworld) : res HealthPingResponse * gworld :=
  client_HealthPing client md mkHealthPingRequest w.

Definition local_request_HealthService_HealthPing_0 (md : MD)
    (server : MD -> HealthPingRequest -> gworld -> res HealthPingResponse * gworld)
    (req : http_request) (w : gworld) : res HealthPingResponse * gworld :=
  server md mkHealthPingRequest w.

(** The status [HTTPError] renders an error by. *)
Definition error_response (err : goerror) : http_response := HTTPError (fst (FromError err)).

Definition RegisterHealthServiceHandlerClient (client : HealthServiceClient) (mux : gateway_mux)
    : option goerror * gateway_mux :=
  (None, gateway_Handle "GET" pattern_HealthService_HealthPing_0 (fun req w =>
     match AnnotateContext (IncomingHeaderMatcher (gm_options mux)) req with
     | Err err => (error_response err, w)
     | Ok annotated =>
         match request_HealthService_HealthPing_0 annotated client req w with
         | (Err err, w) => (error_response err, w)
         | (Ok resp, w) => (ForwardResponseMessage resp, w)
         end
     end) mux).

(** The service called directly, without the interceptors. *)
Definition RegisterHealthServiceHandlerServer
    (server : MD -> HealthPingRequest -> gworld -> res HealthPingResponse * gworld)
    (mux : gateway_mux) : option goerror * gateway_mux :=
  (None, gateway_Handle "GET" pattern_HealthService_HealthPing_0 (fun req w =>
     match AnnotateIncomingContext (IncomingHeaderMatcher (gm_options mux)) req with
     | Err err => (error_response err, w)
     | Ok annotated =>
         match local_request_HealthService_HealthPing_0 annotated server req w with
         | (Err err, w) => (error_response err, w)
         | (Ok resp, w) => (ForwardResponseMessage resp, w)
         end
     end) mux).

Definition RegisterHealthServiceHandler (conn : ClientConn) (mux : gateway_mux)
    : option goerror * gateway_mux :=
  RegisterHealthServiceHandlerClient (NewHealthServiceClient conn) mux.

(** When the connection dialled here is closed. *)
Inductive closing := CloseNow | CloseWhenDone.

Definition RegisterHealthServiceHandlerFromEndpoint (dialed : res ClientConn) (mux : gateway_mux)
    : option goerror * gateway_mux * list closing :=
  match dialed with
  | Err err => (Some err, mux, [])
  | Ok conn =>
      match RegisterHealthServiceHandler conn mux with
      | (Some err, mux) => (Some err, mux, [CloseNow])
      | (None, mux) => (None, mux, [CloseWhenDone])
      end
  end.
End Generated.

(** ** The service behind the gateway *)

Section Rest.
Context `{GrpcStatus, ZerologFields, GrpcLibs HealthPingRequest, GatewayRuntime HealthPingResponse}.
Context `{Unicode, GatewayLib}.

(** The method of the service as the chain calls it. *)
Definition ping_handler (svc : HealthService) (info : string * string) (now : Z) :
    handler HealthPingRequest HealthPingResponse :=
  fun _ w => match HealthPing svc info now with
             | Ok resp => (Returns (Some resp, None), w)
             | Err err => (Returns (None, Some err), w)
             end.

(** What a gRPC connection promises of the reference RPC: a call reaches the server's
    handler with its metadata, and the caller gets the response, or the status of the
    error. *)
Definition delivers (conn : ClientConn) (server : handler HealthPingRequest HealthPingResponse) : Prop :=
  exists ctx peer, forall md req w,
    let c := {| c_ctx := ctx; c_md := Some md; c_peer := peer; c_req := req |} in
    (forall resp w', server c w = (Returns (Some resp, None), w') ->
       conn HealthService_HealthPing_FullMethodName md req w = (Ok resp, w'))
    /\ (forall resp err w', server c w = (Returns (resp, Some err), w') ->
         exists text, conn HealthService_HealthPing_FullMethodName md req w
                      = (Err (StatusErr (fst (FromError err)) text), w')).

(** The gateway of the identity service: its options, and the reference RPC. *)
Definition identity_gateway (conn : ClientConn) : gateway_mux :=
  snd (RegisterHealthServiceHandler conn {| gm_options := NewGatewayMux; gm_handlers := [] |}).

(** The HTTP server: what a route of the gateway does with a request. *)
Definition rest (s : HttpServer.Server) (conn : ClientConn) (req : http_request) (w : gworld) :
    option (http_response * gworld) :=
  match lookup_route (HttpServer.s_mux s) (hr_path req) with
  | Some GatewayMux => ServeHTTP (identity_gateway conn) req w
  | _ => None
  end.

(** *** Proofs *)

(** A printable version reaches the handlers, whatever the case its header was sent in,
    as the only value when no other header is mapped to the same key. *)
Lemma forwarded_version req md h v :
  AnnotateContext headerMatcher req = Ok md -> ToLower h = MDAPIVersion -> HasSuffix h "-Bin" = false ->
  (h, [v]) ∈ hr_header req -> printable v = true ->
  (forall h' vs k, (h', vs) ∈ hr_header req -> headerMatcher h' = Some k -> lower_key k = MDAPIVersion ->
     (h', vs) = (h, [v])) ->
  First md MDAPIVersion = v.
Proof.
  intros Hmd Hlow Hb Hh Hv Hone.
  assert (Hm : headerMatcher h = Some MDAPIVersion).
  { unfold headerMatcher. rewrite Hlow. by rewrite bool_decide_true by (by apply (bool_decide_unpack _)). }
  destruct (annotated_present headerMatcher req md MDAPIVersion h [v] MDAPIVersion v
              Hmd eq_refl Hh Hb Hm eq_refl) as (vs & Hvs & Hin); [by left|done|].
  unfold First. rewrite Hvs. destruct vs as [|x vs]; [by apply not_elem_of_nil in Hin|].
  destruct (annotated_values headerMatcher req md MDAPIVersion (x :: vs) x Hmd eq_refl Hvs)
    as (h' & hvs & k & Hin' & Hm' & Hk & Hx); [by left|].
  specialize (Hone h' hvs k Hin' Hm' Hk) as [= -> ->].
  destruct Hx as [Hx|Hx]; [by apply list_elem_of_singleton in Hx|congruence].
Qed.

(** The reference path is the gateway's, and its pattern's. *)
Lemma rest_reaches_gateway cfg s conn req w :
  HttpServer.New cfg = Returns (Ok s) -> HttpServer.Gateway cfg = true ->
  Forall (fun e => String.eqb e.1 "/v1/identity/health" = false
                   /\ HasPrefix "/v1/identity/health" e.1 = false) (HttpServer.Extra cfg) ->
  hr_method req = "GET" -> hr_path req = "/v1/identity/health" ->
  rest s conn req w
  = Some match AnnotateContext headerMatcher req with
         | Err err => (error_response err, w)
         | Ok md =>
             match conn HealthService_HealthPing_FullMethodName md mkHealthPingRequest w with
             | (Err err, w) => (error_response err, w)
             | (Ok resp, w) => (ForwardResponseMessage resp, w)
             end
         end.
Proof.
  intros Hnew Hg Hex Hm Hp. unfold rest.
  assert (Hr : lookup_route (HttpServer.s_mux s) (hr_path req) = Some GatewayMux).
  { rewrite Hp. by eapply gateway_route. }
  assert (Hpat : pattern_matches pattern_HealthService_HealthPing_0 "/v1/identity/health" = true)
    by (vm_compute; reflexivity).
  rewrite Hr. unfold ServeHTTP, identity_gateway, RegisterHealthServiceHandler,
    RegisterHealthServiceHandlerClient, gateway_Handle.
  cbn [snd fst gm_handlers gm_options List.find]. rewrite Hm, Hp, Hpat, String.eqb_refl. cbn [andb snd].
  unfold request_HealthService_HealthPing_0, NewHealthServiceClient, healthServiceClient_HealthPing.
  cbn [client_HealthPing IncomingHeaderMatcher NewGatewayMux].
  destruct (AnnotateContext _ req) as [md|err]; [|done]. by destruct (conn _ _ _ _) as [[|] ?].
Qed.

(** The server finds the method the client names. *)
Lemma dispatch_ping hd chain :
  dispatch (RegisterHealthServiceServer hd []) chain HealthService_HealthPing_FullMethodName
  = Some (HealthService_HealthPing_Handler hd chain).
Proof. reflexivity. Qed.

(** The declared version passes the check. *)
Definition version_accepted (minVersion declared : string) : Prop :=
  minVersion = "" \/ declared = ""
  \/ exists minimum v, NewVersion minVersion = Ok minimum /\ NewVersion declared = Ok v
       /\ LessThan v minimum = false.

Definition version_refused (minVersion declared : string) : Prop :=
  exists minimum, NewVersion minVersion = Ok minimum /\ declared <> ""
    /\ forall v, NewVersion declared = Ok v -> LessThan v minimum = true.

Lemma APIVersion_passes minVersion (api : interceptor HealthPingRequest HealthPingResponse) m next c w :
  APIVersion minVersion = Ok api ->
  version_accepted minVersion (First (MDFromContext c) MDAPIVersion) -> api m next c w = next c w.
Proof.
  intros Hapi [?|[?|(minimum & v & Hmin & Hv & Hlt)]];
    [eapply APIVersion_accepts; eauto|eapply APIVersion_accepts; eauto|].
  unfold APIVersion in Hapi. destruct (String.eqb minVersion ""); [by simplify_eq|].
  rewrite Hmin in Hapi. simplify_eq. rewrite Hv, Hlt. by case_match.
Qed.

(** A chain without optional links passes the answer of an accepted call on. *)
Lemma accepted_answer cfg chain (h : handler HealthPingRequest HealthPingResponse) m c w resp :
  buildUnaryChain cfg (@bare_deps HealthPingRequest HealthPingResponse) = Ok chain ->
  version_accepted (MinClientAPIVersion cfg) (First (MDFromContext c) MDAPIVersion) ->
  is_proto (c_req c) = false \/ protovalidate (c_req c) = None ->
  (forall c w, h c w = (Returns (Some resp, None), w)) ->
  exists w', serve chain m h c w = (Returns (Some resp, None), w').
Proof.
  intros (api & Hapi & ->)%buildUnaryChain_inv Hv Hp Hh.
  edestruct (head_returns (Resp := HealthPingResponse) cfg api) as (w' & -> & _); [|by eexists].
  cbn [bare_deps RateLimiter Authenticator Authorizer GrpcServer.Extra opt_link app serve foldr].
  rewrite (APIVersion_passes _ _ _ _ _ _ Hapi) by done. rewrite Validate_accepts by done.
  unfold ErrorsInterceptor. by rewrite Hh.
Qed.

(** C30: a REST request is held to the same version check as a gRPC call.  On the
    path of the reference RPC, with the client's version, in printable ASCII, in the
    header x-api-version in any letter case and in no other header the gateway maps to
    that key: a version below the configured minimum, or one that cannot be read, is
    answered with 400 and nothing behind the check has run, whatever handler is served;
    any other version is answered with the identity of the running build. *)
Theorem rest_request_version_checked hcfg s gcfg chain hd conn req name v w :
  HttpServer.New hcfg = Returns (Ok s) -> HttpServer.Gateway hcfg = true ->
  Forall (fun e => String.eqb e.1 "/v1/identity/health" = false
                   /\ HasPrefix "/v1/identity/health" e.1 = false) (HttpServer.Extra hcfg) ->
  buildUnaryChain gcfg (@bare_deps HealthPingRequest HealthPingResponse) = Ok chain ->
  (forall server, dispatch (RegisterHealthServiceServer hd []) chain
                    HealthService_HealthPing_FullMethodName = Some server -> delivers conn server) ->
  is_proto mkHealthPingRequest = false \/ protovalidate mkHealthPingRequest = None ->
  hr_method req = "GET" -> hr_path req = "/v1/identity/health" ->
  (exists md, AnnotateContext headerMatcher req = Ok md) ->
  ToLower name = "x-api-version" -> HasSuffix name "-Bin" = false -> (name, [v]) ∈ hr_header req ->
  printable v = true ->
  (forall h' vs k, (h', vs) ∈ hr_header req -> headerMatcher h' = Some k -> lower_key k = "x-api-version" ->
     (h', vs) = (name, [v])) ->
  (MinClientAPIVersion gcfg <> "" -> version_refused (MinClientAPIVersion gcfg) v ->
     exists resp w', rest s conn req w = Some (resp, w') /\ ht_status resp = 400%Z
       /\ g_effects w' = g_effects w)
  /\ (forall svc info now, hd = ping_handler svc info now ->
     version_accepted (MinClientAPIVersion gcfg) v ->
     exists w', rest s conn req w
       = Some (ForwardResponseMessage {| hp_Service := serviceName svc; hp_Version := info.1;
                                         hp_Commit := info.2; hp_ServerTime := now |}, w')).
Proof.
  intros Hnew Hg Hex Hchain Hconn Hval Hm Hp [md Hmd] Hname Hbin Hin Hprint Hone.
  rewrite (rest_reaches_gateway hcfg s conn req w Hnew Hg Hex Hm Hp), Hmd.
  destruct (Hconn _ (dispatch_ping hd chain)) as (ctx & peer & Hdel).
  specialize (Hdel md mkHealthPingRequest w). cbv zeta in Hdel.
  set (c := {| c_ctx := ctx; c_md := Some md; c_peer := peer; c_req := mkHealthPingRequest |}) in Hdel.
  assert (Hfirst : First (MDFromContext c) MDAPIVersion = v).
  { by apply (forwarded_version req md name v). }
  destruct Hdel as [Hok Herr]. split.
  - intros Hmin (minimum & Hnv & Hne & Hold).
    destruct (obsolete_client_rejected gcfg bare_deps chain HealthService_HealthPing_FullMethodName hd c w
                Hchain Hmin) as (err & w' & Hs & Hcode & _ & Heff).
    { exists minimum. rewrite Hfirst. done. }
    destruct (Herr _ _ _ Hs) as [text ->]. eexists _, w'. split; [done|]. split; [|done].
    unfold error_response. rewrite error_status. cbn [FromError GRPCStatus fst].
    change (st_code (fst (FromError err))) with (Code (Some err)). rewrite Hcode.
    apply failed_precondition_status.
  - intros svc info now -> Hacc.
    destruct (accepted_answer gcfg chain (ping_handler svc info now) HealthService_HealthPing_FullMethodName
                c w _ Hchain ltac:(by rewrite Hfirst) Hval ltac:(intros; reflexivity)) as [w' Hs].
    rewrite (Hok _ _ Hs). by eexists.
Qed.
End Rest.

(** ** A concrete runtime and a request *)

Definition annotate (matcher : string -> option string) (hs : list (string * list string)) : MD :=
  foldr (fun x md => match matcher x.1 with
                     | Some k => let key := lower_key k in
                                 <[key := (x.2 ++ default [] (md !! key))%list]> md
                     | None => md
                     end) ∅ hs.

Lemma annotate_spec matcher hs key v :
  v ∈ default [] (annotate matcher hs !! key)
  <-> exists h hvs k, (h, hvs) ∈ hs /\ matcher h = Some k /\ lower_key k = key /\ v ∈ hvs.
Proof.
  induction hs as [|[h hvs] hs IH]; cbn [annotate foldr fst snd].
  { rewrite lookup_empty. set_solver. }
  fold (annotate matcher hs). destruct (matcher h) as [k|] eqn:Hm; cbn zeta.
  - destruct (base.decide (lower_key k = key)) as [<-|Hne].
    + rewrite lookup_insert_eq. cbn. rewrite elem_of_app, IH. set_solver.
    + rewrite lookup_insert_ne, IH by done. split; [set_solver|].
      intros (h' & vs & k' & [[= -> ->]|?]%elem_of_cons & ? & ? & ?); [congruence|set_solver].
  - rewrite IH. split; [set_solver|].
    intros (h' & vs & k' & [[= -> ->]|?]%elem_of_cons & ? & ? & ?); [congruence|set_solver].
Qed.

Definition status_table (code : Z) : Z := if (code =? codes.FailedPrecondition)%Z then 400%Z else 500%Z.

Program Definition sample_runtime : GatewayRuntime HealthPingResponse := {|
  AnnotateContext matcher req := Ok (annotate matcher (hr_header req));
  AnnotateIncomingContext matcher req := Ok (annotate matcher (hr_header req));
  HTTPStatusFromCode := status_table;
  HTTPError st := {| ht_status := status_table (st_code st); ht_body := st_message st |};
  ForwardResponseMessage r := {| ht_status := 200; ht_body := hp_Service r |}
|}.
Next Obligation.
  intros matcher req md key vs v [= <-] _ Hvs Hv.
  destruct (proj1 (annotate_spec matcher (hr_header req) key v)) as (h & hvs & k & ? & ? & ? & ?);
    [by rewrite Hvs|]. exists h, hvs, k. auto.
Qed.
Next Obligation.
  intros matcher req md key h hvs k v [= <-] _ Hin _ Hm Hk Hv _.
  assert (Hd : v ∈ default [] (annotate matcher (hr_header req) !! key)) by (apply annotate_spec; eauto 10).
  destruct (annotate matcher (hr_header req) !! key) as [vs|]; [by exists vs|].
  by apply not_elem_of_nil in Hd.
Qed.
Next Obligation. done. Qed.
Next Obligation. done. Qed.

(** Versions are compared by their length. *)
Definition ping_libs : GrpcLibs HealthPingRequest := {|
  GrpcServer.Version := nat;
  NewVersion := fun s => Ok (String.length s);
  LessThan := Nat.ltb;
  Version_String := fun n => Itoa (Z.of_nat n);
  is_proto := fun _ => true;
  protovalidate := fun _ => None;
  as_validation := fun _ => None;
  new_validator := None;
  debug_Stack := "goroutine 1";
  elapsed := fun _ => 0%Z
|}.

Definition ping_ctx : Context := {| ctx_logger := None; ctx_span := None |}.

(** A connection that calls the server at once. *)
Definition loopback (server : handler HealthPingRequest HealthPingResponse) : ClientConn :=
  fun _ md req w =>
    match server {| c_ctx := ping_ctx; c_md := Some md; c_peer := None; c_req := req |} w with
    | (Returns (Some resp, None), w') => (Ok resp, w')
    | (Returns (_, Some err), w') =>
        (Err (StatusErr (fst (@FromError sample_grpc err)) "status"), w')
    | (_, w') => (Err context_Canceled, w')
    end.

Lemma loopback_delivers server : @delivers sample_grpc (loopback server) server.
Proof.
  exists ping_ctx, None. intros md req w. cbv zeta. unfold loopback. split.
  - intros resp w' ->. done.
  - intros resp err w' ->. exists "status". by destruct resp.
Qed.

Definition ping_chain : list (interceptor HealthPingRequest HealthPingResponse) :=
  match @buildUnaryChain sample_grpc plain_fields _ _ ping_libs (sample_cfg "1.2.0") bare_deps with
  | Ok chain => chain
  | Err _ => []
  end.

Definition http_server : HttpServer.Server :=
  match HttpServer.New HttpServer.sample_config with
  | Returns (Ok s) => s
  | _ => {| HttpServer.s_cfg := HttpServer.sample_config; HttpServer.s_mux := []; HttpServer.s_listener := None |}
  end.

Definition get_health (version : string) : http_request :=
  {| hr_method := "GET"; hr_path := "/v1/identity/health";
     hr_header := [("Accept", ["*"]); ("X-Api-Version", [version])]; hr_body := None |}.

Definition ping_service := ping_handler (NewHealthService "identity") ("1.2.0", "abc") 7.

Lemma rest_request_version_checked_witness :
  let conn := loopback (HealthService_HealthPing_Handler ping_service ping_chain) in
  let serve v := @rest sample_grpc sample_runtime HttpServer.ascii_unicode HttpServer.sample_gateway
                   http_server conn (get_health v) zero_world in
  (exists resp w', serve "1.2" = Some (resp, w') /\ ht_status resp = 400%Z)
  /\ exists w', serve "1.2.0" = Some ({| ht_status := 200; ht_body := "identity" |}, w').
Proof.
  intros conn serve.
  pose proof (fun v Hv => @rest_request_version_checked sample_grpc plain_fields ping_libs sample_runtime
    HttpServer.ascii_unicode HttpServer.sample_gateway HttpServer.sample_config http_server
    (sample_cfg "1.2.0") ping_chain ping_service conn (get_health v) "X-Api-Version" v zero_world
    ltac:(vm_compute; reflexivity) eq_refl ltac:(repeat constructor) eq_refl
    (fun server Hd => ltac:(injection Hd as <-; apply loopback_delivers))
    (or_intror eq_refl) eq_refl eq_refl (ex_intro _ _ eq_refl) ltac:(vm_compute; reflexivity)
    ltac:(vm_compute; reflexivity) ltac:(right; left) Hv) as Hall.
  assert (Hone : forall v h' vs k, (h', vs) ∈ hr_header (get_health v) ->
    @headerMatcher HttpServer.ascii_unicode HttpServer.sample_gateway h' = Some k ->
    lower_key k = "x-api-version" -> (h', vs) = ("X-Api-Version", [v])).
  { intros v h' vs k [[= -> ->]|[[= -> ->]|?%not_elem_of_nil]%elem_of_cons]%elem_of_cons; [|done|done].
    vm_compute. discriminate. }
  split.
  - destruct (Hall "1.2" eq_refl (Hone "1.2")) as [Hrefused _].
    destruct Hrefused as (resp & w' & Hs & Hst & _); [discriminate| |by exists resp, w'].
    exists 5. split; [reflexivity|]. split; [discriminate|]. intros v [= <-]. reflexivity.
  - destruct (Hall "1.2.0" eq_refl (Hone "1.2.0")) as [_ Hacc].
    destruct (Hacc (NewHealthService "identity") ("1.2.0", "abc") 7%Z eq_refl) as [w' Hs]; [|by exists w'].
    right. right. exists 5, 5. done.
Defined.
