(* ===== verification/Mains.v ===== *)
(** * The services' entry points

    [main], [run], [serve] and the builders of services/*/cmd/server/main.go, as the
    composition of the components: reading the configuration, opening the
    dependencies, building the transports, running them and shutting down.  The five
    files share [main], [runHealthcheck], [run] and the opening of the dependencies
    word for word; [serve] and the builders differ between identity, the three other
    API services and mail-dispatcher.

    The code runs in a small monad: a state with what was done so far, and a result
    that is a value, an error, a panic, or a call that never returns.  What the
    outside answers is the class [Host]. *)

From stdpp Require Import base list gmap sets strings numbers.
From Stdlib Require Import ZArith Lia String.
From S2P Require Import Identity RestGateway MetricsRegistry Prelude GoStrings GoErrors Logger Sentry Tracing AmqpRetry AmqpConsumer AmqpPublisher Errors GrpcServer Database Jwt Keygen Cache OutboxWorker Health HttpServer Config Bootstrap OutboxServices.

Local Open Scope string_scope.

(** ** internal/config/config.go *)

Record ServiceConfig := mkServiceConfig {
  c_Base : Config.Base;
  c_Database : Database.Config;
  c_Cache : Cache.Config;
  c_AMQP : AmqpRetry.Config;
  c_JWT : Jwt.Config;
  c_Outbox : OutboxWorker.WorkerConfig
}.

(** ** The effects *)

(** What a main does, in order; [OLog]: lines written to the output of a logger. *)
Inductive mop :=
| OLog (out : Writer) (es : list LogEntry)
| OReporterOpen
| OReporterClose
| OMigrate (ops : list migop)
| OTracingSetup
| OTracingShutdown (deadline : Z)
| OPool (ops : list dbop)
| OPoolClose
| ORedisOpen
| ORedisClose
| OBrokerConnect
| OPublisherOpen
| OBrokerClose
| OGrpc (ops : list sop)
| ORegisterService (name : string)
| ODial (target : string)
| OHttpListen (address : string)
| OHttpShutdown (deadline : Z)
| OStderr (line : string).

Record mstate := mkMState {
  m_ops : list mop;
  m_amqp : chst;
  m_otel : globals;
  m_now : Z
}.

#[export] Instance mstate_clock : Clock mstate := m_now.

Inductive result (A : Type) :=
| Done (a : A)
| Failed (err : goerror)
| Panicked (v : string)
| Blocked.
Arguments Done {A} _.
Arguments Failed {A} _.
Arguments Panicked {A} _.
Arguments Blocked {A}.

Definition M (A : Type) : Type := mstate -> result A * mstate.

Definition ret {A} (a : A) : M A := fun s => (Done a, s).

Definition mbind {A B} (m : M A) (k : A -> M B) : M B := fun s =>
  match m s with
  | (Done a, s) => k a s
  | (Failed err, s) => (Failed err, s)
  | (Panicked v, s) => (Panicked v, s)
  | (Blocked, s) => (Blocked, s)
  end.

Declare Scope main_scope.
Delimit Scope main_scope with main.
Notation "x <- m ;; k" := (mbind m (fun x => k)) (at level 100, m at next level, k at level 200, right associativity) : main_scope.
Notation "m ;; k" := (mbind m (fun _ => k)) (at level 100, k at level 200, right associativity) : main_scope.
Local Open Scope main_scope.

Definition note (o : mop) (s : mstate) : mstate :=
  {| m_ops := (m_ops s ++ [o])%list; m_amqp := m_amqp s; m_otel := m_otel s; m_now := m_now s |}.

Definition op (o : mop) : M unit := fun s => (Done tt, note o s).

(** [log.WithLevel(lvl)....Msg(msg)]. *)
Definition log_line (log : Logger) (lvl : Level) (fields : list (string * string)) (msg : string) : mop :=
  OLog (lg_out log) (emit log lvl fields msg).

(** [if err != nil { return err }]. *)
Definition check (err : option goerror) : M unit := fun s =>
  (match err with Some e => Failed e | None => Done tt end, s).

Definition try {A} (r : res A) : M A := fun s =>
  (match r with Ok a => Done a | Err e => Failed e end, s).

(** [defer]: not reached by a call that never returns. *)
Definition deferred {A} (after : mop) (m : M A) : M A := fun s =>
  match m s with (Blocked, s) => (Blocked, s) | (r, s) => (r, note after s) end.

(** An operation on the broker's state. *)
Definition on_broker {A} (o : mop) (f : chst -> A * chst) : M A := fun s =>
  let '(a, ch) := f (m_amqp s) in
  (Done a, {| m_ops := (m_ops s ++ [o])%list; m_amqp := ch; m_otel := m_otel s; m_now := m_now s |}).

Definition on_otel {A} (o : mop) (f : globals -> A * globals) : M A := fun s =>
  let '(a, g) := f (m_otel s) in
  (Done a, {| m_ops := (m_ops s ++ [o])%list; m_amqp := m_amqp s; m_otel := g; m_now := m_now s |}).

(** ** The host *)

(** What a process meets: its files and environment, the values linked into it, the
    answers of Sentry, Redis and the kernel, the connection of the gateway, how the components end once
    they run, what the broker's connection was used for meanwhile, and what stopping
    each of them answers. *)
Class Host := {
  env_files : string -> env_file;
  process_env : environ;
  env_Parse : environ -> res ServiceConfig;
  validate_Struct : ServiceConfig -> validation;
  linked : ldflags;
  ReadBuildInfo : option string;
  sentry_New : Sentry.ClientOptions -> res (Writer * option goerror);
  redis_ParseURL : string -> option goerror;
  redis_Ping : Cache.Config -> option goerror;
  redis_Close : option goerror;
  grpc_bound : string -> res string;
  http_bound : string -> res string;
  dialed : string -> option goerror;
  grpc_conn : string -> ClientConn;
  probe_request : option goerror;
  probe_do : Z -> res Z;
  pool_Ping : Z -> option goerror * Z;
  client_Ping : Z -> option goerror * Z;
  broker_alive : option bool;
  component_events : list event;
  broker_traffic : list AmqpConsumer.call;
  grpc_drained : Z -> GrpcServer.drained;
  http_drained : Z -> option goerror
}.

Section Services.
Context `{Host, Otel, Pgx, Migrator, Channel, Crypto, Unicode, Zerolog, ZerologFields, GrpcStatus}.
Context {Req Resp : Type} `{GrpcLibs Req}.
Context {GR : GatewayRuntime Identity.HealthPingResponse} {GL : GatewayLib} {PM : Prometheus}.

(** [config.Load(envFile)] of the services. *)
Definition config_Load (envFile : string) : res ServiceConfig :=
  Config.Load env_Parse validate_Struct [env_files envFile] process_env.

Definition version_Get : Info := Tracing.Get linked ReadBuildInfo.

(** ** The checks of the dependencies *)

Definition DB_HealthCheck : Check := {|
  Health.Name := "postgres"; Critical := true;
  Probe := fun timeout => let '(answered, elapsed) := pool_Ping timeout in
                          (Database.Ping answered, elapsed) |}.

Definition RedisCache_HealthCheck : Check := {|
  Health.Name := "redis"; Critical := false;
  Probe := fun timeout => let '(answered, elapsed) := client_Ping timeout in
                          (Cache.Ping answered, elapsed) |}.

Definition Connection_HealthCheck : Check := {|
  Health.Name := "amqp"; Critical := true;
  Probe := fun _ => (Connection_Ping broker_alive, 0%Z) |}.

(** ** run *)

Definition sentry_options (cfg : ServiceConfig) (build : Info) : Sentry.Options :=
  let base := c_Base cfg in
  {| DSN := SentryDSN base; Sentry.Environment := Environment_String (Config.Environment base);
     ReleaseID := Release (Config.ServiceName base) (i_Version build) (i_Commit build);
     Sentry.ServiceName := Config.ServiceName base |}.

Definition logger_options (cfg : ServiceConfig) (reporter : Sink) : Logger.Options :=
  let base := c_Base cfg in
  {| Logger.ServiceName := Config.ServiceName base; LevelName := LogLevel base;
     Pretty := IsLocal (Config.Environment base); Output := None;
     Logger.Extra := [Sink_Writer (Some reporter)] |}.

(** [database.Migrate(cfg.Database.URL, migrations.FS, migrations.Path, log)]. *)
Definition migrations_Path := ".".

Definition migrate (cfg : ServiceConfig) (log : Logger) : M unit :=
  let '(err, ops) := Migrate (Database.URL (c_Database cfg)) migrations_Path log in
  op (OMigrate ops) ;; check err.

(** An error of [serve] is logged before it is returned. *)
Definition logging_errors (log : Logger) (m : M unit) : M unit := fun s =>
  match m s with
  | (Failed err, s) =>
      (Failed err, note (log_line log ErrorLevel [("error", Error err)]
                           "the service stopped with an error") s)
  | r => r
  end.

Definition run_with (serve : ServiceConfig -> Logger -> M unit) (envFile : string)
    (migrateOnly : bool) : M unit :=
  cfg <- try (config_Load envFile) ;;
  let build := version_Get in
  sink <- try (Sentry.Setup sentry_New (sentry_options cfg build)) ;;
  op OReporterOpen ;;
  deferred OReporterClose
   (let log := Logger.New (i_Version build) (logger_options cfg sink.1) in
    op (log_line log InfoLevel
          [("environment", Environment_String (Config.Environment (c_Base cfg)));
           ("version", i_Version build); ("commit", i_Commit build)] "starting") ;;
    (if RunMigrations (c_Database cfg) || migrateOnly then migrate cfg log else ret tt) ;;
    if migrateOnly then ret tt else logging_errors log (serve cfg log)).

(** ** serve *)

Record dependencies := mkDeps {
  d_shutdownTracing : Tracing.Shutdown;
  d_db : DB;
  d_redis : RedisCache;
  d_broker : Connection
}.

(** The first part of [serve], up to the publisher. *)
Definition open_dependencies (cfg : ServiceConfig) (log : Logger) : M dependencies :=
  let base := c_Base cfg in
  traced <- on_otel OTracingSetup (Tracing.Setup
    {| Tracing.ServiceName := Config.ServiceName base; ServiceVersion := i_Version version_Get;
       Tracing.Environment := Environment_String (Config.Environment base);
       Endpoint := OTLPEndpoint base; SampleRatio := TraceSampleRatio base;
       Insecure := negb (Config.IsProduction (Config.Environment base)) |}) ;;
  shutdownTracing <- try traced ;;
  let '(connected, ops) := Database.Connect (c_Database cfg) log in
  op (OPool ops) ;;
  db <- try connected ;;
  let '(cached, closed) := NewRedis (redis_ParseURL (Cache.URL (c_Cache cfg))) (redis_Ping (c_Cache cfg))
                             (c_Cache cfg) (Config.ServiceName base) in
  (match redis_ParseURL (Cache.URL (c_Cache cfg)) with None => op ORedisOpen | Some _ => ret tt end) ;;
  (if closed : bool then op ORedisClose else ret tt) ;;
  redis <- try cached ;;
  dialled <- on_broker OBrokerConnect (AmqpPublisher.Connect (c_AMQP cfg) log) ;;
  broker <- try dialled ;;
  opened <- on_broker OPublisherOpen (NewPublisher broker) ;;
  _ <- try opened ;;
  ret {| d_shutdownTracing := shutdownTracing; d_db := db; d_redis := redis; d_broker := broker |}.

Definition health_registry (cfg : ServiceConfig) : Health.Registry :=
  Register Connection_HealthCheck (Register RedisCache_HealthCheck (Register DB_HealthCheck
    (NewRegistry (Config.ServiceName (c_Base cfg)) (i_Version version_Get)))).

(** [metrics.NewRegistry(cfg.ServiceName)], which panics when a collector is refused. *)
Definition metrics_registry (cfg : ServiceConfig) : M MetricsRegistry.Registry :=
  match MetricsRegistry.NewRegistry (Config.ServiceName (c_Base cfg)) with
  | Panics v => fun s => (Panicked v, s)
  | Returns r => ret r
  end.

(** [jwt.LoadKeySet]; that it always answers is [LoadKeySet_usable]. *)
Definition load_keys (cfg : ServiceConfig) : M KeySet :=
  match LoadKeySet (c_JWT cfg) with
  | None => fun s => (Blocked, s)
  | Some r => try r
  end.

(** *** The components *)

Definition stopping (o : Z -> mop) (answered : Z -> option goerror) : option (Z -> mstate -> option goerror * mstate) :=
  Some (fun deadline s => (answered deadline, note (o deadline) s)).

(** Closing the broker, after what the worker did with it. *)
Definition close_broker (broker : Connection) (deadline : Z) (s : mstate) : option goerror * mstate :=
  let used := {| calls := (calls (m_amqp s) ++ broker_traffic)%list; logs := logs (m_amqp s) |} in
  let '(err, ch) := Connection_Close broker false false used in
  (err, {| m_ops := (m_ops s ++ [OBrokerClose])%list; m_amqp := ch; m_otel := m_otel s; m_now := m_now s |}).

Definition base_components (deps : dependencies) : list (Component mstate) :=
  [{| Bootstrap.Name := "tracing"; starts := false;
      Stop := stopping OTracingShutdown (run_shutdown (d_shutdownTracing deps)) |};
   {| Bootstrap.Name := "database"; starts := false; Stop := stopping (fun _ => OPoolClose) (fun _ => None) |};
   {| Bootstrap.Name := "cache"; starts := false;
      Stop := stopping (fun _ => ORedisClose) (fun _ => Cache.Close redis_Close) |};
   {| Bootstrap.Name := "broker"; starts := false; Stop := Some (close_broker (d_broker deps)) |};
   {| Bootstrap.Name := "outbox-worker"; starts := true; Stop := None |}].

Definition grpc_component (srv : GrpcServer.Server) : Component mstate :=
  {| Bootstrap.Name := "grpc"; starts := true;
     Stop := Some (fun deadline s =>
       let '(err, ops) := GrpcServer.Shutdown (grpc_drained deadline) srv in (err, note (OGrpc ops) s)) |}.

Definition http_component (srv : HttpServer.Server) : Component mstate :=
  {| Bootstrap.Name := "http"; starts := true;
     Stop := Some (fun deadline s =>
       (HttpServer.Shutdown http_drained (m_now s) deadline srv, note (OHttpShutdown deadline) s)) |}.

Definition make_runner (log : Logger) (timeout : Z) (cs : list (Component mstate)) : Runner mstate :=
  fold_left (fun r c => Bootstrap.Add c r) cs (NewRunner log timeout).

Definition run_components (r : Runner mstate) : M unit := fun s =>
  match Bootstrap.Run r component_events s with
  | None => (Blocked, s)
  | Some (err, s, es) =>
      let s := note (OLog (lg_out (Bootstrap.log r)) es) s in
      (match err with Some e => Failed e | None => Done tt end, s)
  end.

(** *** The builders *)

Definition HealthPing_FullMethodName := "/dizen.identity.v1.HealthService/HealthPing".

Definition grpc_config (cfg : ServiceConfig) (log : Logger) (public : list string) : GrpcServer.Config :=
  let base := c_Base cfg in
  {| GrpcServer.Address := GRPCAddress base;
     GrpcServer.IsProduction := Config.IsProduction (Config.Environment base);
     GrpcServer.CfgLogger := log; GrpcServer.HasMetrics := true;
     MaxRecvMsgSize := GRPCMaxRecvMsgSize base;
     GrpcServer.ShutdownTimeout := Config.ShutdownTimeout base;
     GrpcServer.MinClientAPIVersion := Config.MinClientAPIVersion base;
     PublicMethods := NewAllowlist public |}.

(** [buildGRPC] of identity. *)
Definition identity_buildGRPC (cfg : ServiceConfig) (log : Logger) : M GrpcServer.Server :=
  let '(built, ops) := NewServer
    (grpc_config cfg log (HealthMethods ++ [HealthPing_FullMethodName])%list)
    (bare_deps : GrpcServer.Dependencies Req Resp) in
  op (OGrpc ops) ;; srv <- try built ;; ret srv.1.

(** [buildGRPC] of tours, booking and admin. *)
Definition api_buildGRPC (cfg : ServiceConfig) (log : Logger) : M GrpcServer.Server :=
  let '(built, ops) := NewServer (grpc_config cfg log HealthMethods)
    (bare_deps : GrpcServer.Dependencies Req Resp) in
  op (OGrpc ops) ;; srv <- try built ;; ret srv.1.

Definition listen_grpc (srv : GrpcServer.Server) : M GrpcServer.Server :=
  let '(err, srv, ops) := GrpcServer.Listen (grpc_bound (GrpcServer.Address (GrpcServer.s_cfg srv))) srv in
  op (OGrpc ops) ;; check err ;; ret srv.

Definition http_config (cfg : ServiceConfig) (log : Logger) (gateway : bool) (health : Health.Registry)
    (extra : list (string * string)) : HttpServer.Config :=
  let base := c_Base cfg in
  {| HttpServer.Address := HTTPAddress base; HttpServer.ServiceName := Config.ServiceName base;
     HttpServer.Version := i_Version version_Get; HttpServer.CfgLogger := log; Gateway := gateway;
     CfgHealth := Some health; HttpServer.HasMetrics := true; HttpServer.Extra := extra;
     HttpServer.ShutdownTimeout := Config.ShutdownTimeout base |}.

(** The end of [buildHTTP]: the server built and listening. *)
Definition listen_http (config : HttpServer.Config) : M HttpServer.Server :=
  match HttpServer.New config with
  | Panics v => fun s => (Panicked v, s)
  | Returns built =>
      srv <- try built ;;
      let '(err, srv) := HttpServer.Listen (http_bound (HttpServer.Address config)) srv in
      op (OHttpListen (HttpServer.Address config)) ;; check err ;; ret srv
  end.

Definition identity_buildHTTP (cfg : ServiceConfig) (log : Logger) (grpcAddress : string)
    (health : Health.Registry) (keys : KeySet) : M HttpServer.Server :=
  op (ODial grpcAddress) ;;
  check (DialGRPC grpcAddress (dialed grpcAddress)) ;;
  check (RegisterGateways
    [fst (RegisterHealthServiceHandler (grpc_conn grpcAddress)
            {| gm_options := NewGatewayMux; gm_handlers := [] |})]) ;;
  listen_http (http_config cfg log true health [(JWKSPath, "jwks")]).

(** [buildHTTP] of the four others. *)
Definition plain_buildHTTP (cfg : ServiceConfig) (log : Logger) (health : Health.Registry)
    : M HttpServer.Server :=
  listen_http (http_config cfg log false health []).

(** *** The three forms of [serve]

    [assemble] is [serve] up to its last line, which runs the components: what the
    service is made of then. *)

Record assembled := mkAssembled {
  a_health : Health.Registry;
  a_metrics : MetricsRegistry.Registry;
  a_keys : KeySet;
  a_worker : Worker;
  a_grpc : option GrpcServer.Server;
  a_http : HttpServer.Server;
  a_runner : Runner mstate
}.

Definition identity_assemble (cfg : ServiceConfig) (log : Logger) : M assembled :=
  deps <- open_dependencies cfg log ;;
  let health := health_registry cfg in
  metricsRegistry <- metrics_registry cfg ;;
  keys <- load_keys cfg ;;
  let outboxWorker := NewWorker (c_Outbox cfg) log in
  built <- identity_buildGRPC cfg log ;;
  op (ORegisterService "dizen.identity.v1.HealthService") ;;
  grpcSrv <- listen_grpc built ;;
  httpSrv <- identity_buildHTTP cfg log (GrpcServer.Server_Address grpcSrv) health keys ;;
  let runner := make_runner log (Config.ShutdownTimeout (c_Base cfg))
    (base_components deps ++ [grpc_component grpcSrv; http_component httpSrv])%list in
  op (log_line log InfoLevel [("grpc", GrpcServer.Server_Address grpcSrv);
                              ("http", HttpServer.Server_Address httpSrv)] "ready") ;;
  ret {| a_health := health; a_metrics := metricsRegistry; a_keys := keys; a_worker := outboxWorker; a_grpc := Some grpcSrv;
         a_http := httpSrv; a_runner := runner |}.

(** Tours, booking and admin. *)
Definition api_assemble (cfg : ServiceConfig) (log : Logger) : M assembled :=
  deps <- open_dependencies cfg log ;;
  let health := health_registry cfg in
  metricsRegistry <- metrics_registry cfg ;;
  keys <- load_keys cfg ;;
  let outboxWorker := NewWorker (c_Outbox cfg) log in
  built <- api_buildGRPC cfg log ;;
  grpcSrv <- listen_grpc built ;;
  httpSrv <- plain_buildHTTP cfg log health ;;
  let runner := make_runner log (Config.ShutdownTimeout (c_Base cfg))
    (base_components deps ++ [grpc_component grpcSrv; http_component httpSrv])%list in
  op (log_line log InfoLevel [("grpc", GrpcServer.Server_Address grpcSrv);
                              ("http", HttpServer.Server_Address httpSrv)] "ready") ;;
  ret {| a_health := health; a_metrics := metricsRegistry; a_keys := keys; a_worker := outboxWorker; a_grpc := Some grpcSrv;
         a_http := httpSrv; a_runner := runner |}.

(** Mail-dispatcher. *)
Definition mail_assemble (cfg : ServiceConfig) (log : Logger) : M assembled :=
  deps <- open_dependencies cfg log ;;
  let health := health_registry cfg in
  metricsRegistry <- metrics_registry cfg ;;
  keys <- load_keys cfg ;;
  let outboxWorker := NewWorker (c_Outbox cfg) log in
  httpSrv <- plain_buildHTTP cfg log health ;;
  let runner := make_runner log (Config.ShutdownTimeout (c_Base cfg))
    (base_components deps ++ [http_component httpSrv])%list in
  op (log_line log InfoLevel [("http", HttpServer.Server_Address httpSrv)] "ready") ;;
  ret {| a_health := health; a_metrics := metricsRegistry; a_keys := keys; a_worker := outboxWorker; a_grpc := None;
         a_http := httpSrv; a_runner := runner |}.

Definition identity_serve (cfg : ServiceConfig) (log : Logger) : M unit :=
  a <- identity_assemble cfg log ;; run_components (a_runner a).

Definition api_serve (cfg : ServiceConfig) (log : Logger) : M unit :=
  a <- api_assemble cfg log ;; run_components (a_runner a).

Definition mail_serve (cfg : ServiceConfig) (log : Logger) : M unit :=
  a <- mail_assemble cfg log ;; run_components (a_runner a).

(** ** main *)

Definition runHealthcheck (envFile : string) : option goerror :=
  match config_Load envFile with
  | Err err => Some err
  | Ok cfg => Healthcheck (HTTPPort (c_Base cfg)) probe_request (probe_do (HTTPPort (c_Base cfg)))
  end.

(** The exit code; the flags are given. *)
Definition main_with (serviceName : string) (run : string -> bool -> M unit)
    (migrateOnly : bool) (envFile : string) (healthcheck : bool) : M Z := fun s =>
  if healthcheck
  then match runHealthcheck envFile with
       | Some err => (Done 1%Z, note (OStderr (serviceName ++ ": unhealthy: " ++ Error err)) s)
       | None => (Done 0%Z, s)
       end
  else match run envFile migrateOnly s with
       | (Failed err, s) => (Done 1%Z, note (OStderr (serviceName ++ ": fatal: " ++ Error err)) s)
       | (Done _, s) => (Done 0%Z, s)
       | (Panicked v, s) => (Panicked v, s)
       | (Blocked, s) => (Blocked, s)
       end.

(** ** The five services *)

(** Each main.go has these functions of its own; the texts of tours, booking and
    admin are the same but for the imports and the name. *)
Definition serviceName (svc : service) : string :=
  match svc with
  | Identity => "identity" | Tours => "tours" | Booking => "booking" | Admin => "admin"
  | MailDispatcher => "mail-dispatcher"
  end.

Definition tours_buildGRPC := api_buildGRPC.
Definition booking_buildGRPC := api_buildGRPC.
Definition admin_buildGRPC := api_buildGRPC.
Definition tours_buildHTTP := plain_buildHTTP.
Definition booking_buildHTTP := plain_buildHTTP.
Definition admin_buildHTTP := plain_buildHTTP.
Definition mail_buildHTTP := plain_buildHTTP.
Definition identity_runHealthcheck := runHealthcheck.
Definition tours_runHealthcheck := runHealthcheck.
Definition booking_runHealthcheck := runHealthcheck.
Definition admin_runHealthcheck := runHealthcheck.
Definition mail_runHealthcheck := runHealthcheck.
Definition identity_config_Load := config_Load.
Definition tours_config_Load := config_Load.
Definition booking_config_Load := config_Load.
Definition admin_config_Load := config_Load.
Definition mail_config_Load := config_Load.

Definition tours_serve := api_serve.
Definition booking_serve := api_serve.
Definition admin_serve := api_serve.

Definition assemble (svc : service) : ServiceConfig -> Logger -> M assembled :=
  match svc with
  | Identity => identity_assemble
  | Tours | Booking | Admin => api_assemble
  | MailDispatcher => mail_assemble
  end.

Definition serve (svc : service) : ServiceConfig -> Logger -> M unit :=
  match svc with
  | Identity => identity_serve
  | Tours => tours_serve
  | Booking => booking_serve
  | Admin => admin_serve
  | MailDispatcher => mail_serve
  end.

Definition identity_run := run_with identity_serve.
Definition tours_run := run_with tours_serve.
Definition booking_run := run_with booking_serve.
Definition admin_run := run_with admin_serve.
Definition mail_run := run_with mail_serve.

Definition identity_main := main_with "identity" identity_run.
Definition tours_main := main_with "tours" tours_run.
Definition booking_main := main_with "booking" booking_run.
Definition admin_main := main_with "admin" admin_run.
Definition mail_main := main_with "mail-dispatcher" mail_run.

Definition run (svc : service) : string -> bool -> M unit :=
  match svc with
  | Identity => identity_run
  | Tours => tours_run
  | Booking => booking_run
  | Admin => admin_run
  | MailDispatcher => mail_run
  end.

Definition main (svc : service) : bool -> string -> bool -> M Z :=
  match svc with
  | Identity => identity_main
  | Tours => tours_main
  | Booking => booking_main
  | Admin => admin_main
  | MailDispatcher => mail_main
  end.
End Services.
