(* ===== verification/MainsProofs.v ===== *)
(** * The life of a service

    What the entry points of Mains.v amount to: starting, running and stopping, the
    place of the migrations, what reaches the error reporter, and readiness. *)

From stdpp Require Import base list gmap sets strings numbers.
From Stdlib Require Import ZArith Lia String.
From S2P Require Import Identity RestGateway MetricsRegistry Prelude GoStrings GoErrors Logger Sentry Tracing AmqpRetry AmqpConsumer AmqpPublisher Errors GrpcServer Database Jwt Keygen Cache OutboxWorker Health HttpServer Config Bootstrap OutboxServices Mains.

Local Open Scope string_scope.
Local Open Scope main_scope.

(** ** What a run does *)

Section Proofs.
Context `{Host, Otel, Pgx, Migrator, Channel, Crypto, Unicode, Zerolog, ZerologFields, GrpcStatus}.
Context {Req Resp : Type} `{GrpcLibs Req}.
Context {GR : GatewayRuntime Identity.HealthPingResponse} {GL : GatewayLib} {PM : Prometheus}.

(** [grows X P Q m]: [m] adds only operations of [P] to those done, a value it returns is
    in [Q], and it panics only if [X]. *)
Definition grows {A} (X : Prop) (P : mop -> Prop) (Q : A -> Prop) (m : M A) : Prop :=
  forall s, exists l, m_ops (m s).2 = (m_ops s ++ l)%list /\ Forall P l
    /\ match (m s).1 with Done a => Q a | Failed _ => True | Panicked _ => X | Blocked => False end.

Definition any {A} (_ : A) : Prop := True.

Lemma grows_ret {A} X P (Q : A -> Prop) a : Q a -> grows X P Q (ret a).
Proof. intros ? s. exists []. by rewrite app_nil_r. Qed.

Lemma grows_bind {A B} X P (Q : A -> Prop) (R : B -> Prop) m k :
  grows X P Q m -> (forall a, Q a -> grows X P R (k a)) -> grows X P R (mbind m k).
Proof.
  intros Hm Hk s. destruct (Hm s) as (l & Hl & Hp & Hq). unfold mbind.
  destruct (m s) as [[a|e|v|] s1]; cbn in *; [|exists l; auto..].
  destruct (Hk a Hq s1) as (l' & Hl' & Hp' & Hr). exists (l ++ l')%list.
  rewrite Hl', Hl, app_assoc. split; [done|]. split; [by apply Forall_app_2|done].
Qed.

Lemma grows_op X (P : mop -> Prop) o : P o -> grows X P any (op o).
Proof. intros ? s. exists [o]. by repeat constructor. Qed.

Lemma grows_check X P err : grows X P any (check err).
Proof. intros s. exists []. cbn. rewrite app_nil_r. split; [done|]. split; [done|]. by destruct err. Qed.

Lemma grows_try {A} X P (Q : A -> Prop) r :
  (forall a, r = Ok a -> Q a) -> grows X P Q (try r).
Proof.
  intros Hq s. exists []. cbn. rewrite app_nil_r. split; [done|]. split; [done|]. destruct r; auto.
Qed.

Lemma grows_on_broker {A} X (P : mop -> Prop) o (f : chst -> A * chst) : P o -> grows X P any (on_broker o f).
Proof. intros ? s. exists [o]. unfold on_broker. destruct (f (m_amqp s)). by repeat constructor. Qed.

Lemma grows_on_otel {A} X (P : mop -> Prop) o (f : globals -> A * globals) : P o -> grows X P any (on_otel o f).
Proof. intros ? s. exists [o]. unfold on_otel. destruct (f (m_otel s)). by repeat constructor. Qed.

(** *** Starting *)

(** What [serve] may do before it runs the components. *)
Definition grpc_starting (o : sop) : bool :=
  match o with OpSetServing _ | OpServe | OpGracefulStop | OpStop => false | _ => true end.

Definition opening (o : mop) : Prop :=
  match o with
  | OTracingSetup | OPool _ | ORedisOpen | ORedisClose | OBrokerConnect | OPublisherOpen
  | ORegisterService _ | ODial _ | OHttpListen _ | OLog _ _ => True
  | OGrpc ops => forallb grpc_starting ops = true
  | _ => False
  end.

(** One rule of [grows], with the trivial postcondition where it leaves a choice. *)
Ltac grow_step := first
  [ apply grows_op; first [exact I|reflexivity]
  | apply grows_check
  | apply grows_on_broker; exact I
  | apply grows_on_otel; exact I
  | apply (grows_try _ _ any); intros; exact I
  | apply (grows_ret _ _ any); exact I
  | match goal with |- grows _ _ _ (match ?x with _ => _ end) => destruct x end
  | eapply grows_bind; [|intros ? ?] ].

Lemma open_dependencies_grows X cfg log : grows X opening any (open_dependencies cfg log).
Proof. unfold open_dependencies. repeat grow_step. Qed.

Lemma LoadKeySet_wf cfg :
  exists r, LoadKeySet cfg = Some r /\ forall keys, r = Ok keys -> keyset_wf keys.
Proof.
  unfold LoadKeySet. destruct (loadPrivate cfg) as [s0|err] eqn:Hp; [|by eexists].
  destruct (loadPrivate_wf _ _ Hp) as [Hwf _]. destruct (String.eqb _ _).
  { eexists. split; [done|]. by intros keys [= <-]. }
  unfold addPublicKeys. destruct (addPublicKeys_loop _ _ _) as [[[err|] s1]|] eqn:Hl; [by eexists| |].
  - destruct (addPublicKeys_keeps _ _ _ _ _ Hwf Hl) as [? _].
    destruct (_ =? 0)%nat; eexists; (split; [done|]); by intros keys [= <-].
  - exfalso. eapply addPublicKeys_total; [|exact Hl]. lia.
Qed.

(** The registry of the metrics is refused only for the value of its label. *)
Lemma metrics_registry_grows P cfg :
  grows (ValidUTF8 (Config.ServiceName (c_Base cfg)) = false) P
    (fun r => MetricsRegistry.NewRegistry (Config.ServiceName (c_Base cfg)) = Returns r) (metrics_registry cfg).
Proof.
  unfold metrics_registry. destruct (ValidUTF8 (Config.ServiceName (c_Base cfg))) eqn:Hu.
  - rewrite registry_descs by done. by apply grows_ret.
  - destruct (MetricsRegistry.NewRegistry _); [by apply grows_ret|]. intros s. exists []. by rewrite app_nil_r.
Qed.

Lemma load_keys_grows X P cfg : grows X P keyset_wf (load_keys cfg).
Proof.
  unfold load_keys. destruct (LoadKeySet_wf (c_JWT cfg)) as (r & -> & Hr). by apply grows_try.
Qed.

Lemma NewServer_opening cfg (deps : GrpcServer.Dependencies Req Resp) :
  opening (OGrpc (NewServer cfg deps).2).
Proof.
  unfold NewServer. destruct (buildUnaryChain _ _); [|done]. cbn. by destruct (GrpcServer.IsProduction _).
Qed.

Lemma identity_buildGRPC_grows X cfg log : grows X opening any (identity_buildGRPC (Resp := Resp) cfg log).
Proof.
  unfold identity_buildGRPC. pose proof (NewServer_opening (grpc_config cfg log
    (HealthMethods ++ [HealthPing_FullMethodName])%list) (bare_deps : GrpcServer.Dependencies Req Resp)) as Ho.
  destruct (NewServer _ _) as [built ops].
  eapply grows_bind; [by apply grows_op|intros _ _]. repeat grow_step.
Qed.

Lemma api_buildGRPC_grows X cfg log : grows X opening any (api_buildGRPC (Resp := Resp) cfg log).
Proof.
  unfold api_buildGRPC. pose proof (NewServer_opening (grpc_config cfg log HealthMethods)
    (bare_deps : GrpcServer.Dependencies Req Resp)) as Ho.
  destruct (NewServer _ _) as [built ops].
  eapply grows_bind; [by apply grows_op|intros _ _]. repeat grow_step.
Qed.

Lemma listen_grpc_grows X srv : grows X opening any (listen_grpc srv).
Proof. unfold listen_grpc, GrpcServer.Listen. destruct (grpc_bound _); repeat grow_step. Qed.

(** *** The HTTP servers *)

(** The routes a service answers: the probes and the metrics always; the gateway and
    the key set in identity only. *)
Definition serves (gateway jwks : bool) (cfg : ServiceConfig) (health : Health.Registry)
    (srv : HttpServer.Server) : Prop :=
  let route := lookup_route (s_mux srv) in
  route "/livez" = Some (Liveness (Config.ServiceName (c_Base cfg)) (i_Version version_Get))
  /\ route "/readyz" = Some (Readiness health)
  /\ route "/metrics" = Some MetricsScrape
  /\ route "/v1/ping" = (if gateway then Some GatewayMux else None)
  /\ route JWKSPath = (if jwks then Some (ExtraHandler "jwks") else None).

Lemma listen_http_grows X config Q :
  (forall srv addr, HttpServer.New config = Returns (Ok srv) ->
     Q {| HttpServer.s_cfg := HttpServer.s_cfg srv; s_mux := s_mux srv;
          HttpServer.s_listener := Some addr |}) ->
  (forall v, HttpServer.New config <> Panics v) ->
  grows X opening Q (listen_http config).
Proof.
  intros Hq Hp. unfold listen_http. destruct (HttpServer.New config) as [built|v]; [|by destruct (Hp v)].
  eapply grows_bind; [apply (grows_try _ _ (fun srv => built = Ok srv)); auto|]. intros srv ->.
  unfold HttpServer.Listen. destruct (http_bound _) as [addr|err].
  - do 2 (eapply grows_bind; [grow_step|intros ? _]). apply grows_ret. by apply Hq.
  - eapply grows_bind; [grow_step|intros ? _]. intros s. exists []. by rewrite app_nil_r.
Qed.

Lemma http_built gateway extra cfg log health :
  (gateway = true /\ extra = [(JWKSPath, "jwks")] \/ gateway = false /\ extra = []) ->
  exists srv, HttpServer.New (http_config cfg log gateway health extra) = Returns (Ok srv)
    /\ serves gateway gateway cfg health srv.
Proof.
  intros Hc. unfold HttpServer.New, http_config. cbn [CfgHealth HttpServer.ShutdownTimeout].
  destruct Hc as [[-> ->]|[-> ->]]; destruct (_ <=? 0)%Z; eexists; (split; [reflexivity|]);
    repeat split; reflexivity.
Qed.

(** *** Assembling *)

Definition is_identity (svc : service) : bool := match svc with Identity => true | _ => false end.

Definition all_components (deps : dependencies) (grpc : option GrpcServer.Server)
    (http : HttpServer.Server) : list (Component mstate) :=
  (base_components deps ++ match grpc with Some g => [grpc_component g] | None => [] end
   ++ [http_component http])%list.

(** What an assembled service is made of. *)
Definition assembled_ok (svc : service) (cfg : ServiceConfig) (log : Logger) (a : assembled) : Prop :=
  a_health a = health_registry cfg /\ keyset_wf (a_keys a)
  /\ MetricsRegistry.NewRegistry (Config.ServiceName (c_Base cfg)) = Returns (a_metrics a)
  /\ Bootstrap.log (a_runner a) = log
  /\ a_worker a = NewWorker (c_Outbox cfg) log
  /\ serves (is_identity svc) (is_identity svc) cfg (health_registry cfg) (a_http a)
  /\ (a_grpc a = None <-> svc = MailDispatcher)
  /\ exists deps, components (a_runner a) = all_components deps (a_grpc a) (a_http a).

Lemma make_runner_log log timeout cs : Bootstrap.log (make_runner log timeout cs) = log.
Proof.
  unfold make_runner.
  assert (Hf : forall r : Runner mstate, Bootstrap.log (fold_left (fun r c => Bootstrap.Add c r) cs r) = Bootstrap.log r);
    [|apply Hf]. induction cs as [|c cs IH]; intros r; cbn [fold_left]; [done|]. by rewrite IH.
Qed.

Lemma make_runner_components log timeout cs : components (make_runner log timeout cs) = cs.
Proof.
  unfold make_runner.
  assert (Hf : forall r, components (fold_left (fun r c => Bootstrap.Add c r) cs r) = (components r ++ cs)%list).
  { induction cs as [|c cs IH]; intros r; cbn [fold_left]; [by rewrite app_nil_r|].
    rewrite IH. cbn [components Bootstrap.Add]. by rewrite <- app_assoc. }
  apply Hf.
Qed.

Lemma identity_buildHTTP_grows X cfg log addr keys :
  grows X opening (serves true true cfg (health_registry cfg))
    (identity_buildHTTP cfg log addr (health_registry cfg) keys).
Proof.
  unfold identity_buildHTTP. do 3 (eapply grows_bind; [grow_step|intros ? _]).
  destruct (http_built true [(JWKSPath, "jwks")] cfg log (health_registry cfg)) as (srv & Hn & Hs); [auto|].
  apply listen_http_grows; rewrite Hn; [|done]. by intros ? addr' [= <-].
Qed.

Lemma plain_buildHTTP_grows X cfg log :
  grows X opening (serves false false cfg (health_registry cfg))
    (plain_buildHTTP cfg log (health_registry cfg)).
Proof.
  destruct (http_built false [] cfg log (health_registry cfg)) as (srv & Hn & Hs); [auto|].
  apply listen_http_grows; rewrite Hn; [|done]. by intros ? addr' [= <-].
Qed.

Lemma assemble_grows svc cfg log :
  grows (ValidUTF8 (Config.ServiceName (c_Base cfg)) = false) opening (assembled_ok svc cfg log)
    (assemble (Resp := Resp) svc cfg log).
Proof.
  assert (Hend : forall X a o, opening o -> assembled_ok svc cfg log a ->
            grows X opening (assembled_ok svc cfg log) (op o ;; ret a)).
  { intros X a o Ho Ha. eapply grows_bind; [by apply grows_op|intros ? _]. by apply grows_ret. }
  destruct svc; cbn [assemble];
    unfold identity_assemble, api_assemble, mail_assemble;
    (eapply grows_bind; [apply open_dependencies_grows|intros deps _]);
    (eapply grows_bind; [apply metrics_registry_grows|intros metrics Hmetrics]);
    (eapply grows_bind; [apply load_keys_grows|intros keys Hkeys]).
  1: eapply grows_bind; [apply identity_buildGRPC_grows|intros built _].
  1: eapply grows_bind; [grow_step|intros ? _].
  2-4: eapply grows_bind; [apply api_buildGRPC_grows|intros built _].
  1-4: eapply grows_bind; [apply listen_grpc_grows|intros grpcSrv _].
  1: eapply grows_bind; [apply identity_buildHTTP_grows|intros httpSrv Hhttp].
  2-5: eapply grows_bind; [apply plain_buildHTTP_grows|intros httpSrv Hhttp].
  all: apply Hend; [done|]; (split; [done|]); (split; [done|]); (split; [done|]);
    (split; [apply make_runner_log|]); repeat (split; [done|]); exists deps; cbn [a_runner a_grpc a_http];
    by rewrite make_runner_components.
Qed.

(** *** Running and stopping *)

(** What stopping a service does, in order. *)
Definition closing (grpc : option GrpcServer.Server) (deadline : Z) : list mop :=
  (OHttpShutdown deadline
   :: match grpc with Some g => [OGrpc (GrpcServer.Shutdown (grpc_drained deadline) g).2] | None => [] end
   ++ [OBrokerClose; ORedisClose; OPoolClose; OTracingShutdown deadline])%list.

Lemma stop_reversed_ops deps grpc http deadline s :
  m_ops (stop_reversed deadline (all_components deps grpc http) s) = (m_ops s ++ closing grpc deadline)%list.
Proof.
  unfold all_components, base_components, stop_reversed, closing.
  assert (Hb : forall s, m_ops (close_broker (d_broker deps) deadline s).2 = (m_ops s ++ [OBrokerClose])%list).
  { intros s0. unfold close_broker. by destruct (Connection_Close _ _ _ _). }
  destruct grpc as [g|]; cbn [app fold_right Stop grpc_component http_component stopping note m_ops snd];
    rewrite !Hb; cbn [m_ops note snd].
  - destruct (GrpcServer.Shutdown (grpc_drained deadline) g) as [err ops]. cbn [snd note m_ops].
    by rewrite <- !app_assoc.
  - by rewrite <- !app_assoc.
Qed.

Lemma started_components deps grpc http i :
  i ∈ started (all_components deps grpc http) -> (4 <= i <= 6)%nat.
Proof.
  destruct grpc; cbn; rewrite ?elem_of_cons; intros Hi; repeat destruct Hi as [->|Hi]; try lia;
    by apply not_elem_of_nil in Hi.
Qed.

Lemma serve_assemble svc cfg log :
  serve (Resp := Resp) svc cfg log
  = (a <- assemble (Resp := Resp) svc cfg log ;; run_components (a_runner a)).
Proof. by destruct svc. Qed.

(** C18: the life of a service.  Whatever the outside answers, [serve] panics only if the
    name of the service is not text in UTF-8, which the metrics refuse: otherwise it
    fails while opening what it needs, and then closed nothing but a cache that did
    not answer, or it is
    assembled, with the probes and the metrics served and the gateway and the key set
    only in identity; and when it is told to stop and every component returns, it
    returns too, after the HTTP server, the gRPC server, the broker, the cache, the
    database and the tracing were closed, in that order. *)
Theorem service_lifecycle svc cfg log s :
  NoDup (returned component_events) -> Signal ∈ component_events ->
  (forall i, (4 <= i <= 6)%nat -> i ∈ returned component_events) ->
  exists l, Forall opening l /\
    ((exists err, (serve (Resp := Resp) svc cfg log s).1 = Failed err
        /\ m_ops (serve (Resp := Resp) svc cfg log s).2 = (m_ops s ++ l)%list)
     \/ (exists a deadline es err, assembled_ok svc cfg log a
        /\ (serve (Resp := Resp) svc cfg log s).1 = match err with Some e => Failed e | None => Done tt end
        /\ m_ops (serve (Resp := Resp) svc cfg log s).2
           = (m_ops s ++ l ++ closing (a_grpc a) deadline ++ [OLog (lg_out log) es])%list)
     \/ ValidUTF8 (Config.ServiceName (c_Base cfg)) = false
        /\ (exists v, (serve (Resp := Resp) svc cfg log s).1 = Panicked v)
        /\ m_ops (serve (Resp := Resp) svc cfg log s).2 = (m_ops s ++ l)%list).
Proof.
  intros Hnd Hsig Hall. rewrite serve_assemble.
  destruct (assemble_grows svc cfg log s) as (l & Hl & Hop & Ha). exists l. split; [done|].
  unfold mbind. destruct (assemble (Resp := Resp) svc cfg log s) as [[a|e|v|] s1]; cbn in Hl, Ha;
    [|by eauto|by eauto 10|done].
  right; left. pose proof Ha as (_ & _ & _ & Hlog & _ & _ & _ & deps & Hcs).
  assert (Hret : forall i, i ∈ started (components (a_runner a)) -> i ∈ returned component_events).
  { intros i Hi. rewrite Hcs in Hi. by apply Hall, (started_components _ _ _ _ Hi). }
  unfold run_components.
  destruct (Bootstrap.Run (a_runner a) component_events s1) as [[[err s2] es]|] eqn:Hr.
  2: { by rewrite (Run_result (a_runner a) _ s1 Hnd Hret (or_introl Hsig)) in Hr. }
  apply Run_world in Hr as ->. exists a, (now s1 + Bootstrap.timeout (a_runner a))%Z, es, err.
  split; [done|]. split; [by destruct err|]. cbn [snd note m_ops].
  by rewrite Hcs, stop_reversed_ops, Hl, Hlog, <- !app_assoc.
Qed.
End Proofs.

(** ** Migrations and reporting *)

Section Run.
Context `{Host, Otel, Pgx, Migrator, Channel, Crypto, Unicode, Zerolog, ZerologFields, GrpcStatus}.
Context {Req Resp : Type} `{GrpcLibs Req}.
Context {GR : GatewayRuntime Identity.HealthPingResponse} {GL : GatewayLib} {PM : Prometheus}.

(** What [serve] may do: anything but migrate or touch the reporter. *)
Definition serving (o : mop) : Prop :=
  match o with OMigrate _ | OReporterOpen | OReporterClose | OStderr _ => False | _ => True end.

Lemma serve_ops svc cfg log s :
  exists l, m_ops (serve (Resp := Resp) svc cfg log s).2 = (m_ops s ++ l)%list /\ Forall serving l.
Proof.
  rewrite serve_assemble.
  destruct (assemble_grows (Resp := Resp) svc cfg log s) as (l & Hl & Hop & Ha).
  assert (Forall serving l) by (eapply List.Forall_impl; [|exact Hop]; by intros []).
  unfold mbind. destruct (assemble (Resp := Resp) svc cfg log s) as [[a|e|v|] s1]; cbn in Hl, Ha;
    [|by exists l|by exists l|done].
  destruct Ha as (_ & _ & _ & _ & _ & _ & _ & deps & Hcs). unfold run_components.
  destruct (Bootstrap.Run _ _ _) as [[[err s2] es]|] eqn:Hr; [|by exists l].
  apply Run_world in Hr as ->. eexists. cbn [snd note m_ops].
  rewrite Hcs, stop_reversed_ops, Hl, <- !app_assoc. split; [reflexivity|].
  apply Forall_app_2; [done|]. unfold closing. destruct (a_grpc a); repeat constructor.
Qed.

Definition run_log (cfg : ServiceConfig) (sink : Sink) : Logger :=
  Logger.New (i_Version version_Get) (logger_options cfg sink).

(** The operations of a run: none before there is a reporter; then its opening, the
    first log line, the migrations when they are asked for, what [serve] does when it
    is reached, and the closing of the reporter, unless the service still runs. *)
Definition run_trace (envFile : string) (migrateOnly : bool) (r : result unit)
    (l : list mop) : Prop :=
  (exists err, r = Failed err /\ l = []
     /\ (config_Load envFile = Err err
         \/ exists cfg, config_Load envFile = Ok cfg
              /\ Sentry.Setup sentry_New (sentry_options cfg version_Get) = Err err))
  \/ exists cfg sink tags first, config_Load envFile = Ok cfg
     /\ Sentry.Setup sentry_New (sentry_options cfg version_Get) = Ok (sink, tags)
     /\ let '(migrated, ops) := Migrate (Database.URL (c_Database cfg)) migrations_Path (run_log cfg sink) in
        let migrates := RunMigrations (c_Database cfg) || migrateOnly in
        let start := ([OReporterOpen; OLog (lg_out (run_log cfg sink)) first] ++ if migrates then [OMigrate ops] else [])%list in
        (exists err, migrates = true /\ migrated = Some err /\ r = Failed err
           /\ l = (start ++ [OReporterClose])%list)
        \/ (migrates = true -> migrated = None)
           /\ (migrateOnly = true /\ r = Done tt /\ l = (start ++ [OReporterClose])%list
               \/ migrateOnly = false
                  /\ exists body, Forall serving body
                     /\ ((r = Done tt \/ exists v, r = Panicked v)
                           /\ l = (start ++ body ++ [OReporterClose])%list
                         \/ r = Blocked /\ l = (start ++ body)%list
                         \/ exists err, r = Failed err
                              /\ l = (start ++ body
                                      ++ [log_line (run_log cfg sink) ErrorLevel [("error", Error err)]
                                            "the service stopped with an error"; OReporterClose])%list)).

Lemma run_is_run_with svc : run (Resp := Resp) svc = run_with (serve (Resp := Resp) svc).
Proof. by destruct svc. Qed.

(** The part of [run] that follows the migrations. *)
Lemma serve_logged svc cfg log s :
  exists body, Forall serving body /\
  m_ops (logging_errors log (serve (Resp := Resp) svc cfg log) s).2
  = (m_ops s ++ body
     ++ match (logging_errors log (serve (Resp := Resp) svc cfg log) s).1 with
        | Failed err => [log_line log ErrorLevel [("error", Error err)] "the service stopped with an error"]
        | _ => []
        end)%list.
Proof.
  destruct (serve_ops svc cfg log s) as (body & Hb & Hs). exists body. split; [done|].
  unfold logging_errors. destruct (serve svc cfg log s) as [[[]|err|v|] s1]; cbn in *;
    by rewrite Hb, ?app_nil_r, <- ?app_assoc.
Qed.

Lemma run_traced svc envFile migrateOnly s :
  exists l, m_ops (run (Resp := Resp) svc envFile migrateOnly s).2 = (m_ops s ++ l)%list
    /\ run_trace envFile migrateOnly (run (Resp := Resp) svc envFile migrateOnly s).1 l.
Proof.
  rewrite run_is_run_with. unfold run_with, run_trace, mbind, try.
  destruct (config_Load envFile) as [cfg|err]; [|exists []; rewrite app_nil_r; by eauto 10].
  destruct (Sentry.Setup _ _) as [[sink tags]|err] eqn:Hset; [|exists []; rewrite app_nil_r; by eauto 10].
  unfold deferred, op, migrate, mbind, op, check, ret. cbn [fst snd]. fold (run_log cfg sink).
  set (log := run_log cfg sink). unfold log_line. set (first := emit log InfoLevel _ _).
  destruct (Migrate _ _ log) as [migrated ops] eqn:Hm.
  destruct (RunMigrations (c_Database cfg) || migrateOnly) eqn:Hmig.
  - destruct migrated as [err|]; cbn [fst snd].
    { eexists. cbn [note m_ops]. rewrite <- !app_assoc. split; [reflexivity|]. right.
      exists cfg, sink, tags, first. split_and!; [done|done|]. fold log. rewrite Hm, Hmig.
      left. by exists err. }
    destruct migrateOnly; cbn [fst snd].
    { eexists. cbn [note m_ops]. rewrite <- !app_assoc. split; [reflexivity|]. right.
      exists cfg, sink, tags, first. split_and!; [done|done|]. fold log. rewrite Hm, Hmig. by auto 10. }
    set (s1 := note (OMigrate ops) _).
    destruct (serve_logged svc cfg log s1) as (body & Hb & Hs).
    destruct (logging_errors log _ s1) as [[[]|err|v|] s2]; cbn [fst snd note m_ops] in *;
      rewrite Hs; cbn [s1 note m_ops]; rewrite ?app_nil_r, <- !app_assoc; eexists; (split; [reflexivity|]); right;
      exists cfg, sink, tags, first; (split_and!; [done|done|]); fold log; rewrite Hm, Hmig; right;
      (split; [done|]); right; (split; [done|]); exists body; (split; [done|]); by eauto 10.
  - apply orb_false_iff in Hmig as [Hrm ->]. cbn [fst snd].
    set (s1 := note (OLog (lg_out log) first) _).
    destruct (serve_logged svc cfg log s1) as (body & Hb & Hs).
    destruct (logging_errors log _ s1) as [[[]|err|v|] s2]; cbn [fst snd note m_ops] in *;
      rewrite Hs; cbn [s1 note m_ops]; rewrite ?app_nil_r, <- !app_assoc; eexists; (split; [reflexivity|]); right;
      exists cfg, sink, tags, first; (split_and!; [done|done|]); fold log; rewrite Hm, Hrm; cbn [orb app]; right;
      (split; [done|]); right; (split; [done|]); exists body; (split; [done|]); by eauto 10.
Qed.
End Run.

Section RunProperties.
Context `{Host, Otel, Pgx, Migrator, Channel, Crypto, Unicode, Zerolog, ZerologFields, GrpcStatus}.
Context {Req Resp : Type} `{GrpcLibs Req}.
Context {GR : GatewayRuntime Identity.HealthPingResponse} {GL : GatewayLib} {PM : Prometheus}.

(** A line written to [w] arrives at [target]. *)
Inductive reaches : Writer -> Writer -> Prop :=
| reaches_self w : reaches w w
| reaches_console out target : reaches out target -> reaches (ConsoleWriter out) target
| reaches_multi ws w target : w ∈ ws -> reaches w target -> reaches (MultiLevelWriter ws) target.

Lemma run_log_reaches cfg sink w :
  Sink_Writer (Some sink) = Some w -> reaches (lg_out (run_log cfg sink)) w.
Proof.
  intros Hw. unfold run_log, Logger.New, logger_options. cbn [Logger.Extra nonNil omap list_omap].
  rewrite Hw. cbn. eapply reaches_multi; [|constructor]. right. left.
Qed.

(** The line an error of [serve] is logged with: none when the level is above. *)
Definition error_lines (cfg : ServiceConfig) (sink : Sink) (err : goerror) : list LogEntry :=
  if (level_num (ParseLevel (LogLevel (c_Base cfg))) <=? level_num ErrorLevel)%Z
  then [{| le_level := ErrorLevel;
           le_fields := (lg_fields (run_log cfg sink) ++ [("error", Error err)])%list;
           le_msg := "the service stopped with an error" |}]
  else [].

Lemma emit_error cfg sink err :
  emit (run_log cfg sink) ErrorLevel [("error", Error err)] "the service stopped with an error"
  = error_lines cfg sink err.
Proof.
  unfold emit, error_lines, run_log, Logger.New. cbn [lg_level LevelName logger_options].
  by destruct (ParseLevel (LogLevel (c_Base cfg))).
Qed.


(** The shape of a run: the first two operations, the migrations or nothing, and a
    rest without migrations that opens a pool only where it may. *)
Lemma run_shape svc envFile migrateOnly s :
  exists l, m_ops (run (Resp := Resp) svc envFile migrateOnly s).2 = (m_ops s ++ l)%list
    /\ (l = [] \/ exists cfg log first rest,
         let '(migrated, ops) := Migrate (Database.URL (c_Database cfg)) migrations_Path log in
         let migrates := RunMigrations (c_Database cfg) || migrateOnly in
         config_Load envFile = Ok cfg
         /\ l = ([OReporterOpen; OLog (lg_out log) first] ++ (if migrates then [OMigrate ops] else []) ++ rest)%list
         /\ Forall (fun o => match o with OMigrate _ => False | _ => True end) rest
         /\ ((exists ops', OPool ops' ∈ rest) ->
              migrateOnly = false /\ (migrates = true -> migrated = None))).
Proof.
  destruct (run_traced (Resp := Resp) svc envFile migrateOnly s) as (l & Hl & Ht). exists l. split; [done|].
  destruct Ht as [(e & _ & -> & _)|(cfg & sink & tags & first & Hc & _ & Ht)]; [by left|right].
  exists cfg, (run_log cfg sink), first. destruct (Migrate _ _ _) as [migrated ops].
  destruct Ht as [(e & Hm & -> & _ & ->)|[Hok [[_ [_ ->]]|[Hmo (body & Hb & Hl')]]]].
  - exists [OReporterClose]. rewrite <- app_assoc. split_and!; [done|done|by repeat constructor|].
    intros [ops' Hp]. by apply list_elem_of_singleton in Hp.
  - exists [OReporterClose]. rewrite <- app_assoc. split_and!; [done|done|by repeat constructor|].
    intros [ops' Hp]. by apply list_elem_of_singleton in Hp.
  - assert (Hb' : Forall (fun o => match o with OMigrate _ => False | _ => True end) body)
      by (eapply List.Forall_impl; [|exact Hb]; by intros []).
    destruct Hl' as [[_ ->]|[[_ ->]|(e & _ & ->)]]; eexists; rewrite <- app_assoc;
      (split; [done|]); (split; [reflexivity|]); (split; [|by intros _]); [|done|];
      apply Forall_app; (split; [done|]); by repeat constructor.
Qed.

End RunProperties.

(** ** Further properties *)

Section Further.
Context `{Host, Otel, Pgx, Migrator, Channel, Crypto, Unicode, Zerolog, ZerologFields, GrpcStatus}.
Context {Req Resp : Type} `{GrpcLibs Req}.
Context {GR : GatewayRuntime Identity.HealthPingResponse} {GL : GatewayLib} {PM : Prometheus}.

(** a service is ready exactly when its database answers and its broker connection
    is open.  A cache that does not answer never takes it out of rotation. *)
Theorem service_readiness cfg :
  resp_code (ReadinessHandler (health_registry cfg))
  = (if bool_decide ((pool_Ping DefaultTimeout).1 = None) && bool_decide (broker_alive = Some false)
     then 200 else 503)%Z.
Proof.
  rewrite ReadinessHandler_code. cbn [health_registry Register NewRegistry checks Health.timeout app
    forallb DB_HealthCheck RedisCache_HealthCheck Connection_HealthCheck Critical Probe negb orb].
  destruct (pool_Ping DefaultTimeout) as [[e|] d]; [done|]. cbn [Database.Ping].
  unfold Connection_Ping. by destruct broker_alive as [[]|].
Qed.

(** a cache that does not answer stops every service from starting: [serve] fails
    whatever else works. *)
Theorem cold_cache_stops_startup svc cfg log s e :
  redis_Ping (c_Cache cfg) = Some e -> exists err, (serve (Resp := Resp) svc cfg log s).1 = Failed err.
Proof.
  intros Hping.
  assert (Hopen : exists err, (open_dependencies cfg log s).1 = Failed err).
  { unfold open_dependencies, mbind, on_otel, try, op, NewRedis. rewrite Hping.
    destruct (Tracing.Setup _ (m_otel s)) as [[sd|err] g]; [|by eexists].
    destruct (Database.Connect (c_Database cfg) log) as [[db|err] ops]; [|by eexists].
    by destruct (redis_ParseURL _); eexists. }
  destruct Hopen as [err Hopen]. exists err. rewrite serve_assemble.
  destruct svc; unfold assemble, identity_assemble, api_assemble, mail_assemble, mbind at 1 2;
    destruct (open_dependencies cfg log s) as [[]]; by simplify_eq/=.
Qed.

(** The levels of the lines a run wrote. *)
Definition levels (o : mop) : list Level :=
  match o with
  | OLog _ es => map le_level es
  | OMigrate ops => flat_map (fun o => match o with MLog es => map le_level es | _ => [] end) ops
  | OPool ops => flat_map (fun o => match o with DLog es => map le_level es | _ => [] end) ops
  | _ => []
  end.

Definition below_error (l : Level) : Prop := (level_num l < level_num ErrorLevel)%Z.

Lemma emit_levels log lvl fields msg : below_error lvl -> Forall below_error (map le_level (emit log lvl fields msg)).
Proof. intros. unfold emit. destruct (_ && _); by repeat constructor. Qed.

Lemma Migrate_levels dsn path log : Forall below_error (levels (OMigrate (Migrate dsn path log).2)).
Proof.
  assert (Hc : Forall below_error (levels (OMigrate (closeMigrator log)))).
  { unfold closeMigrator. destruct Close_answer as [[e1|] [e2|]]; cbn; rewrite ?app_nil_r;
      repeat apply Forall_app_2; try apply emit_levels; done. }
  assert (Hn : Forall below_error (levels (OMigrate (newMigrator dsn path).2))).
  { unfold newMigrator. destruct (iofs_New path); [done|]. by destruct (NewWithSourceInstance _). }
  unfold Migrate. destruct (newMigrator dsn path) as [[err|] ops]; [done|].
  cbn [snd] in Hn. cbn [levels] in *.
  assert (Happ : forall body : list migop, Forall below_error (levels (OMigrate body)) ->
    Forall below_error (levels (OMigrate (ops ++ body ++ closeMigrator log)%list))).
  { intros body Hbody. cbn [levels] in *. rewrite !flat_map_app. by repeat apply Forall_app_2. }
  repeat case_match; simplify_eq; cbn [snd]; apply Happ; cbn; rewrite ?app_nil_r; try apply emit_levels; done.
Qed.

(** a migration that will not apply goes unreported.  [run] returns its error
    without logging it: no line of the run is at the error level or above, so none
    becomes an event of the reporter. *)
Theorem migration_failure_unreported svc envFile migrateOnly s cfg sink tags err :
  config_Load envFile = Ok cfg ->
  Sentry.Setup sentry_New (sentry_options cfg version_Get) = Ok (sink, tags) ->
  RunMigrations (c_Database cfg) = true ->
  (Migrate (Database.URL (c_Database cfg)) migrations_Path (run_log cfg sink)).1 = Some err ->
  exists l, run (Resp := Resp) svc envFile migrateOnly s
      = (Failed err, {| m_ops := (m_ops s ++ l)%list; m_amqp := m_amqp s; m_otel := m_otel s; m_now := m_now s |})
    /\ Forall (fun o => Forall below_error (levels o)) l.
Proof.
  intros Hc Hs Hrm Hm. rewrite run_is_run_with. unfold run_with, mbind, try. rewrite Hc, Hs, Hrm.
  unfold deferred, op, migrate, mbind, op, check. cbn [orb fst]. fold (run_log cfg sink).
  pose proof (Migrate_levels (Database.URL (c_Database cfg)) migrations_Path (run_log cfg sink)) as Hlev.
  destruct (Migrate _ _ _) as [migrated ops]. cbn in Hm. subst migrated.
  exists [OReporterOpen; OLog (lg_out (run_log cfg sink)) (emit (run_log cfg sink) InfoLevel
            [("environment", Environment_String (Config.Environment (c_Base cfg)));
             ("version", i_Version version_Get); ("commit", i_Commit version_Get)] "starting");
          OMigrate ops; OReporterClose].
  split; [unfold note; cbn; by rewrite <- !app_assoc|].
  constructor; [done|]. constructor; [by apply emit_levels|]. constructor; [done|]. by repeat constructor.
Qed.

(** A probe of a service whose configuration does not load fails, however the service
    itself answers. *)
Theorem healthcheck_needs_configuration svc migrateOnly envFile s err :
  config_Load envFile = Err err ->
  exists line, main (Resp := Resp) svc migrateOnly envFile true s = (Done 1%Z, note (OStderr line) s).
Proof. intros Hc. by destruct svc; cbn; unfold runHealthcheck; rewrite Hc; eexists. Qed.
End Further.

(** ** A host *)

Module Sample.
#[local] Instance unicode : Unicode := { lower_nonascii := fun s => s }.
#[local] Existing Instances RestGateway.sample_runtime HttpServer.sample_gateway.
#[local] Instance zerolog : Zerolog := { zerolog_ParseLevel := fun _ => Some InfoLevel }.
#[local] Instance otel : Otel :=
  { otlptracegrpc_New := fun _ => None; resource_New := fun _ => None; provider_Shutdown := fun _ => None }.
#[local] Instance fields : ZerologFields := plain_fields.
#[local] Instance grpc_status : GrpcStatus := sample_grpc.
#[local] Instance pgx : Pgx := third_time_lucky.
#[local] Instance channel : Channel := quiet_channel.
#[local] Instance crypto : Crypto := bits_crypto.
#[local] Instance libs : GrpcLibs bool := sample_libs.
#[local] Instance prometheus : Prometheus := sample_prometheus.

(** The migrations apply, or the schema is refused. *)
Definition migrator (up : option goerror) : Migrator := {|
  iofs_New := fun _ => None; NewWithSourceInstance := fun _ => None; Version_before := Ok (1%Z, false);
  nil_version := (0%Z, false); Up := up; Version_after := Ok (2%Z, false); Steps := fun _ => None;
  Close_answer := (None, None) |}.

Definition config : ServiceConfig := {|
  c_Base := {| Config.ServiceName := "tours"; Config.Environment := "local"; LogLevel := "info";
               GRPCPort := 9090; HTTPPort := 8080; Config.ShutdownTimeout := 0; GRPCMaxRecvMsgSize := 0;
               RequestTimeout := 0; Config.MinClientAPIVersion := ""; OTLPEndpoint := "";
               TraceSampleRatio := "0.1"; SentryDSN := "" |};
  c_Database := {| Database.URL := "postgres://db"; MaxConns := 0; MinConns := 0; MaxConnLifetime := 0;
                   MaxConnIdleTime := 0; HealthCheckPeriod := 0; ConnectTimeout := 0; MaxRetries := 0;
                   Database.InitialBackoff := 0; Database.MaxBackoff := 0; RunMigrations := true |};
  c_Cache := {| Cache.URL := "redis://cache"; CfgNamespace := ""; DefaultTTL := 0; DialTimeout := 0;
                ReadTimeout := 0; PoolSize := 0 |};
  c_AMQP := {| AmqpRetry.URL := "amqp://broker"; Exchange := ""; Prefetch := 0; MaxAttempts := 0;
               AmqpRetry.InitialBackoff := 0; AmqpRetry.MaxBackoff := 0; PublishTimeout := 0;
               ReconnectDelay := 0 |};
  c_JWT := {| Issuer_name := "dizen"; Audience := []; AccessTokenTTL := 0; PrivateKeyPEM := "";
              PublicKeysPEM := ""; ClockSkew := 0 |};
  c_Outbox := {| PollInterval := 0; BatchSize := 0; InitialBackoff := 0; MaxBackoff := 0 |} |}.

(** Told to stop, every component returns; the cache answers or not. *)
Definition host (redis : option goerror) : Host := {|
  env_files := fun _ => Absent; process_env := ∅; env_Parse := fun _ => Ok config;
  validate_Struct := fun _ => Valid; linked := dev_build; ReadBuildInfo := None;
  sentry_New := fun _ => Ok (Custom 1, None); redis_ParseURL := fun _ => None;
  redis_Ping := fun _ => redis; redis_Close := None; grpc_bound := fun a => Ok ("127.0.0.1" ++ a);
  http_bound := fun a => Ok ("127.0.0.1" ++ a); dialed := fun _ => None;
  grpc_conn := fun _ _ _ _ w => (Err context_Canceled, w); probe_request := None; probe_do := fun _ => Ok 200%Z;
  pool_Ping := fun _ => (None, 0%Z); client_Ping := fun _ => (None, 0%Z); broker_alive := Some false;
  component_events := [Signal; Returned 6 None; Returned 5 None; Returned 4 None];
  broker_traffic := []; grpc_drained := fun _ => GracefullyStopped; http_drained := fun _ => None |}.

Definition fresh : mstate := {|
  m_ops := []; m_amqp := {| calls := []; logs := [] |};
  m_otel := {| g_propagators := []; g_provider := NoProvider |}; m_now := 0 |}.

Definition refused : goerror := Errorf "connection refused" [].
Definition broken : goerror := Errorf "syntax error in migration 2" [].

Abbreviation serve_on redis svc := (serve (H := host redis) (Req := bool) (Resp := nat) svc).
Abbreviation run_on redis up svc :=
  (run (H := host redis) (H2 := migrator up) (Req := bool) (Resp := nat) svc).

(** A service that starts, is told to stop and closes everything. *)
Lemma service_lifecycle_witness :
  let s' := (serve_on None Tours config sample_log fresh).2 in
  drop 9 (removelast (m_ops s'))
  = [OHttpShutdown (30 * Second); OGrpc [OpSetServing false; OpGracefulStop]; OBrokerClose; ORedisClose;
     OPoolClose; OTracingShutdown (30 * Second)]%Z
  /\ exists l, Forall opening l /\
    ((exists err, (serve_on None Tours config sample_log fresh).1 = Failed err /\ m_ops s' = l)
     \/ (exists a deadline es err, assembled_ok (H := host None) Tours config sample_log a
        /\ (serve_on None Tours config sample_log fresh).1
           = match err with Some e => Failed e | None => Done tt end
        /\ m_ops s' = (l ++ closing (H := host None) (a_grpc a) deadline ++ [OLog (lg_out sample_log) es])%list)
     \/ ValidUTF8 "tours" = false
        /\ (exists v, (serve_on None Tours config sample_log fresh).1 = Panicked v) /\ m_ops s' = l).
Proof.
  intros s'. split; [vm_compute; reflexivity|].
  apply (service_lifecycle (H := host None) (Req := bool) (Resp := nat) Tours config sample_log fresh).
  - apply (bool_decide_unpack _). vm_compute. exact I.
  - left.
  - intros i Hi. assert (i = 4 \/ i = 5 \/ i = 6)%nat as [->|[->| ->]] by lia; cbn; set_solver.
Defined.

(** A cache that refuses connections, with everything else answering. *)
Lemma cold_cache_stops_startup_witness :
  exists err, (serve_on (Some refused) Tours config sample_log fresh).1 = Failed err.
Proof.
  exact (cold_cache_stops_startup (H := host (Some refused)) (Resp := nat) Tours config sample_log fresh
           refused eq_refl).
Defined.


(** A migration with a syntax error. *)
Lemma migration_failure_unreported_witness :
  exists l, run_on None (Some broken) Tours ".env" false fresh
      = (Failed (Errorf "" [(ErrMigration, ": applying migrations: "); (broken, "")]),
         {| m_ops := l; m_amqp := m_amqp fresh; m_otel := m_otel fresh; m_now := 0 |})
    /\ Forall (fun o => Forall below_error (levels o)) l.
Proof.
  exact (migration_failure_unreported (H := host None) (H2 := migrator (Some broken)) (Req := bool)
           (Resp := nat) Tours ".env" false fresh config {| writer := None; close := None |} []
           (Errorf "" [(ErrMigration, ": applying migrations: "); (broken, "")])
           eq_refl eq_refl eq_refl eq_refl).
Defined.
End Sample.
