(* ===== verification/CommitCheck.v ===== *)
(** * tools/commitcheck: the commit message convention

    The whole check (tools/commitcheck/main.go) but for the processes and files
    it talks to: how the exempt commit is found in the baseline file, how the
    output of git is cut into messages, the regular expression of the header with its
    groups, the rules and the report. *)

From stdpp Require Import base list strings numbers.
From Stdlib Require Import ZArith Lia Ascii String.
From S2P Require Import Prelude GoStrings GoErrors Regex.

Local Open Scope string_scope.

Definition errProblems : goerror :=
  Sentinel "main.errProblems" "commit message(s) do not follow Conventional Commits".

Definition types : list string :=
  ["build"; "chore"; "ci"; "docs"; "feat"; "fix"; "perf"; "refactor"; "revert"; "style"; "test"].

Definition maxHeaderLength : nat := 72.

(** ** The header *)

Definition lower_letter (c : ascii) : bool :=
  ((97 <=? N_of_ascii c) && (N_of_ascii c <=? 122))%N.

(** The class of the scope: lower letters, digits, dot, underscore, slash, dash. *)
Definition scope_char (c : ascii) : bool :=
  lower_letter c
  || ((48 <=? N_of_ascii c) && (N_of_ascii c <=? 57))%N
  || existsb (Ascii.eqb c) ["."%char; "_"%char; "/"%char; "-"%char].

(** The expression between the anchors, with its named groups. *)
Definition headerBody : gre :=
  gseqs [GGroup "type" (GRe (plus (Cls lower_letter)));
         gopt (gseqs [GRe (chr "("); GGroup "scope" (GRe (plus (Cls scope_char))); GRe (chr ")")]);
         gopt (GGroup "breaking" (GRe (chr "!")));
         GRe (lit ": ");
         GGroup "subject" (GRe (plus (Cls (fun c => negb (Ascii.eqb (byte 10) c)))))].
Definition headerPattern : gre := ganchored headerBody.

(** ** Messages *)

Definition firstLine (message : string) : string :=
  let '(line, _, _) := Cut1 (TrimSpace message) (byte 10) in TrimSpace line.

(** [strings.ToLower] of a string of one byte: a byte that is not ASCII is not
    valid UTF-8 on its own and becomes the replacement character. *)
Definition ToLower1 (c : ascii) : string :=
  if (N_of_ascii c <? 128)%N then String (lower_ascii c) "" else bytes [239; 191; 189]%N.

Definition capitalised (subject : string) : bool :=
  match subject with
  | "" => false
  | String c _ => negb (String.eqb (String c "") (ToLower1 c))
  end.

Definition runs_on (message : string) : bool :=
  match Split1 message (byte 10) with
  | _ :: second :: _ => negb (String.eqb (TrimSpace second) "")
  | _ => false
  end.

Definition guarded (b : bool) (problem : string) : list string := if b then [problem] else [].

Definition exempt (h : string) : bool := HasPrefix h "Merge " || HasPrefix h "Revert ".

Definition no_match : string :=
  "it does not match " ++ quote_mark ++ "type(scope): subject" ++ quote_mark.

Definition validate (message : string) : list string :=
  let h := firstLine message in
  if exempt h then []
  else if String.eqb h "" then ["the message is empty"]
  else
    let problems :=
      guarded (maxHeaderLength <? String.length h)%nat
        ("the header is " ++ Itoa (Z.of_nat (String.length h)) ++ " characters, the limit is "
           ++ Itoa (Z.of_nat maxHeaderLength)) in
    (problems ++
     match FindStringSubmatch headerPattern h with
     | None => [no_match]
     | Some m =>
         let commitType := subexp "type" m in
         let subject := subexp "subject" m in
         guarded (negb (bool_decide (commitType ∈ types)))
           (Quote commitType ++ " is not one of the allowed types")
         ++ guarded (HasSuffix subject ".") "the subject ends with a period"
         ++ guarded (capitalised subject) "the subject starts with a capital letter"
         ++ guarded (runs_on message) "the second line is not blank, so the body runs into the header"
     end)%list.

(** What is reported of each message, and the value returned. *)
Definition check (messages : list string) : list (string * list string) * option goerror :=
  let reported := omap (fun m => match validate m with
                                 | [] => None
                                 | problems => Some (firstLine m, problems)
                                 end) messages in
  (reported, match reported with [] => None | _ => Some errProblems end).

(** ** Input *)

(** The loop of [baseline] over the lines of the file; [None]: it could not be
    read. *)
Fixpoint first_entry (lines : list string) : string :=
  match lines with
  | [] => ""
  | line :: lines' =>
      let line := TrimSpace line in
      if negb (String.eqb line "") && negb (HasPrefix line "#") then line else first_entry lines'
  end.

Definition baseline (raw : option string) : string :=
  match raw with None => "" | Some raw => first_entry (Split1 raw (byte 10)) end.

(** The arguments given to git. *)
Definition log_args (revisionRange : string) (raw : option string) : list string :=
  (["log"; "--format=%B%x00"; revisionRange]
   ++ (let e := baseline raw in if String.eqb e "" then [] else ["--not"; e]))%list.

(** The messages in the output of git. *)
Definition messages_of (out : string) : list string :=
  omap (fun part => if String.eqb (TrimSpace part) "" then None else Some (TrimSpace part))
    (Split1 out (byte 0)).

(** What running git answered: its output, or an error and what it wrote on the
    error stream when it exited with a status. *)
Inductive git_answer :=
| GitOutput (out : string)
| GitFailed (err : goerror) (stderr : option string).

Definition readRange (revisionRange : string) (raw : option string)
    (git : list string -> git_answer) : res (list string) :=
  match git (log_args revisionRange raw) with
  | GitOutput out => Ok (messages_of out)
  | GitFailed err stderr =>
      let text := "reading the commits of " ++ Quote revisionRange ++ ": " in
      match stderr with
      | Some s => if String.eqb s "" then Err (Wrap text err)
                  else Err (Errorf text [(err, ": " ++ TrimSpace s)])
      | None => Err (Wrap text err)
      end
  end.

(** [bufio.Scanner] over the standard input, line by line: a line of the size of the
    buffer or more is an error, a carriage return at its end is dropped, and so is an empty
    line after the last newline. *)
Definition MaxScanTokenSize : Z := 65536.
Definition ErrTooLong : goerror := Sentinel "bufio.ErrTooLong" "bufio.Scanner: token too long".

Definition scan_parts (data : string) : list string :=
  let parts := Split1 data (byte 10) in
  if String.eqb (List.last parts "") "" then List.removelast parts else parts.

Definition drop_cr (line : string) : string :=
  if HasSuffix line (String (byte 13) "") then String.substring 0 (String.length line - 1) line else line.

Definition too_long (line : string) : bool := (MaxScanTokenSize <=? Z.of_nat (String.length line))%Z.

(** What the standard input held, and the error reading it ended with other than its
    end. *)
Definition readStdin (data : string) (failed : option goerror) : res string :=
  let parts := scan_parts data in
  if existsb too_long parts then Err (Wrap "reading stdin: " ErrTooLong)
  else match failed with
       | Some err => Err (Wrap "reading stdin: " err)
       | None => Ok (String.concat "" (map (fun line => drop_cr line ++ newline) parts))
       end.

(** The switch of [main] on the arguments. *)
Definition read_messages (args : list string) (stdin : string) (failed : option goerror)
    (raw : option string) (git : list string -> git_answer) : res (list string) :=
  match args with
  | arg :: _ =>
      if String.eqb arg "--stdin"
      then match readStdin stdin failed with Ok message => Ok [message] | Err err => Err err end
      else readRange arg raw git
  | [] => readRange "main..HEAD" raw git
  end.

(** The status the process exits with. *)
Definition main (args : list string) (stdin : string) (failed : option goerror) (raw : option string)
    (git : list string -> git_answer) : Z :=
  match read_messages args stdin failed raw git with
  | Err _ => 1
  | Ok messages => match (check messages).2 with Some _ => 1 | None => 0 end
  end.

(** ** The language of the header *)

Record header := mkHeader {
  h_type : string;
  h_scope : option string;
  h_breaking : bool;
  h_subject : string
}.

(** The text of a header. *)
Definition render (h : header) : string :=
  h_type h ++ (match h_scope h with Some sc => "(" ++ sc ++ ")" | None => "" end)
  ++ (if h_breaking h then "!" else "") ++ ": " ++ h_subject h.

(** What the convention asks of its parts. *)
Definition header_wf (h : header) : bool :=
  negb (String.eqb (h_type h) "") && all_chars lower_letter (h_type h)
  && match h_scope h with
     | Some sc => negb (String.eqb sc "") && all_chars scope_char sc
     | None => true
     end
  && negb (String.eqb (h_subject h) "") && negb (contains_byte (byte 10) (h_subject h)).

Lemma contains_byte_all d s :
  contains_byte d s = false <-> all_chars (fun c => negb (Ascii.eqb d c)) s = true.
Proof.
  induction s as [|c s IH]; simpl; [done|].
  rewrite orb_false_iff, andb_true_iff, IH, negb_true_iff. done.
Qed.

(** What the groups of the expression hold. *)
Definition groups (h : header) : captures :=
  (("type", h_type h)
   :: match h_scope h with Some sc => [("scope", sc)] | None => [] end
   ++ (if h_breaking h then [("breaking", "!")] else []) ++ [("subject", h_subject h)])%list.

Lemma glang_GRe r w c : glang (GRe r) w c <-> lang r w /\ c = [].
Proof. split; [intros Hl; by inversion Hl|]. intros [? ->]. by constructor. Qed.

Lemma glang_GCat a b w c : glang (GCat a b) w c <->
  exists u v d e, w = u ++ v /\ c = (d ++ e)%list /\ glang a u d /\ glang b v e.
Proof.
  split; [intros Hl; inversion Hl; subst; eauto 10|]. intros (u & v & d & e & -> & -> & ? & ?). by constructor.
Qed.

Lemma glang_gopt a w c : glang (gopt a) w c <-> glang a w c \/ w = "" /\ c = [].
Proof.
  split.
  - intros Hl. inversion Hl; subst; [by left|]. right.
    match goal with H : glang (GRe Eps) _ _ |- _ => apply glang_GRe in H as [Hw ->] end.
    by inversion Hw.
  - intros [?|[-> ->]]; [by apply GL_AltL|apply GL_AltR, glang_GRe]. by split; [constructor|].
Qed.

Lemma glang_GGroup n r w c : glang (GGroup n (GRe r)) w c <-> lang r w /\ c = [(n, w)].
Proof.
  split.
  - intros Hl. inversion Hl as [| | | |? ? ? ? Ha]; subst. by apply glang_GRe in Ha as [? ->].
  - intros [? ->]. by apply GL_Group, glang_GRe.
Qed.

(** The readings of the expression are the headers of the convention. *)
Lemma glang_headerBody s c :
  glang headerBody s c <-> exists h, s = render h /\ header_wf h = true /\ c = groups h.
Proof.
  unfold headerBody. cbn [gseqs]. split.
  - intros (t & s1 & d & e & -> & -> & [[Htne Ht]%lang_plus_cls ->]%glang_GGroup & H1)%glang_GCat.
    apply glang_GCat in H1 as (x & s2 & d & e1 & -> & -> & Hx & H2).
    apply glang_GCat in H2 as (y & s3 & d1 & e2 & -> & -> & Hy & H3).
    apply glang_GCat in H3 as (z & subj & d2 & e3 & -> & -> & [->%lang_lit ->]%glang_GRe & H4).
    apply glang_GGroup in H4 as [[Hsne Hs%contains_byte_all]%lang_plus_cls ->].
    assert (exists sc, x = (match sc with Some sc => "(" ++ sc ++ ")" | None => "" end)
      /\ d = (match sc with Some sc => [("scope", sc)] | None => [] end)
      /\ (match sc with Some sc => negb (String.eqb sc "") && all_chars scope_char sc | None => true end)
         = true) as (sc & -> & -> & Hsc).
    { apply glang_gopt in Hx as [Hx|[-> ->]]; [|by exists None].
      apply glang_GCat in Hx as (o & x1 & d0 & e & -> & -> & [->%lang_chr ->]%glang_GRe & Hx).
      apply glang_GCat in Hx as (sc & c & d0 & e' & -> & -> & [[Hne Hall]%lang_plus_cls ->]%glang_GGroup
        & [->%lang_chr ->]%glang_GRe).
      exists (Some sc). split_and!; [done..|]. by rewrite (proj2 (String.eqb_neq _ _) Hne), Hall. }
    assert (exists b : bool, y = (if b then "!" else "") /\ d1 = if b then [("breaking", "!")] else [])
      as (b & -> & ->).
    { apply glang_gopt in Hy as [[->%lang_chr ->]%glang_GGroup|[-> ->]]; [by exists true|by exists false]. }
    exists {| h_type := t; h_scope := sc; h_breaking := b; h_subject := subj |}. split_and!; [done| |done].
    unfold header_wf. cbn [h_type h_scope h_subject]. rewrite Ht, Hsc, Hs.
    by rewrite (proj2 (String.eqb_neq _ _) Htne), (proj2 (String.eqb_neq _ _) Hsne).
  - intros ([t sc b subj] & -> & Hwf & ->). unfold header_wf in Hwf. unfold render, groups.
    cbn [h_type h_scope h_breaking h_subject] in *. zbool.
    apply (GL_Cat _ _ t _ [("type", t)]); [by apply glang_GGroup; split; [apply lang_plus_cls|]|].
    apply GL_Cat.
    { apply glang_gopt. destruct sc as [sc|]; [left|by right]. zbool.
      apply (GL_Cat _ _ "(" (sc ++ ")") []); [by apply glang_GRe; split; [apply lang_chr|]|].
      apply (GL_Cat _ _ sc ")" [("scope", sc)] []); [by apply glang_GGroup; split; [apply lang_plus_cls|]|].
      by apply glang_GRe; split; [apply lang_chr|]. }
    apply GL_Cat; [apply glang_gopt; destruct b; [left; by apply glang_GGroup; split; [apply lang_chr|]|by right]|].
    apply (GL_Cat _ _ ": " subj []); [by apply glang_GRe; split; [apply lang_lit|]|].
    apply glang_GGroup. split; [|done]. apply lang_plus_cls. split; [done|]. by apply contains_byte_all.
Qed.

(** *** No text has two readings *)

Lemma letters_unique f a b x y :
  all_chars f a = true -> all_chars f b = true ->
  (forall c r, x = String c r -> f c = false) -> (forall c r, y = String c r -> f c = false) ->
  a ++ x = b ++ y -> a = b /\ x = y.
Proof.
  revert b. induction a as [|c a IH]; intros [|d b] Ha Hb Hx Hy Heq; cbn [all_chars String.append] in *; zbool.
  - done.
  - by rewrite (Hx d (b ++ y) Heq) in *.
  - by rewrite (Hy c (a ++ x) (eq_sym Heq)) in *.
  - injection Heq as <- Heq. destruct (IH b) as [-> ->]; done.
Qed.

Lemma render_inj h h' :
  header_wf h = true -> header_wf h' = true -> render h = render h' -> h = h'.
Proof.
  destruct h as [t sc b subj], h' as [t' sc' b' subj']. unfold header_wf, render.
  cbn [h_type h_scope h_breaking h_subject]. intros Hwf Hwf' Heq. zbool.
  apply (letters_unique lower_letter) in Heq as [-> Heq]; [|done|done|
    by intros c r; destruct sc, b; intros [= <- _]|by intros c r; destruct sc', b'; intros [= <- _]].
  destruct sc as [sc|], sc' as [sc'|]; zbool; cbn [String.append] in Heq;
    [|by destruct b'|by destruct b|by destruct b, b'; simplify_eq].
  injection Heq as Heq. rewrite !append_assoc in Heq.
  apply (letters_unique scope_char) in Heq as [-> Heq]; [|done|done|by intros c r [= <- _]..].
  cbn [String.append] in Heq. injection Heq as Heq. by destruct b, b'; simplify_eq/=.
Qed.

(** What the expression finds in a header, and that it finds nothing else. *)
Lemma submatch_render h : header_wf h = true ->
  FindStringSubmatch headerPattern (render h) = Some (groups h).
Proof.
  intros Hwf. pose proof (FindStringSubmatch_anchored headerBody (render h) eq_refl) as Hf.
  fold headerPattern in Hf. destruct (FindStringSubmatch headerPattern (render h)) as [c|].
  - apply glang_headerBody in Hf as (h' & Hr & Hwf' & ->). by apply render_inj in Hr as ->.
  - exfalso. apply (Hf (groups h)), glang_headerBody. eauto.
Qed.

Lemma submatch_header s c : FindStringSubmatch headerPattern s = Some c ->
  exists h, s = render h /\ header_wf h = true /\ c = groups h.
Proof.
  intros Hs. pose proof (FindStringSubmatch_anchored headerBody s eq_refl) as Hf.
  fold headerPattern in Hf. rewrite Hs in Hf. by apply glang_headerBody.
Qed.

Lemma subexp_groups h : subexp "type" (groups h) = h_type h /\ subexp "subject" (groups h) = h_subject h.
Proof. by destruct h as [t [sc|] [] subj]. Qed.

(** ** The rules *)

Lemma guarded_nil b p : guarded b p = [] <-> b = false.
Proof. by destruct b. Qed.

Lemma capitalised_spec c s :
  capitalised (String c s) = false <-> (N_of_ascii c < 128)%N /\ lower_ascii c = c.
Proof.
  unfold capitalised, ToLower1. destruct (N_of_ascii c <? 128)%N eqn:Hc.
  - apply N.ltb_lt in Hc. cbn. rewrite Ascii.eqb_sym. destruct (Ascii.eqb_spec (lower_ascii c) c); naive_solver.
  - apply N.ltb_ge in Hc. split; [|lia]. intros Hx. zbool. destruct s; discriminate.
Qed.

(** A message that follows the convention: git or GitHub wrote it, or its first line is
    the text of a header with an allowed type, at most 72 bytes long, whose subject starts
    with an ASCII character that is not a capital and does not end with a period, and the
    second line is blank. *)
Definition conventional (message : string) : Prop :=
  exempt (firstLine message) = true
  \/ exists h, firstLine message = render h /\ header_wf h = true
       /\ (String.length (render h) <= 72)%nat /\ h_type h ∈ types
       /\ (exists c s, h_subject h = String c s /\ (N_of_ascii c < 128)%N /\ lower_ascii c = c)
       /\ HasSuffix (h_subject h) "." = false
       /\ runs_on message = false.

(** Those have no problems, and no others. *)
Lemma validate_nil message : validate message = [] <-> conventional message.
Proof.
  unfold validate, conventional. destruct (exempt (firstLine message)) eqn:Hex; [naive_solver|].
  destruct (FindStringSubmatch headerPattern (firstLine message)) as [m|] eqn:Hp.
  - apply submatch_header in Hp as (h & Hr & Hwf & ->). rewrite Hr.
    destruct (subexp_groups h) as [-> ->].
    destruct (String.eqb_spec (render h) "") as [He|He].
    { split; [done|]. intros [?|(h' & Hh' & _)]; [done|]. by destruct h as [[] ? ? ?], h'. }
    cbn zeta. rewrite !app_nil, !guarded_nil, Nat.ltb_ge, negb_false_iff, bool_decide_eq_true.
    unfold maxHeaderLength. split.
    + intros (Hl & Ht & Hs & Hc & Hrun). right. exists h. split_and!; try done.
      unfold header_wf in Hwf. destruct (h_subject h) as [|c x]; [by zbool|].
      apply capitalised_spec in Hc. eauto.
    + intros [?|(h' & Hh' & Hwf' & Hl & Ht & (c & x & Hsub & Hc) & Hs & Hrun)]; [done|].
      apply render_inj in Hh' as <-; [|done..].
      split_and!; try done. rewrite Hsub. by apply capitalised_spec.
  - split.
    + destruct (String.eqb _ ""); [done|]. intros Hx. by apply app_nil in Hx as [_ ?].
    + intros [?|(h & Hh & Hwf & _)]; [done|]. by rewrite Hh, submatch_render in Hp.
Qed.

Lemma check_reported messages :
  (check messages).1
  = map (fun m => (firstLine m, validate m)) (filter (fun m => validate m <> []) messages).
Proof.
  unfold check. cbn [fst]. induction messages as [|m l IH]; [done|]. rewrite filter_cons.
  cbn [omap list_omap]. destruct (validate m) eqn:Hv; [by rewrite decide_False by tauto|].
  rewrite decide_True by done. cbn [map]. by rewrite Hv, IH.
Qed.

(** The check fails exactly when a message has a problem. *)
Lemma check_nil messages : (check messages).2 = None <-> Forall (fun m => validate m = []) messages.
Proof.
  change ((check messages).2)
    with (match (check messages).1 with [] => None | _ => Some errProblems end).
  rewrite check_reported. induction messages as [|m l IH]; [by split|].
  rewrite filter_cons, Forall_cons_iff, <- IH.
  destruct (decide (validate m <> [])) as [Hv|Hv]; [naive_solver|].
  destruct (validate m); [tauto|by destruct Hv].
Qed.

(** the check reports every offending message, not only the first, in order
    and with its problems; and it fails exactly when there is one. *)
Theorem check_reports_all messages :
  (check messages).1
  = map (fun m => (firstLine m, validate m)) (filter (fun m => validate m <> []) messages)
  /\ ((check messages).2 = None <-> Forall (fun m => validate m = []) messages).
Proof. split; [apply check_reported|apply check_nil]. Qed.


(** Both kinds of message are met. *)
Example fix_is_conventional : conventional "fix(pkg/amqp)!: close the pool".
Proof. apply validate_nil. vm_compute. reflexivity. Qed.

Example chatter_is_not : ~ conventional "closed the pool".
Proof. rewrite <- validate_nil. vm_compute. discriminate. Qed.

(** ** The standard input *)

Lemma concat_cons x l : String.concat "" (x :: l) = x ++ String.concat "" l.
Proof. destruct l; cbn; [by rewrite append_nil_r|done]. Qed.

Lemma Split1_nonempty s c : exists x l, Split1 s c = x :: l.
Proof.
  induction s as [|d s [x [l IH]]]; cbn; [by eexists _, _|].
  rewrite IH. destruct (Ascii.eqb d c); by eexists _, _.
Qed.

Lemma Split1_snoc s c : Split1 (s ++ String c "") c = (Split1 s c ++ [""])%list.
Proof.
  induction s as [|d s IH]; cbn; [by rewrite Ascii.eqb_refl|].
  rewrite IH. destruct (Ascii.eqb d c); [done|]. destruct (Split1_nonempty s c) as (x & l & ->). done.
Qed.

(** Every line followed by a newline is the text followed by one. *)
Lemma lines_rejoined s :
  String.concat "" (map (fun line => line ++ newline) (Split1 s (byte 10))) = s ++ newline.
Proof.
  induction s as [|d s IH]; [done|]. cbn [Split1 String.append].
  destruct (Split1_nonempty s (byte 10)) as (x & l & E). rewrite E in *. cbn [map] in *.
  rewrite concat_cons in *. destruct (Ascii.eqb_spec d (byte 10)) as [->|].
  - cbn [map]. rewrite !concat_cons. exact (f_equal (String (byte 10)) IH).
  - cbn [map]. rewrite !concat_cons. exact (f_equal (String d) IH).
Qed.

Lemma Split1_free c d s : contains_byte c s = false -> Forall (fun x => contains_byte c x = false) (Split1 s d).
Proof.
  induction s as [|e s IH]; cbn [Split1 contains_byte]; [by repeat constructor|].
  intros [He Hs]%orb_false_iff. specialize (IH Hs). destruct (Split1_nonempty s d) as (x & l & E).
  rewrite E in *. apply Forall_cons_iff in IH as [Hx Hl].
  destruct (Ascii.eqb e d); repeat (constructor; [done|]); [done|].
  constructor; [|done]. cbn. by rewrite He.
Qed.

Lemma suffix_contained c s : HasSuffix s (String c "") = true -> contains_byte c s = true.
Proof.
  induction s as [|d s IH]; cbn [HasSuffix contains_byte]; [done|]. intros [E|E]%orb_prop.
  - apply String.eqb_eq in E as [= -> ->]. by rewrite Ascii.eqb_refl.
  - rewrite IH by done. apply orb_true_r.
Qed.

Lemma drop_cr_free s : contains_byte (byte 13) s = false -> drop_cr s = s.
Proof.
  intros Hs. unfold drop_cr. destruct (HasSuffix s (String (byte 13) "")) eqn:E; [|done].
  apply suffix_contained in E. congruence.
Qed.

(** a message given on the standard input, with a newline at its end, is read as it is:
    blank lines, indentation and all, when it has no carriage return and no line of 64 KiB
    or more. *)
Theorem readStdin_message message :
  contains_byte (byte 13) message = false ->
  existsb too_long (Split1 message (byte 10)) = false ->
  readStdin (message ++ newline) None = Ok (message ++ newline).
Proof.
  intros Hcr Hl. unfold readStdin.
  assert (scan_parts (message ++ newline) = Split1 message (byte 10)) as ->.
  { unfold scan_parts. change newline with (String (byte 10) "").
    by rewrite Split1_snoc, last_last, String.eqb_refl, removelast_last. }
  rewrite Hl, <- (lines_rejoined message). do 2 f_equal. apply map_ext_in. intros line Hin.
  rewrite drop_cr_free; [done|]. pose proof (Split1_free _ (byte 10) _ Hcr) as Hf.
  rewrite List.Forall_forall in Hf. by apply Hf.
Qed.

(** A lower case letter outside ASCII, e with an acute accent. *)
Definition e_acute : string := bytes [195; 169]%N.

(** a subject that starts with a letter outside ASCII is refused, even a
    lower case one, as if it started with a capital: the rule looks at the first
    byte alone. *)
Theorem nonascii_subject_refused t c s :
  t ∈ types -> (128 <= N_of_ascii c)%N -> firstLine (t ++ ": " ++ String c s) = t ++ ": " ++ String c s ->
  contains_byte (byte 10) (String c s) = false ->
  "the subject starts with a capital letter" ∈ validate (t ++ ": " ++ String c s).
Proof.
  intros Ht Hc Hf Hn. unfold validate. rewrite Hf.
  assert (forallb (fun t => all_chars lower_letter t && negb (String.eqb t "")) types = true) as Hty
    by reflexivity.
  rewrite forallb_forall in Hty. specialize (Hty t (proj1 (list_elem_of_In _ _) Ht)).
  apply andb_true_iff in Hty as [Hlow Hne].
  set (h := {| h_type := t; h_scope := None; h_breaking := false; h_subject := String c s |}).
  assert (FindStringSubmatch headerPattern (t ++ ": " ++ String c s) = Some (groups h)) as ->.
  { apply (submatch_render h). unfold header_wf. cbn [h h_type h_scope h_subject].
    rewrite Hne, Hlow, Hn. done. }
  assert (capitalised (String c s) = true) as Hcap.
  { apply not_false_iff_true. intros ?%capitalised_spec. lia. }
  assert (exempt (t ++ ": " ++ String c s) = false /\ String.eqb (t ++ ": " ++ String c s) "" = false)
    as [-> ->].
  { clear -Ht. repeat (apply elem_of_cons in Ht as [->|Ht]; [done|]). inversion Ht. }
  destruct (subexp_groups h) as [-> ->]. cbn zeta. cbn [h h_subject]. rewrite Hcap, !elem_of_app. cbn [guarded]. rewrite list_elem_of_singleton. tauto.
Qed.

Lemma nonascii_subject_refused_witness :
  "the subject starts with a capital letter" ∈ validate ("fix: " ++ e_acute ++ "tape")
  /\ validate ("fix: " ++ e_acute ++ "tape") = ["the subject starts with a capital letter"].
Proof.
  split; [|vm_compute; reflexivity].
  refine (nonascii_subject_refused "fix" (byte 195) (String (byte 169) "tape") _ _ _ _);
    [apply (bool_decide_unpack _); vm_compute; exact I|vm_compute; discriminate|
     vm_compute; reflexivity..].
Defined.

(** The header is found after trimming the message but the second line before:
    after a leading blank line a good header is taken for a body, and a body that
    runs into the header is not seen. *)
Theorem leading_blank_line_misjudged :
  validate (newline ++ "fix: close the pool")
    = ["the second line is not blank, so the body runs into the header"]
  /\ validate (newline ++ newline ++ "fix: close the pool" ++ newline ++ "It leaked.") = [].
Proof. split; vm_compute; reflexivity. Qed.
