(* ===== verification/TestContainers.v ===== *)
(** * The containers of the integration tests

    pkg/testutils/containers.go: the helpers that start PostgreSQL, Redis and
    RabbitMQ for a test and remove them when it ends.

    What a helper does is recorded in a trace of events, and the libraries
    (testcontainers, pgxpool, go-redis) are the class [Docker]: each call is answered
    by any function of the trace.  [W] is code that needs no [*testing.T]
    (StartPostgres, StartAMQP and every teardown); [T] is code of a test, which
    [t.Fatalf] and [t.Skipf] end at once and which [t.Cleanup] gives functions to run
    afterwards, the last registered first.  A test is any program over the helpers
    ([test]), and [tRunner] runs it with its cleanups.

    The resources a trace acquires and releases are read by [nesting] as brackets:
    the theorem on tests is that they match, so that [Terminate] is called for every
    container started, once, under a live context and after its clients were closed,
    however the test ends. *)

From stdpp Require Import base list gmap strings numbers.
From Stdlib Require Import ZArith Lia String.
From S2P Require Import Prelude GoStrings GoErrors.

Local Open Scope string_scope.

(** ** Constants *)

Definition PostgresImage : string := "postgres:18.6-alpine".
Definition PostGISImage : string := "imresamu/postgis:18-3.6-alpine".
Definition RedisImage : string := "redis:8-alpine".
Definition RabbitMQImage : string := "rabbitmq:4-management-alpine".

Definition startupTimeout : Z := 3 * Minute.

(** ** Contexts

    What the helpers use of [context]: whether it is done, and the time it allows. *)

Record Context_ := { ctx_done : bool; ctx_timeout : option Z }.

Definition Background : Context_ := {| ctx_done := false; ctx_timeout := None |}.
Definition WithoutCancel (ctx : Context_) : Context_ := Background.
Definition WithTimeout (ctx : Context_) (d : Z) : Context_ :=
  {| ctx_done := ctx_done ctx || (d <=? 0)%Z;
     ctx_timeout := Some (match ctx_timeout ctx with Some d' => Z.min d d' | None => d end) |}.

(** ** What the libraries are asked *)

(** The options of [Run], with their values. *)
Inductive RunOption :=
| OptDatabase (name : string)
| OptUsername (name : string)
| OptPassword (password : string)
| OptBasicWaitStrategies
| OptAdminUsername (name : string)
| OptAdminPassword (password : string)
| OptWaitForLog (text : string) (occurrence : nat) (timeout : Z).

(** The three modules whose [Run] is called. *)
Inductive ContainerModule := ModPostgres | ModRedis | ModRabbitMQ.

Record RunRequest := {
  rr_module : ContainerModule;
  rr_image : string;
  rr_options : list RunOption
}.

(** The answer of [Run].  The documentation of testcontainers has it return the
    container together with an error when the container was created and then failed to
    become ready. *)
Inductive RunAnswer :=
| Started (c : nat)
| NotStarted (created : option nat) (e : goerror).

(** Containers, pools, Redis clients and Docker providers are known by number. *)
Inductive event :=
| ERun (ctx : Context_) (req : RunRequest) (a : RunAnswer)
| ETerminate (c : nat) (ctx : Context_) (r : option goerror)
| EConnectionString (c : nat) (args : list string) (r : res string)
| EAmqpURL (c : nat) (r : res string)
| EPoolNew (url : string) (r : res nat)
| EPoolPing (p : nat) (r : option goerror)
| EPoolClose (p : nat)
| EPoolReset (p : nat)
| EPoolExec (p : nat) (sql : string) (r : option goerror)
| ESnapshot (c : nat) (r : option goerror)
| ERestore (c : nat) (r : option goerror)
| EParseURL (url : string) (r : res string)
| ENewClient (opts : string) (k : nat)
| EClientPing (k : nat) (r : option goerror)
| EClientClose (k : nat) (r : option goerror)
| ENewProvider (r : res nat)
| EDaemonHost (d : nat) (ctx : Context_) (r : res string)
| EProviderClose (d : nat) (r : option goerror)
| EStderr (text : string)
| ELogf (text : string)
| EFatalf (text : string)
| ESkipf (text : string)
| EPanic (text : string).

Definition trace := list event.

(** The libraries: every answer may depend on all that was done before. *)
Class Docker := {
  dk_run : trace -> Context_ -> RunRequest -> RunAnswer;
  dk_terminate : trace -> nat -> Context_ -> option goerror;
  dk_connection_string : trace -> nat -> list string -> res string;
  dk_amqp_url : trace -> nat -> res string;
  dk_pool_new : trace -> string -> res nat;
  dk_pool_ping : trace -> nat -> option goerror;
  dk_pool_exec : trace -> nat -> string -> option goerror;
  dk_snapshot : trace -> nat -> option goerror;
  dk_restore : trace -> nat -> option goerror;
  dk_parse_url : trace -> string -> res string;
  dk_new_client : trace -> string -> nat;
  dk_client_ping : trace -> nat -> option goerror;
  dk_client_close : trace -> nat -> option goerror;
  dk_new_provider : trace -> res nat;
  dk_daemon_host : trace -> nat -> Context_ -> res string;
  dk_provider_close : trace -> nat -> option goerror
}.

(** ** Code that needs no [*testing.T] *)

Definition W (A : Type) : Type := trace -> A * trace.

Definition wret {A} (a : A) : W A := fun tr => (a, tr).
Definition wbind {A B} (m : W A) (f : A -> W B) : W B :=
  fun tr => let '(a, tr') := m tr in f a tr'.
(** A call answered by [f] and recorded as [g]. *)
Definition wcall {A} (f : trace -> A) (g : A -> event) : W A :=
  fun tr => (f tr, tr ++ [g (f tr)])%list.
Definition wdo (e : event) : W unit := fun tr => (tt, tr ++ [e])%list.

Declare Scope w_scope.
Delimit Scope w_scope with W.
Notation "x <- m ;; k" := (wbind m (fun x => k))
  (at level 100, m at next level, k at level 200, right associativity) : w_scope.
Notation "m ;; k" := (wbind m (fun _ => k))
  (at level 100, k at level 200, right associativity) : w_scope.

(** ** Code of a test *)

(** How a piece of a test leaves: it goes on with a value, or [t.Fatalf], [t.Skipf] or a
    panic ends the test's goroutine. *)
Inductive verdict := Failed | Skipped | Panicked.
Inductive ending (A : Type) :=
| Continues (a : A)
| Ends (v : verdict).
Arguments Continues {A} _.
Arguments Ends {A} _.

Record testing := { t_trace : trace; t_cleanups : list (W unit) }.

Definition T (A : Type) : Type := testing -> ending A * testing.

Definition tret {A} (a : A) : T A := fun t => (Continues a, t).
Definition tbind {A B} (m : T A) (f : A -> T B) : T B :=
  fun t => match m t with
           | (Continues a, t') => f a t'
           | (Ends v, t') => (Ends v, t')
           end.
Definition lift {A} (m : W A) : T A :=
  fun t => let '(a, tr) := m (t_trace t) in
           (Continues a, {| t_trace := tr; t_cleanups := t_cleanups t |}).

Definition Fatalf {A} (text : string) : T A :=
  fun t => (Ends Failed, {| t_trace := t_trace t ++ [EFatalf text];
                            t_cleanups := t_cleanups t |})%list.
Definition Skipf {A} (text : string) : T A :=
  fun t => (Ends Skipped, {| t_trace := t_trace t ++ [ESkipf text];
                             t_cleanups := t_cleanups t |})%list.
Definition Panicf {A} (text : string) : T A :=
  fun t => (Ends Panicked, {| t_trace := t_trace t ++ [EPanic text];
                              t_cleanups := t_cleanups t |})%list.
Definition Cleanup (f : W unit) : T unit :=
  fun t => (Continues tt, {| t_trace := t_trace t; t_cleanups := f :: t_cleanups t |}).
(** [defer f()]: run when the function is left, also by the end of the test. *)
Definition deferred {A} (f : W unit) (m : T A) : T A :=
  fun t => let '(r, t') := m t in
           (r, {| t_trace := (f (t_trace t')).2; t_cleanups := t_cleanups t' |}).

Declare Scope t_scope.
Delimit Scope t_scope with T.
Notation "x <- m ;; k" := (tbind m (fun x => k))
  (at level 100, m at next level, k at level 200, right associativity) : t_scope.
Notation "m ;; k" := (tbind m (fun _ => k))
  (at level 100, k at level 200, right associativity) : t_scope.

(** ** The helpers *)

Section Helpers.
Context `{Docker}.

Record postgresSettings := { ps_image : string; ps_database : string }.
Definition PostgresOption := postgresSettings -> postgresSettings.

Definition WithPostGIS : PostgresOption :=
  fun s => {| ps_image := PostGISImage; ps_database := ps_database s |}.
Definition WithDatabase (name : string) : PostgresOption :=
  fun s => {| ps_image := ps_image s; ps_database := name |}.

Definition default_settings : postgresSettings :=
  {| ps_image := PostgresImage; ps_database := "dizen_test" |}.

Record Postgres := { pg_URL : string; pg_Pool : nat; pg_container : nat }.
Record Redis := { rd_URL : string; rd_Client : nat }.
Record AMQP := { am_URL : string }.

Definition Terminate (c : nat) (ctx : Context_) : W (option goerror) :=
  wcall (fun tr => dk_terminate tr c ctx) (ETerminate c ctx).

(** The closure [terminate] of [StartPostgres]. *)
Definition postgres_terminate (ctx : Context_) (c : nat) : W unit :=
  (err <- Terminate c (WithoutCancel ctx) ;;
   match err with
   | Some e => wdo (EStderr ("terminating the PostgreSQL container: " ++ Error e ++ newline))
   | None => wret tt
   end)%W.

Definition postgres_request (s : postgresSettings) : RunRequest :=
  {| rr_module := ModPostgres;
     rr_image := ps_image s;
     rr_options :=
       [OptDatabase (ps_database s); OptUsername "dizen"; OptPassword "dizen";
        OptBasicWaitStrategies;
        OptWaitForLog "database system is ready to accept connections" 2 startupTimeout] |}.

Definition StartPostgres (ctx : Context_) (opts : list PostgresOption) :
    W (res (Postgres * W unit)) :=
  let settings := fold_left (fun s opt => opt s) opts default_settings in
  let req := postgres_request settings in
  (a <- wcall (fun tr => dk_run tr ctx req) (ERun ctx req) ;;
   match a with
   | NotStarted _ e => wret (Err (Wrap "starting PostgreSQL: " e))
   | Started c =>
       let terminate := postgres_terminate ctx c in
       let args := ["sslmode=disable"] in
       u <- wcall (fun tr => dk_connection_string tr c args) (EConnectionString c args) ;;
       match u with
       | Err e => terminate ;; wret (Err (Wrap "reading the connection string: " e))
       | Ok url =>
           p <- wcall (fun tr => dk_pool_new tr url) (EPoolNew url) ;;
           match p with
           | Err e => terminate ;; wret (Err (Wrap "opening the pool: " e))
           | Ok pool =>
               e <- wcall (fun tr => dk_pool_ping tr pool) (EPoolPing pool) ;;
               match e with
               | Some e =>
                   wdo (EPoolClose pool) ;; terminate ;;
                   wret (Err (Wrap "pinging the database: " e))
               | None =>
                   wret (Ok ({| pg_URL := url; pg_Pool := pool; pg_container := c |},
                             wdo (EPoolClose pool) ;; terminate))
               end
           end
       end
   end)%W.

Definition SetupPostgres (opts : list PostgresOption) : T Postgres :=
  (r <- lift (StartPostgres Background opts) ;;
   match r with
   | Err e => Fatalf (Error e)
   | Ok (pg, terminate) => Cleanup terminate ;; tret pg
   end)%T.

Definition SnapshotContext (p : Postgres) : W (option goerror) :=
  (wdo (EPoolReset (pg_Pool p)) ;;
   e <- wcall (fun tr => dk_snapshot tr (pg_container p)) (ESnapshot (pg_container p)) ;;
   wret (Wrap "taking the snapshot: " <$> e))%W.

Definition Snapshot (p : Postgres) : T unit :=
  (e <- lift (SnapshotContext p) ;;
   match e with Some e => Fatalf (Error e) | None => tret tt end)%T.

Definition RestoreContext (p : Postgres) : W (option goerror) :=
  (wdo (EPoolReset (pg_Pool p)) ;;
   e <- wcall (fun tr => dk_restore tr (pg_container p)) (ERestore (pg_container p)) ;;
   wret (Wrap "restoring the snapshot: " <$> e))%W.

Definition Restore (p : Postgres) : T unit :=
  (e <- lift (RestoreContext p) ;;
   match e with Some e => Fatalf (Error e) | None => tret tt end)%T.

(** The function [registerTerminate] registers, and the registration. *)
Definition terminate_on_cleanup (c : nat) : W unit :=
  (err <- Terminate c (WithTimeout Background (30 * Second)) ;;
   match err with
   | Some e => wdo (ELogf ("could not remove the container: " ++ Error e))
   | None => wret tt
   end)%W.
Definition registerTerminate (c : nat) : T unit := Cleanup (terminate_on_cleanup c).

Definition redis_request : RunRequest :=
  {| rr_module := ModRedis;
     rr_image := RedisImage;
     rr_options := [OptWaitForLog "Ready to accept connections" 1 startupTimeout] |}.

Definition close_client (k : nat) : W unit :=
  (wcall (fun tr => dk_client_close tr k) (EClientClose k) ;; wret tt)%W.

Definition SetupRedis : T Redis :=
  (a <- lift (wcall (fun tr => dk_run tr Background redis_request) (ERun Background redis_request)) ;;
   match a with
   | NotStarted _ e => Fatalf ("starting Redis: " ++ Error e)
   | Started c =>
       registerTerminate c ;;
       u <- lift (wcall (fun tr => dk_connection_string tr c []) (EConnectionString c [])) ;;
       match u with
       | Err e => Fatalf ("reading the connection string: " ++ Error e)
       | Ok url =>
           o <- lift (wcall (fun tr => dk_parse_url tr url) (EParseURL url)) ;;
           match o with
           | Err e => Fatalf ("parsing the Redis URL " ++ Quote url ++ ": " ++ Error e)
           | Ok opts =>
               client <- lift (wcall (fun tr => dk_new_client tr opts) (ENewClient opts)) ;;
               Cleanup (close_client client) ;;
               e <- lift (wcall (fun tr => dk_client_ping tr client) (EClientPing client)) ;;
               match e with
               | Some e => Fatalf ("pinging Redis: " ++ Error e)
               | None => tret {| rd_URL := url; rd_Client := client |}
               end
           end
       end
   end)%T.

Definition rabbitmq_request : RunRequest :=
  {| rr_module := ModRabbitMQ;
     rr_image := RabbitMQImage;
     rr_options :=
       [OptAdminUsername "dizen"; OptAdminPassword "dizen";
        OptWaitForLog "Server startup complete" 1 startupTimeout] |}.

(** The closure [terminate] of [StartAMQP]; the error of [Terminate] is dropped. *)
Definition amqp_terminate (ctx : Context_) (c : nat) : W unit :=
  (Terminate c (WithTimeout (WithoutCancel ctx) (30 * Second)) ;; wret tt)%W.

Definition StartAMQP (ctx : Context_) : W (res (string * W unit)) :=
  (a <- wcall (fun tr => dk_run tr ctx rabbitmq_request) (ERun ctx rabbitmq_request) ;;
   match a with
   | NotStarted _ e => wret (Err (Wrap "starting RabbitMQ: " e))
   | Started c =>
       let terminate := amqp_terminate ctx c in
       u <- wcall (fun tr => dk_amqp_url tr c) (EAmqpURL c) ;;
       match u with
       | Err e => terminate ;; wret (Err (Wrap "reading the AMQP URL: " e))
       | Ok url => wret (Ok (url, terminate))
       end
   end)%W.

Definition SetupAMQP : T AMQP :=
  (r <- lift (StartAMQP Background) ;;
   match r with
   | Err e => Fatalf ("starting RabbitMQ: " ++ Error e)
   | Ok (url, terminate) => Cleanup terminate ;; tret {| am_URL := url |}
   end)%T.

Definition new_provider : W (res nat) := wcall dk_new_provider ENewProvider.
Definition close_provider (d : nat) : W unit :=
  (wcall (fun tr => dk_provider_close tr d) (EProviderClose d) ;; wret tt)%W.
Definition daemon_host (d : nat) : W (res string) :=
  let ctx := WithTimeout Background (5 * Second) in
  wcall (fun tr => dk_daemon_host tr d ctx) (EDaemonHost d ctx).

Definition DockerAvailable : W bool :=
  (p <- new_provider ;;
   match p with
   | Err _ => wret false
   | Ok provider =>
       h <- daemon_host provider ;;
       close_provider provider ;;
       wret match h with Ok _ => true | Err _ => false end
   end)%W.

Definition SkipIfNoDocker : T unit :=
  (p <- lift new_provider ;;
   match p with
   | Err e => Skipf ("Docker is not available: " ++ Error e)
   | Ok provider =>
       deferred (close_provider provider)
         (h <- lift (daemon_host provider) ;;
          match h with
          | Err e => Skipf ("the Docker daemon is not reachable: " ++ Error e)
          | Ok _ => tret tt
          end)
   end)%T.

Definition pool_exec (pool : nat) (sql : string) : W (option goerror) :=
  wcall (fun tr => dk_pool_exec tr pool sql) (EPoolExec pool sql).

(** The loop of [ApplyMigrations], from the statement of index [i]. *)
Fixpoint apply_statements (pool : nat) (i : Z) (statements : list string) : T unit :=
  match statements with
  | [] => tret tt
  | statement :: rest =>
      (e <- lift (pool_exec pool statement) ;;
       match e with
       | Some e => Fatalf ("applying statement " ++ Itoa (i + 1) ++ ": " ++ Error e ++
                           newline ++ statement)
       | None => apply_statements pool (i + 1) rest
       end)%T
  end.
Definition ApplyMigrations (pool : nat) (statements : list string) : T unit :=
  apply_statements pool 0 statements.

Definition truncate_sql (table : string) : string :=
  "truncate table " ++ table ++ " restart identity cascade".

Fixpoint TruncateTables (pool : nat) (tables : list string) : T unit :=
  match tables with
  | [] => tret tt
  | table :: rest =>
      (e <- lift (pool_exec pool (truncate_sql table)) ;;
       match e with
       | Some e => Fatalf ("truncating " ++ table ++ ": " ++ Error e)
       | None => TruncateTables pool rest
       end)%T
  end.

(** ** Tests

    A test: any sequence of calls of the helpers, each of which may depend on what the
    calls before returned, that returns, fails, skips or panics at any point. *)
Inductive test :=
| Passes
| FailsNow (text : string)
| SkipsNow (text : string)
| PanicsNow (text : string)
| CallSkipIfNoDocker (k : test)
| CallSetupPostgres (opts : list PostgresOption) (k : Postgres -> test)
| CallSetupRedis (k : Redis -> test)
| CallSetupAMQP (k : AMQP -> test)
| CallSnapshot (pg : Postgres) (k : test)
| CallRestore (pg : Postgres) (k : test)
| CallApplyMigrations (pool : nat) (statements : list string) (k : test)
| CallTruncateTables (pool : nat) (tables : list string) (k : test).

Fixpoint body (p : test) : T unit :=
  (match p with
   | Passes => tret tt
   | FailsNow text => Fatalf text
   | SkipsNow text => Skipf text
   | PanicsNow text => Panicf text
   | CallSkipIfNoDocker k => SkipIfNoDocker ;; body k
   | CallSetupPostgres opts k => pg <- SetupPostgres opts ;; body (k pg)
   | CallSetupRedis k => r <- SetupRedis ;; body (k r)
   | CallSetupAMQP k => a <- SetupAMQP ;; body (k a)
   | CallSnapshot pg k => Snapshot pg ;; body k
   | CallRestore pg k => Restore pg ;; body k
   | CallApplyMigrations pool statements k => ApplyMigrations pool statements ;; body k
   | CallTruncateTables pool tables k => TruncateTables pool tables ;; body k
   end)%T.

(** The functions given to [t.Cleanup], the last registered first. *)
Fixpoint runCleanup (fs : list (W unit)) (tr : trace) : trace :=
  match fs with
  | [] => tr
  | f :: rest => runCleanup rest (f tr).2
  end.

(** The testing package runs the test, and its cleanups however it ended. *)
Definition tRunner (p : test) (tr : trace) : ending unit * trace :=
  let '(r, t) := body p {| t_trace := tr; t_cleanups := [] |} in
  (r, runCleanup (t_cleanups t) (t_trace t)).
End Helpers.

(** ** What a trace acquires and releases *)

Local Open Scope list_scope.

Inductive resource :=
| RContainer (c : nat)
| RPool (p : nat)
| RClient (k : nat)
| RProvider (d : nat).
#[export] Instance resource_eq_dec : EqDecision resource.
Proof. solve_decision. Defined.

(** [Acquires] and [Releases] of an event; a termination under a context that is already
    done releases nothing. *)
Definition acquires (e : event) : option resource :=
  match e with
  | ERun _ _ (Started c) => Some (RContainer c)
  | EPoolNew _ (Ok p) => Some (RPool p)
  | ENewClient _ k => Some (RClient k)
  | ENewProvider (Ok d) => Some (RProvider d)
  | _ => None
  end.
Definition releases (e : event) : option resource :=
  match e with
  | ETerminate c ctx _ => if ctx_done ctx then None else Some (RContainer c)
  | EPoolClose p => Some (RPool p)
  | EClientClose k _ => Some (RClient k)
  | EProviderClose d _ => Some (RProvider d)
  | _ => None
  end.

(** The resources held, the last acquired first; [None] when something is released that
    is not the last one held. *)
Definition hold (s : option (list resource)) (e : event) : option (list resource) :=
  s ← s;
  match acquires e, releases e with
  | Some r, _ => Some (r :: s)
  | None, Some r =>
      match s with
      | r' :: s' => if base.decide (r = r') then Some s' else None
      | [] => None
      end
  | None, None => Some s
  end.
Definition nesting (tr : trace) : option (list resource) := fold_left hold tr (Some []).

(** ** Proofs *)

Lemma nesting_snoc tr e : nesting (tr ++ [e]) = hold (nesting tr) e.
Proof. unfold nesting. by rewrite fold_left_app. Qed.

Lemma nesting_acquire tr e s r :
  nesting tr = Some s -> acquires e = Some r -> nesting (tr ++ [e]) = Some (r :: s).
Proof. intros Hs Hr. rewrite nesting_snoc, Hs. cbn. by rewrite Hr. Qed.

Lemma nesting_release tr e s r :
  nesting tr = Some (r :: s) -> acquires e = None -> releases e = Some r ->
  nesting (tr ++ [e]) = Some s.
Proof.
  intros Hs Ha Hr. rewrite nesting_snoc, Hs. cbn. rewrite Ha, Hr. by rewrite decide_True.
Qed.

Lemma nesting_neutral tr e s :
  nesting tr = Some s -> acquires e = None -> releases e = None ->
  nesting (tr ++ [e]) = Some s.
Proof. intros Hs Ha Hr. rewrite nesting_snoc, Hs. cbn. by rewrite Ha, Hr. Qed.

(** [frees f rs]: run on a state that holds [rs] on top, [f] leaves what was below. *)
Definition frees {A} (f : W A) (rs : list resource) : Prop :=
  forall tr s, nesting tr = Some (rs ++ s) -> nesting (f tr).2 = Some s.

Lemma frees_ret {A} (a : A) : frees (wret a) [].
Proof. by intros tr s. Qed.

Lemma frees_bind {A B} (m : W A) (k : A -> W B) rs rs' :
  frees m rs -> (forall a, frees (k a) rs') -> frees (wbind m k) (rs ++ rs').
Proof.
  intros Hm Hk tr s Hs. unfold wbind. rewrite <- (assoc_L app) in Hs. apply Hm in Hs.
  destruct (m tr) as [a tr']. by apply Hk.
Qed.

Lemma frees_do e r : acquires e = None -> releases e = Some r -> frees (wdo e) [r].
Proof. intros Ha Hr tr s Hs. by eapply nesting_release. Qed.

Lemma frees_call {A} (f : trace -> A) g r :
  (forall a, acquires (g a) = None) -> (forall a, releases (g a) = Some r) ->
  frees (wcall f g) [r].
Proof. intros Ha Hr tr s Hs. by eapply nesting_release. Qed.

Lemma frees_neutral_do e : acquires e = None -> releases e = None -> frees (wdo e) [].
Proof. intros Ha Hr tr s Hs. by eapply nesting_neutral. Qed.

Lemma frees_neutral_call {A} (f : trace -> A) g :
  (forall a, acquires (g a) = None) -> (forall a, releases (g a) = None) ->
  frees (wcall f g) [].
Proof. intros Ha Hr tr s Hs. by eapply nesting_neutral. Qed.

Section HelperProofs.
Context `{Docker}.

Lemma frees_postgres_terminate ctx c : frees (postgres_terminate ctx c) [RContainer c].
Proof.
  apply (frees_bind _ _ [RContainer c] []); [by apply frees_call|].
  intros [e|]; [by apply frees_neutral_do|apply frees_ret].
Qed.

Lemma frees_terminate_on_cleanup c : frees (terminate_on_cleanup c) [RContainer c].
Proof.
  apply (frees_bind _ _ [RContainer c] []); [by apply frees_call|].
  intros [e|]; [by apply frees_neutral_do|apply frees_ret].
Qed.

Lemma frees_amqp_terminate ctx c : frees (amqp_terminate ctx c) [RContainer c].
Proof.
  apply (frees_bind _ _ [RContainer c] []); [by apply frees_call|]. intros. apply frees_ret.
Qed.

Lemma frees_close_client k : frees (close_client k) [RClient k].
Proof.
  apply (frees_bind _ _ [RClient k] []); [by apply frees_call|]. intros. apply frees_ret.
Qed.

Lemma frees_close_provider d : frees (close_provider d) [RProvider d].
Proof.
  apply (frees_bind _ _ [RProvider d] []); [by apply frees_call|]. intros. apply frees_ret.
Qed.
End HelperProofs.

Create HintDb tc.
#[export] Hint Resolve frees_ret frees_do frees_call frees_neutral_do frees_neutral_call
  frees_postgres_terminate frees_terminate_on_cleanup frees_amqp_terminate
  frees_close_client frees_close_provider : tc.

(** [wp m s Q]: run on a state that holds [s], [m] returns a value and leaves resources
    held that satisfy [Q]. *)
Definition wp {A} (m : W A) (s : list resource) (Q : A -> list resource -> Prop) : Prop :=
  forall tr, nesting tr = Some s -> exists s', nesting (m tr).2 = Some s' /\ Q (m tr).1 s'.

Lemma wp_ret {A} (a : A) s (Q : A -> list resource -> Prop) : Q a s -> wp (wret a) s Q.
Proof. intros HQ tr Hs. eauto. Qed.

Lemma wp_call {A B} (f : trace -> A) g (k : A -> W B) s (Q : B -> list resource -> Prop) :
  (forall a, exists s', hold (Some s) (g a) = Some s' /\ wp (k a) s' Q) ->
  wp (wbind (wcall f g) k) s Q.
Proof.
  intros Hk tr Hs. destruct (Hk (f tr)) as (s' & Hs' & Hwp). unfold wbind, wcall.
  apply Hwp. by rewrite nesting_snoc, Hs.
Qed.

Lemma wp_frees {A B} (m : W A) rs (k : A -> W B) s (Q : B -> list resource -> Prop) :
  frees m rs -> (forall a, wp (k a) s Q) -> wp (wbind m k) (rs ++ s) Q.
Proof.
  intros Hm Hk tr Hs. apply Hm in Hs. unfold wbind. destruct (m tr) as [a tr']. by apply Hk.
Qed.

(** [owned fs s]: the cleanups [fs], run in their order, release exactly [s]. *)
Inductive owned : list (W unit) -> list resource -> Prop :=
| owned_nil : owned [] []
| owned_cons f fs rs s : frees f rs -> owned fs s -> owned (f :: fs) (rs ++ s).

Lemma owned_runCleanup fs s tr :
  owned fs s -> nesting tr = Some s -> nesting (runCleanup fs tr) = Some [].
Proof.
  intros Ho. revert tr. induction Ho as [|f fs rs s Hf _ IH]; intros tr Hs; [done|].
  by apply IH, Hf.
Qed.

(** Code of a test that leaves nothing behind but what its cleanups release, also when it
    ends the test. *)
Definition tidy {A} (m : T A) : Prop :=
  forall tr fs s, nesting tr = Some s -> owned fs s ->
  exists s', nesting (t_trace (m {| t_trace := tr; t_cleanups := fs |}).2) = Some s' /\
             owned (t_cleanups (m {| t_trace := tr; t_cleanups := fs |}).2) s'.

Lemma tidy_bind {A B} (m : T A) (k : A -> T B) :
  tidy m -> (forall a, tidy (k a)) -> tidy (tbind m k).
Proof.
  intros Hm Hk tr fs s Hs Ho. destruct (Hm tr fs s Hs Ho) as (s' & Hs' & Ho'). unfold tbind.
  destruct (m _) as [[a|v] [tr' fs']]; [by eapply Hk|eauto].
Qed.

Lemma tidy_ret {A} (a : A) : tidy (tret a).
Proof. intros tr fs s ??. cbn. eauto. Qed.

Lemma tidy_lift {A} (m : W A) : frees m [] -> tidy (lift m).
Proof.
  intros Hm tr fs s Hs Ho. exists s. unfold lift. cbn. specialize (Hm tr s Hs).
  destruct (m tr). eauto.
Qed.

Lemma tidy_Fatalf {A} text : tidy (@Fatalf A text).
Proof. intros tr fs s Hs Ho. exists s. cbn. eauto using nesting_neutral. Qed.

Lemma tidy_Skipf {A} text : tidy (@Skipf A text).
Proof. intros tr fs s Hs Ho. exists s. cbn. eauto using nesting_neutral. Qed.

Lemma tidy_Panicf {A} text : tidy (@Panicf A text).
Proof. intros tr fs s Hs Ho. exists s. cbn. eauto using nesting_neutral. Qed.

(** A call that acquires a resource when it succeeds, followed at once by the cleanup that
    releases it. *)
Lemma tidy_acquire {A B} (f : trace -> A) g (k : A -> T B) :
  (forall a, releases (g a) = None) ->
  (forall a, match acquires (g a) with
             | Some r => exists w k', k a = tbind (Cleanup w) (fun _ => k') /\
                                      frees w [r] /\ tidy k'
             | None => tidy (k a)
             end) ->
  tidy (tbind (lift (wcall f g)) k).
Proof.
  intros Hr Hk tr fs s Hs Ho. unfold tbind, lift, wcall. cbn [t_trace t_cleanups].
  specialize (Hk (f tr)). specialize (Hr (f tr)). destruct (acquires _) as [r|] eqn:Ha.
  - destruct Hk as (w & k' & -> & Hw & Hk). unfold tbind, Cleanup. cbn [t_trace t_cleanups].
    eapply Hk; [by eapply nesting_acquire|]. by apply (owned_cons w fs [r] s).
  - eapply Hk; [by eapply nesting_neutral|done].
Qed.

#[export] Hint Resolve tidy_ret tidy_lift tidy_Fatalf tidy_Skipf tidy_Panicf : tc.

Section TestProofs.
Context `{Docker}.

(** [StartPostgres] releases what it acquired when it fails; otherwise the function it
    returns does. *)
Lemma StartPostgres_owns ctx opts s :
  wp (StartPostgres ctx opts) s (fun r s' =>
    match r with
    | Err _ => s' = s
    | Ok (_, terminate) => exists rs, s' = (rs ++ s) /\ frees terminate rs
    end).
Proof.
  unfold StartPostgres. cbv zeta.
  apply wp_call. intros [c|o e]; cbn; [|by eexists; split; [done|apply wp_ret]].
  eexists; split; [done|]. apply wp_call. intros [url|e]; (eexists; split; [done|]).
  2: { apply (wp_frees _ [RContainer c]); [auto with tc|intros; by apply wp_ret]. }
  apply wp_call. intros [pool|e]; (eexists; split; [done|]).
  2: { apply (wp_frees _ [RContainer c]); [auto with tc|intros; by apply wp_ret]. }
  assert (Hend : frees (wdo (EPoolClose pool)) [RPool pool]) by auto with tc.
  apply wp_call. intros [e|]; (eexists; split; [done|]).
  - apply (wp_frees _ [RPool pool]); [done|]. intros _.
    apply (wp_frees _ [RContainer c]); [auto with tc|intros; by apply wp_ret].
  - apply wp_ret. exists [RPool pool; RContainer c]. split; [done|].
    apply (frees_bind _ _ [RPool pool]); auto with tc.
Qed.

Lemma StartAMQP_owns ctx s :
  wp (StartAMQP ctx) s (fun r s' =>
    match r with
    | Err _ => s' = s
    | Ok (_, terminate) => exists rs, s' = (rs ++ s) /\ frees terminate rs
    end).
Proof.
  unfold StartAMQP. cbv zeta.
  apply wp_call. intros [c|o e]; cbn; [|by eexists; split; [done|apply wp_ret]].
  eexists; split; [done|]. apply wp_call. intros [url|e]; (eexists; split; [done|]).
  - apply wp_ret. exists [RContainer c]. auto with tc.
  - apply (wp_frees _ [RContainer c]); [auto with tc|intros; by apply wp_ret].
Qed.

(** The shape of [SetupPostgres] and [SetupAMQP]: start, fail the test or register the
    function that was returned. *)
Lemma tidy_setup {A B} (m : W (res (A * W unit))) (text : goerror -> string) (g : A -> B) :
  (forall s, wp m s (fun r s' =>
     match r with
     | Err _ => s' = s
     | Ok (_, terminate) => exists rs, s' = (rs ++ s) /\ frees terminate rs
     end)) ->
  tidy (r <- lift m ;;
        match r with
        | Err e => Fatalf (text e)
        | Ok (a, terminate) => Cleanup terminate ;; tret (g a)
        end)%T.
Proof.
  intros Hm tr fs s Hs Ho. destruct (Hm s tr Hs) as (s' & Hs' & HQ). unfold tbind, lift.
  cbn [t_trace t_cleanups]. destruct (m tr) as [[[a w]|e] tr']; cbn [fst snd] in *.
  - destruct HQ as (rs & -> & Hw). eexists. split; [done|]. by apply owned_cons.
  - subst. by apply (@tidy_Fatalf B (text e) tr' fs s).
Qed.

Lemma tidy_SetupPostgres opts : tidy (SetupPostgres opts).
Proof. apply (tidy_setup _ Error id), StartPostgres_owns. Qed.

Lemma tidy_SetupAMQP : tidy SetupAMQP.
Proof. apply (tidy_setup _ _ Build_AMQP), StartAMQP_owns. Qed.

Lemma tidy_SetupRedis : tidy SetupRedis.
Proof.
  unfold SetupRedis. apply tidy_acquire; [done|]. intros [c|o e]; cbn; [|auto with tc].
  eexists _, _. split; [done|]. split; [auto with tc|].
  apply tidy_bind; [auto with tc|]. intros [url|e]; [|auto with tc].
  apply tidy_bind; [auto with tc|]. intros [opts|e]; [|auto with tc].
  apply tidy_acquire; [done|]. intros k. cbn. eexists _, _. split; [done|].
  split; [auto with tc|]. apply tidy_bind; [auto with tc|]. intros [e|]; auto with tc.
Qed.

Lemma tidy_SkipIfNoDocker : tidy SkipIfNoDocker.
Proof.
  intros tr fs s Hs Ho. unfold SkipIfNoDocker, tbind, lift, new_provider, wcall.
  cbn [t_trace t_cleanups]. destruct (dk_new_provider tr) as [d|e].
  - assert (Hd := nesting_acquire tr (ENewProvider (Ok d)) s _ Hs eq_refl).
    revert Hd. generalize (tr ++ [ENewProvider (Ok d)]). clear tr Hs. intros tr Hs.
    exists s. unfold deferred, daemon_host, wcall. cbn [t_trace t_cleanups].
    destruct (dk_daemon_host _ _ _) as [h|e]; cbn -[close_provider];
      (split; [apply (frees_close_provider d)|done]);
      repeat (apply nesting_neutral; [|done|done]); done.
  - eapply tidy_Skipf; [by eapply nesting_neutral|done].
Qed.

Lemma frees_SnapshotContext p : frees (SnapshotContext p) [].
Proof.
  apply (frees_bind _ _ [] []); [auto with tc|]. intros _.
  apply (frees_bind _ _ [] []); auto with tc.
Qed.

Lemma frees_RestoreContext p : frees (RestoreContext p) [].
Proof.
  apply (frees_bind _ _ [] []); [auto with tc|]. intros _.
  apply (frees_bind _ _ [] []); auto with tc.
Qed.

Lemma tidy_Snapshot p : tidy (Snapshot p).
Proof.
  apply tidy_bind; [apply tidy_lift, frees_SnapshotContext|]. intros [e|]; auto with tc.
Qed.

Lemma tidy_Restore p : tidy (Restore p).
Proof.
  apply tidy_bind; [apply tidy_lift, frees_RestoreContext|]. intros [e|]; auto with tc.
Qed.

Lemma tidy_ApplyMigrations pool statements : tidy (ApplyMigrations pool statements).
Proof.
  unfold ApplyMigrations. generalize 0%Z.
  induction statements as [|st rest IH]; intros i; cbn [apply_statements]; [auto with tc|].
  apply tidy_bind; [apply tidy_lift; by apply frees_neutral_call|].
  intros [e|]; [auto with tc|apply IH].
Qed.

Lemma tidy_TruncateTables pool tables : tidy (TruncateTables pool tables).
Proof.
  induction tables as [|table rest IH]; cbn [TruncateTables]; [auto with tc|].
  apply tidy_bind; [apply tidy_lift; by apply frees_neutral_call|].
  intros [e|]; [auto with tc|apply IH].
Qed.
End TestProofs.

#[export] Hint Resolve tidy_SetupPostgres tidy_SetupAMQP tidy_SetupRedis tidy_SkipIfNoDocker
  tidy_Snapshot tidy_Restore tidy_ApplyMigrations tidy_TruncateTables : tc.

Lemma tidy_body `{Docker} p : tidy (body p).
Proof. induction p; cbn [body]; auto using tidy_bind with tc. Qed.

(** Something held at a point and not held at the end was released in between. *)
Lemma nesting_released l s r :
  fold_left hold l (Some s) = Some [] -> r ∈ s -> exists e, e ∈ l /\ releases e = Some r.
Proof.
  assert (Hnone : forall l, fold_left hold l None = None) by (clear; by intros l; induction l).
  revert s. induction l as [|e l IH]; intros s Hl Hr; cbn [fold_left] in Hl.
  { simplify_eq. by apply not_elem_of_nil in Hr. }
  assert (Hlater : forall s', hold (Some s) e = Some s' -> r ∈ s' ->
                   exists e', e' ∈ e :: l /\ releases e' = Some r).
  { intros s' Hs' Hr'. rewrite Hs' in Hl. destruct (IH s' Hl Hr') as (e' & ? & ?).
    exists e'. by split; [right|]. }
  destruct (hold (Some s) e) as [s'|] eqn:Hh; [|by rewrite Hnone in Hl].
  cbn in Hh. destruct (acquires e) as [a|]; [|destruct (releases e) as [r'|] eqn:Hrel].
  - apply (Hlater s' eq_refl). simplify_eq. by right.
  - destruct s as [|r'' s'']; [done|]. case_decide; simplify_eq.
    apply elem_of_cons in Hr as [->|Hr]; [exists e; by split; [left|]|eauto].
  - apply (Hlater s' eq_refl). by simplify_eq.
Qed.

Lemma started_then_terminated tr l1 ctx req c l2 :
  nesting tr = Some [] -> tr = l1 ++ ERun ctx req (Started c) :: l2 ->
  exists ctx' r, ETerminate c ctx' r ∈ l2 /\ ctx_done ctx' = false.
Proof.
  intros Hn ->. unfold nesting in Hn. rewrite fold_left_app in Hn. cbn [fold_left] in Hn.
  destruct (fold_left hold l1 (Some [])) as [s|]; [|exfalso; clear -Hn; by induction l2].
  cbn in Hn. destruct (nesting_released l2 _ (RContainer c) Hn) as (e & He & Hr); [left|].
  destruct e; try done. cbn in Hr. destruct (ctx_done _) eqn:Hd; simplify_eq. eauto.
Qed.

(** C21: However a test over the helpers ends (it passes, fails, skips or panics, at any
    point, and whatever Docker, PostgreSQL, Redis and RabbitMQ answered), when its cleanups
    have run, what it acquired and released matches like brackets: every container that was
    started has had its [Terminate] called, once and under a context that is not done,
    after the pool or client that used it was closed, and no pool, client or provider is
    left open.  A [Terminate] that fails is not tried again. *)
Theorem a_test_leaves_nothing_running `{Docker} (p : test) :
  nesting (tRunner p []).2 = Some [] /\
  forall l1 ctx req c l2, (tRunner p []).2 = l1 ++ ERun ctx req (Started c) :: l2 ->
  exists ctx' r, ETerminate c ctx' r ∈ l2 /\ ctx_done ctx' = false.
Proof.
  assert (Hn : nesting (tRunner p []).2 = Some []).
  { unfold tRunner. destruct (tidy_body p [] [] [] eq_refl owned_nil) as (s & Hs & Ho).
    destruct (body p _) as [r [tr fs]]. by eapply owned_runCleanup. }
  split; [done|]. intros l1 ctx req c l2. by apply started_then_terminated.
Qed.

(** A container that was created but did not become ready is returned by [Run]
    together with the error; [StartPostgres] drops it, so the test ends without having
    asked for its termination.  The package comment says that a test never leaks a
    container even when it fails. *)
Theorem failed_start_leaves_container `{Docker} opts k c e :
  (forall tr ctx req, dk_run tr ctx req = NotStarted (Some c) e) ->
  exists ctx req text,
    tRunner (CallSetupPostgres opts k) [] =
      (Ends Failed, [ERun ctx req (NotStarted (Some c) e); EFatalf text]).
Proof.
  intros Hrun. unfold tRunner. cbn [body]. unfold SetupPostgres, StartPostgres, wcall.
  unfold tbind, lift, wbind. cbn. rewrite Hrun. cbn. eauto.
Qed.

(** The statements are executed in order up to the first that fails, which the message
    names by its number, counted from one; [i] statements came before. *)
Definition applied_in_order (pool i : nat) (statements : list string) (t : testing)
    (out : ending unit * testing) : Prop :=
  exists n tail,
    out =
      (match tail with [] => Continues tt | _ => Ends Failed end,
       {| t_trace := t_trace t ++
            ((fun st => EPoolExec pool st None) <$> take n statements) ++ tail;
          t_cleanups := t_cleanups t |}) /\
    (tail = [] /\ n = List.length statements \/
     exists st e, statements !! n = Some st /\
       tail = [EPoolExec pool st (Some e);
               EFatalf ("applying statement " +:+ Itoa (Z.of_nat (i + n) + 1) +:+ ": " +:+
                        Error e +:+ newline +:+ st)]).

Lemma apply_statements_spec `{Docker} pool i statements t :
  applied_in_order pool i statements t (apply_statements pool (Z.of_nat i) statements t).
Proof.
  revert i t. induction statements as [|st rest IH]; intros i [tr fs]; cbn [apply_statements].
  { exists 0%nat, []. cbn. rewrite app_nil_r. auto. }
  unfold tbind, lift, pool_exec, wcall. cbn [t_trace t_cleanups].
  destruct (dk_pool_exec tr pool st) as [e|] eqn:He.
  - eexists 0%nat, [_; _]. unfold Fatalf. cbn. rewrite <- (assoc_L app). split; [done|].
    right. exists st, e. by rewrite Nat.add_0_r.
  - replace (Z.of_nat i + 1)%Z with (Z.of_nat (S i)) by lia.
    destruct (IH (S i) {| t_trace := tr ++ [EPoolExec pool st None]; t_cleanups := fs |})
      as (n & tail & -> & Hcase).
    exists (S n), tail. cbn. rewrite <- !(assoc_L app). split; [done|].
    rewrite Nat.add_succ_r. destruct Hcase as [[-> ->]|Hcase]; auto.
Qed.

Lemma ApplyMigrations_spec `{Docker} pool statements t :
  applied_in_order pool 0 statements t (ApplyMigrations pool statements t).
Proof. apply (apply_statements_spec pool 0). Qed.

(** ** A concrete host *)

(** Everything works, except that Redis does not answer. *)
Definition sample_docker : Docker := {|
  dk_run := fun tr _ _ => Started (List.length tr);
  dk_terminate := fun _ _ _ => None;
  dk_connection_string := fun _ _ _ => Ok "url";
  dk_amqp_url := fun _ _ => Ok "amqp";
  dk_pool_new := fun tr _ => Ok (List.length tr);
  dk_pool_ping := fun _ _ => None;
  dk_pool_exec := fun _ _ _ => None;
  dk_snapshot := fun _ _ => None;
  dk_restore := fun _ _ => None;
  dk_parse_url := fun _ u => Ok u;
  dk_new_client := fun tr _ => List.length tr;
  dk_client_ping := fun _ _ => Some context_DeadlineExceeded;
  dk_client_close := fun _ _ => None;
  dk_new_provider := fun tr => Ok (List.length tr);
  dk_daemon_host := fun _ _ _ => Ok "localhost";
  dk_provider_close := fun _ _ => None
|}.

(** PostgreSQL and then Redis: the client, the second container, the pool and the first
    container are released in this order. *)
Example sample_test_releases :
  let tr := (@tRunner sample_docker
               (CallSetupPostgres [WithPostGIS] (fun pg => CallSnapshot pg
                 (CallSetupRedis (fun _ => Passes)))) []) in
  tr.1 = Ends Failed /\
  omap releases tr.2 = [RClient 9; RContainer 6; RPool 2; RContainer 0].
Proof. vm_compute. auto. Qed.

Definition never_ready : Docker := {|
  dk_run := fun _ _ _ => NotStarted (Some 7%nat) context_DeadlineExceeded;
  dk_terminate := dk_terminate (Docker := sample_docker);
  dk_connection_string := dk_connection_string (Docker := sample_docker);
  dk_amqp_url := dk_amqp_url (Docker := sample_docker);
  dk_pool_new := dk_pool_new (Docker := sample_docker);
  dk_pool_ping := dk_pool_ping (Docker := sample_docker);
  dk_pool_exec := dk_pool_exec (Docker := sample_docker);
  dk_snapshot := dk_snapshot (Docker := sample_docker);
  dk_restore := dk_restore (Docker := sample_docker);
  dk_parse_url := dk_parse_url (Docker := sample_docker);
  dk_new_client := dk_new_client (Docker := sample_docker);
  dk_client_ping := dk_client_ping (Docker := sample_docker);
  dk_client_close := dk_client_close (Docker := sample_docker);
  dk_new_provider := dk_new_provider (Docker := sample_docker);
  dk_daemon_host := dk_daemon_host (Docker := sample_docker);
  dk_provider_close := dk_provider_close (Docker := sample_docker)
|}.

Lemma failed_start_leaves_container_witness :
  exists ctx req text,
    @tRunner never_ready (CallSetupPostgres [] (fun _ => Passes)) [] =
      (Ends Failed, [ERun ctx req (NotStarted (Some 7%nat) context_DeadlineExceeded);
                     EFatalf text]).
Proof. by apply (@failed_start_leaves_container never_ready). Defined.
